(* ===== verification/_CoqProject ===== *)
-Q . S2P
Prelude.v
CMachine.v
UnityOutput.v
UnityAssert.v
UnityAssertSpec.v
UnityAssertProps.v
UnityFrame.v
UnityFixture.v
UnityFixtureSpec.v
UnityFixtureProps.v
UnityOptions.v
UnityFloat.v
UnityFloatSpec.v
UnityFormatted.v
UnityMacros.v
TestVerdict.v
ProfTrace.v
ProfTraceProps.v
SpawnStorm.v
SpawnStormProps.v
MallocMt.v
MallocMtProps.v
MicroPython.v
DiskPrefix.v
DiskBench.v
DiskBenchProps.v
MemFrag.v
MemFragProps.v
PollWake.v
PollWakeProps.v
PipeWake.v
PipeWakeProps.v
IrqUnclaimed.v
IrqUnclaimedProps.v
FilePattern.v
BigWrite.v
BigWriteProps.v
ObjCache.v
ObjCacheProps.v
TestMalloc.v
TestMallocProps.v
ArenaAlloc.v
ArenaAllocProps.v
AccuracyRefs.v
MathAccuracy.v
MathAccuracyProps.v
Threads.v
ThreadsProps.v
MutexTests.v
PingPongProps.v
ContendProps.v
ConsumersProps.v
BroadcastsProps.v
SparseTest.v
SparseTestProps.v
