(* ===== verification/Prelude.v ===== *)
(** * The Phoenix-RTOS test suite: a verification development

    The repository holds the tests of the Phoenix-RTOS operating system. Its
    engine is Unity (src/unity), the framework every test program is linked
    with: assertion functions that print a message and leave the test by
    longjmp, and a fixture that selects tests by command line, runs each one
    between its setup and teardown, counts the outcomes and turns them into an
    exit code. Around it are test programs. Most call the system and compare
    literal results; some carry logic of their own, and those are modelled
    too: the parser of kernel traces of the profiler test, the fork storm with
    its watchdog, the concurrent and the randomized allocator test and an
    allocator written for a test, the disk benchmark, the large write and sparse
    file tests, the tests of memory fragmentation and of the cache of mapped
    files, the poll() wake-up tests, the tests of mutexes and condition
    variables, the accuracy tests of the mathematical functions, the unclaimed
    interrupt test and the MicroPython launcher.

    ** The machine

    - Prelude: strings, machine integers with their wrap-around ([u32], [i64]
      and the like on [Z]), shared lemmas.
    - CMachine: the world of Unity: byte memory, the globals Unity and
      UnityFixture, the table of pointers, the output text; a monad whose
      results are a value, a jump (longjmp), undefined behaviour or a loop
      that used up its bound. TEST_PROTECT and TEST_ABORT are setjmp and
      longjmp. The class [Target] holds what depends on the target: byte
      order, the width of pointers and the signedness of char.

    ** Unity (src/unity)

    - UnityOutput (unity.c, printing): numbers, hexadecimal, masks, strings.
      Theorems: numbers read back as printed; hexadecimal widths.
    - UnityAssert, with UnityAssertSpec and UnityAssertProps (unity.c,
      assertions): every integer, pointer, bit, memory, string and array
      assertion. Theorems: an assertion passes, prints nothing and changes
      nothing exactly when its condition holds, and otherwise prints the
      element, the expected and the actual value, marks the test as failed
      and jumps; degenerate lengths and null pointers.
    - UnityFloat, UnityFloatSpec (floating point): the assertions on binary32
      and binary64 values of the Standard Library, their laws for NaN and
      infinities, and the exactness of the decimal digits printed.
    - UnityFormatted (UnityPrintF), UnityMacros (the TEST_ASSERT macros of
      unity.h and unity_internals.h: function called and casts applied).
    - UnityOptions (UnityParseOptions, filters): the substring search is
      strstr, patterns select what they say, options round trip.
    - UnityFrame: what assertions and printers leave unchanged.
    - UnityFixture, with UnityFixtureSpec and UnityFixtureProps
      (unity_fixture.c): UnityMain, the runner, pointers set for a test. The
      abstract specification is a log of outcomes; the runner refines it: the
      counters are the numbers of outcomes, the exit code is the number of
      failures; a test that changes memory through UT_PTR_SET only leaves all
      of it as it was, whichever of setup, body and teardown fails.

    ** Test programs

    - TestVerdict: the verdict of a test body from those of its assertions,
      used for the tests below.
    - ProfTrace, ProfTraceProps (perf/test_prof_sampling.c): every walk over a
      trace of arbitrary bytes reads inside its channel and ends; the analysis
      is the specification over the list of events; draining appends what the
      kernel returned, in order and within bounds.
    - SpawnStorm, SpawnStormProps (spawnstorm/spawn_storm.c): the storm ends
      with every launch accounted for (class [OsLaws]: pids are fresh and
      waitpid returns a child); the case in which it spins; the watchdog
      recovers at most three times per stall; command line; tag lines fit.
    - MallocMt, MallocMtProps (libc/malloc-mt/malloc_mt.c): threads as
      programs of single loads, stores and allocator calls, interleaved at
      each of them. A program logic (the predicate [wp] over the blocks a
      program owns) gives that with a correct allocator (class [HeapLaws],
      which lets any allocation fail) no interleaving raises an alarm but for
      failed allocations, and all blocks are given back; a changed block is
      reported with its first wrong byte.
    - TestMalloc, TestMallocProps (mem/test_malloc.c): against an allocator
      that obeys [MallocLaws], failing when it likes, the thread never stops
      and its total is exact.
    - ArenaAlloc, ArenaAllocProps (libc/pthread_tsd_alloc): the arena that
      replaces malloc there. It stays well formed, calloc zeroes, realloc
      keeps the contents; it obeys [MallocLaws], so the malloc test composed
      with it never stops. Where it is no malloc: alignment, sizes near
      SIZE_MAX, realloc of aligned blocks.
    - DiskPrefix, DiskBench, DiskBenchProps (disk/test_disk.c): prefix
      notation rounds half up without overflow; on a disk that obeys
      [DiskLaws] the size found, no false alarm of the pattern test, detection
      of every wrong byte; the zone test that does not end.
    - MemFrag, MemFragProps (mem/test_frag.c): the longest free run, the
      amounts of memory, the big process and its handshakes, the verdict.
    - FilePattern, BigWrite, BigWriteProps (fs/test_bigwrite.c): the pattern
      tells words of a file apart; where reads can be trusted
      ([TruthfulFiles]) a pass means that the calls of this run returned the
      whole count and left exactly the pattern, and misplaced data is found; a faithful
      file system ([FaithfulFiles]) passes.
    - SparseTest, SparseTestProps (fs/test_sparse.c): on a file system whose
      bytes that nobody wrote read as they like ([LeakyFiles]) the program
      passes exactly when the bytes it looks at are zero.
    - ObjCache, ObjCacheProps (mem/test_objcache.c): on a coherent cache of
      mapped files ([Coherent], whose calls may fail) the tests of rewritten,
      resized and replaced files pass unless a call is refused, and the speed
      test compares the two times of its run; a mapping of an older version is
      caught; waiting for freed
      memory ends; the margins.
    - IrqUnclaimed, IrqUnclaimedProps (irqunclaimed/irq_unclaimed.c): the
      handlers and the four phases, with the deliveries of the interrupt
      interleaved by a schedule; the verdict is the one the kernel
      ([KernelLaws], masking at any number of deliveries or never) deserves,
      an interrupt that is in use or cannot be registered is skipped, a kernel that never masks does not pass, and the program ends.
    - PollWake, PollWakeProps (libc/unix-poll-wake/unix-poll-wake.c, sockets):
      the verdict of a case is exact for every way the messages are split,
      batched and ordered; from the sender's bytes to the verdict; the
      percentile is the nearest rank; the assertions agree with the line
      printed.
    - PipeWake, PipeWakeProps (the same file, pipes and ptys): the printed
      verdicts agree with assertions that test other conditions; the two
      non-blocking threads as a step relation, with no false alarm by
      EAGAIN and the run in which the reader ends first.
    - AccuracyRefs, MathAccuracy, MathAccuracyProps (libc/math/accuracy.c and
      accuracy-refs.h): the distance in units in the last place counts the
      doubles between two values; the tests of fmod and remainder are decided
      by the rows they hold; the tables of the roots and of hypot are
      correctly rounded; a pow within eight units gives the SHA-256 constants.
    - Threads, ThreadsProps: a machine that interleaves threads with one mutex
      and one condition variable, spurious wake-ups, timeouts and lost
      wake-ups included; mutual exclusion and progress for every program that
      locks in pairs (class [Disciplined]).
    - MutexTests (libc/mutex/mutex.c): the threads of four tests, as programs of
      that machine. ContendProps: the counter is right for every schedule.
      PingPongProps, ConsumersProps, BroadcastsProps: with a library that
      works no test is ever stuck or fails, the exchange and the pool end
      within a number of steps; and wake-ups that are lost do not make them
      fail, which they were written for.
    - MicroPython (micropython/test_micropython.c): the command line built and
      the exit code.

    Code outside the repository (the kernel, the C library's allocator, the
    file system, the device) is a class of operations; what is assumed of it
    is a class of laws, and each has an instance that a witness uses.

    ** Bounds

    Loops of the C code that are not structural take a bound and return no
    result when it is used up; theorems that promise a result say which bound
    suffices. Unity: 20 digits for a 64-bit number, 64 scaling steps for a
    float, one round per character or byte of a string, option or argument,
    RepeatCount + 1 repetitions. Traces: one round per byte, as an event takes
    at least six. The storm: one round per launch and one for the end, with
    the number of interruptions bounded. The disk: 2049 probes a stage, 2000
    seeks. The wake-up tests: one round per byte of the buffer, 50
    repetitions. The page and chunk loops of the big process: one round per
    page and chunk. Verifying a file: one read per byte. Waiting for freed
    memory: 302 samples. Waiting for the interrupt: nine times the limit of
    the kernel and ten more. The primes behind the SHA-256 constants: 310
    rounds. Schedules of threads have any length; without spurious wake-ups
    the ping-pong takes at most 60 steps a round and 80 more, the pool 20 an
    item, 10 a consumer and 9 more. The randomized test runs for any number of
    rounds;
    the allocator's laws are stated for requests below 2^32, the arena's
    operations for sizes below 2^64 - 2^26, above which sums wrap around.

    ** Not modelled

    In Unity: UNITY_OUTPUT_COLOR, execution times, unity_memory (not in the
    repository), long double, and the whole of UnityPrintFloat's totality (its
    digits are). Strings are passed as their contents, so the length-limited
    string assertion is only modelled on terminated strings; floating point is
    computed in the declared types (FLT_EVAL_METHOD 0). In the test programs:
    the threads and the recording of the profiler test, thread creation and
    the fork cases of the allocator test, the file mapping of the
    fragmentation test, the creation and joining of threads and processes in
    the wake-up tests (upw_run), their idle and spinning threads and
    seqpacket_pollout, the command line of the interrupt and the large write
    test, the tear-down and the printed longest free run of the file cache
    tests, the two tests of the arena allocator's program, which wait for
    threads that call pthread_setspecific(), the tables of the transcendental
    functions (parameters of the accuracy tests) and the list of exact results,
    the tests of mutex types, timed locks, fork() and futex calls. Deadlines of
    waits are not computed: a timeout is a move of a schedule. Allocator
    calls of the threads of the allocator test are atomic, as the heap lock is
    to make them. The counters of the fork storm, unsigned long in the code,
    are 64 bits wide, as on the 64-bit targets. The arena has no
    malloc_test(), the hook of the C library's allocator that the randomized
    test calls; composed with it, the hook does nothing. Console texts of the
    test programs are events with their values. The other test programs (libc, fs, proc, sys, devices, graphics,
    libraries) call code outside the repository in a straight line, and the
    host-side runner (trunner) is Python. *)

From stdpp Require Export base list strings gmap.
From Stdlib Require Export ZArith Lia.

#[global] Open Scope Z_scope.

(** ** Characters and strings

    A C string is the list of its non-null bytes; [str] turns a literal of
    the source into that list. *)

Definition str (s : string) : list Z :=
  map (λ a, Z.of_nat (Ascii.nat_of_ascii a)) (String.list_ascii_of_string s).

Declare Scope cstr_scope.
Delimit Scope cstr_scope with cstr.
Bind Scope cstr_scope with list.

(** A character constant of the source, as its ASCII code. *)
Definition chr (s : string) : Z := hd 0 (str s).

(** ** Machine integers

    A [w]-bit integer is a [Z]; conversions wrap as C's do. *)

Definition uwrap (w z : Z) : Z := z mod 2 ^ w.
Definition swrap (w z : Z) : Z := (z + 2 ^ (w - 1)) mod 2 ^ w - 2 ^ (w - 1).

Definition u8 := uwrap 8.
Definition u16 := uwrap 16.
Definition u32 := uwrap 32.
Definition u64 := uwrap 64.
Definition i8 := swrap 8.
Definition i16 := swrap 16.
Definition i32 := swrap 32.
Definition i64 := swrap 64.

Lemma uwrap_range w z : 0 ≤ w → 0 ≤ uwrap w z < 2 ^ w.
Proof. intros; apply Z.mod_pos_bound; lia. Qed.

Lemma uwrap_small w z : 0 ≤ z < 2 ^ w → uwrap w z = z.
Proof. apply Z.mod_small. Qed.

Lemma swrap_small w z : 0 < w → - 2 ^ (w - 1) ≤ z < 2 ^ (w - 1) → swrap w z = z.
Proof.
  intros Hw Hz. unfold swrap.
  assert (2 ^ w = 2 * 2 ^ (w - 1)) as E by (rewrite <- Z.pow_succ_r by lia; f_equal; lia).
  rewrite Z.mod_small; lia.
Qed.

Lemma swrap_range w z : 0 < w → - 2 ^ (w - 1) ≤ swrap w z < 2 ^ (w - 1).
Proof.
  intros Hw. unfold swrap.
  assert (2 ^ w = 2 * 2 ^ (w - 1)) as E by (rewrite <- Z.pow_succ_r by lia; f_equal; lia).
  pose proof (Z.mod_pos_bound (z + 2 ^ (w - 1)) (2 ^ w)). lia.
Qed.

Lemma uwrap_add_mul w z k : 0 ≤ w → uwrap w (z + k * 2 ^ w) = uwrap w z.
Proof. intros; unfold uwrap; apply Z_mod_plus_full. Qed.

Lemma uwrap_swrap w z : 0 < w → uwrap w (swrap w z) = uwrap w z.
Proof.
  intros Hw. unfold uwrap, swrap.
  rewrite Zminus_mod_idemp_l. f_equal. lia.
Qed.

Lemma swrap_uwrap w z : swrap w (uwrap w z) = swrap w z.
Proof. unfold uwrap, swrap. by rewrite Zplus_mod_idemp_l. Qed.

Lemma uwrap_idemp w z : uwrap w (uwrap w z) = uwrap w z.
Proof. unfold uwrap. apply Zmod_mod. Qed.

(** Two signed values of a width are equal when their unsigned images are. *)
Lemma swrap_eq_iff w a b : 0 < w → swrap w a = swrap w b ↔ uwrap w a = uwrap w b.
Proof.
  intros Hw. split; intros E.
  - rewrite <- (uwrap_swrap w a), <- (uwrap_swrap w b) by done. by rewrite E.
  - rewrite <- (swrap_uwrap w a), <- (swrap_uwrap w b). by rewrite E.
Qed.

(** Dividing a residue modulo a multiple of the divisor. *)
Lemma mod_div_swap n p q : 0 < p → 0 < q → n mod (p * q) / p = (n / p) mod q.
Proof.
  intros. rewrite Z.rem_mul_r by lia.
  rewrite Z.add_comm, (Z.mul_comm p), Z.div_add_l by lia.
  rewrite (Z.div_small (n mod p)) by (apply Z.mod_pos_bound; lia). lia.
Qed.

(** Values of the 64-bit types UNITY_INT and UNITY_UINT. *)
Definition int64 (z : Z) : Prop := - 2 ^ 63 ≤ z < 2 ^ 63.
Definition uint64 (z : Z) : Prop := 0 ≤ z < 2 ^ 64.

Lemma int64_i64 z : int64 (i64 z).
Proof. apply (swrap_range 64). lia. Qed.
Lemma uint64_u64 z : uint64 (u64 z).
Proof. apply (uwrap_range 64). lia. Qed.
Lemma u32_small z : 0 ≤ z < 2 ^ 32 → u32 z = z.
Proof. apply (uwrap_small 32). Qed.
Lemma u32_sub a b : u32 (u32 a - u32 b) = u32 (a - b).
Proof. unfold u32, uwrap. by rewrite <- Zminus_mod. Qed.
Lemma u32_add_l a b : u32 (u32 a + b) = u32 (a + b).
Proof. unfold u32, uwrap. apply Z.add_mod_idemp_l. lia. Qed.
Lemma u32_add_r a b : u32 (a + u32 b) = u32 (a + b).
Proof. unfold u32, uwrap. apply Z.add_mod_idemp_r. lia. Qed.
Lemma u64_add_l a b : u64 (u64 a + b) = u64 (a + b).
Proof. unfold u64, uwrap. apply Z.add_mod_idemp_l. lia. Qed.
Lemma u64_add_r a b : u64 (a + u64 b) = u64 (a + b).
Proof. unfold u64, uwrap. apply Z.add_mod_idemp_r. lia. Qed.
Lemma uint64_u32 z : uint64 (u32 z).
Proof. pose proof (uwrap_range 32 z). unfold uint64, u32. lia. Qed.
Lemma int64_swrap w z : 0 < w ≤ 64 → int64 (swrap w z).
Proof.
  intros Hw. pose proof (swrap_range w z ltac:(lia)).
  assert (2 ^ (w - 1) ≤ 2 ^ 63) by (apply Z.pow_le_mono_r; lia). unfold int64. lia.
Qed.
