(* ===== verification/CMachine.v ===== *)
(** * The machine under the tests

    The C execution model every other file is written in: the target's
    implementation-defined choices, the static storage of the test framework
    (struct UNITY_STORAGE_T, struct UNITY_FIXTURE_T, the pointer store of
    unity_fixture.c), byte-addressed memory, the character output and the
    non-local exit of setjmp/longjmp, as a small state-and-control monad. *)

From S2P Require Import Prelude.

(** ** Implementation-defined choices of the target

    Phoenix-RTOS runs on targets that differ in the signedness of [char]
    (ARM and RISC-V: unsigned; IA-32 and SPARC: signed), in byte order
    (SPARC is big-endian) and in pointer size. Every theorem that does not
    name a target holds for all of them. *)

Class Target := {
  char_signed : bool;
  big_endian : bool;
  pointer_bytes : nat;
  (** address of the static union UnityQuickCompare of unity.c *)
  addr_UnityQuickCompare : Z;
}.

(** The value of a [char] object holding byte [c]. *)
Definition char_val `{Target} (c : Z) : Z := if char_signed then i8 c else u8 c.

(** ** Static storage *)

Abbreviation cstr := (list Z).

(** A [const char*]: null, or a pointer to a terminated string. *)
Abbreviation cstring := (option cstr).

Record UNITY_STORAGE_T := mkUnity {
  TestFile : cstring;
  CurrentTestName : cstring;
  CurrentDetail1 : cstring;
  CurrentDetail2 : cstring;
  CurrentTestLineNumber : Z;
  CurrentAssertionLineNumber : Z;
  NumberOfTests : Z;
  TestFailures : Z;
  TestIgnores : Z;
  CurrentTestFailed : Z;
  CurrentTestIgnored : Z;
}.

Record UNITY_FIXTURE_T := mkFixture {
  Verbose : Z;
  Silent : Z;
  RepeatCount : Z;
  NameFilter : cstring;
  GroupFilter : cstring;
}.

Record PointerPair := mkPointerPair { pointer : Z; old_value : Z }.

Record world := mkWorld {
  Unity : UNITY_STORAGE_T;
  UnityFixture : UNITY_FIXTURE_T;
  pointer_store : list PointerPair;
  pointer_index : Z;
  mem : gmap Z Z;
  (** characters written so far, last one first *)
  stdout : list Z;
}.

Definition set_Unity (f : UNITY_STORAGE_T → UNITY_STORAGE_T) (w : world) : world :=
  mkWorld (f (Unity w)) (UnityFixture w) (pointer_store w) (pointer_index w) (mem w) (stdout w).
Definition set_UnityFixture (f : UNITY_FIXTURE_T → UNITY_FIXTURE_T) (w : world) : world :=
  mkWorld (Unity w) (f (UnityFixture w)) (pointer_store w) (pointer_index w) (mem w) (stdout w).
Definition set_pointers (ps : list PointerPair) (i : Z) (w : world) : world :=
  mkWorld (Unity w) (UnityFixture w) ps i (mem w) (stdout w).
Definition set_mem (m : gmap Z Z) (w : world) : world :=
  mkWorld (Unity w) (UnityFixture w) (pointer_store w) (pointer_index w) m (stdout w).
Definition emit (s : list Z) (w : world) : world :=
  mkWorld (Unity w) (UnityFixture w) (pointer_store w) (pointer_index w) (mem w)
    (rev_append s (stdout w)).

(** The text printed so far, first character first. *)
Definition output (w : world) : list Z := rev (stdout w).

Definition with_TestFile v u := mkUnity v (CurrentTestName u) (CurrentDetail1 u)
  (CurrentDetail2 u) (CurrentTestLineNumber u) (CurrentAssertionLineNumber u)
  (NumberOfTests u) (TestFailures u) (TestIgnores u) (CurrentTestFailed u) (CurrentTestIgnored u).
Definition with_CurrentTestName v u := mkUnity (TestFile u) v (CurrentDetail1 u)
  (CurrentDetail2 u) (CurrentTestLineNumber u) (CurrentAssertionLineNumber u)
  (NumberOfTests u) (TestFailures u) (TestIgnores u) (CurrentTestFailed u) (CurrentTestIgnored u).
Definition with_Details d1 d2 u := mkUnity (TestFile u) (CurrentTestName u) d1 d2
  (CurrentTestLineNumber u) (CurrentAssertionLineNumber u)
  (NumberOfTests u) (TestFailures u) (TestIgnores u) (CurrentTestFailed u) (CurrentTestIgnored u).
Definition with_CurrentTestLineNumber v u := mkUnity (TestFile u) (CurrentTestName u)
  (CurrentDetail1 u) (CurrentDetail2 u) v (CurrentAssertionLineNumber u)
  (NumberOfTests u) (TestFailures u) (TestIgnores u) (CurrentTestFailed u) (CurrentTestIgnored u).
Definition with_CurrentAssertionLineNumber v u := mkUnity (TestFile u) (CurrentTestName u)
  (CurrentDetail1 u) (CurrentDetail2 u) (CurrentTestLineNumber u) v
  (NumberOfTests u) (TestFailures u) (TestIgnores u) (CurrentTestFailed u) (CurrentTestIgnored u).
Definition with_NumberOfTests v u := mkUnity (TestFile u) (CurrentTestName u)
  (CurrentDetail1 u) (CurrentDetail2 u) (CurrentTestLineNumber u) (CurrentAssertionLineNumber u)
  v (TestFailures u) (TestIgnores u) (CurrentTestFailed u) (CurrentTestIgnored u).
Definition with_TestFailures v u := mkUnity (TestFile u) (CurrentTestName u)
  (CurrentDetail1 u) (CurrentDetail2 u) (CurrentTestLineNumber u) (CurrentAssertionLineNumber u)
  (NumberOfTests u) v (TestIgnores u) (CurrentTestFailed u) (CurrentTestIgnored u).
Definition with_TestIgnores v u := mkUnity (TestFile u) (CurrentTestName u)
  (CurrentDetail1 u) (CurrentDetail2 u) (CurrentTestLineNumber u) (CurrentAssertionLineNumber u)
  (NumberOfTests u) (TestFailures u) v (CurrentTestFailed u) (CurrentTestIgnored u).
Definition with_CurrentTestFailed v u := mkUnity (TestFile u) (CurrentTestName u)
  (CurrentDetail1 u) (CurrentDetail2 u) (CurrentTestLineNumber u) (CurrentAssertionLineNumber u)
  (NumberOfTests u) (TestFailures u) (TestIgnores u) v (CurrentTestIgnored u).
Definition with_CurrentTestIgnored v u := mkUnity (TestFile u) (CurrentTestName u)
  (CurrentDetail1 u) (CurrentDetail2 u) (CurrentTestLineNumber u) (CurrentAssertionLineNumber u)
  (NumberOfTests u) (TestFailures u) (TestIgnores u) (CurrentTestFailed u) v.

(** ** The monad

    A computation returns, leaves by longjmp to the last TEST_PROTECT, does
    something the C standard leaves undefined, or exhausts the bound given
    to one of its loops (which the termination theorems rule out). *)

Inductive outcome (A : Type) : Type :=
  | Ret (a : A)
  | Jump
  | Undef
  | OutOfFuel.
Arguments Ret {A} a.
Arguments Jump {A}.
Arguments Undef {A}.
Arguments OutOfFuel {A}.

Definition M (A : Type) : Type := world → outcome A * world.

#[export] Instance M_ret : MRet M := λ A a w, (Ret a, w).
#[export] Instance M_bind : MBind M := λ A B f m w,
  match m w with
  | (Ret a, w') => f a w'
  | (Jump, w') => (Jump, w')
  | (Undef, w') => (Undef, w')
  | (OutOfFuel, w') => (OutOfFuel, w')
  end.

Definition skip : M unit := mret ().
Definition get {A} (f : world → A) : M A := λ w, (Ret (f w), w).
Definition modify (f : world → world) : M unit := λ w, (Ret (), f w).
Definition undefined {A} : M A := λ w, (Undef, w).
Definition out_of_fuel {A} : M A := λ w, (OutOfFuel, w).
Definition of_option {A} (o : option A) : M A :=
  match o with Some a => mret a | None => undefined end.
Definition when (b : bool) (m : M unit) : M unit := if b then m else skip.

(** longjmp(Unity.AbortFrame, 1) *)
Definition TEST_ABORT {A} : M A := λ w, (Jump, w).

(** [if (TEST_PROTECT()) { m }]: setjmp saves this frame in Unity.AbortFrame
    and the block runs; a longjmp out of it resumes after the block. *)
Definition TEST_PROTECT (m : M unit) : M unit := λ w,
  match m w with
  | (Jump, w') => (Ret (), w')
  | r => r
  end.

(** putchar: the argument is converted to [unsigned char]. *)
Definition UNITY_OUTPUT_CHAR (c : Z) : M unit := modify (emit [u8 c]).
Definition UNITY_PRINT_EOL : M unit := UNITY_OUTPUT_CHAR 10.

(** A loop [while (c) { b }] as its step function: [None] leaves the loop. *)
Fixpoint loop {S} (fuel : nat) (step : S → M (option S)) (s : S) : M S :=
  match fuel with
  | O => out_of_fuel
  | S fuel =>
      o ← step s;
      match o with
      | None => mret s
      | Some s' => loop fuel step s'
      end
  end.

(** ** Memory

    Bytes at integer addresses; an access outside the mapped bytes is
    undefined. Multi-byte objects follow the target's byte order. *)

Fixpoint le_combine (l : list Z) : Z :=
  match l with
  | [] => 0
  | b :: l => b + 256 * le_combine l
  end.

Fixpoint le_split (n : nat) (z : Z) : list Z :=
  match n with
  | O => []
  | S n => z mod 256 :: le_split n (z / 256)
  end.

Fixpoint read_bytes (m : gmap Z Z) (a : Z) (n : nat) : option (list Z) :=
  match n with
  | O => Some []
  | S n => b ← m !! a; l ← read_bytes m (a + 1) n; Some (b :: l)
  end.

Fixpoint write_bytes (m : gmap Z Z) (a : Z) (l : list Z) : gmap Z Z :=
  match l with
  | [] => m
  | b :: l => <[a := b]> (write_bytes m (a + 1) l)
  end.

Definition of_bytes `{Target} (l : list Z) : Z := le_combine (if big_endian then rev l else l).
Definition to_bytes `{Target} (n : nat) (z : Z) : list Z :=
  if big_endian then rev (le_split n z) else le_split n z.

Definition read_uint `{Target} (m : gmap Z Z) (a : Z) (n : nat) : option Z :=
  of_bytes <$> read_bytes m a n.

(** Loading an [n]-byte unsigned or signed object. *)
Definition load_uint `{Target} (a : Z) (n : nat) : M Z :=
  m ← get mem; of_option (read_uint m a n).
Definition load_int `{Target} (a : Z) (n : nat) : M Z :=
  v ← load_uint a n; mret (swrap (8 * Z.of_nat n) v).
Definition store_uint `{Target} (a : Z) (n : nat) (v : Z) : M unit :=
  modify (λ w, set_mem (write_bytes (mem w) a (to_bytes n v)) w).

(** The null-terminated string at an address; the walk over a finite memory
    ends, so [S (size m)] steps are always enough. *)
Fixpoint read_cstr (fuel : nat) (m : gmap Z Z) (a : Z) : option cstr :=
  match fuel with
  | O => None
  | S fuel =>
      c ← m !! a;
      if c =? 0 then Some [] else s ← read_cstr fuel m (a + 1); Some (c :: s)
  end.
Definition load_cstring (a : Z) : M cstring :=
  if a =? 0 then mret None
  else m ← get mem; s ← of_option (read_cstr (S (size m)) m a); mret (Some s).

(** ** Laws of the monad used by every proof *)

Lemma bind_Ret {A B} (m : M A) (k : A → M B) w a w' :
  m w = (Ret a, w') → (m ≫= k) w = k a w'.
Proof. intros E. unfold mbind, M_bind. by rewrite E. Qed.

Lemma bind_Jump {A B} (m : M A) (k : A → M B) w w' :
  m w = (Jump, w') → (m ≫= k) w = (Jump, w').
Proof. intros E. unfold mbind, M_bind. by rewrite E. Qed.

Lemma bind_mret {A B} (a : A) (k : A → M B) w : (mret a ≫= k) w = k a w.
Proof. done. Qed.

Lemma bind_assoc {A B C} (m : M A) (k : A → M B) (h : B → M C) w :
  ((m ≫= k) ≫= h) w = (m ≫= λ a, k a ≫= h) w.
Proof. unfold mbind, M_bind. by destruct (m w) as [[] ?]. Qed.

Lemma bind_ext {A B} (m : M A) (k h : A → M B) w :
  (∀ a w', k a w' = h a w') → (m ≫= k) w = (m ≫= h) w.
Proof. intros E. unfold mbind, M_bind. destruct (m w) as [[] ?]; auto. Qed.

Lemma write_bytes_lookup_out l : ∀ m a b, b < a ∨ a + Z.of_nat (length l) ≤ b →
  write_bytes m a l !! b = m !! b.
Proof.
  induction l as [|c l IH]; intros m a b Hb; simpl in *; [done|].
  rewrite lookup_insert_ne by lia. apply IH. lia.
Qed.

(** Reading outside the bytes written. *)
Lemma read_bytes_write_out m a l n b :
  b + Z.of_nat n ≤ a ∨ a + Z.of_nat (length l) ≤ b →
  read_bytes (write_bytes m a l) b n = read_bytes m b n.
Proof.
  revert b. induction n as [|n IH]; intros b Hb; cbn [read_bytes]; [done|].
  rewrite write_bytes_lookup_out by lia.
  destruct n as [|n]; [done|]. rewrite IH by lia. done.
Qed.

Lemma emit_emit s t w : emit t (emit s w) = emit (s ++ t) w.
Proof.
  destruct w; unfold emit; simpl. f_equal.
  rewrite !rev_append_rev, rev_app_distr, app_assoc. done.
Qed.

Lemma emit_nil w : emit [] w = w.
Proof. by destruct w. Qed.

Lemma output_emit s w : output (emit s w) = output w ++ s.
Proof. unfold output, emit; simpl. by rewrite rev_append_rev, rev_app_distr, rev_involutive. Qed.

(** ** Printing computations

    [emits m s]: whatever the state, [m] returns, having only printed [s]. *)

Definition emits (m : M unit) (s : list Z) : Prop := ∀ w, m w = (Ret (), emit s w).

Lemma emits_skip : emits skip [].
Proof. intros w. by rewrite emit_nil. Qed.

Lemma emits_char c : emits (UNITY_OUTPUT_CHAR c) [u8 c].
Proof. done. Qed.

Lemma emits_EOL : emits UNITY_PRINT_EOL [10].
Proof. done. Qed.

Lemma emits_seq m k s t : emits m s → emits k t → emits (m ;; k) (s ++ t).
Proof.
  intros Hm Hk w. rewrite (bind_Ret _ _ _ _ _ (Hm w)), Hk. by rewrite emit_emit.
Qed.

Lemma emits_when (b : bool) m s : emits m s → emits (when b m) (if b then s else []).
Proof. intros H. destruct b; [done | apply emits_skip]. Qed.

Lemma emits_if (b : bool) m k s t :
  emits m s → emits k t → emits (if b then m else k) (if b then s else t).
Proof. by destruct b. Qed.

Lemma emits_bind m s {B} (k : () → M B) w : emits m s → (m ≫= k) w = k () (emit s w).
Proof. intros H. by rewrite (bind_Ret _ _ _ _ _ (H w)). Qed.

Create HintDb emits discriminated.
#[export] Hint Constants Opaque : emits.
#[export] Hint Resolve int64_i64 uint64_u64 uint64_u32 : emits.
#[export] Hint Extern 1 (int64 _) => assumption || (unfold int64 in *; lia) : emits.
#[export] Hint Extern 1 (uint64 _) => assumption || (unfold uint64 in *; lia) : emits.
#[export] Hint Resolve emits_skip emits_char emits_EOL emits_seq emits_when emits_if : emits.

(** Closes an [emits] goal up to the shape of the text. *)
Ltac emits_tac :=
  match goal with
  | |- emits ?m ?t =>
      let H := fresh in
      eassert (H : emits m _) by (eauto 50 with emits);
      let e := fresh in
      enough (e : t = _) by (rewrite e; exact H);
      clear H; try reflexivity
  end.

(** ** Concrete targets and the initial state *)

(** A target for the witnesses: 64-bit little-endian with unsigned char. *)
Definition aarch64 : Target :=
  {| char_signed := false; big_endian := false; pointer_bytes := 8;
     addr_UnityQuickCompare := 4096 |}.
(** A 32-bit big-endian target with signed char. *)
Definition sparcv8leon : Target :=
  {| char_signed := true; big_endian := true; pointer_bytes := 4;
     addr_UnityQuickCompare := 4096 |}.

(** The state before main: zero-initialised statics, nothing printed. *)
Definition initial_world : world :=
  mkWorld (mkUnity None None None None 0 0 0 0 0 0 0) (mkFixture 0 0 0 None None)
    (repeat (mkPointerPair 0 0) 5) 0 ∅ [].

