(* ===== verification/UnityOutput.v ===== *)
(** * Unity's character output (src/unity/unity.c, lines 76-487)

    The printing routines of the framework as computations over the output
    stream, and pure renderers they are proved to implement. *)

From S2P Require Import Prelude CMachine.

(** ** Constant strings of unity.c *)

Definition UnityStrOk := str "OK".
Definition UnityStrPass := str "PASS".
Definition UnityStrFail := str "FAIL".
Definition UnityStrIgnore := str "IGNORE".
Definition UnityStrNull := str "NULL".
Definition UnityStrSpacer := str ". ".
Definition UnityStrExpected := str " Expected ".
Definition UnityStrWas := str " Was ".
Definition UnityStrGt := str " to be greater than ".
Definition UnityStrLt := str " to be less than ".
Definition UnityStrOrEqual := str "or equal to ".
Definition UnityStrNotEqual := str " to be not equal to ".
Definition UnityStrElement := str " Element ".
Definition UnityStrByte := str " Byte ".
Definition UnityStrMemory := str " Memory Mismatch.".
Definition UnityStrDelta := str " Values Not Within Delta ".
Definition UnityStrPointless := str " You Asked Me To Compare Nothing, Which Was Pointless.".
Definition UnityStrNullPointerForExpected := str " Expected pointer to be NULL".
Definition UnityStrNullPointerForActual := str " Actual pointer was NULL".
Definition UnityStrNot := str "Not ".
Definition UnityStrInf := str "Infinity".
Definition UnityStrNegInf := str "Negative Infinity".
Definition UnityStrNaN := str "NaN".
Definition UnityStrDet := str "Determinate".
Definition UnityStrInvalidFloatTrait := str "Invalid Float Trait".
Definition UnityStrBreaker := str "-----------------------".
Definition UnityStrResultsTests := str " Tests ".
Definition UnityStrResultsFailures := str " Failures ".
Definition UnityStrResultsIgnored := str " Ignored ".
Definition UnityStrDetail1Name := str "Function ".
Definition UnityStrDetail2Name := str " Argument ".

(** ** Display styles (unity_internals.h) *)

Definition UNITY_INT_WIDTH : Z := 32.
Definition UNITY_MAX_NIBBLES : Z := 16.
Definition UNITY_DISPLAY_RANGE_INT : Z := 0x10.
Definition UNITY_DISPLAY_RANGE_UINT : Z := 0x20.
Definition UNITY_DISPLAY_RANGE_HEX : Z := 0x40.
Definition UNITY_DISPLAY_RANGE_CHAR : Z := 0x80.

Inductive UNITY_DISPLAY_STYLE_T :=
  | UNITY_DISPLAY_STYLE_INT | UNITY_DISPLAY_STYLE_INT8 | UNITY_DISPLAY_STYLE_INT16
  | UNITY_DISPLAY_STYLE_INT32 | UNITY_DISPLAY_STYLE_INT64
  | UNITY_DISPLAY_STYLE_UINT | UNITY_DISPLAY_STYLE_UINT8 | UNITY_DISPLAY_STYLE_UINT16
  | UNITY_DISPLAY_STYLE_UINT32 | UNITY_DISPLAY_STYLE_UINT64
  | UNITY_DISPLAY_STYLE_HEX8 | UNITY_DISPLAY_STYLE_HEX16 | UNITY_DISPLAY_STYLE_HEX32
  | UNITY_DISPLAY_STYLE_HEX64
  | UNITY_DISPLAY_STYLE_CHAR
  | UNITY_DISPLAY_STYLE_UNKNOWN.

#[export] Instance UNITY_DISPLAY_STYLE_T_eq_dec : EqDecision UNITY_DISPLAY_STYLE_T.
Proof. solve_decision. Defined.

(** The enumerators' values. *)
Definition style_val (s : UNITY_DISPLAY_STYLE_T) : Z :=
  match s with
  | UNITY_DISPLAY_STYLE_INT => UNITY_INT_WIDTH / 8 + UNITY_DISPLAY_RANGE_INT
  | UNITY_DISPLAY_STYLE_INT8 => 1 + UNITY_DISPLAY_RANGE_INT
  | UNITY_DISPLAY_STYLE_INT16 => 2 + UNITY_DISPLAY_RANGE_INT
  | UNITY_DISPLAY_STYLE_INT32 => 4 + UNITY_DISPLAY_RANGE_INT
  | UNITY_DISPLAY_STYLE_INT64 => 8 + UNITY_DISPLAY_RANGE_INT
  | UNITY_DISPLAY_STYLE_UINT => UNITY_INT_WIDTH / 8 + UNITY_DISPLAY_RANGE_UINT
  | UNITY_DISPLAY_STYLE_UINT8 => 1 + UNITY_DISPLAY_RANGE_UINT
  | UNITY_DISPLAY_STYLE_UINT16 => 2 + UNITY_DISPLAY_RANGE_UINT
  | UNITY_DISPLAY_STYLE_UINT32 => 4 + UNITY_DISPLAY_RANGE_UINT
  | UNITY_DISPLAY_STYLE_UINT64 => 8 + UNITY_DISPLAY_RANGE_UINT
  | UNITY_DISPLAY_STYLE_HEX8 => 1 + UNITY_DISPLAY_RANGE_HEX
  | UNITY_DISPLAY_STYLE_HEX16 => 2 + UNITY_DISPLAY_RANGE_HEX
  | UNITY_DISPLAY_STYLE_HEX32 => 4 + UNITY_DISPLAY_RANGE_HEX
  | UNITY_DISPLAY_STYLE_HEX64 => 8 + UNITY_DISPLAY_RANGE_HEX
  | UNITY_DISPLAY_STYLE_CHAR => 1 + UNITY_DISPLAY_RANGE_CHAR + UNITY_DISPLAY_RANGE_INT
  | UNITY_DISPLAY_STYLE_UNKNOWN => 1 + UNITY_DISPLAY_RANGE_CHAR + UNITY_DISPLAY_RANGE_INT + 1
  end.

Definition style_is_int (s : UNITY_DISPLAY_STYLE_T) : bool :=
  Z.land (style_val s) UNITY_DISPLAY_RANGE_INT =? UNITY_DISPLAY_RANGE_INT.
Definition style_is_uint (s : UNITY_DISPLAY_STYLE_T) : bool :=
  Z.land (style_val s) UNITY_DISPLAY_RANGE_UINT =? UNITY_DISPLAY_RANGE_UINT.

(** ** Numbers *)

(** Digits of a 64-bit unsigned number, at most. *)
Definition UINT_DIGITS : nat := 20.

Definition UnityPrintNumberUnsigned (number : Z) : M unit :=
  divisor ← loop UINT_DIGITS
    (λ divisor, mret (if number / divisor >? 9 then Some (u64 (divisor * 10)) else None)) 1;
  loop UINT_DIGITS
    (λ divisor,
      UNITY_OUTPUT_CHAR (chr "0" + number / divisor mod 10);;
      let divisor := divisor / 10 in
      mret (if divisor >? 0 then Some divisor else None)) divisor;;
  skip.

Definition UnityPrintNumber (number_to_print : Z) : M unit :=
  let number := u64 number_to_print in
  if number_to_print <? 0
  then UNITY_OUTPUT_CHAR (chr "-");; UnityPrintNumberUnsigned (u64 (u64 (Z.lnot number) + 1))
  else UnityPrintNumberUnsigned number.

Fixpoint hex_loop (number : Z) (nibbles : nat) : M unit :=
  match nibbles with
  | O => skip
  | S nibbles =>
      let nibble := Z.land (i32 (Z.shiftr number (Z.of_nat nibbles * 4))) 0x0F in
      (if nibble <=? 9 then UNITY_OUTPUT_CHAR (chr "0" + nibble)
       else UNITY_OUTPUT_CHAR (chr "A" - 10 + nibble));;
      hex_loop number nibbles
  end.

Definition UnityPrintNumberHex (number nibbles_to_print : Z) : M unit :=
  let nibbles := if u32 nibbles_to_print >? UNITY_MAX_NIBBLES then UNITY_MAX_NIBBLES
                 else nibbles_to_print in
  hex_loop number (Z.to_nat nibbles).

Fixpoint mask_loop (mask number : Z) (i : nat) (current_bit : Z) : M unit :=
  match i with
  | O => skip
  | S i =>
      (if negb (Z.land current_bit mask =? 0)
       then if negb (Z.land current_bit number =? 0)
            then UNITY_OUTPUT_CHAR (chr "1")
            else UNITY_OUTPUT_CHAR (chr "0")
       else UNITY_OUTPUT_CHAR (chr "X"));;
      mask_loop mask number i (Z.shiftr current_bit 1)
  end.

Definition UnityPrintMask (mask number : Z) : M unit :=
  mask_loop mask number (Z.to_nat UNITY_INT_WIDTH) (u64 (Z.shiftl 1 (UNITY_INT_WIDTH - 1))).

(** ** Characters and strings *)

Section output.
Context `{Target}.

Definition UnityPrintChar (pch : Z) : M unit :=
  let c := char_val pch in
  if (c <=? 126) && (c >=? 32) then UNITY_OUTPUT_CHAR c
  else if c =? 13 then UNITY_OUTPUT_CHAR (chr "\");; UNITY_OUTPUT_CHAR (chr "r")
  else if c =? 10 then UNITY_OUTPUT_CHAR (chr "\");; UNITY_OUTPUT_CHAR (chr "n")
  else UNITY_OUTPUT_CHAR (chr "\");; UNITY_OUTPUT_CHAR (chr "x");;
       UnityPrintNumberHex (u64 c) 2.

Fixpoint print_chars (pch : cstr) : M unit :=
  match pch with
  | [] => skip
  | c :: pch => UnityPrintChar c;; print_chars pch
  end.

Definition UnityPrint (string : cstring) : M unit :=
  match string with
  | Some pch => print_chars pch
  | None => skip
  end.

(** The loop of UnityPrintLen; [i] is [pch - string]. Its body repeats
    UnityPrintChar's text character by character. *)
Fixpoint print_len_loop (pch : cstr) (i length : Z) : M unit :=
  match pch with
  | [] => skip
  | p :: pch =>
      if u32 i <? length then
        let c := char_val p in
        (if (c <=? 126) && (c >=? 32) then UNITY_OUTPUT_CHAR c
         else if c =? 13 then UNITY_OUTPUT_CHAR (chr "\");; UNITY_OUTPUT_CHAR (chr "r")
         else if c =? 10 then UNITY_OUTPUT_CHAR (chr "\");; UNITY_OUTPUT_CHAR (chr "n")
         else UNITY_OUTPUT_CHAR (chr "\");; UNITY_OUTPUT_CHAR (chr "x");;
              UnityPrintNumberHex (u64 c) 2);;
        print_len_loop pch (i + 1) length
      else skip
  end.

Definition UnityPrintLen (string : cstring) (length : Z) : M unit :=
  match string with
  | Some pch => print_len_loop pch 0 length
  | None => skip
  end.

Definition UnityPrintNumberByStyle (number : Z) (style : UNITY_DISPLAY_STYLE_T) : M unit :=
  if style_is_int style then
    if decide (style = UNITY_DISPLAY_STYLE_CHAR) then
      UNITY_OUTPUT_CHAR (chr "'");;
      (if (number <=? 126) && (number >=? 32) then UNITY_OUTPUT_CHAR (i32 number)
       else if number =? 13 then UNITY_OUTPUT_CHAR (chr "\");; UNITY_OUTPUT_CHAR (chr "r")
       else if number =? 10 then UNITY_OUTPUT_CHAR (chr "\");; UNITY_OUTPUT_CHAR (chr "n")
       else UNITY_OUTPUT_CHAR (chr "\");; UNITY_OUTPUT_CHAR (chr "x");;
            UnityPrintNumberHex (u64 number) 2);;
      UNITY_OUTPUT_CHAR (chr "'")
    else UnityPrintNumber number
  else if style_is_uint style then UnityPrintNumberUnsigned (u64 number)
  else
    UNITY_OUTPUT_CHAR (chr "0");; UNITY_OUTPUT_CHAR (chr "x");;
    UnityPrintNumberHex (u64 number) (Z.land (style_val style) 0xF * 2).

End output.

(** ** Reference renderers *)

(** The textbook conversion: last digit first, onto an accumulator. *)
Fixpoint itoa (fuel : nat) (n : Z) (acc : list Z) : list Z :=
  match fuel with
  | O => acc
  | S fuel =>
      let acc := 48 + n mod 10 :: acc in
      if n <? 10 then acc else itoa fuel (n / 10) acc
  end.

Definition decimal (n : Z) : list Z := itoa UINT_DIGITS n [].
Definition signed_decimal (n : Z) : list Z :=
  if n <? 0 then 45 :: decimal (- n) else decimal n.

Definition hex_digit (d : Z) : Z := if d <=? 9 then 48 + d else 55 + d.
Fixpoint hex (k : nat) (n : Z) : list Z :=
  match k with
  | O => []
  | S k => hex_digit (n / 16 ^ Z.of_nat k mod 16) :: hex k n
  end.

Fixpoint mask_text (k : nat) (mask number : Z) : list Z :=
  match k with
  | O => []
  | S k =>
      (if Z.testbit mask (Z.of_nat k) then if Z.testbit number (Z.of_nat k) then 49 else 48 else 88)
      :: mask_text k mask number
  end.

Definition escape (b : Z) : list Z :=
  let c := u8 b in
  if (c <=? 126) && (c >=? 32) then [c]
  else if c =? 13 then str "\r"
  else if c =? 10 then str "\n"
  else str "\x" ++ hex 2 c.

Definition escape_all (s : cstr) : list Z := concat (map escape s).

Definition cstring_text (s : cstring) : list Z :=
  match s with Some s => escape_all s | None => [] end.

Definition number_text (number : Z) (style : UNITY_DISPLAY_STYLE_T) : list Z :=
  if style_is_int style then
    if decide (style = UNITY_DISPLAY_STYLE_CHAR)
    then str "'" ++ (if (number <=? 126) && (number >=? 32) then [number]
                     else if number =? 13 then str "\r"
                     else if number =? 10 then str "\n"
                     else str "\x" ++ hex 2 (u64 number)) ++ str "'"
    else signed_decimal number
  else if style_is_uint style then decimal (u64 number)
  else str "0x" ++ hex (Z.to_nat (Z.land (style_val style) 0xF * 2)) (u64 number).

(** ** Decimal printing *)

(** Digits [k .. 0] of [n], highest first. *)
Fixpoint digits_down (k : nat) (n : Z) : list Z :=
  (48 + n / 10 ^ Z.of_nat k mod 10) ::
  match k with O => [] | S k => digits_down k n end.

Lemma digits_down_snoc k n :
  0 ≤ n → digits_down (S k) n = digits_down k (n / 10) ++ [48 + n mod 10].
Proof.
  intros Hn. induction k as [|k IH].
  - simpl. by rewrite Z.div_1_r, Z.div_1_r.
  - change (digits_down (S (S k)) n)
      with ((48 + n / 10 ^ Z.of_nat (S (S k)) mod 10) :: digits_down (S k) n).
    rewrite IH.
    change (digits_down (S k) (n / 10))
      with ((48 + n / 10 / 10 ^ Z.of_nat (S k) mod 10) :: digits_down k (n / 10)).
    replace (n / 10 / 10 ^ Z.of_nat (S k)) with (n / 10 ^ Z.of_nat (S (S k))); [done|].
    by rewrite Z.div_div, (Nat2Z.inj_succ (S k)), Z.pow_succ_r by lia.
Qed.

Lemma itoa_digits_down k : ∀ fuel n acc,
  (k < fuel)%nat → (10 ^ Z.of_nat k ≤ n ∨ k = O) → 0 ≤ n < 10 ^ Z.of_nat (S k) →
  itoa fuel n acc = digits_down k n ++ acc.
Proof.
  induction k as [|k IH]; intros fuel n acc Hf Hlo Hhi; destruct fuel as [|fuel]; try lia.
  - simpl in *. destruct (Z.ltb_spec n 10); [by rewrite Z.div_1_r | lia].
  - rewrite digits_down_snoc by lia. simpl.
    rewrite (Nat2Z.inj_succ (S k)), (Nat2Z.inj_succ k), !Z.pow_succ_r in Hhi by lia.
    destruct Hlo as [Hlo|]; [|done].
    rewrite (Nat2Z.inj_succ k), Z.pow_succ_r in Hlo by lia.
    assert (1 ≤ 10 ^ Z.of_nat k) by (apply Z.lt_pred_le, Z.pow_pos_nonneg; lia).
    destruct (Z.ltb_spec n 10); [lia|].
    rewrite IH; [by rewrite <- app_assoc | lia | |].
    + left. apply Z.div_le_lower_bound; lia.
    + rewrite Nat2Z.inj_succ, Z.pow_succ_r by lia.
      split; [apply Z.div_pos; lia|]. apply Z.div_lt_upper_bound; lia.
Qed.

(** The divisor search stops at the highest power of ten not above [n]. *)
Lemma divisor_loop n k : ∀ fuel j w,
  (j ≤ k)%nat → (k - j < fuel)%nat → (k < UINT_DIGITS)%nat →
  (10 ^ Z.of_nat k ≤ n ∨ k = O) → 0 ≤ n < 10 ^ Z.of_nat (S k) →
  loop fuel (λ divisor, mret (if n / divisor >? 9 then Some (u64 (divisor * 10)) else None))
    (10 ^ Z.of_nat j) w = (Ret (10 ^ Z.of_nat k), w).
Proof.
  intros fuel. induction fuel as [|fuel IH]; intros j w Hjk Hf Hk Hlo Hhi; [lia|].
  assert (Hpos : 0 < 10 ^ Z.of_nat j) by (apply Z.pow_pos_nonneg; lia).
  rewrite Nat2Z.inj_succ, Z.pow_succ_r in Hhi by lia.
  simpl. unfold mbind, M_bind, mret, M_ret.
  destruct (decide (j = k)) as [->|Hne].
  - assert (n / 10 ^ Z.of_nat k < 10) by (apply Z.div_lt_upper_bound; lia).
    replace (n / 10 ^ Z.of_nat k >? 9) with false; [done|].
    symmetry. rewrite Z.gtb_ltb. apply Z.ltb_ge. lia.
  - destruct Hlo as [Hlo|]; [|lia].
    assert (10 ^ Z.of_nat (S j) ≤ 10 ^ Z.of_nat k) as Hle by (apply Z.pow_le_mono_r; lia).
    assert (10 ^ Z.of_nat (S j) ≤ 10 ^ 19) as H19
      by (apply Z.pow_le_mono_r; unfold UINT_DIGITS in *; lia).
    rewrite Nat2Z.inj_succ, Z.pow_succ_r in Hle, H19 by lia.
    assert (10 ≤ n / 10 ^ Z.of_nat j) by (apply Z.div_le_lower_bound; lia).
    replace (n / 10 ^ Z.of_nat j >? 9) with true
      by (symmetry; rewrite Z.gtb_ltb; apply Z.ltb_lt; lia).
    replace (u64 (10 ^ Z.of_nat j * 10)) with (10 ^ Z.of_nat (S j)).
    + apply IH; try lia. rewrite Nat2Z.inj_succ, Z.pow_succ_r by lia. lia.
    + unfold u64. rewrite uwrap_small, Nat2Z.inj_succ, Z.pow_succ_r; lia.
Qed.

Lemma digit_char a : u8 (chr "0" + a mod 10) = 48 + a mod 10.
Proof.
  change (chr "0") with 48. apply uwrap_small. pose proof (Z.mod_pos_bound a 10). lia.
Qed.

(** Printing from that divisor down emits the digits in order. *)
Lemma digit_loop n k : ∀ fuel w,
  0 ≤ n → (k < fuel)%nat →
  loop fuel
    (λ divisor,
      UNITY_OUTPUT_CHAR (chr "0" + n / divisor mod 10);;
      let divisor := divisor / 10 in
      mret (if divisor >? 0 then Some divisor else None)) (10 ^ Z.of_nat k) w
  = (Ret 1, emit (digits_down k n) w).
Proof.
  induction k as [|k IH]; intros fuel w Hn Hf; (destruct fuel as [|fuel]; [lia|]);
    cbn [loop]; rewrite bind_assoc, (emits_bind _ _ _ _ (emits_char _)), digit_char.
  - reflexivity.
  - assert (Hdiv : 10 ^ Z.of_nat (S k) / 10 = 10 ^ Z.of_nat k).
    { rewrite Nat2Z.inj_succ, Z.pow_succ_r, Z.mul_comm by lia. apply Z.div_mul. lia. }
    rewrite Hdiv.
    replace (10 ^ Z.of_nat k >? 0) with true
      by (symmetry; rewrite Z.gtb_ltb; apply Z.ltb_lt, Z.pow_pos_nonneg; lia).
    unfold mbind at 1, M_bind, mret at 1, M_ret at 1.
    rewrite IH by lia. by rewrite emit_emit.
Qed.

(** Every 64-bit number has a highest digit position below 20. *)
Lemma digit_count n :
  0 ≤ n < 2 ^ 64 → ∃ k, (k < UINT_DIGITS)%nat ∧ (10 ^ Z.of_nat k ≤ n ∨ k = O) ∧
                        0 ≤ n < 10 ^ Z.of_nat (S k).
Proof.
  intros Hn.
  assert (∀ m : nat, 0 ≤ n < 10 ^ Z.of_nat (S m) → ∃ k, (k ≤ m)%nat ∧
    (10 ^ Z.of_nat k ≤ n ∨ k = O) ∧ 0 ≤ n < 10 ^ Z.of_nat (S k)) as Hm.
  { induction m as [|m IH]; intros Hb; [by exists O; auto|].
    destruct (Z_le_gt_dec (10 ^ Z.of_nat (S m)) n) as [|Hgt].
    - exists (S m); auto.
    - destruct IH as (k & ? & ? & ?); [lia|]. exists k; auto. }
  destruct (Hm 19%nat) as (k & ? & ? & ?); [split; [lia|]|].
  - eapply Z.lt_trans; [apply Hn|]. by vm_compute.
  - exists k. unfold UINT_DIGITS. split; [lia|auto].
Qed.

Lemma emits_UnityPrintNumberUnsigned n :
  uint64 n → emits (UnityPrintNumberUnsigned n) (decimal n).
Proof.
  intros Hn w. destruct (digit_count n Hn) as (k & Hk & Hlo & Hhi).
  unfold UnityPrintNumberUnsigned.
  pose proof (divisor_loop n k UINT_DIGITS 0 w ltac:(lia) ltac:(lia) Hk Hlo Hhi) as Hd.
  change (10 ^ Z.of_nat 0) with 1 in Hd.
  rewrite (bind_Ret _ _ _ _ _ Hd), (bind_Ret _ _ _ _ _ (digit_loop n k _ w ltac:(lia) Hk)).
  unfold decimal, skip, mret, M_ret.
  by rewrite (itoa_digits_down k), app_nil_r by auto.
Qed.

(** Reading a decimal text back. *)
Definition dec_value (s : list Z) : Z := fold_left (λ acc c, 10 * acc + (c - 48)) s 0.
Definition is_digit (c : Z) : Prop := 48 ≤ c ≤ 57.

Lemma dec_value_snoc s c : dec_value (s ++ [c]) = 10 * dec_value s + (c - 48).
Proof. unfold dec_value. by rewrite fold_left_app. Qed.

Lemma dec_value_digits_down k n : 0 ≤ n < 10 ^ Z.of_nat (S k) → dec_value (digits_down k n) = n.
Proof.
  revert n. induction k as [|k IH]; intros n Hn.
  - unfold dec_value; simpl in *. rewrite Z.div_1_r, Z.mod_small; lia.
  - rewrite digits_down_snoc, dec_value_snoc, IH by
      (try (rewrite Nat2Z.inj_succ, Z.pow_succ_r in Hn by lia;
            split; [apply Z.div_pos; lia | apply Z.div_lt_upper_bound; lia]); lia).
    pose proof (Z.div_mod n 10). lia.
Qed.

Lemma digits_down_digits k n : Forall is_digit (digits_down k n).
Proof.
  induction k; simpl; constructor; auto; unfold is_digit;
    match goal with |- context [?a mod 10] => pose proof (Z.mod_pos_bound a 10) end; lia.
Qed.

Lemma length_digits_down k n : length (digits_down k n) = S k.
Proof. induction k; simpl; auto. Qed.

(** A 64-bit number's text, as its digit positions. *)
Lemma decimal_digits n : 0 ≤ n < 2 ^ 64 →
  ∃ k, (k < UINT_DIGITS)%nat ∧ (10 ^ Z.of_nat k ≤ n ∨ k = O) ∧
       0 ≤ n < 10 ^ Z.of_nat (S k) ∧ decimal n = digits_down k n.
Proof.
  intros Hn. destruct (digit_count n Hn) as (k & ? & ? & ?). exists k.
  unfold decimal. by rewrite (itoa_digits_down k), app_nil_r by auto.
Qed.

Lemma dec_value_decimal n : 0 ≤ n < 2 ^ 64 → dec_value (decimal n) = n.
Proof.
  intros Hn. destruct (decimal_digits n Hn) as (k & _ & _ & ? & ->).
  by apply dec_value_digits_down.
Qed.

Lemma decimal_no_leading_zero n : 0 ≤ n < 2 ^ 64 → hd 0 (decimal n) = 48 → n = 0.
Proof.
  intros Hn Hz. destruct (decimal_digits n Hn) as (k & _ & Hlo & Hhi & E).
  rewrite E in Hz. destruct k as [|k]; simpl in Hz.
  - rewrite Z.div_1_r in Hz. simpl in Hhi. rewrite Z.mod_small in Hz; lia.
  - destruct Hlo as [Hlo|]; [|done]. 
    set (p := 10 ^ _) in Hz. assert (p = 10 ^ Z.of_nat (S k)) as Hp by done. clearbody p. subst p.
    rewrite (Nat2Z.inj_succ (S k)), Z.pow_succ_r in Hhi by lia.
    assert (0 < 10 ^ Z.of_nat (S k)) by (apply Z.pow_pos_nonneg; lia).
    assert (1 ≤ n / 10 ^ Z.of_nat (S k) < 10) as Hd by
      (split; [apply Z.div_le_lower_bound | apply Z.div_lt_upper_bound]; lia).
    rewrite Z.mod_small in Hz; lia.
Qed.

Lemma decimal_inj a b : 0 ≤ a < 2 ^ 64 → 0 ≤ b < 2 ^ 64 → decimal a = decimal b → a = b.
Proof. intros Ha Hb E. rewrite <- (dec_value_decimal a), <- (dec_value_decimal b) by done. by rewrite E. Qed.

(** ** Signed numbers *)

Lemma emits_UnityPrintNumber n :
  int64 n → emits (UnityPrintNumber n) (signed_decimal n).
Proof.
  unfold int64. intros Hn. unfold UnityPrintNumber, signed_decimal.
  assert (H63 : 2 ^ 63 = 9223372036854775808) by done.
  assert (H64 : 2 ^ 64 = 18446744073709551616) by done.
  destruct (Z.ltb_spec n 0) as [Hneg|Hpos].
  - assert (u64 (u64 (Z.lnot (u64 n)) + 1) = - n) as ->.
    { unfold u64, uwrap. rewrite Zplus_mod_idemp_l. unfold Z.lnot.
      replace (Z.pred (- (n mod 2 ^ 64)) + 1) with (- (n mod 2 ^ 64)) by lia.
      rewrite <- (Z_mod_plus_full n 1 (2 ^ 64)), (Z.mod_small (n + 1 * 2 ^ 64)) by lia.
      rewrite <- (Z_mod_plus_full _ 1 (2 ^ 64)), Z.mod_small; lia. }
    apply (emits_seq _ _ [45]); [apply emits_char|].
    apply emits_UnityPrintNumberUnsigned; unfold uint64; lia.
  - unfold u64. rewrite uwrap_small by lia. apply emits_UnityPrintNumberUnsigned; unfold uint64; lia.
Qed.

(** ** Hexadecimal *)

Lemma nibble_value number k :
  0 ≤ number → Z.land (i32 (Z.shiftr number (Z.of_nat k * 4))) 0x0F
               = number / 16 ^ Z.of_nat k mod 16.
Proof.
  intros Hn. change 0x0F with (Z.ones 4). rewrite Z.land_ones by lia.
  rewrite Z.shiftr_div_pow2, (Z.mul_comm (Z.of_nat k)), Z.pow_mul_r by lia.
  change (2 ^ 4) with 16. set (x := number / 16 ^ Z.of_nat k).
  unfold i32, swrap. replace (2 ^ 32) with (16 * 268435456) by done.
  change (2 ^ (32 - 1)) with 2147483648.
  rewrite Zminus_mod, Z.mod_mod_divide, <- Zminus_mod by (by exists 268435456). f_equal. lia.
Qed.

Lemma emits_hex_loop number k : 0 ≤ number → emits (hex_loop number k) (hex k number).
Proof.
  intros Hn. induction k as [|k IH]; cbn [hex_loop hex]; [apply emits_skip|].
  rewrite nibble_value by done. set (d := number / _ mod 16).
  assert (0 ≤ d < 16) by (apply Z.mod_pos_bound; lia).
  apply (emits_seq _ _ [_]); [|done]. unfold hex_digit.
  destruct (d <=? 9); intros w; unfold UNITY_OUTPUT_CHAR, modify; simpl; repeat f_equal;
    apply uwrap_small; simpl; lia.
Qed.

Lemma emits_UnityPrintNumberHex number k :
  0 ≤ number → (k ≤ 16)%nat → emits (UnityPrintNumberHex number (Z.of_nat k)) (hex k number).
Proof.
  intros Hn Hk. unfold UnityPrintNumberHex, UNITY_MAX_NIBBLES, u32.
  rewrite uwrap_small by lia. destruct (Z.gtb_spec (Z.of_nat k) 16); [lia|].
  rewrite Nat2Z.id. by apply emits_hex_loop.
Qed.

(** Reading a hexadecimal text back. *)
Definition hex_digit_value (c : Z) : Z := if c <=? 57 then c - 48 else c - 55.
Definition hex_value (s : list Z) : Z := fold_left (λ acc c, 16 * acc + hex_digit_value c) s 0.

Lemma hex_digit_value_digit d : 0 ≤ d < 16 → hex_digit_value (hex_digit d) = d.
Proof.
  intros. unfold hex_digit_value, hex_digit.
  destruct (Z.leb_spec d 9); case_match; lia.
Qed.

Lemma hex_fold k n a :
  0 ≤ n → fold_left (λ acc c, 16 * acc + hex_digit_value c) (hex k n) a
          = a * 16 ^ Z.of_nat k + n mod 16 ^ Z.of_nat k.
Proof.
  intros Hn. revert a. induction k as [|k IH]; intros a.
  - simpl. rewrite Z.mod_1_r. lia.
  - simpl hex. simpl fold_left. rewrite IH, hex_digit_value_digit by (apply Z.mod_pos_bound; lia).
    rewrite Nat2Z.inj_succ, Z.pow_succ_r, (Z.mul_comm 16 (16 ^ _)) by lia.
    assert (0 < 16 ^ Z.of_nat k) by (apply Z.pow_pos_nonneg; lia).
    rewrite Z.rem_mul_r by lia. lia.
Qed.

Lemma hex_value_hex k n : 0 ≤ n → hex_value (hex k n) = n mod 16 ^ Z.of_nat k.
Proof. intros. unfold hex_value. rewrite hex_fold by done. lia. Qed.

Lemma hex_mod k n m : 0 < m → (16 ^ Z.of_nat k | m) → hex k (n mod m) = hex k n.
Proof.
  intros Hm. induction k as [|k IH]; intros Hd; [done|]. simpl.
  rewrite Nat2Z.inj_succ, Z.pow_succ_r in Hd by lia.
  assert (0 < 16 ^ Z.of_nat k) by (apply Z.pow_pos_nonneg; lia).
  f_equal; [f_equal|].
  - destruct Hd as [q ->].
    replace (q * (16 * 16 ^ Z.of_nat k)) with (16 ^ Z.of_nat k * (16 * q)) by lia.
    assert (0 < 16 * q) by nia.
    rewrite mod_div_swap by lia.
    apply Z.mod_mod_divide. by exists q; lia.
  - apply IH. etransitivity; [|done]. by exists 16.
Qed.

(** ** Bit masks *)

Lemma land_bit_eqb b x : 0 ≤ b → negb (Z.land (2 ^ b) x =? 0) = Z.testbit x b.
Proof.
  intros Hb. destruct (Z.testbit x b) eqn:E.
  - destruct (Z.eqb_spec (Z.land (2 ^ b) x) 0) as [H0|]; [|done].
    apply (f_equal (λ z, Z.testbit z b)) in H0.
    by rewrite Z.land_spec, Z.pow2_bits_true, E, Z.bits_0 in H0.
  - destruct (Z.eqb_spec (Z.land (2 ^ b) x) 0) as [|H0]; [done|].
    exfalso. apply H0, Z.bits_inj_0. intros n. rewrite Z.land_spec.
    destruct (decide (n = b)) as [->|]; [by rewrite E, andb_false_r|].
    rewrite Z.pow2_bits_false by done. done.
Qed.

Lemma emits_mask_loop mask number k :
  emits (mask_loop mask number (S k) (2 ^ Z.of_nat k)) (mask_text (S k) mask number).
Proof.
  induction k as [|k IH]; cbn [mask_loop mask_text]; rewrite !land_bit_eqb by lia.
  all: apply (emits_seq _ _ [_]); [intros w; by repeat case_match | try apply emits_skip].
  replace (Z.shiftr (2 ^ Z.of_nat (S k)) 1) with (2 ^ Z.of_nat k); [exact IH|].
  rewrite Z.shiftr_div_pow2, Nat2Z.inj_succ, Z.pow_succ_r, Z.mul_comm, Z.div_mul; lia.
Qed.

Lemma emits_UnityPrintMask mask number :
  emits (UnityPrintMask mask number) (mask_text 32 mask number).
Proof. apply (emits_mask_loop mask number 31). Qed.

(** The text shows only the bits the mask text has room for. *)
Lemma mask_text_low k mask number number' :
  (∀ i, 0 ≤ i < Z.of_nat k → Z.testbit number i = Z.testbit number' i) →
  mask_text k mask number = mask_text k mask number'.
Proof.
  induction k as [|k IH]; intros Hi; [done|]. simpl. rewrite Hi by lia. f_equal.
  apply IH. intros i ?. apply Hi. lia.
Qed.

(** ** Text *)

Lemma char_val_cases `{Target} c :
  0 ≤ c < 256 → char_val c = c ∨ (128 ≤ c ∧ char_val c = c - 256).
Proof.
  intros Hc. unfold char_val, i8, u8, uwrap, swrap. change (2 ^ 8) with 256.
  change (2 ^ (8 - 1)) with 128. destruct char_signed.
  - destruct (Z_lt_ge_dec c 128); [left|right]; [rewrite Z.mod_small; lia|].
    rewrite <- (Z_mod_plus_full (c + 128) (-1) 256), Z.mod_small; lia.
  - left. rewrite Z.mod_small; lia.
Qed.

Lemma char_val_u8 `{Target} c : char_val (u8 c) = char_val c.
Proof. unfold char_val, i8, u8. by rewrite swrap_uwrap, uwrap_idemp. Qed.

Lemma emits_escaped `{Target} b :
  emits (if (char_val b <=? 126) && (char_val b >=? 32) then UNITY_OUTPUT_CHAR (char_val b)
         else if char_val b =? 13 then UNITY_OUTPUT_CHAR (chr "\");; UNITY_OUTPUT_CHAR (chr "r")
         else if char_val b =? 10 then UNITY_OUTPUT_CHAR (chr "\");; UNITY_OUTPUT_CHAR (chr "n")
         else UNITY_OUTPUT_CHAR (chr "\");; UNITY_OUTPUT_CHAR (chr "x");;
              UnityPrintNumberHex (u64 (char_val b)) 2) (escape b).
Proof.
  rewrite <- (char_val_u8 b). unfold escape.
  assert (Hc : 0 ≤ u8 b < 256) by (apply (uwrap_range 8); lia).
  set (c := u8 b) in *. clearbody c.
  assert (Hhex : hex 2 (u64 (char_val c)) = hex 2 c).
  { destruct (char_val_cases c Hc) as [->|[? ->]]; unfold u64, uwrap;
      rewrite hex_mod by (done || by exists (2 ^ 56)); [done|].
    rewrite <- (hex_mod 2 (c - 256) 256), <- (hex_mod 2 c 256) by (done || by exists 1).
    f_equal. by rewrite <- (Z_mod_plus_full (c - 256) 1 256), Z.sub_add. }
  rewrite <- Hhex.
  replace ((char_val c <=? 126) && (char_val c >=? 32)) with ((c <=? 126) && (c >=? 32))
    by (destruct (char_val_cases c Hc) as [->|[? ->]]; [done|]; apply eq_true_iff_eq;
        rewrite !andb_true_iff, !Z.leb_le, !Z.geb_le; lia).
  destruct ((c <=? 126) && (c >=? 32)) eqn:Ep.
  { apply andb_true_iff in Ep as [?%Z.leb_le ?%Z.geb_le].
    destruct (char_val_cases c Hc) as [->|[? ->]]; [|lia].
    intros w. unfold UNITY_OUTPUT_CHAR, modify, u8. rewrite uwrap_small; [done|simpl; lia]. }
  replace (char_val c =? 13) with (c =? 13) by (destruct (char_val_cases c Hc) as [->|[? ->]]; lia).
  replace (char_val c =? 10) with (c =? 10) by (destruct (char_val_cases c Hc) as [->|[? ->]]; lia).
  destruct (c =? 13); [by intros w|]. destruct (c =? 10); [by intros w|].
  apply (emits_seq _ _ [92]); [apply emits_char|].
  apply (emits_seq _ _ [120]); [apply emits_char|].
  apply (emits_UnityPrintNumberHex _ 2); [|lia].
  apply uwrap_range; lia.
Qed.

Lemma emits_UnityPrintChar `{Target} c : emits (UnityPrintChar c) (escape c).
Proof. apply emits_escaped. Qed.

Lemma emits_print_chars `{Target} s : emits (print_chars s) (escape_all s).
Proof.
  induction s; [apply emits_skip|]. apply emits_seq; [apply emits_UnityPrintChar | done].
Qed.

Lemma emits_UnityPrint `{Target} s : emits (UnityPrint s) (cstring_text s).
Proof. destruct s; [apply emits_print_chars | apply emits_skip]. Qed.

Lemma emits_print_len_loop `{Target} s length : ∀ i,
  0 ≤ i → i + Z.of_nat (List.length s) < 2 ^ 32 →
  emits (print_len_loop s i length) (escape_all (take (Z.to_nat (length - i)) s)).
Proof.
  unfold escape_all. induction s as [|c s IH]; intros i Hi Hb; cbn [print_len_loop].
  { rewrite take_nil. apply emits_skip. }
  cbn [List.length] in Hb. unfold u32. rewrite uwrap_small by lia.
  destruct (Z.ltb_spec i length) as [Hlt|Hge].
  - replace (Z.to_nat (length - i)) with (S (Z.to_nat (length - (i + 1)))) by lia.
    apply emits_seq; [by apply emits_escaped | apply IH; lia].
  - replace (Z.to_nat (length - i)) with O by lia. apply emits_skip.
Qed.

Definition short_text (s : cstring) : Prop :=
  match s with Some s => Z.of_nat (List.length s) < 2 ^ 32 | None => True end.

Lemma emits_UnityPrintLen `{Target} s length :
  short_text s →
  emits (UnityPrintLen s length) (cstring_text (take (Z.to_nat length) <$> s)).
Proof.
  destruct s as [s|]; intros Hs; [|apply emits_skip]. simpl in *.
  rewrite <- (Z.sub_0_r length) at 2. apply emits_print_len_loop; lia.
Qed.

Lemma emits_UnityPrintNumberByStyle number style :
  int64 number →
  emits (UnityPrintNumberByStyle number style) (number_text number style).
Proof.
  unfold int64. intros Hn. unfold UnityPrintNumberByStyle, number_text.
  assert (0 ≤ u64 number < 2 ^ 64) by (apply uwrap_range; lia).
  destruct (style_is_int style).
  - destruct (decide (style = UNITY_DISPLAY_STYLE_CHAR)); [|by apply emits_UnityPrintNumber].
    apply (emits_seq _ _ [39]); [apply emits_char|].
    apply emits_seq; [|apply emits_char].
    destruct ((number <=? 126) && (number >=? 32)) eqn:Ep.
    { apply andb_true_iff in Ep as [?%Z.leb_le ?%Z.geb_le]. intros w.
      unfold UNITY_OUTPUT_CHAR, modify, i32, u8.
      rewrite swrap_small, uwrap_small; [done|simpl; lia|lia|simpl; lia]. }
    destruct (number =? 13); [by intros w|]. destruct (number =? 10); [by intros w|].
    apply (emits_seq _ _ [92]); [apply emits_char|].
    apply (emits_seq _ _ [120]); [apply emits_char|].
    apply (emits_UnityPrintNumberHex _ 2); lia.
  - destruct (style_is_uint style) eqn:Eu; [by apply emits_UnityPrintNumberUnsigned|].
    apply (emits_seq _ _ [48]); [apply emits_char|].
    apply (emits_seq _ _ [120]); [apply emits_char|].
    assert (Hk : 0 ≤ Z.land (style_val style) 0xF * 2 ≤ 16) by (by destruct style).
    rewrite <- (Z2Nat.id (Z.land _ _ * 2)) at 1 by lia.
    apply emits_UnityPrintNumberHex; lia.
Qed.

#[export] Hint Resolve emits_UnityPrintNumberUnsigned emits_UnityPrintNumber
  emits_UnityPrintMask emits_UnityPrintChar emits_UnityPrintNumberByStyle : emits.
#[export] Hint Resolve emits_UnityPrint | 5 : emits.

(** Everything UnityPrint puts out is printable ASCII. *)
Definition printable (c : Z) : Prop := 32 ≤ c ≤ 126.

Lemma hex_printable k n : Forall printable (hex k n).
Proof.
  induction k; simpl; constructor; [|done]. unfold printable, hex_digit.
  match goal with |- context [?a mod 16] => pose proof (Z.mod_pos_bound a 16) end.
  case_match; lia.
Qed.

Lemma escape_printable c : Forall printable (escape c).
Proof.
  unfold escape. case_match eqn:E.
  { apply andb_true_iff in E as [?%Z.leb_le ?%Z.geb_le]. repeat constructor; lia. }
  repeat case_match; try by repeat constructor.
  apply Forall_app; split; [by repeat constructor | apply hex_printable].
Qed.

Lemma escape_all_printable s : Forall printable (escape_all s).
Proof.
  unfold escape_all. induction s; simpl; [constructor|].
  apply Forall_app; split; [apply escape_printable | done].
Qed.

Lemma escape_printable_id s : Forall printable s → escape_all s = s.
Proof.
  unfold escape_all. induction 1 as [|c s Hc Hs IH]; simpl; [done|]. rewrite IH.
  unfold escape, u8. unfold printable in Hc. rewrite uwrap_small by (simpl; lia).
  replace ((c <=? 126) && (c >=? 32)) with true; [done|].
  symmetry. apply andb_true_iff. rewrite Z.leb_le, Z.geb_le. lia.
Qed.

(** ** Properties *)

(** UnityPrintNumberUnsigned returns on every 64-bit number, having printed at
    most 20 decimal digits, with no leading zero unless the number is 0, that read
    back as exactly that number; its division-only loop prints what the textbook
    conversion [decimal] does. *)
Theorem UnityPrintNumberUnsigned_prints_decimal n :
  uint64 n →
  emits (UnityPrintNumberUnsigned n) (decimal n) ∧
  dec_value (decimal n) = n ∧ Forall is_digit (decimal n) ∧
  (length (decimal n) ≤ 20)%nat ∧ (hd 0 (decimal n) = 48 → n = 0).
Proof.
  intros Hn. split_and!.
  - by apply emits_UnityPrintNumberUnsigned.
  - by apply dec_value_decimal.
  - destruct (decimal_digits n Hn) as (k & _ & _ & _ & ->). apply digits_down_digits.
  - destruct (decimal_digits n Hn) as (k & Hk & _ & _ & ->).
    rewrite length_digits_down. unfold UINT_DIGITS in Hk. lia.
  - by apply decimal_no_leading_zero.
Qed.

Lemma UnityPrintNumberUnsigned_prints_decimal_witness :
  dec_value (decimal 18446744073709551615) = 18446744073709551615.
Proof.
  apply (UnityPrintNumberUnsigned_prints_decimal 18446744073709551615). vm_compute.
  split; [discriminate | reflexivity].
Defined.

(** Reading a signed text back. *)
Definition signed_value (s : list Z) : Z :=
  match s with
  | 45 :: s => - dec_value s
  | s => dec_value s
  end.

(** C33: UnityPrintNumber prints every 64-bit signed number so that the text reads back
    as the number, the most negative one (whose negation does not fit) included. *)
Theorem UnityPrintNumber_roundtrip n :
  int64 n →
  ∃ s, emits (UnityPrintNumber n) s ∧ signed_value s = n.
Proof.
  unfold int64. intros Hn. exists (signed_decimal n). split; [by apply emits_UnityPrintNumber|].
  unfold signed_decimal. destruct (Z.ltb_spec n 0).
  - simpl. rewrite dec_value_decimal; lia.
  - destruct (decimal_digits n ltac:(lia)) as (k & _ & _ & ? & ->).
    rewrite <- (dec_value_digits_down k n) at 2 by done.
    pose proof (digits_down_digits k n) as Hd. destruct (digits_down k n) as [|c l]; [done|].
    inversion Hd as [|?? Hc]; subst. unfold is_digit in Hc.
    destruct (decide (c = 45)); [lia|]. unfold signed_value.
    destruct c as [|p|]; try done. repeat (destruct p as [p|p|]; try done).
Qed.

Lemma UnityPrintNumber_roundtrip_witness :
  ∃ s, emits (UnityPrintNumber (-9223372036854775808)) s ∧
       signed_value s = -9223372036854775808.
Proof.
  apply (UnityPrintNumber_roundtrip (-9223372036854775808)). vm_compute.
  split; [discriminate | reflexivity].
Defined.

(** The byte width of a hexadecimal display style. *)
Definition hex_style_bytes (style : UNITY_DISPLAY_STYLE_T) : option nat :=
  match style with
  | UNITY_DISPLAY_STYLE_HEX8 => Some 1%nat
  | UNITY_DISPLAY_STYLE_HEX16 => Some 2%nat
  | UNITY_DISPLAY_STYLE_HEX32 => Some 4%nat
  | UNITY_DISPLAY_STYLE_HEX64 => Some 8%nat
  | _ => None
  end.

Lemma length_hex k n : length (hex k n) = k.
Proof. induction k; simpl; auto. Qed.

(** In a hexadecimal style of k bytes, UnityPrintNumberByStyle prints 0x and exactly
    2k digits that read back as the number modulo 2^(8k): a sign-extended operand shows
    no more digits than its style has. *)
Theorem UnityPrintNumberByStyle_hex number style k :
  hex_style_bytes style = Some k → int64 number →
  ∃ s, emits (UnityPrintNumberByStyle number style) (str "0x" ++ s) ∧
       length s = (2 * k)%nat ∧ hex_value s = number mod 2 ^ (8 * Z.of_nat k).
Proof.
  intros Hs Hn. exists (hex (2 * k) (u64 number)). split_and!.
  - pose proof (emits_UnityPrintNumberByStyle number style Hn) as He.
    by destruct style; simplify_eq/=.
  - apply length_hex.
  - rewrite hex_value_hex by (apply uwrap_range; lia). unfold u64, uwrap.
    rewrite Z.mod_mod_divide by (destruct style; simplify_eq/=;
      [by exists (2 ^ 56) | by exists (2 ^ 48) | by exists (2 ^ 32) | by exists 1]).
    f_equal. rewrite <- (Z.pow_mul_r 2 4) by lia. f_equal. lia.
Qed.

Lemma UnityPrintNumberByStyle_hex_witness :
  ∃ s, emits (UnityPrintNumberByStyle (-1) UNITY_DISPLAY_STYLE_HEX16) (str "0x" ++ s) ∧
       length s = 4%nat ∧ hex_value s = 65535.
Proof.
  apply (UnityPrintNumberByStyle_hex (-1) UNITY_DISPLAY_STYLE_HEX16 2); [reflexivity|].
  vm_compute. split; [discriminate | reflexivity].
Defined.

(** UnityPrint prints one and the same text on targets with signed and with unsigned
    char, all of it printable ASCII (control and non-ASCII bytes are escaped), so a
    printed string never breaks the line-oriented output; a string that is already
    printable is printed unchanged. *)
Theorem UnityPrint_same_printable_text s :
  (∀ T : Target, emits (@UnityPrint T (Some s)) (escape_all s)) ∧
  Forall printable (escape_all s) ∧ (Forall printable s → escape_all s = s).
Proof.
  split_and!.
  - intros T. apply emits_UnityPrint.
  - apply escape_all_printable.
  - apply escape_printable_id.
Qed.

(** UnityPrintLen, which repeats UnityPrint's body under a bound, prints what
    UnityPrint prints of the first [length] characters. *)
Theorem UnityPrintLen_is_UnityPrint_of_prefix `{Target} s length w :
  short_text s →
  UnityPrintLen s length w = UnityPrint (take (Z.to_nat length) <$> s) w.
Proof. intros Hb. rewrite emits_UnityPrintLen by done. symmetry. apply emits_UnityPrint. Qed.

Lemma UnityPrintLen_is_UnityPrint_of_prefix_witness :
  @UnityPrintLen aarch64 (Some (str "abcdef")) 3 initial_world =
  @UnityPrint aarch64 (Some (str "abc")) initial_world.
Proof.
  apply (@UnityPrintLen_is_UnityPrint_of_prefix aarch64 (Some (str "abcdef")) 3 initial_world). done.
Defined.

(** UnityPrintMask prints 32 characters: X for a bit outside the mask, else the bit,
    from bit 31 down to bit 0. UNITY_INT is 64 bits wide but UNITY_INT_WIDTH is the width
    of int, so bits 32 to 63 of mask and number are never shown. *)
Theorem UnityPrintMask_shows_low_word mask number :
  emits (UnityPrintMask mask number) (mask_text 32 mask number) ∧
  (∀ i, (i < 32)%nat →
    mask_text 32 mask number !! (31 - i)%nat =
    Some (if Z.testbit mask (Z.of_nat i)
          then if Z.testbit number (Z.of_nat i) then 49 else 48 else 88)) ∧
  (∀ hi, mask_text 32 mask (number mod 2 ^ 32 + hi * 2 ^ 32) = mask_text 32 mask number).
Proof.
  split_and!.
  - apply emits_UnityPrintMask.
  - intros i Hi. do 32 (destruct i as [|i]; [reflexivity|]). lia.
  - intros hi. apply mask_text_low. intros i Hi.
    rewrite <- (Z.mod_pow2_bits_low _ 32 i), Z_mod_plus_full, Zmod_mod by lia.
    by rewrite Z.mod_pow2_bits_low by lia.
Qed.

(** ** Reading numbers *)

Definition is_space (c : Z) : bool := (c =? 32) || ((9 <=? c) && (c <=? 13)).
Definition is_digit_char (c : Z) : bool := (48 <=? c) && (c <=? 57).

Fixpoint skip_spaces (s : list Z) : list Z :=
  match s with c :: s' => if is_space c then skip_spaces s' else s | [] => [] end.
Fixpoint leading_digits (s : list Z) : list Z :=
  match s with c :: s => if is_digit_char c then c :: leading_digits s else [] | [] => [] end.

(** strtoul(s, NULL, 10) of the C standard, with a 64-bit unsigned long. *)
Definition strtoul10 (s : list Z) : Z :=
  let '(neg, s) := match skip_spaces s with
                   | c :: s => if c =? 45 then (true, s) else if c =? 43 then (false, s) else (false, c :: s)
                   | [] => (false, []) end in
  let v := dec_value (leading_digits s) in
  if 2 ^ 64 <=? v then 2 ^ 64 - 1 else if neg : bool then u64 (- v) else v.
