(* ===== verification/UnityAssert.v ===== *)
(** * Unity's integer, string and memory assertions (src/unity/unity.c)

    Failure reporting and the assertion functions, each as the whole C
    function: the guard on an already failed or ignored test, the
    comparison, the report and the non-local exit. The specifications that
    follow say, for every branch, what each returns and what it prints. *)

From S2P Require Import Prelude CMachine UnityOutput.

Inductive UNITY_COMPARISON_T :=
  | UNITY_EQUAL_TO | UNITY_GREATER_THAN | UNITY_GREATER_OR_EQUAL
  | UNITY_SMALLER_THAN | UNITY_SMALLER_OR_EQUAL | UNITY_NOT_EQUAL | UNITY_UNKNOWN.

(** The enumerators' values; UNITY_WITHIN and UNITY_NOT_EQUAL are both 0. *)
Definition comparison_val (c : UNITY_COMPARISON_T) : Z :=
  match c with
  | UNITY_NOT_EQUAL => 0x0
  | UNITY_EQUAL_TO => 0x1
  | UNITY_GREATER_THAN => 0x2
  | UNITY_GREATER_OR_EQUAL => 0x2 + 0x1
  | UNITY_SMALLER_THAN => 0x4
  | UNITY_SMALLER_OR_EQUAL => 0x4 + 0x1
  | UNITY_UNKNOWN => 0x1
  end.
Definition has_flag (c : UNITY_COMPARISON_T) (flag : UNITY_COMPARISON_T) : bool :=
  negb (Z.land (comparison_val c) (comparison_val flag) =? 0).

Inductive UNITY_FLAGS_T := UNITY_ARRAY_TO_VAL | UNITY_ARRAY_TO_ARRAY | UNITY_ARRAY_UNKNOWN.

#[export] Instance UNITY_FLAGS_T_eq_dec : EqDecision UNITY_FLAGS_T.
Proof. solve_decision. Defined.

(** ** Assignments to the framework's state *)

Definition set_CurrentTestFailed (v : Z) : M unit :=
  modify (set_Unity (with_CurrentTestFailed v)).
Definition set_CurrentTestIgnored (v : Z) : M unit :=
  modify (set_Unity (with_CurrentTestIgnored v)).

Definition UNITY_FAIL_AND_BAIL {A} : M A := set_CurrentTestFailed 1;; TEST_ABORT.
Definition UNITY_IGNORE_AND_BAIL {A} : M A := set_CurrentTestIgnored 1;; TEST_ABORT.

Definition failed_or_ignored (u : UNITY_STORAGE_T) : bool :=
  negb (CurrentTestFailed u =? 0) || negb (CurrentTestIgnored u =? 0).

Definition RETURN_IF_FAIL_OR_IGNORE : M unit :=
  u ← get Unity; if failed_or_ignored u then TEST_ABORT else skip.

Section assertions.
Context `{Target}.

(** ** Reporting *)

Definition UnityTestResultsBegin (file : cstring) (line : Z) : M unit :=
  UnityPrint (Some (str "ASSERTION "));;
  UnityPrint file;;
  UNITY_OUTPUT_CHAR (chr ":");;
  UnityPrintNumber (i64 line);;
  UNITY_OUTPUT_CHAR (chr ":").

Definition UnityTestResultsFailBegin (line : Z) : M unit :=
  modify (set_Unity (with_CurrentAssertionLineNumber line));;
  file ← get (TestFile ∘ Unity);
  UnityTestResultsBegin file line;;
  UnityPrint (Some UnityStrFail);;
  UNITY_OUTPUT_CHAR (chr ":").

(** The lines UnityAddMsgIfSpecified and UnityFail share. *)
Definition print_details : M unit :=
  d1 ← get (CurrentDetail1 ∘ Unity);
  match d1 with
  | Some _ =>
      UnityPrint (Some UnityStrDetail1Name);;
      UnityPrint d1;;
      d2 ← get (CurrentDetail2 ∘ Unity);
      match d2 with
      | Some _ => UnityPrint (Some UnityStrDetail2Name);; UnityPrint d2
      | None => skip
      end;;
      UnityPrint (Some UnityStrSpacer)
  | None => skip
  end.

Definition UnityAddMsgIfSpecified (msg : cstring) : M unit :=
  match msg with
  | Some _ => UnityPrint (Some UnityStrSpacer);; print_details;; UnityPrint msg
  | None => skip
  end.

Definition print_quoted_or_null (s : cstring) : M unit :=
  match s with
  | Some _ => UNITY_OUTPUT_CHAR (chr "'");; UnityPrint s;; UNITY_OUTPUT_CHAR (chr "'")
  | None => UnityPrint (Some UnityStrNull)
  end.

Definition UnityPrintExpectedAndActualStrings (expected actual : cstring) : M unit :=
  UnityPrint (Some UnityStrExpected);;
  print_quoted_or_null expected;;
  UnityPrint (Some UnityStrWas);;
  print_quoted_or_null actual.

Definition print_quoted_len_or_null (s : cstring) (length : Z) : M unit :=
  match s with
  | Some _ => UNITY_OUTPUT_CHAR (chr "'");; UnityPrintLen s length;; UNITY_OUTPUT_CHAR (chr "'")
  | None => UnityPrint (Some UnityStrNull)
  end.

Definition UnityPrintExpectedAndActualStringsLen (expected actual : cstring) (length : Z) : M unit :=
  UnityPrint (Some UnityStrExpected);;
  print_quoted_len_or_null expected length;;
  UnityPrint (Some UnityStrWas);;
  print_quoted_len_or_null actual length.

Definition UnityIsOneArrayNull (expected actual lineNumber : Z) (msg : cstring) : M bool :=
  if expected =? actual then mret false
  else if expected =? 0 then
    UnityTestResultsFailBegin lineNumber;;
    UnityPrint (Some UnityStrNullPointerForExpected);;
    UnityAddMsgIfSpecified msg;;
    mret true
  else if actual =? 0 then
    UnityTestResultsFailBegin lineNumber;;
    UnityPrint (Some UnityStrNullPointerForActual);;
    UnityAddMsgIfSpecified msg;;
    mret true
  else mret false.

Definition UnityPrintPointlessAndBail {A} (lineNumber : Z) (msg : cstring) : M A :=
  UnityTestResultsFailBegin lineNumber;;
  UnityPrint (Some UnityStrPointless);;
  UnityAddMsgIfSpecified msg;;
  UNITY_PRINT_EOL;;
  UNITY_FAIL_AND_BAIL.

(** ** Scalars *)

Definition UnityAssertBits (mask expected actual : Z) (msg : cstring) (lineNumber : Z) : M unit :=
  RETURN_IF_FAIL_OR_IGNORE;;
  if negb (Z.land mask expected =? Z.land mask actual) then
    UnityTestResultsFailBegin lineNumber;;
    UnityPrint (Some UnityStrExpected);;
    UnityPrintMask (u64 mask) (u64 expected);;
    UnityPrint (Some UnityStrWas);;
    UnityPrintMask (u64 mask) (u64 actual);;
    UnityAddMsgIfSpecified msg;;
    UNITY_PRINT_EOL;;
    UNITY_FAIL_AND_BAIL
  else skip.

Definition UnityAssertEqualNumber (expected actual : Z) (msg : cstring) (lineNumber : Z)
    (style : UNITY_DISPLAY_STYLE_T) : M unit :=
  RETURN_IF_FAIL_OR_IGNORE;;
  if negb (expected =? actual) then
    UnityTestResultsFailBegin lineNumber;;
    UnityPrint (Some UnityStrExpected);;
    UnityPrintNumberByStyle expected style;;
    UnityPrint (Some UnityStrWas);;
    UnityPrintNumberByStyle actual style;;
    UnityAddMsgIfSpecified msg;;
    UNITY_PRINT_EOL;;
    UNITY_FAIL_AND_BAIL
  else skip.

Definition UnityAssertGreaterOrLessOrEqualNumber (threshold actual : Z)
    (compare : UNITY_COMPARISON_T) (msg : cstring) (lineNumber : Z)
    (style : UNITY_DISPLAY_STYLE_T) : M unit :=
  let failed := 0 in
  RETURN_IF_FAIL_OR_IGNORE;;
  if (threshold =? actual) && has_flag compare UNITY_EQUAL_TO then skip
  else
    let failed := if threshold =? actual then 1 else failed in
    let failed :=
      if style_is_int style then
        let failed := if (actual >? threshold) && has_flag compare UNITY_SMALLER_THAN
                      then 1 else failed in
        if (actual <? threshold) && has_flag compare UNITY_GREATER_THAN then 1 else failed
      else
        let failed := if (u64 actual >? u64 threshold) && has_flag compare UNITY_SMALLER_THAN
                      then 1 else failed in
        if (u64 actual <? u64 threshold) && has_flag compare UNITY_GREATER_THAN
        then 1 else failed in
    if negb (failed =? 0) then
      UnityTestResultsFailBegin lineNumber;;
      UnityPrint (Some UnityStrExpected);;
      UnityPrintNumberByStyle actual style;;
      when (has_flag compare UNITY_GREATER_THAN) (UnityPrint (Some UnityStrGt));;
      when (has_flag compare UNITY_SMALLER_THAN) (UnityPrint (Some UnityStrLt));;
      when (has_flag compare UNITY_EQUAL_TO) (UnityPrint (Some UnityStrOrEqual));;
      when (comparison_val compare =? comparison_val UNITY_NOT_EQUAL)
        (UnityPrint (Some UnityStrNotEqual));;
      UnityPrintNumberByStyle threshold style;;
      UnityAddMsgIfSpecified msg;;
      UNITY_PRINT_EOL;;
      UNITY_FAIL_AND_BAIL
    else skip.

(** [|actual - expected| > delta], as the C computes it at 64 bits. *)
Definition out_of_delta (delta expected actual : Z) (style : UNITY_DISPLAY_STYLE_T) : Z :=
  let over (b : bool) := if b then 1 else 0 in
  if style_is_int style then
    if actual >? expected
    then over (u64 (u64 actual - u64 expected) >? delta)
    else over (u64 (u64 expected - u64 actual) >? delta)
  else
    if u64 actual >? u64 expected
    then over (u64 (u64 actual - u64 expected) >? delta)
    else over (u64 (u64 expected - u64 actual) >? delta).

Definition UnityAssertNumbersWithin (delta expected actual : Z) (msg : cstring) (lineNumber : Z)
    (style : UNITY_DISPLAY_STYLE_T) : M unit :=
  RETURN_IF_FAIL_OR_IGNORE;;
  set_CurrentTestFailed (out_of_delta delta expected actual style);;
  f ← get (CurrentTestFailed ∘ Unity);
  if negb (f =? 0) then
    UnityTestResultsFailBegin lineNumber;;
    UnityPrint (Some UnityStrDelta);;
    UnityPrintNumberByStyle (i64 delta) style;;
    UnityPrint (Some UnityStrExpected);;
    UnityPrintNumberByStyle expected style;;
    UnityPrint (Some UnityStrWas);;
    UnityPrintNumberByStyle actual style;;
    UnityAddMsgIfSpecified msg;;
    UNITY_PRINT_EOL;;
    UNITY_FAIL_AND_BAIL
  else skip.

(** ** Integer arrays *)

(** [style & 0xF] after the switch: 1, 2, 8, anything else is 4. *)
Definition elem_length (style : UNITY_DISPLAY_STYLE_T) : Z :=
  let length := Z.land (style_val style) 0xF in
  if length =? 1 then 1 else if length =? 2 then 2 else if length =? 8 then 8 else 4.

Definition has_uint_range (style : UNITY_DISPLAY_STYLE_T) : bool :=
  negb (Z.land (style_val style) UNITY_DISPLAY_RANGE_UINT =? 0).

(** The value printed: the sign extension removed where the code does so. *)
Definition shown_value (style : UNITY_DISPLAY_STYLE_T) (v : Z) : Z :=
  let length := elem_length style in
  if has_uint_range style && (length <? UNITY_INT_WIDTH / 8)
  then Z.land v (i64 (i64 (Z.shiftl 1 (8 * length)) - 1))
  else v.

Section int_array.
Context (num_elements : Z) (msg : cstring) (lineNumber : Z) (style : UNITY_DISPLAY_STYLE_T)
  (flags : UNITY_FLAGS_T).

(** The while loop; [elements] counts down, as in the source. *)
Fixpoint equal_int_array_loop (elements : nat) (expected actual : Z) : M unit :=
  match elements with
  | O => skip
  | S elements =>
      let increment := elem_length style in
      expect_val ← load_int expected (Z.to_nat increment);
      actual_val ← load_int actual (Z.to_nat increment);
      (if negb (expect_val =? actual_val) then
        UnityTestResultsFailBegin lineNumber;;
        UnityPrint (Some UnityStrElement);;
        UnityPrintNumberUnsigned (u32 (num_elements - Z.of_nat elements - 1));;
        UnityPrint (Some UnityStrExpected);;
        UnityPrintNumberByStyle (shown_value style expect_val) style;;
        UnityPrint (Some UnityStrWas);;
        UnityPrintNumberByStyle (shown_value style actual_val) style;;
        UnityAddMsgIfSpecified msg;;
        UNITY_PRINT_EOL;;
        UNITY_FAIL_AND_BAIL
      else skip);;
      let expected := if decide (flags = UNITY_ARRAY_TO_ARRAY) then expected + increment
                      else expected in
      equal_int_array_loop elements expected (actual + increment)
  end.

Fixpoint numbers_array_within_loop (delta : Z) (elements : nat) (expected actual : Z) : M unit :=
  match elements with
  | O => skip
  | S elements =>
      let increment := elem_length style in
      expect_val ← load_int expected (Z.to_nat increment);
      actual_val ← load_int actual (Z.to_nat increment);
      set_CurrentTestFailed (out_of_delta delta expect_val actual_val style);;
      f ← get (CurrentTestFailed ∘ Unity);
      (if negb (f =? 0) then
        UnityTestResultsFailBegin lineNumber;;
        UnityPrint (Some UnityStrDelta);;
        UnityPrintNumberByStyle (i64 delta) style;;
        UnityPrint (Some UnityStrElement);;
        UnityPrintNumberUnsigned (u32 (num_elements - Z.of_nat elements - 1));;
        UnityPrint (Some UnityStrExpected);;
        UnityPrintNumberByStyle (shown_value style expect_val) style;;
        UnityPrint (Some UnityStrWas);;
        UnityPrintNumberByStyle (shown_value style actual_val) style;;
        UnityAddMsgIfSpecified msg;;
        UNITY_PRINT_EOL;;
        UNITY_FAIL_AND_BAIL
      else skip);;
      let expected := if decide (flags = UNITY_ARRAY_TO_ARRAY) then expected + increment
                      else expected in
      numbers_array_within_loop delta elements expected (actual + increment)
  end.
End int_array.

Definition UnityAssertEqualIntArray (expected actual num_elements : Z) (msg : cstring)
    (lineNumber : Z) (style : UNITY_DISPLAY_STYLE_T) (flags : UNITY_FLAGS_T) : M unit :=
  RETURN_IF_FAIL_OR_IGNORE;;
  when (num_elements =? 0) (UnityPrintPointlessAndBail lineNumber msg);;
  if expected =? actual then skip
  else
    null ← UnityIsOneArrayNull expected actual lineNumber msg;
    when null (UNITY_PRINT_EOL;; UNITY_FAIL_AND_BAIL);;
    equal_int_array_loop num_elements msg lineNumber style flags (Z.to_nat num_elements)
      expected actual.

Definition UnityAssertNumbersArrayWithin (delta expected actual num_elements : Z) (msg : cstring)
    (lineNumber : Z) (style : UNITY_DISPLAY_STYLE_T) (flags : UNITY_FLAGS_T) : M unit :=
  RETURN_IF_FAIL_OR_IGNORE;;
  when (num_elements =? 0) (UnityPrintPointlessAndBail lineNumber msg);;
  if expected =? actual then skip
  else
    null ← UnityIsOneArrayNull expected actual lineNumber msg;
    when null (UNITY_PRINT_EOL;; UNITY_FAIL_AND_BAIL);;
    numbers_array_within_loop num_elements msg lineNumber style flags delta
      (Z.to_nat num_elements) expected actual.

(** ** Strings *)

(** The comparison loop of UnityAssertEqualString: walks both strings up to
    the longer terminator and stops at the first difference. *)
Fixpoint strings_differ (expected actual : cstr) : bool :=
  match expected, actual with
  | [], [] => false
  | c :: expected, d :: actual =>
      if negb (char_val c =? char_val d) then true else strings_differ expected actual
  | _, _ => true
  end.

(** The same loop under the bound [i < length] of UnityAssertEqualStringLen. *)
Fixpoint strings_differ_len (length : nat) (expected actual : cstr) : bool :=
  match length with
  | O => false
  | S length =>
      match expected, actual with
      | [], [] => false
      | c :: expected, d :: actual =>
          if negb (char_val c =? char_val d) then true
          else strings_differ_len length expected actual
      | _, _ => true
      end
  end.

Definition is_null (s : cstring) : bool := match s with None => true | Some _ => false end.

(** Sets CurrentTestFailed when the strings differ or exactly one is null. *)
Definition compare_strings (differ : cstr → cstr → bool) (expected actual : cstring) : M unit :=
  match expected, actual with
  | Some e, Some a => when (differ e a) (set_CurrentTestFailed 1)
  | _, _ => when (negb (is_null expected && is_null actual)) (set_CurrentTestFailed 1)
  end.

Definition UnityAssertEqualString (expected actual msg : cstring) (lineNumber : Z) : M unit :=
  RETURN_IF_FAIL_OR_IGNORE;;
  compare_strings strings_differ expected actual;;
  f ← get (CurrentTestFailed ∘ Unity);
  if negb (f =? 0) then
    UnityTestResultsFailBegin lineNumber;;
    UnityPrintExpectedAndActualStrings expected actual;;
    UnityAddMsgIfSpecified msg;;
    UNITY_PRINT_EOL;;
    UNITY_FAIL_AND_BAIL
  else skip.

Definition UnityAssertEqualStringLen (expected actual : cstring) (length : Z) (msg : cstring)
    (lineNumber : Z) : M unit :=
  RETURN_IF_FAIL_OR_IGNORE;;
  compare_strings (strings_differ_len (Z.to_nat length)) expected actual;;
  f ← get (CurrentTestFailed ∘ Unity);
  if negb (f =? 0) then
    UnityTestResultsFailBegin lineNumber;;
    UnityPrintExpectedAndActualStringsLen expected actual length;;
    UnityAddMsgIfSpecified msg;;
    UNITY_PRINT_EOL;;
    UNITY_FAIL_AND_BAIL
  else skip.

(** [((const char* const* )p)[j]] *)
Definition load_string_at (p j : Z) : M cstring :=
  a ← load_uint (p + j * Z.of_nat pointer_bytes) pointer_bytes; load_cstring a.

Section string_array.
Context (expected actual num_elements : Z) (msg : cstring) (lineNumber : Z)
  (flags : UNITY_FLAGS_T).

(** The do-while loop; [n] elements are left, [j] is the current one. *)
Fixpoint equal_string_array_loop (n : nat) (j : Z) : M unit :=
  match n with
  | O => skip
  | S n =>
      act ← load_string_at actual j;
      expd ← (if decide (flags = UNITY_ARRAY_TO_ARRAY) then load_string_at expected j
              else load_cstring expected);
      compare_strings strings_differ expd act;;
      f ← get (CurrentTestFailed ∘ Unity);
      (if negb (f =? 0) then
        UnityTestResultsFailBegin lineNumber;;
        when (num_elements >? 1)
          (UnityPrint (Some UnityStrElement);; UnityPrintNumberUnsigned (u32 j));;
        UnityPrintExpectedAndActualStrings expd act;;
        UnityAddMsgIfSpecified msg;;
        UNITY_PRINT_EOL;;
        UNITY_FAIL_AND_BAIL
      else skip);;
      equal_string_array_loop n (j + 1)
  end.

Definition UnityAssertEqualStringArray : M unit :=
  RETURN_IF_FAIL_OR_IGNORE;;
  when (num_elements =? 0) (UnityPrintPointlessAndBail lineNumber msg);;
  if expected =? actual then skip
  else
    null ← UnityIsOneArrayNull expected actual lineNumber msg;
    when null (UNITY_PRINT_EOL;; UNITY_FAIL_AND_BAIL);;
    equal_string_array_loop (Z.to_nat num_elements) 0.
End string_array.

(** ** Memory blocks *)

Section memory.
Context (expected actual length num_elements : Z) (msg : cstring) (lineNumber : Z)
  (flags : UNITY_FLAGS_T).

(** The inner loop over the bytes of one element; returns the advanced pointers. *)
Fixpoint memory_bytes_loop (elements : Z) (bytes : nat) (ptr_exp ptr_act : Z) : M (Z * Z) :=
  match bytes with
  | O => mret (ptr_exp, ptr_act)
  | S bytes =>
      e ← load_uint ptr_exp 1;
      a ← load_uint ptr_act 1;
      (if negb (e =? a) then
        UnityTestResultsFailBegin lineNumber;;
        UnityPrint (Some UnityStrMemory);;
        when (num_elements >? 1)
          (UnityPrint (Some UnityStrElement);;
           UnityPrintNumberUnsigned (u32 (num_elements - elements - 1)));;
        UnityPrint (Some UnityStrByte);;
        UnityPrintNumberUnsigned (u32 (length - Z.of_nat bytes - 1));;
        UnityPrint (Some UnityStrExpected);;
        UnityPrintNumberByStyle e UNITY_DISPLAY_STYLE_HEX8;;
        UnityPrint (Some UnityStrWas);;
        UnityPrintNumberByStyle a UNITY_DISPLAY_STYLE_HEX8;;
        UnityAddMsgIfSpecified msg;;
        UNITY_PRINT_EOL;;
        UNITY_FAIL_AND_BAIL
      else skip);;
      memory_bytes_loop elements bytes (ptr_exp + 1) (ptr_act + 1)
  end.

Fixpoint memory_elements_loop (elements : nat) (ptr_exp ptr_act : Z) : M unit :=
  match elements with
  | O => skip
  | S elements =>
      '(ptr_exp, ptr_act) ← memory_bytes_loop (Z.of_nat elements) (Z.to_nat length) ptr_exp ptr_act;
      let ptr_exp := if decide (flags = UNITY_ARRAY_TO_VAL) then expected else ptr_exp in
      memory_elements_loop elements ptr_exp ptr_act
  end.

Definition UnityAssertEqualMemory : M unit :=
  RETURN_IF_FAIL_OR_IGNORE;;
  when ((num_elements =? 0) || (length =? 0)) (UnityPrintPointlessAndBail lineNumber msg);;
  if expected =? actual then skip
  else
    null ← UnityIsOneArrayNull expected actual lineNumber msg;
    when null (UNITY_PRINT_EOL;; UNITY_FAIL_AND_BAIL);;
    memory_elements_loop (Z.to_nat num_elements) expected actual.
End memory.

(** ** The value behind the EACH_EQUAL assertions *)

Definition UnityNumToPtr (num size : Z) : M Z :=
  let store n := store_uint addr_UnityQuickCompare n (uwrap (8 * Z.of_nat n) num);;
                 mret addr_UnityQuickCompare in
  if size =? 1 then store 1%nat
  else if size =? 2 then store 2%nat
  else if size =? 8 then store 8%nat
  else store 4%nat.

(** ** Failing, ignoring, messages *)

Definition UnityFail {A} (msg : cstring) (line : Z) : M A :=
  RETURN_IF_FAIL_OR_IGNORE;;
  modify (set_Unity (with_CurrentAssertionLineNumber line));;
  file ← get (TestFile ∘ Unity);
  UnityTestResultsBegin file line;;
  UnityPrint (Some UnityStrFail);;
  match msg with
  | Some m =>
      UNITY_OUTPUT_CHAR (chr ":");;
      print_details;;
      when (negb (char_val (hd 0 m) =? chr " ")) (UNITY_OUTPUT_CHAR (chr " "));;
      UnityPrint msg
  | None => skip
  end;;
  UNITY_PRINT_EOL;;
  UNITY_FAIL_AND_BAIL.

Definition UnityIgnore {A} (msg : cstring) (line : Z) : M A :=
  RETURN_IF_FAIL_OR_IGNORE;;
  file ← get (TestFile ∘ Unity);
  UnityTestResultsBegin file line;;
  UnityPrint (Some UnityStrIgnore);;
  match msg with
  | Some _ => UNITY_OUTPUT_CHAR (chr ":");; UNITY_OUTPUT_CHAR (chr " ");; UnityPrint msg
  | None => skip
  end;;
  UNITY_PRINT_EOL;;
  UNITY_IGNORE_AND_BAIL.

Definition UnityMessage (msg : cstring) (line : Z) : M unit :=
  file ← get (TestFile ∘ Unity);
  UnityTestResultsBegin file line;;
  UnityPrint (Some (str "INFO"));;
  match msg with
  | Some _ => UNITY_OUTPUT_CHAR (chr ":");; UNITY_OUTPUT_CHAR (chr " ");; UnityPrint msg
  | None => skip
  end;;
  UNITY_PRINT_EOL.

(** UNITY_TEST_ASSERT(condition, line, message) *)
Definition UNITY_TEST_ASSERT (condition : bool) (line : Z) (message : cstring) : M unit :=
  if condition then skip else UnityFail message line.

End assertions.
