(* ===== verification/UnityAssertSpec.v ===== *)
(** * What the assertions promise

    For each assertion function of UnityAssert: when it returns, what it
    reports, and that it reports exactly when the compared values violate
    the relation its name states. *)

From S2P Require Import Prelude CMachine UnityOutput UnityAssert.

(** ** The text of a report *)

Definition printableb (c : Z) : bool := (32 <=? c) && (c <=? 126).

Lemma emits_print_literal `{Target} s :
  forallb printableb s = true → emits (UnityPrint (Some s)) s.
Proof.
  intros Hs. rewrite <- (escape_printable_id s) at 2; [apply emits_UnityPrint|].
  apply Forall_forall. intros c Hc. apply list_elem_of_In in Hc.
  rewrite forallb_forall in Hs. apply Hs, andb_true_iff in Hc as [?%Z.leb_le ?%Z.leb_le].
  split; lia.
Qed.

#[export] Hint Extern 1 (emits (UnityPrint (Some _)) _) =>
  apply emits_print_literal; reflexivity : emits.

Definition begin_text (file : cstring) (line : Z) : list Z :=
  str "ASSERTION " ++ cstring_text file ++ str ":" ++ signed_decimal (i64 line) ++ str ":".

Definition details_text (u : UNITY_STORAGE_T) : list Z :=
  match CurrentDetail1 u with
  | Some d1 =>
      str "Function " ++ escape_all d1 ++
      (match CurrentDetail2 u with
       | Some d2 => str " Argument " ++ escape_all d2
       | None => []
       end) ++ str ". "
  | None => []
  end.

Definition msg_text (u : UNITY_STORAGE_T) (msg : cstring) : list Z :=
  match msg with
  | Some m => str ". " ++ details_text u ++ escape_all m
  | None => []
  end.

(** The state after a failed assertion: the line recorded, one line of text
    printed, the test marked as failed. *)
Definition report (line : Z) (text : list Z) (msg : cstring) (w : world) : world :=
  set_Unity (with_CurrentTestFailed 1)
    (emit (begin_text (TestFile (Unity w)) line ++ str "FAIL:" ++ text ++
           msg_text (Unity w) msg ++ [10])
      (set_Unity (with_CurrentAssertionLineNumber line) w)).

Section specs.
Context `{Target}.

Lemma emits_UnityTestResultsBegin file line :
  emits (UnityTestResultsBegin file line) (begin_text file line).
Proof. unfold UnityTestResultsBegin. emits_tac. Qed.

Lemma bind_get {A B} (f : world → A) (k : A → M B) w : (get f ≫= k) w = k (f w) w.
Proof. done. Qed.

Lemma print_details_eq w : print_details w = (Ret (), emit (details_text (Unity w)) w).
Proof.
  unfold print_details, details_text. rewrite bind_get. unfold compose.
  destruct (CurrentDetail1 (Unity w)) as [d1|]; [|by rewrite emit_nil].
  do 2 (erewrite emits_bind by eauto with emits). rewrite bind_get. simpl CurrentDetail2.
  destruct (CurrentDetail2 (Unity w)) as [d2|];
    (erewrite emits_bind by eauto with emits); rewrite emits_print_literal by done;
    by rewrite !emit_emit, <- ?app_assoc.
Qed.

Lemma UnityAddMsgIfSpecified_eq msg w :
  UnityAddMsgIfSpecified msg w = (Ret (), emit (msg_text (Unity w) msg) w).
Proof.
  destruct msg as [m|]; [|by rewrite emit_nil]. unfold UnityAddMsgIfSpecified.
  erewrite emits_bind by eauto with emits.
  rewrite (bind_Ret _ _ _ _ _ (print_details_eq _)), emits_UnityPrint.
  by rewrite !emit_emit, <- ?app_assoc.
Qed.

(** The state after UnityTestResultsFailBegin. *)
Definition fail_begin (line : Z) (w : world) : world :=
  emit (begin_text (TestFile (Unity w)) line ++ str "FAIL:")
    (set_Unity (with_CurrentAssertionLineNumber line) w).

Lemma UnityTestResultsFailBegin_eq line w :
  UnityTestResultsFailBegin line w = (Ret (), fail_begin line w).
Proof.
  unfold UnityTestResultsFailBegin.
  rewrite (bind_Ret _ _ _ _ _ (eq_refl : modify _ w = (Ret (), _))), bind_get.
  rewrite (emits_bind _ _ _ _ (emits_UnityTestResultsBegin _ _)).
  rewrite (emits_bind _ UnityStrFail) by by apply emits_print_literal.
  by rewrite emits_char, !emit_emit, <- ?app_assoc.
Qed.

(** Every report ends the same way. *)
Lemma finish_report {A} line text msg w :
  (UnityAddMsgIfSpecified msg;; UNITY_PRINT_EOL;; @UNITY_FAIL_AND_BAIL A)
    (emit text (fail_begin line w)) = (Jump, report line text msg w).
Proof.
  rewrite (bind_Ret _ _ _ _ _ (UnityAddMsgIfSpecified_eq _ _)), (emits_bind _ _ _ _ emits_EOL).
  unfold UNITY_FAIL_AND_BAIL, set_CurrentTestFailed, mbind, M_bind, modify, TEST_ABORT.
  unfold report, fail_begin. rewrite !emit_emit, <- !app_assoc. by destruct w.
Qed.

Lemma RETURN_IF_FAIL_OR_IGNORE_bind {A} (k : () → M A) w :
  (RETURN_IF_FAIL_OR_IGNORE ≫= k) w =
  if failed_or_ignored (Unity w) then (Jump, w) else k () w.
Proof.
  unfold RETURN_IF_FAIL_OR_IGNORE, mbind, M_bind, get. by destruct (failed_or_ignored (Unity w)).
Qed.
End specs.

(** Runs a report to its end: one rewriting per printing call. *)
Ltac run_report :=
  rewrite (bind_Ret _ _ _ _ _ (UnityTestResultsFailBegin_eq _ _));
  repeat (erewrite emits_bind by (eauto 20 with emits));
  rewrite ?emit_emit; rewrite finish_report; rewrite <- ?app_assoc; try done.

(** ** Scalars *)

(** The contract of an assertion: in a test that already failed or was ignored
    it leaves by longjmp and changes nothing; else it returns and changes
    nothing when [ok], and otherwise reports [text] and leaves by longjmp. *)
Definition asserts (m : M unit) (line : Z) (msg : cstring) (ok : bool) (text : list Z) : Prop :=
  ∀ w, m w = if failed_or_ignored (Unity w) then (Jump, w)
             else if ok then (Ret (), w) else (Jump, report line text msg w).

(** The order an ordering assertion decides, on the values its style displays. *)
Definition compare_ok (compare : UNITY_COMPARISON_T) (style : UNITY_DISPLAY_STYLE_T)
    (threshold actual : Z) : bool :=
  let v z := if style_is_int style then z else u64 z in
  match compare with
  | UNITY_GREATER_THAN => v actual >? v threshold
  | UNITY_GREATER_OR_EQUAL => v actual >=? v threshold
  | UNITY_SMALLER_THAN => v actual <? v threshold
  | UNITY_SMALLER_OR_EQUAL => v actual <=? v threshold
  | UNITY_NOT_EQUAL => negb (v actual =? v threshold)
  | UNITY_EQUAL_TO | UNITY_UNKNOWN => true
  end.

Definition compare_text (compare : UNITY_COMPARISON_T) : list Z :=
  match compare with
  | UNITY_GREATER_THAN => UnityStrGt
  | UNITY_GREATER_OR_EQUAL => UnityStrGt ++ UnityStrOrEqual
  | UNITY_SMALLER_THAN => UnityStrLt
  | UNITY_SMALLER_OR_EQUAL => UnityStrLt ++ UnityStrOrEqual
  | UNITY_NOT_EQUAL => UnityStrNotEqual
  | UNITY_EQUAL_TO | UNITY_UNKNOWN => UnityStrOrEqual
  end.

(** The distance two values have in the interpretation of a style. *)
Definition within (delta expected actual : Z) (style : UNITY_DISPLAY_STYLE_T) : bool :=
  let v z := if style_is_int style then z else u64 z in
  Z.abs (v actual - v expected) <=? delta.

Lemma u64_inj a b : int64 a → int64 b → u64 a = u64 b → a = b.
Proof.
  intros Ha Hb E. apply (swrap_eq_iff 64) in E; [|lia].
  rewrite !swrap_small in E; unfold int64 in *; simpl in *; lia.
Qed.

Lemma u64_cases z : int64 z → (0 ≤ z ∧ u64 z = z) ∨ (z < 0 ∧ u64 z = z + 2 ^ 64).
Proof.
  intros Hz. unfold int64 in Hz. destruct (Z_lt_ge_dec z 0) as [Hneg|Hpos].
  - right. split; [done|]. unfold u64, uwrap.
    rewrite <- (Z_mod_plus_full z 1 (2 ^ 64)), Z.mod_small; lia.
  - left. split; [lia|]. apply uwrap_small. lia.
Qed.

(** The subtraction at 64 bits is exact once the larger operand comes first. *)
Lemma u64_sub_exact a b : int64 a → int64 b → b ≤ a → u64 (u64 a - u64 b) = a - b.
Proof.
  intros Ha Hb Hle. unfold u64, uwrap. rewrite <- Zminus_mod. apply Z.mod_small.
  unfold int64 in *. lia.
Qed.

Lemma out_of_delta_spec delta expected actual style :
  int64 expected → int64 actual →
  out_of_delta delta expected actual style = if within delta expected actual style then 0 else 1.
Proof.
  intros He Ha. unfold out_of_delta, within.
  destruct (style_is_int style).
  - destruct (Z.gtb_spec actual expected).
    + rewrite u64_sub_exact by (done || lia).
      destruct (Z.gtb_spec (actual - expected) delta), (Z.leb_spec (Z.abs (actual - expected)) delta);
        lia.
    + rewrite u64_sub_exact by (done || lia).
      destruct (Z.gtb_spec (expected - actual) delta), (Z.leb_spec (Z.abs (actual - expected)) delta);
        lia.
  - pose proof (uint64_u64 expected). pose proof (uint64_u64 actual). unfold uint64 in *.
    unfold u64 at 3 6, uwrap.
    set (e := u64 expected) in *. set (a := u64 actual) in *.
    destruct (Z.gtb_spec a e); rewrite Z.mod_small by lia;
      [destruct (Z.gtb_spec (a - e) delta), (Z.leb_spec (Z.abs (a - e)) delta) |
       destruct (Z.gtb_spec (e - a) delta), (Z.leb_spec (Z.abs (a - e)) delta)]; lia.
Qed.

(** Assigning CurrentTestFailed and testing it, as several assertions do. *)
Lemma set_failed_bind {A} v (k : Z → M A) w :
  (set_CurrentTestFailed v;; f ← get (CurrentTestFailed ∘ Unity); k f) w =
  k v (set_Unity (with_CurrentTestFailed v) w).
Proof. done. Qed.

Lemma clear_failed_id w :
  failed_or_ignored (Unity w) = false → set_Unity (with_CurrentTestFailed 0) w = w.
Proof.
  intros [Ef _]%orb_false_iff. apply negb_false_iff, Z.eqb_eq in Ef.
  destruct w as [[] ? ? ? ? ?]; simpl in *; by subst.
Qed.

Lemma report_set_failed line text msg v w :
  report line text msg (set_Unity (with_CurrentTestFailed v) w) = report line text msg w.
Proof. by destruct w as [[] ? ? ? ? ?]. Qed.

Section scalar_specs.
Context `{Target}.

Lemma UnityAssertBits_spec mask expected actual msg line :
  asserts (UnityAssertBits mask expected actual msg line) line msg
    (Z.land mask expected =? Z.land mask actual)
    (UnityStrExpected ++ mask_text 32 (u64 mask) (u64 expected) ++ UnityStrWas ++
     mask_text 32 (u64 mask) (u64 actual)).
Proof.
  intros w. unfold UnityAssertBits. rewrite RETURN_IF_FAIL_OR_IGNORE_bind.
  destruct (failed_or_ignored (Unity w)); [done|].
  destruct (Z.land mask expected =? Z.land mask actual); [done|]. cbn [negb]. run_report.
Qed.

Lemma UnityAssertEqualNumber_spec expected actual msg line style :
  int64 expected → int64 actual →
  asserts (UnityAssertEqualNumber expected actual msg line style) line msg
    (expected =? actual)
    (UnityStrExpected ++ number_text expected style ++ UnityStrWas ++ number_text actual style).
Proof.
  intros He Ha w. unfold UnityAssertEqualNumber. rewrite RETURN_IF_FAIL_OR_IGNORE_bind.
  destruct (failed_or_ignored (Unity w)); [done|]. destruct (expected =? actual); [done|]. simpl. run_report.
Qed.

Lemma UnityAssertGreaterOrLessOrEqualNumber_spec threshold actual compare msg line style :
  int64 threshold → int64 actual →
  asserts (UnityAssertGreaterOrLessOrEqualNumber threshold actual compare msg line style) line msg
    (compare_ok compare style threshold actual)
    (UnityStrExpected ++ number_text actual style ++ compare_text compare ++
     number_text threshold style).
Proof.
  intros Ht Ha w. unfold UnityAssertGreaterOrLessOrEqualNumber.
  rewrite RETURN_IF_FAIL_OR_IGNORE_bind. destruct (failed_or_ignored (Unity w)); [done|].
  set (rep := UnityTestResultsFailBegin line ≫= _).
  assert (Hrep : rep w = (Jump, report line (UnityStrExpected ++ number_text actual style ++
            compare_text compare ++ number_text threshold style) msg w))
    by (subst rep; destruct compare; run_report).
  set (failure := (Jump, report _ _ _ _)) in *. clearbody rep failure. unfold compare_ok. cbn zeta.
  pose proof (u64_cases _ Ht) as Hut. pose proof (u64_cases _ Ha) as Hua.
  unfold int64 in Ht, Ha.
  destruct (style_is_int style), compare;
    repeat match goal with
      |- context [has_flag ?c ?f] =>
        let b := eval vm_compute in (has_flag c f) in change (has_flag c f) with b
    end; rewrite ?andb_true_r, ?andb_false_r, ?Z.gtb_ltb, ?Z.geb_leb;
    destruct (Z.eqb_spec threshold actual);
    repeat match goal with
      |- context [?a <? ?b] => destruct (Z.ltb_spec a b)
    | |- context [?a <=? ?b] => destruct (Z.leb_spec a b)
    end; cbn -[u64]; try done; try lia;
    match goal with |- context [?a =? ?b] => destruct (Z.eqb_spec a b) end;
    cbn -[u64]; try done; lia.
Qed.

Lemma UnityAssertNumbersWithin_spec delta expected actual msg line style :
  int64 expected → int64 actual →
  asserts (UnityAssertNumbersWithin delta expected actual msg line style) line msg
    (within delta expected actual style)
    (UnityStrDelta ++ number_text (i64 delta) style ++ UnityStrExpected ++
     number_text expected style ++ UnityStrWas ++ number_text actual style).
Proof.
  intros He Ha w. unfold UnityAssertNumbersWithin. rewrite RETURN_IF_FAIL_OR_IGNORE_bind.
  destruct (failed_or_ignored (Unity w)) eqn:Ef; [done|].
  rewrite out_of_delta_spec by done.
  rewrite set_failed_bind. destruct (within delta expected actual style); cbn [negb Z.eqb].
  - by rewrite clear_failed_id.
  - run_report.
Qed.
End scalar_specs.

(** ** Integer arrays *)

Section array_specs.
Context `{Target}.

(** The [n] signed objects of [size] bytes stored from address [a] on. *)
Definition read_int (m : gmap Z Z) (a : Z) (size : nat) : option Z :=
  swrap (8 * Z.of_nat size) <$> read_uint m a size.
Fixpoint read_ints (m : gmap Z Z) (a : Z) (size n : nat) : option (list Z) :=
  match n with
  | O => Some []
  | S n => v ← read_int m a size; l ← read_ints m (a + Z.of_nat size) size n; Some (v :: l)
  end.

(** What the flags make of the expected operand: an array, or one value for all. *)
Definition read_expected (flags : UNITY_FLAGS_T) (m : gmap Z Z) (a : Z) (size n : nat) :
    option (list Z) :=
  if decide (flags = UNITY_ARRAY_TO_ARRAY) then read_ints m a size n
  else replicate n <$> read_int m a size.

(** The first index at which two lists are not related, with the two values. *)
Fixpoint first_bad (ok : Z → Z → bool) (i : Z) (es xs : list Z) : option (Z * Z * Z) :=
  match es, xs with
  | e :: es, x :: xs => if ok e x then first_bad ok (i + 1) es xs else Some (i, e, x)
  | _, _ => None
  end.

Lemma load_int_eq a size w :
  load_int a size w = match read_int (mem w) a size with
                      | Some v => (Ret v, w) | None => (Undef, w) end.
Proof.
  unfold load_int, load_uint, read_int, mbind, M_bind, get. simpl.
  by destruct (read_uint (mem w) a size).
Qed.

Lemma load_int_bind {B} a size (k : Z → M B) v w :
  read_int (mem w) a size = Some v → (load_int a size ≫= k) w = k v w.
Proof. intros E. apply bind_Ret. by rewrite load_int_eq, E. Qed.

Lemma elem_length_cases style :
  elem_length style = 1 ∨ elem_length style = 2 ∨ elem_length style = 4 ∨ elem_length style = 8.
Proof. destruct style; vm_compute; auto. Qed.

Lemma read_int_int64 m a style v :
  read_int m a (Z.to_nat (elem_length style)) = Some v → int64 v.
Proof.
  unfold read_int. intros (u & _ & ->)%fmap_Some. apply int64_swrap.
  destruct (elem_length_cases style) as [->|[->|[->| ->]]]; simpl; lia.
Qed.

Lemma shown_value_int64 style v : int64 v → int64 (shown_value style v).
Proof.
  intros Hv. unfold shown_value. destruct (_ && _) eqn:E; [|done].
  apply andb_true_iff in E as [_ El%Z.ltb_lt]. change (UNITY_INT_WIDTH / 8) with 4 in El.
  assert (∃ k, 0 ≤ k ≤ 16 ∧ i64 (i64 (Z.shiftl 1 (8 * elem_length style)) - 1) = Z.ones k)
    as (k & Hk & ->).
  { destruct (elem_length_cases style) as [E|[E|[E|E]]]; rewrite E in *; try lia;
      [by exists 8 | by exists 16]. }
  rewrite Z.land_ones by lia. pose proof (Z.mod_pos_bound v (2 ^ k)).
  assert (2 ^ k ≤ 2 ^ 16) by (apply Z.pow_le_mono_r; lia). unfold int64. lia.
Qed.
#[local] Hint Resolve shown_value_int64 : emits.

Lemma read_expected_S flags m a size n es :
  read_expected flags m a size (S n) = Some es →
  ∃ e es', es = e :: es' ∧ read_int m a size = Some e ∧
    read_expected flags m (if decide (flags = UNITY_ARRAY_TO_ARRAY) then a + Z.of_nat size else a)
      size n = Some es'.
Proof.
  unfold read_expected. destruct (decide (flags = UNITY_ARRAY_TO_ARRAY)) as [Hf|Hf]; simpl.
  - intros (e & He & (l & Hl & [= <-])%bind_Some)%bind_Some. eauto.
  - intros (e & He & ->)%fmap_Some. rewrite He. eauto.
Qed.

Definition element_text (i e x : Z) (style : UNITY_DISPLAY_STYLE_T) : list Z :=
  UnityStrElement ++ decimal (u32 i) ++ UnityStrExpected ++
  number_text (shown_value style e) style ++ UnityStrWas ++
  number_text (shown_value style x) style.

Lemma equal_int_array_loop_eq num msg line style flags : ∀ n expected actual es xs w,
  read_expected flags (mem w) expected (Z.to_nat (elem_length style)) n = Some es →
  read_ints (mem w) actual (Z.to_nat (elem_length style)) n = Some xs →
  equal_int_array_loop num msg line style flags n expected actual w =
  match first_bad Z.eqb (num - Z.of_nat n) es xs with
  | None => (Ret (), w)
  | Some (i, e, x) => (Jump, report line (element_text i e x style) msg w)
  end.
Proof.
  assert (Hlen : Z.of_nat (Z.to_nat (elem_length style)) = elem_length style)
    by (destruct (elem_length_cases style) as [->|[->|[->| ->]]]; done).
  induction n as [|n IH]; intros expected actual es xs w He Hx.
  { simpl in Hx. simplify_eq. unfold read_expected in He. by case_decide; simplify_eq/=;
      [|apply fmap_Some in He as (? & _ & ->)]. }
  apply read_expected_S in He as (e & es' & -> & He & Hes).
  apply bind_Some in Hx as (x & Hx & (xs' & Hxs & [= <-])%bind_Some).
  rewrite Hlen in *. cbn [equal_int_array_loop first_bad].
  rewrite (load_int_bind _ _ _ _ _ He), (load_int_bind _ _ _ _ _ Hx).
  pose proof (read_int_int64 _ _ _ _ He). pose proof (read_int_int64 _ _ _ _ Hx).
  destruct (e =? x); cbn [negb].
  - change (skip ≫= _) with (equal_int_array_loop num msg line style flags n
      (if decide (flags = UNITY_ARRAY_TO_ARRAY) then expected + elem_length style else expected)
      (actual + elem_length style)).
    rewrite (IH _ _ _ _ _ Hes Hxs). by replace (num - Z.of_nat n) with (num - Z.of_nat (S n) + 1) by lia.
  - apply bind_Jump. replace (num - Z.of_nat n - 1) with (num - Z.of_nat (S n)) by lia. run_report.
Qed.

Lemma numbers_array_within_loop_eq num msg line style flags delta : ∀ n expected actual es xs w,
  failed_or_ignored (Unity w) = false →
  read_expected flags (mem w) expected (Z.to_nat (elem_length style)) n = Some es →
  read_ints (mem w) actual (Z.to_nat (elem_length style)) n = Some xs →
  numbers_array_within_loop num msg line style flags delta n expected actual w =
  match first_bad (λ e x, within delta e x style) (num - Z.of_nat n) es xs with
  | None => (Ret (), w)
  | Some (i, e, x) =>
      (Jump, report line (UnityStrDelta ++ number_text (i64 delta) style ++
                          element_text i e x style) msg w)
  end.
Proof.
  assert (Hlen : Z.of_nat (Z.to_nat (elem_length style)) = elem_length style)
    by (destruct (elem_length_cases style) as [->|[->|[->| ->]]]; done).
  induction n as [|n IH]; intros expected actual es xs w Hw He Hx.
  { simpl in Hx. simplify_eq. unfold read_expected in He. by case_decide; simplify_eq/=;
      [|apply fmap_Some in He as (? & _ & ->)]. }
  apply read_expected_S in He as (e & es' & -> & He & Hes).
  apply bind_Some in Hx as (x & Hx & (xs' & Hxs & [= <-])%bind_Some).
  rewrite Hlen in *. cbn [numbers_array_within_loop first_bad].
  rewrite (load_int_bind _ _ _ _ _ He), (load_int_bind _ _ _ _ _ Hx).
  pose proof (read_int_int64 _ _ _ _ He). pose proof (read_int_int64 _ _ _ _ Hx).
  rewrite out_of_delta_spec, set_failed_bind by done.
  destruct (within delta e x style); cbn [negb Z.eqb].
  - rewrite clear_failed_id by done.
    change (skip ≫= _) with (numbers_array_within_loop num msg line style flags delta n
      (if decide (flags = UNITY_ARRAY_TO_ARRAY) then expected + elem_length style else expected)
      (actual + elem_length style)).
    rewrite (IH _ _ _ _ _ Hw Hes Hxs).
    by replace (num - Z.of_nat n) with (num - Z.of_nat (S n) + 1) by lia.
  - apply bind_Jump. replace (num - Z.of_nat n - 1) with (num - Z.of_nat (S n)) by lia. run_report.
Qed.

(** The prologue the array assertions share: an empty comparison and a single
    null operand are reported, an operand compared with itself passes. *)
Definition array_prologue (expected actual : Z) (pointless : bool) (k : outcome () * world)
    (line : Z) (msg : cstring) (w : world) : outcome () * world :=
  if failed_or_ignored (Unity w) then (Jump, w)
  else if pointless then (Jump, report line UnityStrPointless msg w)
  else if expected =? actual then (Ret (), w)
  else if expected =? 0 then (Jump, report line UnityStrNullPointerForExpected msg w)
  else if actual =? 0 then (Jump, report line UnityStrNullPointerForActual msg w)
  else k.

Lemma UnityIsOneArrayNull_eq expected actual line msg w :
  UnityIsOneArrayNull expected actual line msg w =
  let null text := (Ret true, emit (text ++ msg_text (Unity w) msg) (fail_begin line w)) in
  if expected =? actual then (Ret false, w)
  else if expected =? 0 then null UnityStrNullPointerForExpected
  else if actual =? 0 then null UnityStrNullPointerForActual
  else (Ret false, w).
Proof.
  unfold UnityIsOneArrayNull. destruct (expected =? actual); [done|].
  destruct (expected =? 0); [|destruct (actual =? 0); [|done]];
    rewrite (bind_Ret _ _ _ _ _ (UnityTestResultsFailBegin_eq _ _));
    (erewrite emits_bind by eauto with emits);
    rewrite (bind_Ret _ _ _ _ _ (UnityAddMsgIfSpecified_eq _ _)), emit_emit; done.
Qed.

Lemma finish_null_report {A} line text msg w :
  (UNITY_PRINT_EOL;; @UNITY_FAIL_AND_BAIL A)
    (emit (text ++ msg_text (Unity w) msg) (fail_begin line w)) = (Jump, report line text msg w).
Proof.
  rewrite (emits_bind _ _ _ _ emits_EOL).
  unfold UNITY_FAIL_AND_BAIL, set_CurrentTestFailed, mbind, M_bind, modify, TEST_ABORT.
  unfold report, fail_begin. by rewrite !emit_emit, <- !app_assoc.
Qed.

Lemma array_prologue_eq expected actual pointless (body : M unit) line msg w :
  (RETURN_IF_FAIL_OR_IGNORE;;
   when pointless (UnityPrintPointlessAndBail line msg);;
   if expected =? actual then skip
   else null ← UnityIsOneArrayNull expected actual line msg;
        when null (UNITY_PRINT_EOL;; UNITY_FAIL_AND_BAIL);; body) w =
  array_prologue expected actual pointless (body w) line msg w.
Proof.
  rewrite RETURN_IF_FAIL_OR_IGNORE_bind. unfold array_prologue.
  destruct (failed_or_ignored (Unity w)); [done|].
  destruct pointless; simpl when.
  { apply bind_Jump. unfold UnityPrintPointlessAndBail. run_report. }
  rewrite (emits_bind _ [] _ _ emits_skip), emit_nil.
  destruct (expected =? actual) eqn:E; [done|].
  unfold mbind at 1, M_bind. rewrite UnityIsOneArrayNull_eq, E. cbn zeta.
  destruct (expected =? 0); [|destruct (actual =? 0); [|done]];
    apply bind_Jump, finish_null_report.
Qed.

(** The outcome of comparing two loaded arrays. *)
Definition array_outcome (bad : option (Z * Z * Z)) (text : Z → Z → Z → list Z) (line : Z)
    (msg : cstring) (w : world) : outcome () * world :=
  match bad with
  | None => (Ret (), w)
  | Some (i, e, x) => (Jump, report line (text i e x) msg w)
  end.

Lemma UnityAssertEqualIntArray_spec expected actual num msg line style flags es xs w :
  0 ≤ num →
  read_expected flags (mem w) expected (Z.to_nat (elem_length style)) (Z.to_nat num) = Some es →
  read_ints (mem w) actual (Z.to_nat (elem_length style)) (Z.to_nat num) = Some xs →
  UnityAssertEqualIntArray expected actual num msg line style flags w =
  array_prologue expected actual (num =? 0)
    (array_outcome (first_bad Z.eqb 0 es xs) (λ i e x, element_text i e x style) line msg w)
    line msg w.
Proof.
  intros Hn He Hx. unfold UnityAssertEqualIntArray. rewrite array_prologue_eq.
  rewrite (equal_int_array_loop_eq _ _ _ _ _ _ _ _ _ _ _ He Hx).
  by rewrite Z2Nat.id, Z.sub_diag by done.
Qed.

Lemma UnityAssertNumbersArrayWithin_spec delta expected actual num msg line style flags es xs w :
  0 ≤ num →
  read_expected flags (mem w) expected (Z.to_nat (elem_length style)) (Z.to_nat num) = Some es →
  read_ints (mem w) actual (Z.to_nat (elem_length style)) (Z.to_nat num) = Some xs →
  UnityAssertNumbersArrayWithin delta expected actual num msg line style flags w =
  array_prologue expected actual (num =? 0)
    (array_outcome (first_bad (λ e x, within delta e x style) 0 es xs)
      (λ i e x, UnityStrDelta ++ number_text (i64 delta) style ++ element_text i e x style)
      line msg w)
    line msg w.
Proof.
  intros Hn He Hx. unfold UnityAssertNumbersArrayWithin. rewrite array_prologue_eq.
  unfold array_prologue. destruct (failed_or_ignored (Unity w)) eqn:Ef; [done|].
  rewrite (numbers_array_within_loop_eq _ _ _ _ _ _ _ _ _ _ _ _ Ef He Hx).
  by rewrite Z2Nat.id, Z.sub_diag by done.
Qed.

Lemma first_bad_None ok i es xs :
  length es = length xs → first_bad ok i es xs = None ↔ Forall2 (λ e x, ok e x = true) es xs.
Proof.
  revert i xs. induction es as [|e es IH]; intros i [|x xs] Hl; simpl in *; try done.
  destruct (ok e x) eqn:E.
  - rewrite IH by lia. split; [by constructor | by inversion 1].
  - split; [done | inversion 1; congruence].
Qed.

Lemma first_bad_eq_None i es xs :
  length es = length xs → first_bad Z.eqb i es xs = None ↔ es = xs.
Proof.
  intros Hl. rewrite first_bad_None by done. split.
  - induction 1 as [|e x es xs E _ IH]; [done|]. apply Z.eqb_eq in E. subst. f_equal. by apply IH; simpl in *; lia.
  - intros ->. clear. induction xs; constructor; [apply Z.eqb_refl | done].
Qed.

Lemma length_read_ints m a size n xs : read_ints m a size n = Some xs → length xs = n.
Proof.
  revert a xs. induction n as [|n IH]; intros a xs; simpl; [by intros [= <-]|].
  intros (v & _ & (l & Hl & [= <-])%bind_Some)%bind_Some. simpl. by rewrite (IH _ _ Hl).
Qed.

Lemma length_read_expected flags m a size n es :
  read_expected flags m a size n = Some es → length es = n.
Proof.
  unfold read_expected. case_decide; [apply length_read_ints|].
  intros (v & _ & ->)%fmap_Some. apply length_replicate.
Qed.
End array_specs.

(** ** Strings *)

Definition is_byte (c : Z) : Prop := 0 ≤ c < 256.
Definition is_text (s : cstring) : Prop :=
  match s with Some s => Forall is_byte s | None => True end.

Definition quoted (s : cstring) : list Z :=
  match s with Some s => str "'" ++ escape_all s ++ str "'" | None => UnityStrNull end.

Definition strings_text (expected actual : cstring) : list Z :=
  UnityStrExpected ++ quoted expected ++ UnityStrWas ++ quoted actual.

Section string_specs.
Context `{Target}.

Lemma char_val_inj c d : is_byte c → is_byte d → char_val c = char_val d → c = d.
Proof.
  unfold is_byte. intros Hc Hd.
  destruct (char_val_cases c Hc) as [->|[? ->]], (char_val_cases d Hd) as [->|[? ->]]; lia.
Qed.

Lemma strings_differ_spec e a :
  Forall is_byte e → Forall is_byte a → strings_differ e a = bool_decide (e ≠ a).
Proof.
  intros He. revert a. induction He as [|c e Hc He IH]; intros a Ha; destruct Ha as [|d a Hd Ha];
    cbn [strings_differ]; try done.
  destruct (Z.eqb_spec (char_val c) (char_val d)) as [E|E]; simpl.
  - apply char_val_inj in E; [|done..]. subst d. rewrite IH by done. apply bool_decide_ext. naive_solver.
  - symmetry. apply bool_decide_true. naive_solver.
Qed.

Lemma strings_differ_len_spec n e a :
  Forall is_byte e → Forall is_byte a →
  strings_differ_len n e a = bool_decide (take n e ≠ take n a).
Proof.
  intros He Ha. rewrite <- strings_differ_spec by (by apply Forall_take).
  clear He Ha. revert e a. induction n as [|n IH]; intros [|c e] [|d a]; simpl; try done.
  by rewrite IH.
Qed.

(** compare_strings marks the test exactly when the relation does not hold. *)
Lemma compare_strings_bind {A} differ ok expected actual (k : Z → M A) w :
  failed_or_ignored (Unity w) = false →
  (∀ e a, expected = Some e → actual = Some a → differ e a = negb (ok expected actual)) →
  (expected = None ∨ actual = None → ok expected actual = bool_decide (expected = actual)) →
  (compare_strings differ expected actual;; f ← get (CurrentTestFailed ∘ Unity); k f) w =
  if ok expected actual then k 0 w else k 1 (set_Unity (with_CurrentTestFailed 1) w).
Proof.
  intros Hw Hd Hn.
  assert (Hs : (skip;; f ← get (CurrentTestFailed ∘ Unity); k f) w = k 0 w).
  { apply orb_false_iff in Hw as [Hw%negb_false_iff _]. apply Z.eqb_eq in Hw.
    unfold mbind, M_bind, get, skip, mret, M_ret, compose. by rewrite Hw. }
  destruct expected as [e|], actual as [a|]; simpl compare_strings.
  - rewrite (Hd e a) by done. by destruct (ok _ _).
  - rewrite Hn by auto. by rewrite bool_decide_false by done.
  - rewrite Hn by auto. by rewrite bool_decide_false by done.
  - rewrite Hn by auto. by rewrite bool_decide_true by done.
Qed.

Lemma emits_print_quoted_or_null s : emits (print_quoted_or_null s) (quoted s).
Proof. destruct s; unfold print_quoted_or_null; emits_tac. Qed.
#[local] Hint Resolve emits_print_quoted_or_null : emits.

Lemma emits_ExpectedAndActualStrings e a :
  emits (UnityPrintExpectedAndActualStrings e a) (strings_text e a).
Proof. unfold UnityPrintExpectedAndActualStrings. emits_tac. Qed.
#[local] Hint Resolve emits_ExpectedAndActualStrings : emits.

Lemma emits_print_quoted_len_or_null s length :
  short_text s →
  emits (print_quoted_len_or_null s length) (quoted (take (Z.to_nat length) <$> s)).
Proof.
  intros Hs. destruct s as [s|]; unfold print_quoted_len_or_null; [|emits_tac].
  apply (emits_seq _ _ [39]); [apply emits_char|].
  apply emits_seq; [by apply (emits_UnityPrintLen (Some s)) | apply emits_char].
Qed.
#[local] Hint Resolve emits_print_quoted_len_or_null : emits.

Lemma emits_ExpectedAndActualStringsLen e a length :
  short_text e → short_text a →
  emits (UnityPrintExpectedAndActualStringsLen e a length)
    (strings_text (take (Z.to_nat length) <$> e) (take (Z.to_nat length) <$> a)).
Proof. intros. unfold UnityPrintExpectedAndActualStringsLen. emits_tac. Qed.
#[local] Hint Resolve emits_ExpectedAndActualStringsLen : emits.
#[local] Hint Extern 1 (short_text _) => assumption : emits.

Lemma UnityAssertEqualString_spec expected actual msg line :
  is_text expected → is_text actual →
  asserts (UnityAssertEqualString expected actual msg line) line msg
    (bool_decide (expected = actual)) (strings_text expected actual).
Proof.
  intros He Ha w. unfold UnityAssertEqualString. rewrite RETURN_IF_FAIL_OR_IGNORE_bind.
  destruct (failed_or_ignored (Unity w)) eqn:Ef; [done|].
  rewrite (compare_strings_bind _ (λ e a, bool_decide (e = a))); [| done | | done].
  - destruct (bool_decide (expected = actual)); cbn [negb Z.eqb]; [done | run_report].
  - intros e a -> ->. rewrite strings_differ_spec, bool_decide_not by done. f_equal.
    apply bool_decide_ext. naive_solver.
Qed.

Lemma UnityAssertEqualStringLen_spec expected actual length msg line :
  is_text expected → is_text actual → short_text expected → short_text actual →
  asserts (UnityAssertEqualStringLen expected actual length msg line) line msg
    (bool_decide (take (Z.to_nat length) <$> expected = take (Z.to_nat length) <$> actual))
    (strings_text (take (Z.to_nat length) <$> expected) (take (Z.to_nat length) <$> actual)).
Proof.
  intros He Ha Hse Hsa w. unfold UnityAssertEqualStringLen. rewrite RETURN_IF_FAIL_OR_IGNORE_bind.
  destruct (failed_or_ignored (Unity w)) eqn:Ef; [done|].
  rewrite (compare_strings_bind _ (λ e a, bool_decide
    (take (Z.to_nat length) <$> e = take (Z.to_nat length) <$> a))); [| done | |].
  - case_match; cbn [negb Z.eqb]; [done | run_report].
  - intros e a -> ->. rewrite strings_differ_len_spec, bool_decide_not by done. f_equal.
    apply bool_decide_ext. simpl. split; congruence.
  - intros Hn. apply bool_decide_ext.
    destruct expected, actual; simpl; destruct Hn; try done; split; congruence.
Qed.

(** The [n] strings an array of pointers at [a] refers to. *)
Definition read_cstring (m : gmap Z Z) (a : Z) : option cstring :=
  if a =? 0 then Some None else Some <$> read_cstr (S (size m)) m a.
Definition read_string_at (m : gmap Z Z) (p j : Z) : option cstring :=
  a ← read_uint m (p + j * Z.of_nat pointer_bytes) pointer_bytes; read_cstring m a.
Fixpoint read_strings (m : gmap Z Z) (p j : Z) (n : nat) : option (list cstring) :=
  match n with
  | O => Some []
  | S n => s ← read_string_at m p j; l ← read_strings m p (j + 1) n; Some (s :: l)
  end.
Definition read_expected_strings (flags : UNITY_FLAGS_T) (m : gmap Z Z) (p j : Z) (n : nat) :
    option (list cstring) :=
  if decide (flags = UNITY_ARRAY_TO_ARRAY) then read_strings m p j n
  else replicate n <$> read_cstring m p.

Fixpoint first_bad_string (j : Z) (es xs : list cstring) : option (Z * cstring * cstring) :=
  match es, xs with
  | e :: es, x :: xs =>
      if bool_decide (e = x) then first_bad_string (j + 1) es xs else Some (j, e, x)
  | _, _ => None
  end.

Lemma load_cstring_bind {B} a (k : cstring → M B) s w :
  read_cstring (mem w) a = Some s → (load_cstring a ≫= k) w = k s w.
Proof.
  intros Hs. apply bind_Ret. unfold read_cstring in Hs. unfold load_cstring.
  destruct (a =? 0); [by simplify_eq|]. apply fmap_Some in Hs as (c & Hc & ->).
  unfold mbind, M_bind, get. by rewrite Hc.
Qed.

Lemma load_string_at_bind {B} p j (k : cstring → M B) s w :
  read_string_at (mem w) p j = Some s → (load_string_at p j ≫= k) w = k s w.
Proof.
  unfold read_string_at. intros (a & Ha & Hs)%bind_Some. unfold load_string_at.
  rewrite bind_assoc. unfold load_uint. rewrite bind_assoc, bind_get, Ha. simpl of_option.
  change ((mret a ≫= λ a, load_cstring a ≫= k) w) with ((load_cstring a ≫= k) w).
  by apply load_cstring_bind.
Qed.

Definition string_element_text (num j : Z) (e x : cstring) : list Z :=
  (if num >? 1 then UnityStrElement ++ decimal (u32 j) else []) ++ strings_text e x.

Lemma equal_string_array_loop_eq expected actual num msg line flags : ∀ n j es xs w,
  failed_or_ignored (Unity w) = false →
  read_expected_strings flags (mem w) expected j n = Some es →
  read_strings (mem w) actual j n = Some xs →
  Forall is_text es → Forall is_text xs →
  equal_string_array_loop expected actual num msg line flags n j w =
  match first_bad_string j es xs with
  | None => (Ret (), w)
  | Some (j, e, x) => (Jump, report line (string_element_text num j e x) msg w)
  end.
Proof.
  induction n as [|n IH]; intros j es xs w Hw He Hx Hte Htx.
  { simpl in Hx. simplify_eq. by destruct es. }
  apply bind_Some in Hx as (x & Hx & (xs' & Hxs & [= <-])%bind_Some).
  assert (∃ e es', es = e :: es' ∧
    (∀ k : cstring → M unit, ((if decide (flags = UNITY_ARRAY_TO_ARRAY) then load_string_at expected j
            else load_cstring expected) ≫= k) w = k e w) ∧
    read_expected_strings flags (mem w) expected (j + 1) n = Some es') as (e & es' & -> & Hl & Hes).
  { unfold read_expected_strings in *. destruct (decide (flags = UNITY_ARRAY_TO_ARRAY)) as [Hf|Hf].
    - apply bind_Some in He as (e & He & (es' & Hes & [= <-])%bind_Some).
      exists e, es'. split_and!; [done | intros; by apply load_string_at_bind | done].
    - apply fmap_Some in He as (e & He & ->). exists e, (replicate n e).
      split_and!; [done | intros; by apply load_cstring_bind | by rewrite He]. }
  inversion_clear Hte. inversion_clear Htx. cbn [equal_string_array_loop first_bad_string].
  rewrite (load_string_at_bind _ _ _ _ _ Hx), Hl.
  rewrite (compare_strings_bind _ (λ e a, bool_decide (e = a))); [| done | | done].
  - destruct (bool_decide (e = x)); cbn [negb Z.eqb].
    + change ((skip ≫= _) w) with (equal_string_array_loop expected actual num msg line flags n (j + 1) w).
      by apply IH.
    + apply bind_Jump. run_report.
  - intros e' a -> ->. rewrite strings_differ_spec, bool_decide_not by done. f_equal.
    apply bool_decide_ext. naive_solver.
Qed.

Lemma UnityAssertEqualStringArray_spec expected actual num msg line flags es xs w :
  0 ≤ num →
  read_expected_strings flags (mem w) expected 0 (Z.to_nat num) = Some es →
  read_strings (mem w) actual 0 (Z.to_nat num) = Some xs →
  Forall is_text es → Forall is_text xs →
  UnityAssertEqualStringArray expected actual num msg line flags w =
  array_prologue expected actual (num =? 0)
    (match first_bad_string 0 es xs with
     | None => (Ret (), w)
     | Some (j, e, x) => (Jump, report line (string_element_text num j e x) msg w)
     end) line msg w.
Proof.
  intros Hn He Hx Hte Htx. unfold UnityAssertEqualStringArray. rewrite array_prologue_eq.
  unfold array_prologue. destruct (failed_or_ignored (Unity w)) eqn:Ef; [done|].
  by rewrite (equal_string_array_loop_eq _ _ _ _ _ _ _ _ _ _ _ Ef He Hx).
Qed.
End string_specs.

(** ** Memory blocks *)

Section memory_specs.
Context `{Target}.

Fixpoint read_blocks (m : gmap Z Z) (a : Z) (len n : nat) : option (list (list Z)) :=
  match n with
  | O => Some []
  | S n => b ← read_bytes m a len; l ← read_blocks m (a + Z.of_nat len) len n; Some (b :: l)
  end.
Definition read_expected_blocks (flags : UNITY_FLAGS_T) (m : gmap Z Z) (a : Z) (len n : nat) :
    option (list (list Z)) :=
  if decide (flags = UNITY_ARRAY_TO_VAL) then replicate n <$> read_bytes m a len
  else read_blocks m a len n.

(** The first differing byte: block index, byte index, the two bytes. *)
Fixpoint first_bad_block (i : Z) (es xs : list (list Z)) : option (Z * Z * Z * Z) :=
  match es, xs with
  | e :: es, x :: xs =>
      match first_bad Z.eqb 0 e x with
      | Some (j, c, d) => Some (i, j, c, d)
      | None => first_bad_block (i + 1) es xs
      end
  | _, _ => None
  end.

Definition memory_text (num i j c d : Z) : list Z :=
  UnityStrMemory ++ (if num >? 1 then UnityStrElement ++ decimal (u32 i) else []) ++
  UnityStrByte ++ decimal (u32 j) ++ UnityStrExpected ++
  number_text c UNITY_DISPLAY_STYLE_HEX8 ++ UnityStrWas ++
  number_text d UNITY_DISPLAY_STYLE_HEX8.

Lemma load_byte_bind {B} a (k : Z → M B) c w :
  mem w !! a = Some c → (load_uint a 1 ≫= k) w = k c w.
Proof.
  intros Hc. unfold load_uint. rewrite bind_assoc, bind_get. unfold read_uint. simpl. rewrite Hc.
  simpl. unfold of_bytes. destruct big_endian; simpl; by rewrite Z.add_0_r.
Qed.

(** Memory holds bytes. *)
Definition bytes_ok (m : gmap Z Z) : Prop := map_Forall (λ _ c, is_byte c) m.

Lemma bytes_ok_int64 m a c : bytes_ok m → m !! a = Some c → int64 c.
Proof. intros Hm Ha. apply Hm in Ha. unfold is_byte, int64 in *. lia. Qed.

Lemma memory_bytes_loop_eq length num msg line elements : ∀ n pe pa es xs w,
  bytes_ok (mem w) →
  read_bytes (mem w) pe n = Some es → read_bytes (mem w) pa n = Some xs →
  memory_bytes_loop length num msg line elements n pe pa w =
  match first_bad Z.eqb (length - Z.of_nat n) es xs with
  | None => (Ret (pe + Z.of_nat n, pa + Z.of_nat n), w)
  | Some (j, c, d) => (Jump, report line (memory_text num (num - elements - 1) j c d) msg w)
  end.
Proof.
  induction n as [|n IH]; intros pe pa es xs w Hm He Hx.
  { simpl in *. simplify_eq. simpl. by rewrite !Z.add_0_r. }
  apply bind_Some in He as (e & He & (es' & Hes & [= <-])%bind_Some).
  apply bind_Some in Hx as (x & Hx & (xs' & Hxs & [= <-])%bind_Some).
  cbn [memory_bytes_loop first_bad].
  rewrite (load_byte_bind _ _ _ _ He), (load_byte_bind _ _ _ _ Hx).
  pose proof (bytes_ok_int64 _ _ _ Hm He). pose proof (bytes_ok_int64 _ _ _ Hm Hx).
  destruct (e =? x); cbn [negb].
  - change ((skip ≫= _) w)
      with (memory_bytes_loop length num msg line elements n (pe + 1) (pa + 1) w).
    rewrite (IH _ _ _ _ _ Hm Hes Hxs).
    replace (length - Z.of_nat n) with (length - Z.of_nat (S n) + 1) by lia.
    destruct (first_bad _ _ _ _) as [[[j c] d]|]; [done|].
    by rewrite Nat2Z.inj_succ, <- !Z.add_1_l, !Z.add_assoc.
  - apply bind_Jump. replace (length - Z.of_nat n - 1) with (length - Z.of_nat (S n)) by lia.
    run_report.
Qed.

Lemma memory_elements_loop_eq expected length num msg line flags : ∀ n pe pa es xs w,
  0 ≤ length → bytes_ok (mem w) → (flags = UNITY_ARRAY_TO_VAL → pe = expected) →
  read_expected_blocks flags (mem w) pe (Z.to_nat length) n = Some es →
  read_blocks (mem w) pa (Z.to_nat length) n = Some xs →
  memory_elements_loop expected length num msg line flags n pe pa w =
  match first_bad_block (num - Z.of_nat n) es xs with
  | None => (Ret (), w)
  | Some (i, j, c, d) => (Jump, report line (memory_text num i j c d) msg w)
  end.
Proof.
  induction n as [|n IH]; intros pe pa es xs w Hl Hm Hv He Hx.
  { simpl in Hx. simplify_eq. by destruct es. }
  apply bind_Some in Hx as (x & Hx & (xs' & Hxs & [= <-])%bind_Some).
  assert (∃ e es', es = e :: es' ∧ read_bytes (mem w) pe (Z.to_nat length) = Some e ∧
    read_expected_blocks flags (mem w)
      (if decide (flags = UNITY_ARRAY_TO_VAL) then expected else pe + Z.of_nat (Z.to_nat length))
      (Z.to_nat length) n = Some es') as (e & es' & -> & He' & Hes).
  { unfold read_expected_blocks in *. destruct (decide (flags = UNITY_ARRAY_TO_VAL)) as [Hf|Hf].
    - apply fmap_Some in He as (e & He & ->). rewrite <- (Hv Hf). exists e, (replicate n e).
      by rewrite He.
    - apply bind_Some in He as (e & He & (es' & Hes & [= <-])%bind_Some). eauto. }
  cbn [memory_elements_loop first_bad_block].
  pose proof (memory_bytes_loop_eq length num msg line (Z.of_nat n) _ _ _ _ _ _ Hm He' Hx) as Hb.
  rewrite Z2Nat.id, Z.sub_diag in Hb by done. rewrite Z2Nat.id in * by done.
  destruct (first_bad Z.eqb 0 e x) as [[[j c] d]|].
  - rewrite (bind_Jump _ _ _ _ Hb).
    by replace (num - Z.of_nat n - 1) with (num - Z.of_nat (S n)) by lia.
  - rewrite (bind_Ret _ _ _ _ _ Hb). erewrite IH; try done.
    + by replace (num - Z.of_nat n) with (num - Z.of_nat (S n) + 1) by lia.
    + intros Hf. by case_decide.
Qed.

Lemma UnityAssertEqualMemory_spec expected actual length num msg line flags es xs w :
  0 ≤ length → 0 ≤ num → bytes_ok (mem w) →
  read_expected_blocks flags (mem w) expected (Z.to_nat length) (Z.to_nat num) = Some es →
  read_blocks (mem w) actual (Z.to_nat length) (Z.to_nat num) = Some xs →
  UnityAssertEqualMemory expected actual length num msg line flags w =
  array_prologue expected actual ((num =? 0) || (length =? 0))
    (match first_bad_block 0 es xs with
     | None => (Ret (), w)
     | Some (i, j, c, d) => (Jump, report line (memory_text num i j c d) msg w)
     end) line msg w.
Proof.
  intros Hl Hn Hm He Hx. unfold UnityAssertEqualMemory. rewrite array_prologue_eq.
  rewrite (memory_elements_loop_eq _ _ _ _ _ _ _ _ _ _ _ _ Hl Hm (λ _, eq_refl) He Hx).
  by rewrite Z2Nat.id, Z.sub_diag by done.
Qed.

Lemma length_read_bytes m a n l : read_bytes m a n = Some l → length l = n.
Proof.
  revert a l. induction n as [|n IH]; intros a l; simpl; [by intros [= <-]|].
  intros (v & _ & (k & Hk & [= <-])%bind_Some)%bind_Some. simpl. by rewrite (IH _ _ Hk).
Qed.

Lemma read_blocks_lengths m a len n l :
  read_blocks m a len n = Some l → length l = n ∧ Forall (λ b, length b = len) l.
Proof.
  revert a l. induction n as [|n IH]; intros a l; simpl; [by intros [= <-]|].
  intros (v & Hv & (k & Hk & [= <-])%bind_Some)%bind_Some.
  apply length_read_bytes in Hv. apply IH in Hk as [? ?]. simpl. split; [lia | by constructor].
Qed.

Lemma read_expected_blocks_lengths flags m a len n l :
  read_expected_blocks flags m a len n = Some l → length l = n ∧ Forall (λ b, length b = len) l.
Proof.
  unfold read_expected_blocks. case_decide; [|apply read_blocks_lengths].
  intros (v & Hv%length_read_bytes & ->)%fmap_Some. split; [apply length_replicate|].
  by apply Forall_replicate.
Qed.

Lemma first_bad_block_None len i es xs :
  length es = length xs → Forall (λ b, length b = len) es → Forall (λ b, length b = len) xs →
  first_bad_block i es xs = None ↔ es = xs.
Proof.
  intros Hl He. revert i xs Hl.
  induction He as [|e es He Hes IH]; intros i [|x xs] Hl Hx; simpl in *; try done.
  inversion_clear Hx as [|?? Hx' Hxs].
  pose proof (first_bad_eq_None 0 e x ltac:(congruence)) as Hb.
  destruct (first_bad Z.eqb 0 e x) as [[[j c] d]|].
  - split; [done|]. intros [= E1 E2]. by apply Hb in E1.
  - rewrite IH by (done || lia). rewrite (proj1 Hb eq_refl). split; congruence.
Qed.

(** ** UnityNumToPtr *)

Lemma read_write_bytes m a l : read_bytes (write_bytes m a l) a (length l) = Some l.
Proof.
  assert (Hne : ∀ l a b m, b < a → write_bytes m a l !! b = m !! b).
  { clear. induction l as [|c l IH]; intros a b m Hlt; simpl; [done|].
    rewrite lookup_insert_ne by lia. apply IH. lia. }
  assert (Hfr : ∀ n a m c b, b < a → read_bytes (<[b:=c]> m) a n = read_bytes m a n).
  { clear. induction n as [|n IH]; intros a m c b Hlt; simpl; [done|].
    rewrite lookup_insert_ne, IH by lia. done. }
  revert a. induction l as [|c l IH]; intros a; simpl; [done|].
  rewrite lookup_insert_eq. simpl. rewrite Hfr, IH by lia. done.
Qed.

Lemma length_le_split n z : length (le_split n z) = n.
Proof. revert z. induction n; simpl; auto. Qed.

Lemma le_combine_split n z : 0 ≤ z → le_combine (le_split n z) = z mod 256 ^ Z.of_nat n.
Proof.
  revert z. induction n as [|n IH]; intros z Hz; cbn [le_split le_combine]; [by rewrite Z.mod_1_r|].
  rewrite IH by (apply Z.div_pos; lia).
  rewrite Nat2Z.inj_succ, Z.pow_succ_r, Z.rem_mul_r by (try apply Z.pow_pos_nonneg; lia). lia.
Qed.

Lemma of_to_bytes n z : 0 ≤ z < 256 ^ Z.of_nat n → of_bytes (to_bytes n z) = z.
Proof.
  intros Hz. unfold of_bytes, to_bytes. destruct big_endian; rewrite ?rev_involutive;
    rewrite le_combine_split, Z.mod_small; lia.
Qed.

Lemma length_to_bytes n z : length (to_bytes n z) = n.
Proof. unfold to_bytes. destruct big_endian; rewrite ?length_rev; apply length_le_split. Qed.

(** A store is read back. *)
Lemma read_uint_store m a n z :
  0 ≤ z < 2 ^ (8 * Z.of_nat n) → read_uint (write_bytes m a (to_bytes n z)) a n = Some z.
Proof.
  intros Hz. unfold read_uint. rewrite <- (length_to_bytes n z) at 2.
  rewrite read_write_bytes. simpl. rewrite of_to_bytes; [done|].
  by rewrite Z.pow_mul_r in Hz by lia.
Qed.

(** The size UnityNumToPtr stores for a requested size. *)
Definition num_size (size : Z) : nat :=
  if size =? 1 then 1%nat else if size =? 2 then 2%nat else if size =? 8 then 8%nat else 4%nat.

Lemma UnityNumToPtr_spec num size w :
  ∃ w', UnityNumToPtr num size w = (Ret addr_UnityQuickCompare, w') ∧
    read_int (mem w') addr_UnityQuickCompare (num_size size)
    = Some (swrap (8 * Z.of_nat (num_size size)) num).
Proof.
  unfold UnityNumToPtr, num_size.
  repeat case_match; eexists; (split; [reflexivity|]); unfold read_int; simpl mem;
    rewrite read_uint_store by (apply uwrap_range; lia); simpl fmap; by rewrite swrap_uwrap.
Qed.
End memory_specs.

(** ** Explicit verdicts *)

Section verdict_specs.
Context `{Target}.

(** The line printed by UnityFail. *)
Definition fail_text (u : UNITY_STORAGE_T) (msg : cstring) (line : Z) : list Z :=
  begin_text (TestFile u) line ++ UnityStrFail ++
  match msg with
  | Some m => str ":" ++ details_text u ++
              (if negb (char_val (hd 0 m) =? chr " ") then str " " else []) ++ escape_all m
  | None => []
  end ++ [10].

Lemma UnityFail_eq {A} msg line w :
  failed_or_ignored (Unity w) = false →
  @UnityFail _ A msg line w =
  (Jump, set_Unity (with_CurrentTestFailed 1)
           (emit (fail_text (Unity w) msg line)
             (set_Unity (with_CurrentAssertionLineNumber line) w))).
Proof.
  intros Hw. unfold UnityFail. rewrite RETURN_IF_FAIL_OR_IGNORE_bind, Hw.
  rewrite (bind_Ret _ _ _ _ _ (eq_refl : modify _ w = (Ret (), _))), bind_get.
  rewrite (emits_bind _ _ _ _ (emits_UnityTestResultsBegin _ _)).
  rewrite (emits_bind _ UnityStrFail) by by apply emits_print_literal.
  unfold fail_text. destruct msg as [m|].
  - rewrite !bind_assoc. erewrite emits_bind by eauto with emits.
    rewrite bind_assoc, (bind_Ret _ _ _ _ _ (print_details_eq _)), bind_assoc.
    do 3 (erewrite emits_bind by eauto 20 with emits).
    unfold UNITY_FAIL_AND_BAIL, set_CurrentTestFailed, mbind, M_bind, modify, TEST_ABORT.
    by rewrite !emit_emit, <- ?app_assoc.
  - rewrite (emits_bind _ [] _ _ emits_skip), emit_nil, (emits_bind _ _ _ _ emits_EOL).
    unfold UNITY_FAIL_AND_BAIL, set_CurrentTestFailed, mbind, M_bind, modify, TEST_ABORT.
    by rewrite !emit_emit, <- ?app_assoc.
Qed.

(** The line printed by UnityIgnore. *)
Definition ignore_text (u : UNITY_STORAGE_T) (msg : cstring) (line : Z) : list Z :=
  begin_text (TestFile u) line ++ UnityStrIgnore ++
  match msg with Some m => str ": " ++ escape_all m | None => [] end ++ [10].

Lemma UnityIgnore_eq {A} msg line w :
  failed_or_ignored (Unity w) = false →
  @UnityIgnore _ A msg line w =
  (Jump, set_Unity (with_CurrentTestIgnored 1) (emit (ignore_text (Unity w) msg line) w)).
Proof.
  intros Hw. unfold UnityIgnore. rewrite RETURN_IF_FAIL_OR_IGNORE_bind, Hw, bind_get.
  rewrite (emits_bind _ _ _ _ (emits_UnityTestResultsBegin _ _)).
  rewrite (emits_bind _ UnityStrIgnore) by by apply emits_print_literal.
  unfold ignore_text. destruct msg as [m|];
    repeat (rewrite ?bind_assoc; erewrite emits_bind by eauto 20 with emits);
    unfold UNITY_IGNORE_AND_BAIL, set_CurrentTestIgnored, mbind, M_bind, modify, TEST_ABORT;
    by rewrite !emit_emit, <- ?app_assoc.
Qed.
End verdict_specs.
