(* ===== verification/UnityAssertProps.v ===== *)
(** * Properties of the assertions

    The statements the assertion functions are judged by, each a short
    consequence of the specifications of UnityAssertSpec. *)

From S2P Require Import Prelude CMachine UnityOutput UnityAssert UnityAssertSpec.

(** A test in progress, without a verdict yet. *)
Definition undecided (w : world) : Prop := failed_or_ignored (Unity w) = false.

(** [passes m w]: the assertion returns and changes nothing. *)
Definition passes (m : M unit) (w : world) : Prop := m w = (Ret (), w).

(** [fails m line w]: the assertion leaves by longjmp with the test marked as
    failed at [line], one line of report appended to the output and the rest
    of the state untouched. *)
Definition fails (m : M unit) (line : Z) (w : world) : Prop :=
  ∃ text msg, m w = (Jump, report line text msg w).

Lemma report_failed line text msg w : CurrentTestFailed (Unity (report line text msg w)) = 1.
Proof. done. Qed.

Lemma passes_not_fails m line w : passes m w → ¬ fails m line w.
Proof. intros Hp (text & msg & Hf). rewrite Hp in Hf. done. Qed.

(** What an [asserts] specification says in a test without verdict. *)
Lemma asserts_decides m line msg ok text w :
  asserts m line msg ok text → undecided w →
  (passes m w ↔ ok = true) ∧ (fails m line w ↔ ok = false).
Proof.
  intros Ha Hw. specialize (Ha w). unfold undecided in Hw. rewrite Hw in Ha. unfold passes, fails.
  rewrite Ha. destruct ok; split; split; try done; [by intros (?&?&?) | by eauto].
Qed.

Section props.
Context `{Target}.

(** UnityAssertEqualNumber passes exactly when the two 64-bit values are equal,
    and otherwise fails the test at the given line. *)
Theorem UnityAssertEqualNumber_correct expected actual msg line style w :
  int64 expected → int64 actual → undecided w →
  (passes (UnityAssertEqualNumber expected actual msg line style) w ↔ expected = actual) ∧
  (fails (UnityAssertEqualNumber expected actual msg line style) line w ↔ expected ≠ actual).
Proof.
  intros He Ha Hw.
  destruct (asserts_decides _ _ _ _ _ _ (UnityAssertEqualNumber_spec _ _ msg line style He Ha) Hw)
    as [-> ->]. by rewrite Z.eqb_eq, Z.eqb_neq.
Qed.

(** UnityAssertGreaterOrLessOrEqualNumber decides the ordering its comparison names:
    on the signed values for the INT and CHAR styles, on the unsigned 64-bit values for
    the UINT and HEX styles. *)
Theorem UnityAssertGreaterOrLessOrEqualNumber_correct threshold actual compare msg line style w :
  int64 threshold → int64 actual → undecided w →
  let v (z : Z) : Z := if style_is_int style then z else u64 z in
  let holds : Prop := match compare with
    | UNITY_GREATER_THAN => v threshold < v actual
    | UNITY_GREATER_OR_EQUAL => v threshold ≤ v actual
    | UNITY_SMALLER_THAN => v actual < v threshold
    | UNITY_SMALLER_OR_EQUAL => v actual ≤ v threshold
    | UNITY_NOT_EQUAL => v actual ≠ v threshold
    | UNITY_EQUAL_TO | UNITY_UNKNOWN => True
    end in
  (passes (UnityAssertGreaterOrLessOrEqualNumber threshold actual compare msg line style) w ↔ holds) ∧
  (fails (UnityAssertGreaterOrLessOrEqualNumber threshold actual compare msg line style) line w
   ↔ ¬ holds).
Proof.
  intros Ht Ha Hw v holds.
  destruct (asserts_decides _ _ _ _ _ _
    (UnityAssertGreaterOrLessOrEqualNumber_spec _ _ compare msg line style Ht Ha) Hw) as [-> ->].
  assert (E : compare_ok compare style threshold actual = true ↔ holds).
  { subst v holds. unfold compare_ok. destruct compare; cbn beta zeta iota; try done;
      rewrite ?Z.gtb_ltb, ?Z.geb_leb, ?negb_true_iff, ?Z.ltb_lt, ?Z.leb_le, ?Z.eqb_neq; lia. }
  rewrite E, <- not_true_iff_false. tauto.
Qed.

(** UnityAssertBits passes exactly when expected and actual agree on every bit of
    the mask, all 64 of them. *)
Theorem UnityAssertBits_correct mask expected actual msg line w :
  undecided w →
  (passes (UnityAssertBits mask expected actual msg line) w ↔
   ∀ i, 0 ≤ i → Z.testbit mask i = true → Z.testbit expected i = Z.testbit actual i).
Proof.
  intros Hw.
  destruct (asserts_decides _ _ _ _ _ _ (UnityAssertBits_spec mask expected actual msg line) Hw)
    as [-> _]. rewrite Z.eqb_eq. split.
  - intros E i Hi Hm. apply (f_equal (λ z, Z.testbit z i)) in E.
    by rewrite !Z.land_spec, Hm in E.
  - intros E. apply Z.bits_inj'. intros i Hi. rewrite !Z.land_spec.
    destruct (Z.testbit mask i) eqn:Em; [|done]. simpl. by apply E.
Qed.

(** C28: UnityAssertNumbersWithin passes exactly when the mathematical distance of the
    two values (signed for INT styles, unsigned otherwise) is at most delta: the 64-bit
    subtraction it uses never overflows into a wrong answer. *)
Theorem UnityAssertNumbersWithin_correct delta expected actual msg line style w :
  int64 expected → int64 actual → undecided w →
  let v (z : Z) : Z := if style_is_int style then z else u64 z in
  (passes (UnityAssertNumbersWithin delta expected actual msg line style) w ↔
   Z.abs (v actual - v expected) ≤ delta) ∧
  (fails (UnityAssertNumbersWithin delta expected actual msg line style) line w ↔
   delta < Z.abs (v actual - v expected)).
Proof.
  intros He Ha Hw v.
  destruct (asserts_decides _ _ _ _ _ _
    (UnityAssertNumbersWithin_spec delta _ _ msg line style He Ha) Hw) as [-> ->].
  unfold within. fold v. rewrite Z.leb_le, Z.leb_gt. done.
Qed.

(** UnityAssertEqualString passes exactly when both arguments are null or both are
    the same string, whatever the signedness of char. *)
Theorem UnityAssertEqualString_correct expected actual msg line w :
  is_text expected → is_text actual → undecided w →
  (passes (UnityAssertEqualString expected actual msg line) w ↔ expected = actual) ∧
  (fails (UnityAssertEqualString expected actual msg line) line w ↔ expected ≠ actual).
Proof.
  intros He Ha Hw.
  destruct (asserts_decides _ _ _ _ _ _ (UnityAssertEqualString_spec _ _ msg line He Ha) Hw)
    as [-> ->]. by rewrite bool_decide_eq_true, bool_decide_eq_false.
Qed.

(** UnityAssertEqualStringLen passes exactly when the first [length] characters
    agree (or both arguments are null); strings that differ only later pass. *)
Theorem UnityAssertEqualStringLen_correct expected actual length msg line w :
  is_text expected → is_text actual → short_text expected → short_text actual → undecided w →
  (passes (UnityAssertEqualStringLen expected actual length msg line) w ↔
   take (Z.to_nat length) <$> expected = take (Z.to_nat length) <$> actual).
Proof.
  intros He Ha Hse Hsa Hw.
  destruct (asserts_decides _ _ _ _ _ _
    (UnityAssertEqualStringLen_spec _ _ length msg line He Ha Hse Hsa) Hw) as [-> _].
  by rewrite bool_decide_eq_true.
Qed.

(** ** Arrays *)

(** A comparison of two different, non-null arrays of at least one element. *)
Lemma array_prologue_compare expected actual k line msg w :
  undecided w → expected ≠ 0 → actual ≠ 0 → expected ≠ actual →
  array_prologue expected actual false k line msg w = k.
Proof.
  intros Hw He Ha Hn. unfold array_prologue. rewrite Hw.
  rewrite (proj2 (Z.eqb_neq expected actual)), (proj2 (Z.eqb_neq expected 0)),
    (proj2 (Z.eqb_neq actual 0)) by done. done.
Qed.

(** UnityAssertEqualIntArray on two readable arrays passes exactly when all elements
    of the style's width are equal, and otherwise fails reporting the first index that
    differs. *)
Theorem UnityAssertEqualIntArray_correct expected actual num msg line style es xs w :
  undecided w → expected ≠ 0 → actual ≠ 0 → expected ≠ actual → 0 < num →
  read_ints (mem w) expected (Z.to_nat (elem_length style)) (Z.to_nat num) = Some es →
  read_ints (mem w) actual (Z.to_nat (elem_length style)) (Z.to_nat num) = Some xs →
  let m := UnityAssertEqualIntArray expected actual num msg line style UNITY_ARRAY_TO_ARRAY in
  (passes m w ↔ es = xs) ∧
  (es ≠ xs → ∃ i e x, first_bad Z.eqb 0 es xs = Some (i, e, x) ∧
     m w = (Jump, report line (element_text i e x style) msg w)).
Proof.
  intros Hw He Ha Hn Hnum Hes Hxs m. unfold m, passes.
  rewrite (UnityAssertEqualIntArray_spec _ _ _ _ _ _ _ es xs) by (done || lia).
  rewrite (proj2 (Z.eqb_neq num 0)), array_prologue_compare by (done || lia).
  assert (Hb := first_bad_eq_None 0 es xs
    ltac:(rewrite (length_read_ints _ _ _ _ _ Hes), (length_read_ints _ _ _ _ _ Hxs); done)).
  unfold array_outcome. destruct (first_bad Z.eqb 0 es xs) as [[[i e] x]|].
  - split; [split; [done|intros E; by apply Hb in E]|]. intros _. eauto.
  - split; [tauto|]. intros Hne. by destruct Hne, Hb; auto.
Qed.

(** UnityAssertNumbersArrayWithin on readable arrays passes exactly when every element
    is within delta of its expected one, where the expected operand is an array or, with
    UNITY_ARRAY_TO_VAL, one value for all elements. *)
Theorem UnityAssertNumbersArrayWithin_correct delta expected actual num msg line style flags
    es xs w :
  undecided w → expected ≠ 0 → actual ≠ 0 → expected ≠ actual → 0 < num →
  read_expected flags (mem w) expected (Z.to_nat (elem_length style)) (Z.to_nat num) = Some es →
  read_ints (mem w) actual (Z.to_nat (elem_length style)) (Z.to_nat num) = Some xs →
  let m := UnityAssertNumbersArrayWithin delta expected actual num msg line style flags in
  let v (z : Z) : Z := if style_is_int style then z else u64 z in
  let close := Forall2 (λ e x, Z.abs (v x - v e) ≤ delta) es xs in
  (passes m w ↔ close) ∧ (fails m line w ↔ ¬ close).
Proof.
  intros Hw He Ha Hn Hnum Hes Hxs m v close. unfold m, passes, fails.
  rewrite (UnityAssertNumbersArrayWithin_spec _ _ _ _ _ _ _ _ es xs) by (done || lia).
  rewrite (proj2 (Z.eqb_neq num 0)), array_prologue_compare by (done || lia).
  assert (Hb := first_bad_None (λ e x, within delta e x style) 0 es xs
    ltac:(rewrite (length_read_expected _ _ _ _ _ _ Hes), (length_read_ints _ _ _ _ _ Hxs); done)).
  assert (Hc : close ↔ Forall2 (λ e x, within delta e x style = true) es xs).
  { split; intros Hf; eapply Forall2_impl; try exact Hf; intros ??; cbn beta;
      unfold within; fold v; by rewrite Z.leb_le. }
  rewrite Hc, <- Hb. unfold array_outcome.
  destruct (first_bad _ 0 es xs) as [[[i e] x]|]; split; split; try done; eauto.
  by intros (? & ? & ?).
Qed.

(** C29: UnityAssertEqualMemory passes exactly when the blocks read at the two addresses
    are equal byte for byte, and otherwise fails naming the first differing byte (and the
    first differing element when there are several): for two different addresses, neither
    NULL, with a positive number of elements of positive length, all of them readable, in a
    test that has not failed or been ignored yet. *)
Theorem UnityAssertEqualMemory_correct expected actual length num msg line flags es xs w :
  undecided w → expected ≠ 0 → actual ≠ 0 → expected ≠ actual → 0 < num → 0 < length →
  bytes_ok (mem w) →
  read_expected_blocks flags (mem w) expected (Z.to_nat length) (Z.to_nat num) = Some es →
  read_blocks (mem w) actual (Z.to_nat length) (Z.to_nat num) = Some xs →
  let m := UnityAssertEqualMemory expected actual length num msg line flags in
  (passes m w ↔ es = xs) ∧
  (es ≠ xs → ∃ i j c d, first_bad_block 0 es xs = Some (i, j, c, d) ∧
     m w = (Jump, report line (memory_text num i j c d) msg w)).
Proof.
  intros Hw He Ha Hn Hnum Hlen Hm Hes Hxs m. unfold m, passes.
  rewrite (UnityAssertEqualMemory_spec _ _ _ _ _ _ _ es xs) by (done || lia).
  rewrite (proj2 (Z.eqb_neq num 0)), (proj2 (Z.eqb_neq length 0)), array_prologue_compare
    by (done || lia).
  apply read_expected_blocks_lengths in Hes as [Hle Hfe].
  apply read_blocks_lengths in Hxs as [Hlx Hfx].
  assert (Hb := first_bad_block_None _ 0 es xs ltac:(congruence) Hfe Hfx).
  destruct (first_bad_block 0 es xs) as [[[[i j] c] d]|].
  - split; [split; [done|intros E; by apply Hb in E]|]. intros _. eauto 6.
  - split; [tauto|]. intros Hne. by destruct Hne, Hb; auto.
Qed.

Lemma first_bad_string_None j es xs :
  length es = length xs → first_bad_string j es xs = None ↔ es = xs.
Proof.
  revert j xs. induction es as [|e es IH]; intros j [|x xs] Hl; simpl in *; try done.
  case_bool_decide as E; [rewrite IH by lia; subst|]; split; congruence.
Qed.

Lemma length_read_strings m p j n l : read_strings m p j n = Some l → length l = n.
Proof.
  revert j l. induction n as [|n IH]; intros j l; simpl; [by intros [= <-]|].
  intros (v & _ & (k & Hk & [= <-])%bind_Some)%bind_Some. simpl. by rewrite (IH _ _ Hk).
Qed.

Lemma length_read_expected_strings flags m p j n l :
  read_expected_strings flags m p j n = Some l → length l = n.
Proof.
  unfold read_expected_strings. case_decide; [apply length_read_strings|].
  intros (v & _ & ->)%fmap_Some. apply length_replicate.
Qed.

(** UnityAssertEqualStringArray follows the pointers of both arrays (or compares every
    string with the one expected) and passes exactly when the strings, null pointers
    included, are equal in order; otherwise it fails at the first pair that differs. *)
Theorem UnityAssertEqualStringArray_correct expected actual num msg line flags es xs w :
  undecided w → expected ≠ 0 → actual ≠ 0 → expected ≠ actual → 0 < num →
  read_expected_strings flags (mem w) expected 0 (Z.to_nat num) = Some es →
  read_strings (mem w) actual 0 (Z.to_nat num) = Some xs →
  Forall is_text es → Forall is_text xs →
  let m := UnityAssertEqualStringArray expected actual num msg line flags in
  (passes m w ↔ es = xs) ∧
  (es ≠ xs → ∃ j e x, first_bad_string 0 es xs = Some (j, e, x) ∧
     m w = (Jump, report line (string_element_text num j e x) msg w)).
Proof.
  intros Hw He Ha Hn Hnum Hes Hxs Hte Htx m. unfold m, passes.
  rewrite (UnityAssertEqualStringArray_spec _ _ _ _ _ _ es xs) by (done || lia).
  rewrite (proj2 (Z.eqb_neq num 0)), array_prologue_compare by (done || lia).
  assert (Hb := first_bad_string_None 0 es xs ltac:(rewrite
    (length_read_expected_strings _ _ _ _ _ _ Hes), (length_read_strings _ _ _ _ _ Hxs); done)).
  destruct (first_bad_string 0 es xs) as [[[j e] x]|].
  - split; [split; [done|intros E; by apply Hb in E]|]. intros _. eauto.
  - split; [tauto|]. intros Hne. by destruct Hne, Hb; auto.
Qed.

(** The degenerate comparisons of UnityAssertEqualIntArray, whatever memory holds: no
    elements is a failure ("You Asked Me To Compare Nothing"), an array compared with itself
    passes without being read, and one null pointer is a failure naming the null operand. *)
Theorem UnityAssertEqualIntArray_degenerate expected actual num msg line style flags w :
  undecided w →
  let m := UnityAssertEqualIntArray expected actual num msg line style flags w in
  (num = 0 → m = (Jump, report line UnityStrPointless msg w)) ∧
  (num ≠ 0 → expected = actual → m = (Ret (), w)) ∧
  (num ≠ 0 → expected = 0 → actual ≠ 0 →
   m = (Jump, report line UnityStrNullPointerForExpected msg w)) ∧
  (num ≠ 0 → expected ≠ 0 → actual = 0 →
   m = (Jump, report line UnityStrNullPointerForActual msg w)).
Proof.
  intros Hw m. unfold m, UnityAssertEqualIntArray. rewrite array_prologue_eq.
  unfold array_prologue. rewrite Hw. split_and!; intros;
    repeat match goal with |- context [?a =? ?b] => destruct (Z.eqb_spec a b) end;
    done || lia.
Qed.
End props.

(** ** Witnesses

    Concrete memories and states the theorems apply to. *)

(** Two arrays of three 16-bit integers, differing in the middle, a copy of the first, and
    a table of two strings with a copy. *)
Definition sample_mem : gmap Z Z :=
  write_bytes (write_bytes (write_bytes ∅ 100 [1; 0; 2; 0; 255; 255])
    200 [1; 0; 3; 0; 255; 255]) 300 [1; 0; 2; 0; 255; 255].
Definition sample_world : world := set_mem sample_mem initial_world.

Definition sample_strings : gmap Z Z :=
  write_bytes (write_bytes (write_bytes (write_bytes ∅ 100 (str "ab" ++ [0]))
    110 (str "cd" ++ [0])) 200 (le_split 8 100 ++ le_split 8 110 ++ le_split 8 0))
    300 (le_split 8 100 ++ le_split 8 100 ++ le_split 8 0).
Definition sample_strings_world : world := set_mem sample_strings initial_world.

Lemma bytes_ok_write m a l : Forall is_byte l → bytes_ok m → bytes_ok (write_bytes m a l).
Proof.
  intros Hl Hm. revert a. induction Hl as [|c l Hc _ IH]; intros a; simpl; [done|].
  apply map_Forall_insert_2; [done | apply IH].
Qed.

Lemma sample_bytes_ok : bytes_ok sample_mem.
Proof.
  unfold sample_mem. repeat apply bytes_ok_write; try apply map_Forall_empty;
    repeat constructor; unfold is_byte; lia.
Qed.

#[local] Existing Instance aarch64.

(** Discharges the hypotheses of a theorem at a concrete input by evaluation. *)
Ltac evaluate :=
  match goal with
  | |- int64 _ => unfold int64; lia
  | |- Forall _ _ => repeat constructor; simpl; lia
  | |- Forall2 _ _ _ => repeat constructor; vm_compute; discriminate
  | |- @eq _ _ _ => vm_compute; reflexivity
  | |- undecided _ => vm_compute; reflexivity
  | |- bytes_ok _ => apply sample_bytes_ok
  | |- not (@eq Z _ _) => lia
  | |- not _ => discriminate
  | |- _ => lia
  end.

Lemma UnityAssertEqualNumber_correct_witness :
  fails (UnityAssertEqualNumber 3 (-4) None 7 UNITY_DISPLAY_STYLE_INT) 7 initial_world.
Proof.
  apply (UnityAssertEqualNumber_correct 3 (-4) None 7 UNITY_DISPLAY_STYLE_INT initial_world);
    done || (unfold int64; lia).
Defined.

(** -1 is less than 0 as INT and greater as UINT. *)
Lemma UnityAssertGreaterOrLessOrEqualNumber_correct_witness :
  passes (UnityAssertGreaterOrLessOrEqualNumber 0 (-1) UNITY_GREATER_THAN None 7
            UNITY_DISPLAY_STYLE_UINT) initial_world.
Proof.
  apply (UnityAssertGreaterOrLessOrEqualNumber_correct 0 (-1) UNITY_GREATER_THAN None 7
           UNITY_DISPLAY_STYLE_UINT initial_world); done || (unfold int64; lia).
Defined.

Lemma UnityAssertBits_correct_witness :
  passes (UnityAssertBits 240 173 160 None 7) initial_world.
Proof.
  apply (UnityAssertBits_correct 240 173 160 None 7 initial_world); [done|].
  intros i Hi Hb. assert (i < 8) as Hi'.
  { apply Z.nle_gt. intros Hge. rewrite Z.bits_above_log2 in Hb; done || (simpl; lia). }
  assert (i = 0 ∨ i = 1 ∨ i = 2 ∨ i = 3 ∨ i = 4 ∨ i = 5 ∨ i = 6 ∨ i = 7) as Hc by lia.
  repeat destruct Hc as [->|Hc]; subst; done.
Defined.

(** The distance of the extreme 64-bit values exceeds INT64_MAX and is still found. *)
Lemma UnityAssertNumbersWithin_correct_witness :
  fails (UnityAssertNumbersWithin (2 ^ 63) (- 2 ^ 63) (2 ^ 63 - 1) None 7
           UNITY_DISPLAY_STYLE_INT) 7 initial_world.
Proof.
  apply (UnityAssertNumbersWithin_correct (2 ^ 63) (- 2 ^ 63) (2 ^ 63 - 1) None 7
           UNITY_DISPLAY_STYLE_INT initial_world); done || (unfold int64; lia).
Defined.

Lemma UnityAssertEqualString_correct_witness :
  fails (UnityAssertEqualString (Some [97; 200]) (Some [97]) None 7) 7 initial_world.
Proof.
  apply (UnityAssertEqualString_correct (Some [97; 200]) (Some [97]) None 7 initial_world);
    try done; repeat constructor; lia.
Defined.

Lemma UnityAssertEqualStringLen_correct_witness :
  passes (UnityAssertEqualStringLen (Some (str "abc")) (Some (str "abd")) 2 None 7) initial_world.
Proof.
  apply (UnityAssertEqualStringLen_correct (Some (str "abc")) (Some (str "abd")) 2 None 7
           initial_world); try done; repeat constructor; lia.
Defined.

Lemma UnityAssertEqualIntArray_correct_witness :
  ∃ i e x,
    UnityAssertEqualIntArray 100 200 3 None 7 UNITY_DISPLAY_STYLE_INT16 UNITY_ARRAY_TO_ARRAY
      sample_world
    = (Jump, report 7 (element_text i e x UNITY_DISPLAY_STYLE_INT16) None sample_world).
Proof.
  edestruct (UnityAssertEqualIntArray_correct 100 200 3 None 7 UNITY_DISPLAY_STYLE_INT16
    [1; 2; -1] [1; 3; -1] sample_world) as [_ (i & e & x & _ & E)];
    [evaluate.. | exact (ex_intro _ i (ex_intro _ e (ex_intro _ x E)))].
Defined.

Lemma UnityAssertNumbersArrayWithin_correct_witness :
  passes (UnityAssertNumbersArrayWithin 1 100 200 3 None 7 UNITY_DISPLAY_STYLE_INT16
    UNITY_ARRAY_TO_ARRAY) sample_world.
Proof.
  apply (UnityAssertNumbersArrayWithin_correct 1 100 200 3 None 7 UNITY_DISPLAY_STYLE_INT16
    UNITY_ARRAY_TO_ARRAY [1; 2; -1] [1; 3; -1] sample_world);
    [evaluate..|]. cbn zeta. evaluate.
Defined.

Lemma UnityAssertEqualMemory_correct_witness :
  passes (UnityAssertEqualMemory 100 300 2 3 None 7 UNITY_ARRAY_TO_ARRAY) sample_world.
Proof.
  apply (UnityAssertEqualMemory_correct 100 300 2 3 None 7 UNITY_ARRAY_TO_ARRAY
    [[1; 0]; [2; 0]; [255; 255]] [[1; 0]; [2; 0]; [255; 255]] sample_world);
    evaluate.
Defined.

Lemma UnityAssertEqualStringArray_correct_witness :
  ∃ j e x,
    UnityAssertEqualStringArray 200 300 3 None 7 UNITY_ARRAY_TO_ARRAY sample_strings_world
    = (Jump, report 7 (string_element_text 3 j e x) None sample_strings_world).
Proof.
  edestruct (UnityAssertEqualStringArray_correct 200 300 3 None 7 UNITY_ARRAY_TO_ARRAY
    [Some (str "ab"); Some (str "cd"); None] [Some (str "ab"); Some (str "ab"); None]
    sample_strings_world) as [_ (j & e & x & _ & E)];
    [evaluate.. | exact (ex_intro _ j (ex_intro _ e (ex_intro _ x E)))].
Defined.

Lemma UnityAssertEqualIntArray_degenerate_witness :
  UnityAssertEqualIntArray 0 200 3 None 7 UNITY_DISPLAY_STYLE_INT16 UNITY_ARRAY_TO_ARRAY
    sample_world = (Jump, report 7 UnityStrNullPointerForExpected None sample_world).
Proof.
  by apply (UnityAssertEqualIntArray_degenerate 0 200 3 None 7 UNITY_DISPLAY_STYLE_INT16
    UNITY_ARRAY_TO_ARRAY sample_world).
Defined.
