(* ===== verification/UnityFrame.v ===== *)
(** * The interface between test code and the runner

    The runner counts results while arbitrary test code executes. What it
    relies on is stated as a typeclass, [TestCode]: test code leaves the
    counters, the names and the options of the framework alone, only appends
    to the output, and never clears the verdict of the current test. Every
    assertion function is shown to be test code, and test code is closed
    under sequencing, branching and loops, so the runner's theorems apply to
    any test written with them. *)

From S2P Require Import Prelude CMachine UnityOutput UnityAssert.

(** Instance search goes by the names in the code, never through their bodies. *)
#[export] Typeclasses Opaque skip get modify undefined out_of_fuel of_option when TEST_ABORT
  TEST_PROTECT UNITY_OUTPUT_CHAR UNITY_PRINT_EOL loop load_uint load_int store_uint load_cstring
  UnityPrintNumberUnsigned UnityPrintNumber hex_loop UnityPrintNumberHex mask_loop UnityPrintMask
  UnityPrintChar print_chars UnityPrint print_len_loop UnityPrintLen UnityPrintNumberByStyle
  set_CurrentTestFailed set_CurrentTestIgnored UNITY_FAIL_AND_BAIL UNITY_IGNORE_AND_BAIL
  RETURN_IF_FAIL_OR_IGNORE UnityTestResultsBegin UnityTestResultsFailBegin print_details
  UnityAddMsgIfSpecified print_quoted_or_null UnityPrintExpectedAndActualStrings
  print_quoted_len_or_null UnityPrintExpectedAndActualStringsLen UnityIsOneArrayNull
  UnityPrintPointlessAndBail UnityAssertBits UnityAssertEqualNumber
  UnityAssertGreaterOrLessOrEqualNumber UnityAssertNumbersWithin equal_int_array_loop
  numbers_array_within_loop UnityAssertEqualIntArray UnityAssertNumbersArrayWithin
  compare_strings UnityAssertEqualString UnityAssertEqualStringLen load_string_at
  equal_string_array_loop UnityAssertEqualStringArray memory_bytes_loop memory_elements_loop
  UnityAssertEqualMemory UnityNumToPtr UnityFail UnityIgnore UnityMessage UNITY_TEST_ASSERT.

(** ** What stays the same *)

(** The pointer store of unity_fixture.c is an array of UNITY_MAX_POINTERS
    entries, the first [pointer_index] of them in use. *)
Definition pointers_ok (w : world) : Prop :=
  length (pointer_store w) = 5%nat ∧ 0 ≤ pointer_index w ≤ 5.

(** Everything but the verdict of the current test, the assertion line, the
    details, the pointer store, memory and text appended to the output. *)
Record same_session (w w' : world) : Prop := {
  ss_file : TestFile (Unity w') = TestFile (Unity w);
  ss_name : CurrentTestName (Unity w') = CurrentTestName (Unity w);
  ss_line : CurrentTestLineNumber (Unity w') = CurrentTestLineNumber (Unity w);
  ss_tests : NumberOfTests (Unity w') = NumberOfTests (Unity w);
  ss_failures : TestFailures (Unity w') = TestFailures (Unity w);
  ss_ignores : TestIgnores (Unity w') = TestIgnores (Unity w);
  ss_fixture : UnityFixture w' = UnityFixture w;
  ss_output : ∃ s, stdout w' = s ++ stdout w;
  ss_pointers : pointers_ok w → pointers_ok w';
}.

#[export] Instance same_session_preorder : PreOrder same_session.
Proof.
  split.
  - intros w. split; try done. by exists [].
  - intros w1 w2 w3 [????? ? ? [s Hs] ?] [????? ? ? [t Ht] ?]. split; try congruence; [|auto].
    exists (t ++ s). by rewrite Ht, Hs, app_assoc.
Qed.

(** The verdict flags: each 0 or 1, never both set. *)
Definition flags (w : world) : Z * Z :=
  (CurrentTestFailed (Unity w), CurrentTestIgnored (Unity w)).
Definition clear (w : world) : Prop := flags w = (0, 0).
Definition flags_ok (w : world) : Prop :=
  flags w = (0, 0) ∨ flags w = (1, 0) ∨ flags w = (0, 1).

(** A set verdict stays. *)
Definition keeps_verdict (w w' : world) : Prop := ¬ clear w → flags w' = flags w.

(** ** Code that does not touch the verdict *)

Definition quiet (w w' : world) : Prop := same_session w w' ∧ flags w' = flags w.

#[export] Instance quiet_preorder : PreOrder quiet.
Proof.
  split; [done|]. intros w1 w2 w3 [? E1] [? E2]. split; [by etrans | congruence].
Qed.

Class Quiet {A} (m : M A) : Prop := quiet_run : ∀ w, quiet w (m w).2.

#[export] Instance Quiet_ret {A} (a : A) : Quiet (mret a).
Proof. intros w. simpl. reflexivity. Qed.
#[export] Instance Quiet_skip : Quiet skip.
Proof. apply Quiet_ret. Qed.
#[export] Instance Quiet_get {A} (f : world → A) : Quiet (get f).
Proof. intros w. simpl. reflexivity. Qed.
#[export] Instance Quiet_abort {A} : Quiet (@TEST_ABORT A).
Proof. intros w. simpl. reflexivity. Qed.
#[export] Instance Quiet_undefined {A} : Quiet (@undefined A).
Proof. intros w. simpl. reflexivity. Qed.
#[export] Instance Quiet_out_of_fuel {A} : Quiet (@out_of_fuel A).
Proof. intros w. simpl. reflexivity. Qed.
#[export] Instance Quiet_of_option {A} (o : option A) : Quiet (of_option o).
Proof. destruct o; simpl; apply _. Qed.
#[export] Instance Quiet_char c : Quiet (UNITY_OUTPUT_CHAR c).
Proof. intros w. split; [|done]. split; try done. by exists [u8 c]. Qed.
#[export] Instance Quiet_EOL : Quiet UNITY_PRINT_EOL.
Proof. apply Quiet_char. Qed.
#[export] Instance Quiet_store `{Target} a n v : Quiet (store_uint a n v).
Proof. intros w. split; [|done]. split; try done. by exists []. Qed.
#[export] Instance Quiet_line l : Quiet (modify (set_Unity (with_CurrentAssertionLineNumber l))).
Proof. intros w. split; [|done]. split; try done. by exists []. Qed.
#[export] Instance Quiet_details d1 d2 : Quiet (modify (set_Unity (with_Details d1 d2))).
Proof. intros w. split; [|done]. split; try done. by exists []. Qed.
#[export] Instance Quiet_bind {A B} (m : M A) (k : A → M B) :
  Quiet m → (∀ a, Quiet (k a)) → Quiet (m ≫= k).
Proof.
  intros Hm Hk w. unfold mbind, M_bind. specialize (Hm w).
  destruct (m w) as [[a| | |] w']; try done. simpl in *. etrans; [done | apply Hk].
Qed.
#[export] Instance Quiet_if {A} (b : bool) (m k : M A) : Quiet m → Quiet k → Quiet (if b then m else k).
Proof. by destruct b. Qed.
#[export] Instance Quiet_decide {A} P `{Decision P} (m k : M A) :
  Quiet m → Quiet k → Quiet (if decide P then m else k).
Proof. by destruct (decide P). Qed.
#[export] Instance Quiet_when b m : Quiet m → Quiet (when b m).
Proof. intros. unfold when. apply _. Qed.
#[export] Instance Quiet_loop {S} fuel (step : S → M (option S)) s :
  (∀ s, Quiet (step s)) → Quiet (loop fuel step s).
Proof.
  intros Hs. revert s. induction fuel as [|fuel IH]; intros s; cbn [loop]; [apply _|].
  apply Quiet_bind; [apply Hs|]. intros [s'|]; [apply IH | apply _].
Qed.

(** Closes a [Quiet] goal by the structure of the code. *)
Ltac quiet_tac :=
  repeat (intros;
    lazymatch goal with
    | |- Quiet (_ ≫= _) => apply Quiet_bind
    | |- Quiet (if ?b then _ else _) => destruct b
    | |- Quiet (match ?x with _ => _ end) => destruct x
    | |- Quiet (when _ _) => apply Quiet_when
    | |- Quiet (loop _ _ _) => apply Quiet_loop
    | |- Quiet _ => first [assumption | apply _]
    end).

#[export] Instance Quiet_PrintNumberUnsigned n : Quiet (UnityPrintNumberUnsigned n).
Proof. unfold UnityPrintNumberUnsigned. quiet_tac. Qed.
#[export] Instance Quiet_PrintNumber n : Quiet (UnityPrintNumber n).
Proof. unfold UnityPrintNumber. quiet_tac. Qed.
#[export] Instance Quiet_hex_loop n k : Quiet (hex_loop n k).
Proof. induction k; simpl; quiet_tac. Qed.
#[export] Instance Quiet_PrintNumberHex n k : Quiet (UnityPrintNumberHex n k).
Proof. unfold UnityPrintNumberHex. apply _. Qed.
#[export] Instance Quiet_mask_loop m n i b : Quiet (mask_loop m n i b).
Proof. revert b. induction i; intros b; simpl; quiet_tac. Qed.
#[export] Instance Quiet_PrintMask m n : Quiet (UnityPrintMask m n).
Proof. unfold UnityPrintMask. apply _. Qed.

Section quiet_output.
Context `{Target}.

#[export] Instance Quiet_PrintChar c : Quiet (UnityPrintChar c).
Proof. unfold UnityPrintChar. quiet_tac. Qed.
#[export] Instance Quiet_print_chars s : Quiet (print_chars s).
Proof. induction s; simpl; quiet_tac. Qed.
#[export] Instance Quiet_Print s : Quiet (UnityPrint s).
Proof. unfold UnityPrint. quiet_tac. Qed.
#[export] Instance Quiet_print_len_loop s i l : Quiet (print_len_loop s i l).
Proof. revert i. induction s; intros i; cbn [print_len_loop]; quiet_tac. Qed.
#[export] Instance Quiet_PrintLen s l : Quiet (UnityPrintLen s l).
Proof. unfold UnityPrintLen. quiet_tac. Qed.
#[export] Instance Quiet_PrintNumberByStyle n s : Quiet (UnityPrintNumberByStyle n s).
Proof. unfold UnityPrintNumberByStyle. quiet_tac. Qed.
#[export] Instance Quiet_ResultsBegin f l : Quiet (UnityTestResultsBegin f l).
Proof. unfold UnityTestResultsBegin. quiet_tac. Qed.
#[export] Instance Quiet_FailBegin l : Quiet (UnityTestResultsFailBegin l).
Proof. unfold UnityTestResultsFailBegin. quiet_tac. Qed.
#[export] Instance Quiet_print_details : Quiet print_details.
Proof. unfold print_details. quiet_tac. Qed.
#[export] Instance Quiet_AddMsg msg : Quiet (UnityAddMsgIfSpecified msg).
Proof. unfold UnityAddMsgIfSpecified. quiet_tac. Qed.
#[export] Instance Quiet_quoted s : Quiet (print_quoted_or_null s).
Proof. unfold print_quoted_or_null. quiet_tac. Qed.
#[export] Instance Quiet_quoted_len s l : Quiet (print_quoted_len_or_null s l).
Proof. unfold print_quoted_len_or_null. quiet_tac. Qed.
#[export] Instance Quiet_strings e a : Quiet (UnityPrintExpectedAndActualStrings e a).
Proof. unfold UnityPrintExpectedAndActualStrings. quiet_tac. Qed.
#[export] Instance Quiet_strings_len e a l : Quiet (UnityPrintExpectedAndActualStringsLen e a l).
Proof. unfold UnityPrintExpectedAndActualStringsLen. quiet_tac. Qed.
#[export] Instance Quiet_IsOneArrayNull e a l msg : Quiet (UnityIsOneArrayNull e a l msg).
Proof. unfold UnityIsOneArrayNull. quiet_tac. Qed.
#[export] Instance Quiet_load_uint a n : Quiet (load_uint a n).
Proof. unfold load_uint. quiet_tac. Qed.
#[export] Instance Quiet_load_int a n : Quiet (load_int a n).
Proof. unfold load_int. quiet_tac. Qed.
#[export] Instance Quiet_load_cstring a : Quiet (load_cstring a).
Proof. unfold load_cstring. quiet_tac. Qed.
#[export] Instance Quiet_load_string_at p j : Quiet (load_string_at p j).
Proof. unfold load_string_at. quiet_tac. Qed.
#[export] Instance Quiet_NumToPtr n s : Quiet (UnityNumToPtr n s).
Proof. unfold UnityNumToPtr. cbn zeta. quiet_tac. Qed.
#[export] Instance Quiet_Message msg l : Quiet (UnityMessage msg l).
Proof. unfold UnityMessage. quiet_tac. Qed.
End quiet_output.

(** ** Code that may decide the verdict *)

(** After its guard, an assertion runs in a test without verdict: it returns
    with none, or leaves with a consistent one. *)
Definition checked {A} (w : world) (r : outcome A * world) : Prop :=
  same_session w r.2 ∧ match r.1 with Ret _ => clear r.2 | _ => flags_ok r.2 end.

Class Checks {A} (m : M A) : Prop := checks_run : ∀ w, clear w → checked w (m w).

#[export] Instance Checks_quiet {A} (m : M A) : Quiet m → Checks m | 10.
Proof.
  intros Hm w Hw. destruct (Hm w) as [Hs Hf]. split; [done|].
  unfold clear, flags_ok in *. rewrite Hf, Hw. case_match; auto.
Qed.

#[export] Instance Checks_bind {A B} (m : M A) (k : A → M B) :
  Checks m → (∀ a, Checks (k a)) → Checks (m ≫= k).
Proof.
  intros Hm Hk w Hw. unfold mbind, M_bind. destruct (Hm w Hw) as [Hs Hf].
  destruct (m w) as [[a| | |] w']; try done. simpl in *.
  destruct (Hk a w' Hf) as [Hs' Hf']. split; [by etrans | done].
Qed.

#[export] Instance Checks_fail {A} : Checks (@UNITY_FAIL_AND_BAIL A).
Proof.
  intros w Hw. unfold clear, flags in Hw. simplify_eq. split; [split; try done; by exists []|].
  right; left. unfold flags. simpl. congruence.
Qed.

#[export] Instance Checks_ignore {A} : Checks (@UNITY_IGNORE_AND_BAIL A).
Proof.
  intros w Hw. unfold clear, flags in Hw. simplify_eq. split; [split; try done; by exists []|].
  right; right. unfold flags. simpl. congruence.
Qed.

(** A report run in a test just marked as failed. *)
Class Reports {A} (m : M A) : Prop :=
  reports_run : ∀ w, flags w = (1, 0) → same_session w (m w).2 ∧ flags (m w).2 = (1, 0) ∧
    match (m w).1 with Ret _ => False | _ => True end.

#[export] Instance Reports_bind {A B} (m : M A) (k : A → M B) :
  Quiet m → (∀ a, Reports (k a)) → Reports (m ≫= k).
Proof.
  intros Hm Hk w Hw. unfold mbind, M_bind. destruct (Hm w) as [Hs Hf].
  destruct (m w) as [[a| | |] w']; simpl in *; [|by rewrite Hf..].
  rewrite Hw in Hf. destruct (Hk a w' Hf) as (Hs' & Hf' & Hr).
  split; [by etrans | done].
Qed.

#[export] Instance Reports_fail {A} : Reports (@UNITY_FAIL_AND_BAIL A).
Proof.
  intros w Hw. unfold flags in *. simplify_eq. split; [split; try done; by exists []|]. simpl.
  split; [congruence | done].
Qed.

Lemma Reports_bind_l {A B} (m : M A) (k : A → M B) : Reports m → Reports (m ≫= k).
Proof.
  intros Hm w Hw. unfold mbind, M_bind. destruct (Hm w Hw) as (Hs & Hf & Hr).
  by destruct (m w) as [[a| | |] w'].
Qed.

(** Assigning the flag, then testing it. *)
Lemma Checks_set_failed {A} v (k : Z → M A) :
  v = 0 ∨ v = 1 → Reports (k 1) → Checks (k 0) →
  Checks (set_CurrentTestFailed v;; f ← get (CurrentTestFailed ∘ Unity); k f).
Proof.
  intros Hv Hr Hc w Hw. unfold mbind, M_bind, set_CurrentTestFailed, modify, get. simpl.
  assert (Hs : same_session w (set_Unity (with_CurrentTestFailed v) w))
    by (split; try done; by exists []).
  unfold clear, flags in Hw. simplify_eq.
  destruct Hv as [-> | ->]; simpl.
  - destruct (Hc (set_Unity (with_CurrentTestFailed 0) w)) as [Hs' Hf].
    { unfold clear, flags. simpl. congruence. }
    split; [by etrans | done].
  - destruct (Hr (set_Unity (with_CurrentTestFailed 1) w)) as (Hs' & Hf & Ho).
    { unfold flags. simpl. congruence. }
    split; [by etrans|]. case_match; [done|..]; right; left; done.
Qed.

Lemma out_of_delta_01 delta e a style :
  out_of_delta delta e a style = 0 ∨ out_of_delta delta e a style = 1.
Proof. unfold out_of_delta. repeat case_match; auto. Qed.

(** ** Test code *)

Definition test_step (w w' : world) : Prop :=
  same_session w w' ∧ flags_ok w' ∧ keeps_verdict w w'.

Class TestCode {A} (m : M A) : Prop :=
  test_code : ∀ w, flags_ok w → test_step w (m w).2.

#[export] Instance TestCode_quiet {A} (m : M A) : Quiet m → TestCode m | 10.
Proof.
  intros Hm w Hw. destruct (Hm w) as [Hs Hf]. split_and!; [done | | by intros ?].
  unfold flags_ok in *. by rewrite Hf.
Qed.

#[export] Instance TestCode_bind {A B} (m : M A) (k : A → M B) :
  TestCode m → (∀ a, TestCode (k a)) → TestCode (m ≫= k).
Proof.
  intros Hm Hk w Hw. unfold mbind, M_bind. pose proof (Hm w Hw) as Ht.
  destruct (m w) as [[a| | |] w']; try done. simpl in *. destruct Ht as (Hs & Hf & Hv).
  destruct (Hk a w' Hf) as (Hs' & Hf' & Hv'). split_and!; [by etrans | done |].
  intros Hn. specialize (Hv Hn). rewrite Hv'; [done|]. unfold clear in *. by rewrite Hv.
Qed.

(** A guarded assertion is test code. *)
Lemma TestCode_guard {A} (m : M A) : Checks m → TestCode (RETURN_IF_FAIL_OR_IGNORE;; m).
Proof.
  intros Hm w Hw. unfold RETURN_IF_FAIL_OR_IGNORE, mbind, M_bind, get. simpl.
  assert (Hc : failed_or_ignored (Unity w) = true ∧ ¬ clear w ∨
               failed_or_ignored (Unity w) = false ∧ clear w).
  { unfold failed_or_ignored, clear. destruct Hw as [E|[E|E]]; unfold flags in *; simplify_eq.
    - right. rewrite H, H0. done.
    - left. rewrite H, H0. done.
    - left. rewrite H, H0. done. }
  destruct Hc as [[-> Hn]|[-> Hc]].
  - split_and!; simpl; [reflexivity | done | by intros ?].
  - simpl. destruct (Hm w Hc) as [Hs Hf]. split_and!; [done | | by intros ?].
    unfold flags_ok, clear in *. case_match; auto.
Qed.

Ltac checks_tac :=
  repeat (intros;
    lazymatch goal with
    | |- Checks (set_CurrentTestFailed _ ≫= _) =>
        apply Checks_set_failed; [auto using out_of_delta_01 | cbn [negb Z.eqb] | cbn [negb Z.eqb]]
    | |- Checks (_ ≫= _) => apply Checks_bind
    | |- Checks (if ?b then _ else _) => destruct b
    | |- Checks (match ?x with _ => _ end) => destruct x
    | |- Checks (when ?b _) => destruct b; unfold when
    | |- Checks (UnityPrintPointlessAndBail _ _) => unfold UnityPrintPointlessAndBail
    | |- Checks UNITY_FAIL_AND_BAIL => apply Checks_fail
    | |- Checks UNITY_IGNORE_AND_BAIL => apply Checks_ignore
    | |- Checks _ =>
        first [ assumption
              | match goal with IH : ∀ _, _ |- _ => apply IH end
              | apply Checks_quiet; solve [quiet_tac] ]
    | |- Reports ((_ ≫= _) ≫= _) => apply Reports_bind_l
    | |- Reports (_ ≫= _) => apply Reports_bind
    | |- Reports UNITY_FAIL_AND_BAIL => apply Reports_fail
    | |- Quiet _ => quiet_tac
    end).

Section test_code.
Context `{Target}.

Lemma Checks_compare_strings {A} differ e a (k : Z → M A) :
  Reports (k 1) → Checks (k 0) →
  Checks (compare_strings differ e a;; f ← get (CurrentTestFailed ∘ Unity); k f).
Proof.
  intros Hr Hc.
  assert (H1 := Checks_set_failed 1 k (or_intror eq_refl) Hr Hc).
  assert (H0 : Checks (skip;; f ← get (CurrentTestFailed ∘ Unity); k f)).
  { intros w Hw. unfold mbind, M_bind, get, skip, mret, M_ret, compose.
    pose proof Hw as Hw'. unfold clear, flags in Hw'. injection Hw' as -> _. by apply Hc. }
  destruct e, a; simpl compare_strings; unfold when; repeat case_match; done.
Qed.

#[export] Instance TestCode_AssertBits m e a msg l : TestCode (UnityAssertBits m e a msg l).
Proof. apply TestCode_guard. checks_tac. Qed.
#[export] Instance TestCode_AssertEqualNumber e a msg l s :
  TestCode (UnityAssertEqualNumber e a msg l s).
Proof. apply TestCode_guard. checks_tac. Qed.
#[export] Instance TestCode_GreaterOrLess t a c msg l s :
  TestCode (UnityAssertGreaterOrLessOrEqualNumber t a c msg l s).
Proof.
  unfold UnityAssertGreaterOrLessOrEqualNumber. apply TestCode_guard.
  match goal with |- Checks (if ?b then _ else _) => destruct b; [checks_tac|] end.
  cbv zeta. match goal with |- Checks (if ?b then _ else _) => destruct b end; checks_tac.
Qed.
#[export] Instance TestCode_NumbersWithin d e a msg l s :
  TestCode (UnityAssertNumbersWithin d e a msg l s).
Proof. apply TestCode_guard. checks_tac. Qed.

Lemma Checks_equal_int_array_loop num msg l s f n e a :
  Checks (equal_int_array_loop num msg l s f n e a).
Proof. revert e a. induction n; intros e a; cbn [equal_int_array_loop]; checks_tac; apply IHn. Qed.
Lemma Checks_numbers_array_within_loop num msg l s f d n e a :
  Checks (numbers_array_within_loop num msg l s f d n e a).
Proof.
  revert e a. induction n as [|n IH]; intros e a; cbn [numbers_array_within_loop];
    checks_tac; apply IH.
Qed.
Lemma Checks_equal_string_array_loop e a num msg l f n j :
  Checks (equal_string_array_loop e a num msg l f n j).
Proof.
  revert j. induction n as [|n IH]; intros j; cbn [equal_string_array_loop]; [checks_tac|].
  apply Checks_bind; [checks_tac|]. intros x. apply Checks_bind; [checks_tac|]. intros y.
  apply Checks_compare_strings; cbn [negb Z.eqb]; checks_tac; apply IH.
Qed.
Lemma Checks_memory_bytes_loop len num msg l el n e a :
  Checks (memory_bytes_loop len num msg l el n e a).
Proof. revert e a. induction n; intros e a; cbn [memory_bytes_loop]; checks_tac; apply IHn. Qed.
Lemma Checks_memory_elements_loop ex len num msg l f n e a :
  Checks (memory_elements_loop ex len num msg l f n e a).
Proof.
  revert e a. induction n as [|n IH]; intros e a; cbn [memory_elements_loop]; [checks_tac|].
  apply Checks_bind; [apply Checks_memory_bytes_loop|]. intros [? ?]. apply IH.
Qed.

#[local] Existing Instance Checks_equal_int_array_loop.
#[local] Existing Instance Checks_numbers_array_within_loop.
#[local] Existing Instance Checks_equal_string_array_loop.
#[local] Existing Instance Checks_memory_elements_loop.

#[export] Instance TestCode_EqualIntArray e a n msg l s f :
  TestCode (UnityAssertEqualIntArray e a n msg l s f).
Proof. apply TestCode_guard. checks_tac; apply _. Qed.
#[export] Instance TestCode_NumbersArrayWithin d e a n msg l s f :
  TestCode (UnityAssertNumbersArrayWithin d e a n msg l s f).
Proof. apply TestCode_guard. checks_tac; apply _. Qed.
#[export] Instance TestCode_EqualString e a msg l : TestCode (UnityAssertEqualString e a msg l).
Proof.
  apply TestCode_guard. apply Checks_compare_strings; cbn [negb Z.eqb]; checks_tac.
Qed.
#[export] Instance TestCode_EqualStringLen e a n msg l :
  TestCode (UnityAssertEqualStringLen e a n msg l).
Proof.
  apply TestCode_guard. apply Checks_compare_strings; cbn [negb Z.eqb]; checks_tac.
Qed.
#[export] Instance TestCode_EqualStringArray e a n msg l f :
  TestCode (UnityAssertEqualStringArray e a n msg l f).
Proof. apply TestCode_guard. checks_tac; apply _. Qed.
#[export] Instance TestCode_EqualMemory e a len n msg l f :
  TestCode (UnityAssertEqualMemory e a len n msg l f).
Proof. apply TestCode_guard. checks_tac; apply _. Qed.
#[export] Instance TestCode_Fail {A} msg l : TestCode (@UnityFail _ A msg l).
Proof. apply TestCode_guard. checks_tac. Qed.
#[export] Instance TestCode_Ignore {A} msg l : TestCode (@UnityIgnore _ A msg l).
Proof. apply TestCode_guard. checks_tac. Qed.
#[export] Instance TestCode_TEST_ASSERT c l msg : TestCode (UNITY_TEST_ASSERT c l msg).
Proof. unfold UNITY_TEST_ASSERT. destruct c; apply _. Qed.
End test_code.
