(* ===== verification/UnityFixture.v ===== *)
(** * Running tests (src/unity/unity.c, control functions; src/unity/unity_fixture.c)

    The lifecycle of a test (setup, body, teardown under setjmp), the
    accounting of results, the restoration of pointers, the command line and
    the main loop of a test program. *)

From S2P Require Import Prelude CMachine UnityOutput UnityAssert.

Definition upd_Unity (f : UNITY_STORAGE_T → UNITY_STORAGE_T) : M unit := modify (set_Unity f).
Definition upd_Fixture (f : UNITY_FIXTURE_T → UNITY_FIXTURE_T) : M unit :=
  modify (set_UnityFixture f).

(** [Unity.NumberOfTests++] and the like, at the width of UNITY_COUNTER_TYPE. *)
Definition incr_NumberOfTests : M unit :=
  upd_Unity (λ u, with_NumberOfTests (u64 (NumberOfTests u + 1)) u).
Definition incr_TestFailures : M unit :=
  upd_Unity (λ u, with_TestFailures (u64 (TestFailures u + 1)) u).
Definition incr_TestIgnores : M unit :=
  upd_Unity (λ u, with_TestIgnores (u64 (TestIgnores u + 1)) u).

(** UNITY_CLR_DETAILS() *)
Definition UNITY_CLR_DETAILS : M unit := upd_Unity (with_Details None None).

Definition UNITY_MAX_POINTERS : Z := 5.

Section control.
Context `{Target}.

(** ** Control functions of unity.c *)

Definition UnityConcludeTest : M unit :=
  u ← get Unity;
  (if negb (CurrentTestIgnored u =? 0) then incr_TestIgnores
   else if CurrentTestFailed u =? 0 then
     UnityTestResultsBegin (TestFile u) (CurrentTestLineNumber u);;
     UnityPrint (Some UnityStrPass)
   else incr_TestFailures);;
  set_CurrentTestFailed 0;;
  set_CurrentTestIgnored 0;;
  UNITY_PRINT_EOL.

(** setUp and tearDown of unity_fixture.c do nothing. *)
Definition setUp : M unit := skip.
Definition tearDown : M unit := skip.

Definition UnityDefaultTestRun (Func : M unit) (FuncName : cstring) (FuncLineNum : Z) : M unit :=
  upd_Unity (with_CurrentTestName FuncName);;
  upd_Unity (with_CurrentTestLineNumber (u64 FuncLineNum));;
  incr_NumberOfTests;;
  UNITY_CLR_DETAILS;;
  TEST_PROTECT (setUp;; Func);;
  TEST_PROTECT tearDown;;
  UnityConcludeTest.

Definition UnitySetTestFile (filename : cstring) : M unit :=
  upd_Unity (with_TestFile filename).

Definition UnityBegin (filename : cstring) : M unit :=
  upd_Unity (with_TestFile filename);;
  upd_Unity (with_CurrentTestName None);;
  upd_Unity (with_CurrentTestLineNumber 0);;
  upd_Unity (with_NumberOfTests 0);;
  upd_Unity (with_TestFailures 0);;
  upd_Unity (with_TestIgnores 0);;
  upd_Unity (with_CurrentTestFailed 0);;
  upd_Unity (with_CurrentTestIgnored 0);;
  UNITY_CLR_DETAILS.

Definition UnityEnd : M Z :=
  u ← get Unity;
  UNITY_PRINT_EOL;;
  UnityPrint (Some UnityStrBreaker);;
  UNITY_PRINT_EOL;;
  UnityPrintNumber (i64 (NumberOfTests u));;
  UnityPrint (Some UnityStrResultsTests);;
  UnityPrintNumber (i64 (TestFailures u));;
  UnityPrint (Some UnityStrResultsFailures);;
  UnityPrintNumber (i64 (TestIgnores u));;
  UnityPrint (Some UnityStrResultsIgnored);;
  UNITY_PRINT_EOL;;
  (if TestFailures u =? 0 then UnityPrint (Some UnityStrOk) else UnityPrint (Some UnityStrFail));;
  UNITY_PRINT_EOL;;
  mret (i32 (TestFailures u)).

(** ** Test selection *)

Fixpoint prefix_of (p s : cstr) : bool :=
  match p, s with
  | [], _ => true
  | c :: p, d :: s => (c =? d) && prefix_of p s
  | _ :: _, [] => false
  end.

(** strstr(haystack, needle): the suffix at the first occurrence. *)
Fixpoint strstr (haystack needle : cstr) : option cstr :=
  if prefix_of needle haystack then Some haystack
  else match haystack with
       | [] => None
       | _ :: haystack => strstr haystack needle
       end.

Definition selected (filter : cstring) (name : cstr) : bool :=
  match filter with
  | None => true
  | Some filter => match strstr name filter with Some _ => true | None => false end
  end.

Definition testSelected (test : cstr) : M bool :=
  f ← get UnityFixture; mret (selected (NameFilter f) test).
Definition groupSelected (group : cstr) : M bool :=
  f ← get UnityFixture; mret (selected (GroupFilter f) group).

(** [testSelected(name) && groupSelected(group)] *)
Definition test_and_group_selected (name group : cstr) : M bool :=
  testSelected name ≫= λ t : bool, if t then groupSelected group else mret false.

(** ** Automatic pointer restoration *)

Definition UnityPointer_Init : M unit := modify (λ w, set_pointers (pointer_store w) 0 w).

Definition UnityPointer_Set (ptr newValue line : Z) : M unit :=
  index ← get pointer_index;
  if index >=? UNITY_MAX_POINTERS then UnityFail (Some (str "Too many pointers set")) line
  else
    old ← load_uint ptr pointer_bytes;
    modify (λ w, set_pointers (<[Z.to_nat index := mkPointerPair ptr old]> (pointer_store w))
                   index w);;
    store_uint ptr pointer_bytes newValue;;
    modify (λ w, set_pointers (pointer_store w) (index + 1) w).

(** The loop of UnityPointer_UndoAllSets, from index [n] down. *)
Fixpoint undo_loop (n : nat) : M unit :=
  match n with
  | O => skip
  | S n =>
      modify (λ w, set_pointers (pointer_store w) (Z.of_nat n) w);;
      ps ← get pointer_store;
      pair ← of_option (ps !! n);
      store_uint (pointer pair) pointer_bytes (old_value pair);;
      undo_loop n
  end.

Definition UnityPointer_UndoAllSets : M unit :=
  index ← get pointer_index; undo_loop (Z.to_nat index).

(** ** Fixture tests *)

Definition UnityConcludeFixtureTest : M unit :=
  u ← get Unity;
  UnityPrint (CurrentTestName u);;
  UnityPrint (Some (str " "));;
  (if negb (CurrentTestIgnored u =? 0) then
     UnityPrint (Some UnityStrIgnore);; incr_TestIgnores
   else if CurrentTestFailed u =? 0 then
     f ← get UnityFixture;
     when (negb (Verbose f =? 0)) (UnityPrint (Some UnityStrPass))
   else
     UnityPrint (Some UnityStrFail);;
     UnityPrint (Some (str " at "));;
     UnityPrint (TestFile u);;
     UNITY_OUTPUT_CHAR (chr ":");;
     UnityPrintNumber (i64 (CurrentAssertionLineNumber u));;
     incr_TestFailures);;
  UNITY_PRINT_EOL;;
  set_CurrentTestFailed 0;;
  set_CurrentTestIgnored 0.

Definition UnityTestRunner (setup testBody teardown : M unit) (printableName group name : cstr)
    (file : cstring) (line : Z) : M unit :=
  g ← test_and_group_selected name group;
  when g (
    upd_Unity (with_TestFile file);;
    upd_Unity (with_CurrentTestName (Some printableName));;
    upd_Unity (with_CurrentTestLineNumber line);;
    incr_NumberOfTests;;
    UnityPointer_Init;;
    TEST_PROTECT (setup;; testBody);;
    TEST_PROTECT teardown;;
    TEST_PROTECT UnityPointer_UndoAllSets;;
    UnityConcludeFixtureTest).

Definition UnityIgnoreTest (printableName group name : cstr) : M unit :=
  g ← test_and_group_selected name group;
  when g (
    incr_NumberOfTests;;
    incr_TestIgnores;;
    f ← get UnityFixture;
    if negb (Verbose f =? 0) then
      UnityPrint (Some printableName);;
      UnityPrint (Some (str " "));;
      UnityPrint (Some UnityStrIgnore);;
      UNITY_PRINT_EOL
    else if negb (Silent f =? 0) then skip
    else UNITY_OUTPUT_CHAR (chr "!")).

(** The functions the macros TEST(group, name) and IGNORE_TEST(group, name) of
    unity_fixture.h generate, called by RUN_TEST_CASE(group, name). *)
Definition printable_name (group name : cstr) : cstr :=
  str "TEST(" ++ group ++ str ", " ++ name ++ str ")".
Definition TEST_run (group name : cstr) (setup body teardown : M unit) (file : cstring)
    (line : Z) : M unit :=
  UnityTestRunner setup body teardown (printable_name group name) group name file line.
Definition IGNORE_TEST_run (group name : cstr) : M unit :=
  UnityIgnoreTest (printable_name group name) group name.

(** ** The command line *)

Definition is_decimal_digit (c : Z) : bool :=
  (char_val c >=? chr "0") && (char_val c <=? chr "9").

(** The digit loop after -r; RepeatCount is an [unsigned int]. *)
Fixpoint repeat_digits (s : cstr) (RepeatCount : Z) : Z :=
  match s with
  | c :: s =>
      if is_decimal_digit c
      then repeat_digits s (u32 (u32 (RepeatCount * 10) + (u32 (u32 (char_val c) - chr "0"))))
      else RepeatCount
  | [] => RepeatCount
  end.

Definition with_Verbose v f := mkFixture v (Silent f) (RepeatCount f) (NameFilter f) (GroupFilter f).
Definition with_Silent v f := mkFixture (Verbose f) v (RepeatCount f) (NameFilter f) (GroupFilter f).
Definition with_RepeatCount v f :=
  mkFixture (Verbose f) (Silent f) v (NameFilter f) (GroupFilter f).
Definition with_NameFilter v f :=
  mkFixture (Verbose f) (Silent f) (RepeatCount f) v (GroupFilter f).
Definition with_GroupFilter v f :=
  mkFixture (Verbose f) (Silent f) (RepeatCount f) (NameFilter f) v.

Definition print_line (s : string) : M unit := UnityPrint (Some (str s));; UNITY_PRINT_EOL.

Definition print_usage : M unit :=
  print_line "Runs a series of unit tests.";; UNITY_PRINT_EOL;;
  print_line "When no flag is specified, all tests are run.";; UNITY_PRINT_EOL;;
  print_line "Optional flags:";;
  print_line "  -v          Verbose output: show all tests executed even if they pass";;
  print_line "  -s          Silent mode: minimal output showing only test failures";;
  print_line "  -g NAME     Only run tests in groups that contain the string NAME";;
  print_line "  -n NAME     Only run tests whose name contains the string NAME";;
  print_line "  -r NUMBER   Repeatedly run all tests NUMBER times";;
  print_line "  -h, --help  Display this help message";; UNITY_PRINT_EOL;;
  print_line "More information about Unity: https://www.throwtheswitch.org/unity".

(** The loop over argv[i], argv[i+1], ... *)
Fixpoint options_loop (args : list cstr) : M Z :=
  match args with
  | [] => mret 0
  | arg :: args =>
      if bool_decide (arg = str "-h") || bool_decide (arg = str "--help") then
        print_usage;; mret 1
      else if bool_decide (arg = str "-v") then upd_Fixture (with_Verbose 1);; options_loop args
      else if bool_decide (arg = str "-s") then upd_Fixture (with_Silent 1);; options_loop args
      else if bool_decide (arg = str "-g") then
        match args with
        | [] => mret 1
        | name :: args => upd_Fixture (with_GroupFilter (Some name));; options_loop args
        end
      else if bool_decide (arg = str "-n") then
        match args with
        | [] => mret 1
        | name :: args => upd_Fixture (with_NameFilter (Some name));; options_loop args
        end
      else if bool_decide (arg = str "-r") then
        upd_Fixture (with_RepeatCount 2);;
        match args with
        | [] => options_loop args
        | count :: args' =>
            if is_decimal_digit (hd 0 count) then
              upd_Fixture (with_RepeatCount (repeat_digits count 0));; options_loop args'
            else options_loop args
        end
      else options_loop args
  end.

(** [argv] lists argv[0] .. argv[argc-1]. *)
Definition UnityGetCommandLineOptions (argv : list cstr) : M Z :=
  upd_Fixture (with_Verbose 0);;
  upd_Fixture (with_Silent 0);;
  upd_Fixture (with_GroupFilter None);;
  upd_Fixture (with_NameFilter None);;
  upd_Fixture (with_RepeatCount 1);;
  if Z.of_nat (length argv) =? 1 then mret 0 else options_loop (tail argv).

(** ** The main function of a test program *)

Definition announceTestRun (runNumber : Z) : M unit :=
  UnityPrint (Some (str "Unity test run "));;
  UnityPrintNumberUnsigned (u32 (runNumber + 1));;
  UnityPrint (Some (str " of "));;
  f ← get UnityFixture;
  UnityPrintNumberUnsigned (RepeatCount f);;
  UNITY_PRINT_EOL.

(** The repetition loop, with a bound on its turns. *)
Fixpoint run_loop (fuel : nat) (file : cstring) (runAllTests : M unit) (r : Z) : M unit :=
  match fuel with
  | O => out_of_fuel
  | S fuel =>
      f ← get UnityFixture;
      if r <? RepeatCount f then
        UnityBegin file;;
        announceTestRun r;;
        runAllTests;;
        UnityEnd;;
        run_loop fuel file runAllTests (u32 (r + 1))
      else skip
  end.

(** The loop turns RepeatCount times, so one more step than that is enough as
    long as the tests leave RepeatCount alone. *)
Definition UnityMain (argv : list cstr) (runAllTests : M unit) : M Z :=
  result ← UnityGetCommandLineOptions argv;
  if negb (result =? 0) then mret result
  else
    upd_Fixture (with_Verbose 1);;
    f ← get UnityFixture;
    run_loop (S (Z.to_nat (RepeatCount f))) (head argv) runAllTests 0;;
    u ← get Unity;
    mret (i32 (TestFailures u)).

End control.
