(* ===== verification/UnityFixtureSpec.v ===== *)
(** * What the runner promises

    The accounting of the runner as a refinement of an abstract session (a
    list of verdicts), the restoration of pointers, the command line and the
    exit code of a test program. *)

From S2P Require Import Prelude CMachine UnityOutput UnityAssert UnityAssertSpec.
From S2P Require Import UnityFrame UnityFixture.

#[export] Typeclasses Opaque UnityPointer_Set UnityPointer_UndoAllSets undo_loop.

(** ** The abstract session *)

Inductive verdict := Passed | Failed | Ignored.

#[export] Instance verdict_eq_dec : EqDecision verdict.
Proof. solve_decision. Defined.

Definition count (v : verdict) (log : list verdict) : Z :=
  Z.of_nat (length (filter (λ x, x = v) log)).

Lemma count_app v l k : count v (l ++ k) = count v l + count v k.
Proof. unfold count. rewrite filter_app, length_app. lia. Qed.

Lemma count_total l :
  Z.of_nat (length l) = count Passed l + count Failed l + count Ignored l.
Proof.
  unfold count. induction l as [|v l IH]; [done|]. rewrite !filter_cons. destruct v; simpl;
    repeat case_decide; try done; simpl; lia.
Qed.

(** The framework's counters stand for a log of verdicts. *)
Record represents (log : list verdict) (w : world) : Prop := {
  rep_tests : NumberOfTests (Unity w) = u64 (Z.of_nat (length log));
  rep_failures : TestFailures (Unity w) = u64 (count Failed log);
  rep_ignores : TestIgnores (Unity w) = u64 (count Ignored log);
}.

Lemma u64_succ x : u64 (u64 x + 1) = u64 (x + 1).
Proof. unfold u64, uwrap. by rewrite Zplus_mod_idemp_l. Qed.

(** The verdict the flags of a finished test stand for. *)
Definition verdict_of (w : world) : verdict :=
  if negb (CurrentTestIgnored (Unity w) =? 0) then Ignored
  else if CurrentTestFailed (Unity w) =? 0 then Passed else Failed.

(** ** Tests as data *)

Record test_case := mkTest {
  tc_group : cstr;
  tc_name : cstr;
  tc_setup : M unit;
  tc_body : M unit;
  tc_teardown : M unit;
  tc_file : cstring;
  tc_line : Z;
  tc_ignored : bool;
}.

(** Test code in all three phases. *)
Class GoodTest (t : test_case) : Prop := {
  good_setup :: TestCode (tc_setup t);
  good_body :: TestCode (tc_body t);
  good_teardown :: TestCode (tc_teardown t);
}.

(** Runs printing calls, reads and assignments of a straight-line computation. *)
Lemma bind_modify {A} f (k : () → M A) w : (modify f ≫= k) w = k () (f w).
Proof. done. Qed.

Lemma emit_set_Unity s f w : emit s (set_Unity f w) = set_Unity f (emit s w).
Proof. done. Qed.

Ltac run_prints :=
  repeat (rewrite ?bind_assoc;
    first [ rewrite bind_get | rewrite bind_modify | erewrite emits_bind by (eauto 20 with emits) ]).

Section runner.
Context `{Target}.

(** What RUN_TEST_CASE runs. *)
Definition run_test (t : test_case) : M unit :=
  if tc_ignored t then IGNORE_TEST_run (tc_group t) (tc_name t)
  else TEST_run (tc_group t) (tc_name t) (tc_setup t) (tc_body t) (tc_teardown t)
         (tc_file t) (tc_line t).

(** A group runner: one RUN_TEST_CASE after the other. *)
Fixpoint run_tests (ts : list test_case) : M unit :=
  match ts with
  | [] => skip
  | t :: ts => run_test t;; run_tests ts
  end.

Definition test_selected (t : test_case) (w : world) : bool :=
  selected (NameFilter (UnityFixture w)) (tc_name t) &&
  selected (GroupFilter (UnityFixture w)) (tc_group t).

(** ** Protected blocks *)

Lemma protect_cases (m : M unit) w :
  TEST_PROTECT m w = (Ret (), (m w).2) ∨ (∃ o, (m w).1 = o ∧ (o = Undef ∨ o = OutOfFuel) ∧
                                           TEST_PROTECT m w = m w).
Proof. unfold TEST_PROTECT. destruct (m w) as [[[]| | |] w']; simpl; eauto 6. Qed.

#[export] Instance TestCode_protect (m : M unit) : TestCode m → TestCode (TEST_PROTECT m).
Proof.
  intros Hm w Hw. specialize (Hm w Hw). unfold TEST_PROTECT.
  destruct (m w) as [[[]| | |] w']; done.
Qed.

Lemma protect_not_Jump (m : M unit) w : (TEST_PROTECT m w).1 ≠ Jump.
Proof. unfold TEST_PROTECT. by destruct (m w) as [[[]| | |] w']. Qed.

Lemma undo_loop_quiet n w : pointer_index w = Z.of_nat n → quiet w (undo_loop n w).2.
Proof.
  revert w. induction n as [|n IH]; intros w Hi; cbn [undo_loop]; [reflexivity|].
  unfold mbind, M_bind, modify, get. cbn [pointer_store set_pointers mem].
  destruct (pointer_store w !! n) as [p|]; simpl.
  - etrans; [|by apply IH]. split; [|done]. split; try done; [by exists []|].
    intros [? ?]. split; simpl; [done | lia].
  - split; [|done]. split; try done; [by exists []|]. intros [? ?]. split; simpl; [done | lia].
Qed.

Lemma undo_quiet w : 0 ≤ pointer_index w → quiet w (UnityPointer_UndoAllSets w).2.
Proof.
  intros Hi. unfold UnityPointer_UndoAllSets. rewrite bind_get. apply undo_loop_quiet. lia.
Qed.

(** With a well-formed pointer store the restoration always returns. *)
Lemma undo_loop_returns n w :
  length (pointer_store w) = 5%nat → (n ≤ 5)%nat → (undo_loop n w).1 = Ret ().
Proof.
  revert w. induction n as [|n IH]; intros w Hl Hn; cbn [undo_loop]; [done|].
  unfold mbind, M_bind, modify, get. cbn [pointer_store set_pointers mem].
  destruct (lookup_lt_is_Some_2 (pointer_store w) n) as [p ->]; [lia|]. simpl. apply IH; simpl; lia.
Qed.

Lemma load_uint_eq a n w :
  load_uint a n w = match read_uint (mem w) a n with
                    | Some v => (Ret v, w) | None => (Undef, w) end.
Proof. unfold load_uint. rewrite bind_get. by destruct (read_uint (mem w) a n). Qed.

#[export] Instance TestCode_Pointer_Set p v l : TestCode (UnityPointer_Set p v l).
Proof.
  unfold UnityPointer_Set. intros w Hw. rewrite bind_get.
  destruct (Z.geb_spec (pointer_index w) UNITY_MAX_POINTERS) as [Hge|Hlt]; [by apply TestCode_Fail|].
  unfold mbind, M_bind. rewrite load_uint_eq. unfold UNITY_MAX_POINTERS in Hlt.
  destruct (read_uint (mem w) p pointer_bytes); simpl; (split_and!; [|done|by intros ?]);
    split; try done; try (by exists []).
  intros [? ?]. split; simpl; [by rewrite length_insert | lia].
Qed.

(** ** One test *)

(** The state in which a selected test's verdict is decided. *)
Definition enter_test (t : test_case) (w : world) : world :=
  set_pointers (pointer_store w) 0
    (set_Unity (λ u, with_NumberOfTests (u64 (NumberOfTests u + 1))
      (with_CurrentTestLineNumber (tc_line t)
        (with_CurrentTestName (Some (printable_name (tc_group t) (tc_name t)))
          (with_TestFile (tc_file t) u)))) w).

Definition test_phases (t : test_case) : M unit :=
  TEST_PROTECT (tc_setup t;; tc_body t);;
  TEST_PROTECT (tc_teardown t);;
  TEST_PROTECT UnityPointer_UndoAllSets.

(** The world before the conclusion of the test. *)
Definition after_phases (t : test_case) (w : world) : world := (test_phases t (enter_test t w)).2.

Definition test_verdict (t : test_case) (w : world) : verdict :=
  if tc_ignored t then Ignored else verdict_of (after_phases t w).

(** The line UnityConcludeFixtureTest prints. *)
Definition verdict_text (w : world) : list Z :=
  cstring_text (CurrentTestName (Unity w)) ++ str " " ++
  match verdict_of w with
  | Ignored => UnityStrIgnore
  | Passed => if negb (Verbose (UnityFixture w) =? 0) then UnityStrPass else []
  | Failed => UnityStrFail ++ str " at " ++ cstring_text (TestFile (Unity w)) ++ str ":" ++
              signed_decimal (i64 (CurrentAssertionLineNumber (Unity w)))
  end ++ [10].

Definition count_verdict (v : verdict) (u : UNITY_STORAGE_T) : UNITY_STORAGE_T :=
  match v with
  | Passed => u
  | Failed => with_TestFailures (u64 (TestFailures u + 1)) u
  | Ignored => with_TestIgnores (u64 (TestIgnores u + 1)) u
  end.

Lemma UnityConcludeFixtureTest_eq w :
  UnityConcludeFixtureTest w =
  (Ret (), set_Unity (λ u, with_CurrentTestIgnored 0 (with_CurrentTestFailed 0
             (count_verdict (verdict_of w) u))) (emit (verdict_text w) w)).
Proof.
  unfold UnityConcludeFixtureTest, verdict_text, verdict_of. rewrite bind_get.
  destruct (CurrentTestIgnored (Unity w) =? 0), (CurrentTestFailed (Unity w) =? 0) eqn:E; cbn [negb].
  all: run_prints.
  all: unfold upd_Unity, incr_TestFailures, incr_TestIgnores, set_CurrentTestFailed,
    set_CurrentTestIgnored, upd_Unity; run_prints.
  all: rewrite ?emit_set_Unity, ?emit_emit, <- ?app_assoc; done.
Qed.

Lemma test_and_group_selected_bind {A} t (k : bool → M A) w :
  (test_and_group_selected (tc_name t) (tc_group t) ≫= k) w = k (test_selected t w) w.
Proof.
  unfold test_and_group_selected, testSelected, groupSelected, test_selected.
  rewrite !bind_assoc, bind_get. unfold mbind, M_bind, mret, M_ret, get.
  by destruct (selected (NameFilter (UnityFixture w)) (tc_name t)).
Qed.

Lemma run_test_eq t w :
  tc_ignored t = false →
  run_test t w =
  if test_selected t w
  then (test_phases t;; UnityConcludeFixtureTest) (enter_test t w)
  else (Ret (), w).
Proof.
  intros Hi. unfold run_test, TEST_run, UnityTestRunner. rewrite Hi.
  rewrite test_and_group_selected_bind. destruct (test_selected t w); [|done]. unfold when.
  unfold upd_Unity, incr_NumberOfTests, upd_Unity, UnityPointer_Init. run_prints.
  unfold test_phases. rewrite !bind_assoc. apply bind_ext. intros ? w1. by rewrite !bind_assoc.
Qed.

Lemma run_ignored_eq t w :
  tc_ignored t = true →
  run_test t w =
  if test_selected t w
  then (Ret (), set_Unity (λ u, with_TestIgnores (u64 (TestIgnores u + 1))
                  (with_NumberOfTests (u64 (NumberOfTests u + 1)) u))
        (emit (if negb (Verbose (UnityFixture w) =? 0)
               then escape_all (printable_name (tc_group t) (tc_name t)) ++ str " " ++
                    UnityStrIgnore ++ [10]
               else if negb (Silent (UnityFixture w) =? 0) then [] else str "!") w))
  else (Ret (), w).
Proof.
  intros Hi. unfold run_test, IGNORE_TEST_run, UnityIgnoreTest. rewrite Hi.
  rewrite test_and_group_selected_bind. destruct (test_selected t w); [|done]. unfold when.
  unfold incr_NumberOfTests, incr_TestIgnores, upd_Unity. run_prints.
  cbn [UnityFixture set_Unity].
  destruct (negb (Verbose (UnityFixture w) =? 0)); [|destruct (negb (Silent (UnityFixture w) =? 0))].
  - run_prints. rewrite emits_EOL, !emit_set_Unity, !emit_emit, <- ?app_assoc. done.
  - by rewrite emit_nil.
  - done.
Qed.

(** A computation whose C counterpart has defined behaviour and ends. *)
Definition defined {A} (r : outcome A * world) : Prop := r.1 ≠ Undef ∧ r.1 ≠ OutOfFuel.

(** The three phases are test code that never jumps out. *)
Lemma TestCode_phases t w :
  GoodTest t → flags_ok w → pointers_ok w →
  defined (test_phases t w) →
  (test_phases t w).1 = Ret () ∧ test_step w (test_phases t w).2 ∧
  pointers_ok (test_phases t w).2.
Proof.
  intros Ht Hw Hp Hd. unfold test_phases in *.
  assert (H1 : TestCode (TEST_PROTECT (tc_setup t;; tc_body t);; TEST_PROTECT (tc_teardown t)))
    by apply _.
  rewrite <- bind_assoc in *.
  set (m := TEST_PROTECT (tc_setup t;; tc_body t);; TEST_PROTECT (tc_teardown t)) in *.
  assert (Hj : (m w).1 ≠ Jump).
  { subst m. unfold mbind at 1, M_bind. pose proof (protect_not_Jump (tc_setup t;; tc_body t) w).
    destruct (TEST_PROTECT _ w) as [[[]| | |] w']; try done. apply protect_not_Jump. }
  specialize (H1 w Hw). clearbody m. unfold mbind, M_bind in *.
  destruct (m w) as [[[]| | |] w1]; simpl in *; try done;
    [|by destruct Hd|by destruct Hd].
  destruct H1 as (Hs & Hf & Hv). pose proof (ss_pointers _ _ Hs Hp) as Hp1.
  assert (Hu : quiet w1 (TEST_PROTECT UnityPointer_UndoAllSets w1).2).
  { pose proof (undo_quiet w1 ltac:(apply Hp1)) as Hq. unfold TEST_PROTECT.
    by destruct (UnityPointer_UndoAllSets w1) as [[[]| | |] ?]. }
  pose proof (protect_not_Jump UnityPointer_UndoAllSets w1) as Hj2.
  destruct (TEST_PROTECT UnityPointer_UndoAllSets w1) as [[[]| | |] w2]; simpl in *; try done;
    [|by destruct Hd|by destruct Hd].
  destruct Hu as [Hs2 Hf2]. split; [done|]. split.
  - split_and!; [by etrans | unfold flags_ok in *; by rewrite Hf2 |].
    intros Hn. rewrite Hf2. by apply Hv.
  - by apply Hs2.
Qed.

(** One test refines one step of the abstract session. *)
Lemma run_test_step t w :
  GoodTest t → clear w → pointers_ok w → defined (run_test t w) →
  (run_test t w).1 = Ret () ∧ clear (run_test t w).2 ∧ pointers_ok (run_test t w).2 ∧
  UnityFixture (run_test t w).2 = UnityFixture w ∧
  ∀ log, represents log w →
    represents (log ++ (if test_selected t w then [test_verdict t w] else [])) (run_test t w).2.
Proof.
  intros Ht Hc Hp Hd. unfold test_verdict. destruct (tc_ignored t) eqn:Et.
  - rewrite run_ignored_eq by done. destruct (test_selected t w).
    + split_and!; try done. intros log [Hn Hf Hi]. split; simpl; rewrite ?length_app, ?count_app;
        simpl; rewrite ?Hn, ?Hf, ?Hi, ?u64_succ; f_equal; unfold count; simpl; lia.
    + simpl. split_and!; try done. intros log. by rewrite app_nil_r.
  - rewrite run_test_eq in * by done. unfold after_phases. destruct (test_selected t w).
    2: { simpl. split_and!; try done. intros log. by rewrite app_nil_r. }
    assert (Hpe : pointers_ok (enter_test t w)) by (destruct Hp; split; simpl; lia).
    assert (Hfe : flags_ok (enter_test t w)) by (left; exact Hc).
    assert (Hd' : defined (test_phases t (enter_test t w))).
    { destruct Hd as [Hd1 Hd2]. unfold mbind, M_bind in Hd1, Hd2.
      destruct (test_phases t (enter_test t w)) as [[[]| | |] w1]; done. }
    destruct (TestCode_phases t _ Ht Hfe Hpe Hd') as (Hr & (Hs & Hfl & _) & Hpp).
    destruct (test_phases t (enter_test t w)) as [o w1] eqn:Ep. simpl in Hr, Hs, Hfl, Hpp. subst o.
    rewrite (bind_Ret _ _ _ _ _ Ep), UnityConcludeFixtureTest_eq. simpl.
    destruct Hs as [_ _ _ Hn1 Hf1 Hi1 Hx1 _ _]. simpl in Hn1, Hf1, Hi1, Hx1.
    split_and!; [done.. |]. intros log [Hn Hf Hi].
    split; rewrite ?length_app, ?count_app; destruct (verdict_of w1); simpl;
        rewrite ?Hn1, ?Hf1, ?Hi1, ?Hn, ?Hf, ?Hi, ?u64_succ; f_equal; unfold count; simpl; lia.
Qed.

(** ** A whole run *)

(** The verdicts of the selected tests, in order. *)
Fixpoint session (ts : list test_case) (w : world) : list verdict :=
  match ts with
  | [] => []
  | t :: ts => (if test_selected t w then [test_verdict t w] else []) ++
               session ts (run_test t w).2
  end.

Lemma run_tests_refines ts : ∀ w log,
  Forall GoodTest ts → clear w → pointers_ok w → represents log w → defined (run_tests ts w) →
  (run_tests ts w).1 = Ret () ∧ clear (run_tests ts w).2 ∧ pointers_ok (run_tests ts w).2 ∧
  UnityFixture (run_tests ts w).2 = UnityFixture w ∧
  represents (log ++ session ts w) (run_tests ts w).2.
Proof.
  induction ts as [|t ts IH]; intros w log Hts Hc Hp Hr Hd; simpl.
  { by rewrite app_nil_r. }
  inversion_clear Hts as [|?? Ht Hts'].
  assert (Hd1 : defined (run_test t w)).
  { destruct Hd as [Hd1 Hd2]. simpl in Hd1, Hd2. unfold mbind, M_bind in Hd1, Hd2.
    by destruct (run_test t w) as [[[]| | |] w1]. }
  destruct (run_test_step t w Ht Hc Hp Hd1) as (Ho & Hc1 & Hp1 & Hf1 & Hr1). specialize (Hr1 log Hr).
  destruct (run_test t w) as [o w1] eqn:E. simpl in Ho, Hc1, Hp1, Hf1, Hr1. subst o.
  simpl in Hd. rewrite (bind_Ret _ _ _ _ _ E) in *. simpl.
  destruct (IH w1 _ Hts' Hc1 Hp1 Hr1 Hd) as (-> & ? & ? & Hf2 & Hr2).
  rewrite <- app_assoc in Hr2. split_and!; try done. congruence.
Qed.

Definition begin_world (file : cstring) (w : world) : world :=
  set_Unity (λ u, mkUnity file None None None 0 (CurrentAssertionLineNumber u) 0 0 0 0 0) w.

Lemma UnityBegin_eq file w : UnityBegin file w = (Ret (), begin_world file w).
Proof. done. Qed.

(** The summary UnityEnd prints for a log of verdicts. *)
Definition summary_text (log : list verdict) : list Z :=
  [10] ++ UnityStrBreaker ++ [10] ++
  signed_decimal (Z.of_nat (length log)) ++ UnityStrResultsTests ++
  signed_decimal (count Failed log) ++ UnityStrResultsFailures ++
  signed_decimal (count Ignored log) ++ UnityStrResultsIgnored ++ [10] ++
  (if count Failed log =? 0 then UnityStrOk else UnityStrFail) ++ [10].

Lemma i64_u64 z : 0 ≤ z < 2 ^ 63 → i64 (u64 z) = z.
Proof. intros Hz. unfold i64, u64. rewrite swrap_uwrap, swrap_small; simpl in *; lia. Qed.

Lemma count_bound v log : 0 ≤ count v log ≤ Z.of_nat (length log).
Proof. unfold count. pose proof (length_filter (λ x, x = v) log). lia. Qed.

Lemma UnityEnd_eq log w :
  represents log w → Z.of_nat (length log) < 2 ^ 63 →
  UnityEnd w = (Ret (i32 (count Failed log)), emit (summary_text log) w).
Proof.
  intros [Hn Hf Hi] Hl. unfold UnityEnd. rewrite bind_get.
  pose proof (count_bound Failed log). pose proof (count_bound Ignored log).
  run_prints. unfold mret, M_ret. rewrite !emit_emit, Hn, Hf, Hi.
  rewrite !i64_u64 by lia. unfold summary_text, u64.
  rewrite (uwrap_small 64 (count Failed log)) by lia.
  rewrite <- ?app_assoc. by destruct (count Failed log =? 0).
Qed.

Definition announce_text (r n : Z) : list Z :=
  str "Unity test run " ++ decimal (u32 (r + 1)) ++ str " of " ++ decimal n ++ [10].

Lemma announceTestRun_eq r w :
  uint64 (RepeatCount (UnityFixture w)) →
  announceTestRun r w = (Ret (), emit (announce_text r (RepeatCount (UnityFixture w))) w).
Proof.
  intros Hr. unfold announceTestRun. run_prints. cbn [UnityFixture emit] in *.
  run_prints. rewrite emits_EOL, !emit_emit. unfold announce_text. by rewrite <- ?app_assoc.
Qed.

(** Tests that always end with defined behaviour. *)
Definition completes (ts : list test_case) : Prop :=
  ∀ w, clear w → pointers_ok w → defined (run_tests ts w).

(** One turn of UnityMain's loop. *)
Lemma one_run ts file r w :
  Forall GoodTest ts → completes ts → Z.of_nat (length ts) < 2 ^ 63 → pointers_ok w →
  uint64 (RepeatCount (UnityFixture w)) →
  ∃ w1 w', clear w1 ∧
    (UnityBegin file;; announceTestRun r;; run_tests ts;; UnityEnd) w
    = (Ret (i32 (count Failed (session ts w1))), w') ∧
    w' = emit (summary_text (session ts w1)) (run_tests ts w1).2 ∧
    represents (session ts w1) w' ∧ pointers_ok w' ∧ UnityFixture w' = UnityFixture w.
Proof.
  intros Hts Hcs Hl Hp Hr.
  set (w1 := emit (announce_text r (RepeatCount (UnityFixture w))) (begin_world file w)).
  assert (Hc1 : clear w1) by done. assert (Hp1 : pointers_ok w1) by done.
  assert (Hr1 : represents [] w1) by done.
  destruct (run_tests_refines ts w1 [] Hts Hc1 Hp1 Hr1 (Hcs w1 Hc1 Hp1)) as (Ho & _ & Hp2 & Hf2 & Hr2).
  exists w1, (emit (summary_text (session ts w1)) (run_tests ts w1).2). split; [done|].
  assert (Hls : Z.of_nat (length (session ts w1)) < 2 ^ 63).
  { enough (∀ w, (length (session ts w) ≤ length ts)%nat) as Hle by (specialize (Hle w1); lia).
    clear. induction ts as [|t ts IH]; intros w; simpl; [lia|].
    rewrite length_app. specialize (IH (run_test t w).2). case_match; simpl; lia. }
  rewrite (bind_Ret _ _ _ _ _ (UnityBegin_eq _ _)).
  rewrite (bind_Ret _ _ _ _ _ (announceTestRun_eq r (begin_world file w) Hr)).
  change (emit _ (begin_world file w)) with w1.
  destruct (run_tests ts w1) as [o w2] eqn:E. simpl in *. subst o.
  rewrite (bind_Ret _ _ _ _ _ E), (UnityEnd_eq _ _ Hr2 Hls).
  split_and!; try done. destruct Hr2. by split.
Qed.

Lemma run_loop_eq ts file : ∀ fuel r w,
  Forall GoodTest ts → completes ts → Z.of_nat (length ts) < 2 ^ 63 → pointers_ok w →
  0 ≤ r → RepeatCount (UnityFixture w) < 2 ^ 32 →
  RepeatCount (UnityFixture w) - r < Z.of_nat fuel → r < RepeatCount (UnityFixture w) →
  ∃ w1 w', clear w1 ∧ run_loop fuel file (run_tests ts) r w = (Ret (), w') ∧
    w' = emit (summary_text (session ts w1)) (run_tests ts w1).2 ∧
    represents (session ts w1) w'.
Proof.
  induction fuel as [|fuel IH]; intros r w Hts Hcs Hl Hp Hr Hb Hfu Hlt; [lia|].
  cbn [run_loop]. rewrite bind_get. destruct (Z.ltb_spec r (RepeatCount (UnityFixture w))); [|lia].
  destruct (one_run ts file r w Hts Hcs Hl Hp) as (w1 & w' & Hc1 & E & Hw' & Hr' & Hp' & Hf');
    [unfold uint64; lia|].
  assert (E2 : ∀ k : M (), (UnityBegin file;; announceTestRun r;; run_tests ts;; UnityEnd;; k) w = k w').
  { intros k. transitivity (((UnityBegin file;; announceTestRun r;; run_tests ts;; UnityEnd);; k) w).
    - rewrite bind_assoc. apply bind_ext. intros _ u. rewrite bind_assoc. apply bind_ext.
      intros _ u'. by rewrite bind_assoc.
    - by rewrite (bind_Ret _ _ _ _ _ E). }
  rewrite E2. unfold u32. rewrite uwrap_small by lia.
  destruct (decide (r + 1 < RepeatCount (UnityFixture w))).
  - apply IH; rewrite ?Hf'; try done; lia.
  - exists w1, w'. split_and!; try done. destruct fuel as [|fuel]; [lia|]. cbn [run_loop].
    rewrite bind_get, Hf'. destruct (Z.ltb_spec (r + 1) (RepeatCount (UnityFixture w))); [lia|done].
Qed.
End runner.
