(* ===== verification/UnityFixtureProps.v ===== *)
(** * Properties of the test runner

    The statements the runner is judged by: the accounting of a run and the
    exit code of a test program, isolation of tests from each other, exact
    restoration of pointers, and the command line. *)

From S2P Require Import Prelude CMachine UnityOutput UnityAssert UnityAssertSpec.
From S2P Require Import UnityFrame UnityFixture UnityFixtureSpec.

(** ** Restoring pointers *)

Section pointers.
Context `{Target}.

Lemma le_split_combine l : Forall is_byte l → le_split (length l) (le_combine l) = l.
Proof.
  unfold is_byte. induction 1 as [|c l Hc _ IH]; cbn [length le_split le_combine]; [done|].
  rewrite (Z.mul_comm 256), Z_mod_plus_full, Z.mod_small, Z.div_add by lia.
  by rewrite Z.div_small, Z.add_0_l, IH by lia.
Qed.

Lemma to_of_bytes l : Forall is_byte l → to_bytes (length l) (of_bytes l) = l.
Proof.
  intros Hl. unfold to_bytes, of_bytes. destruct big_endian; [|by apply le_split_combine].
  rewrite <- (length_rev l), le_split_combine by by apply Forall_rev. apply rev_involutive.
Qed.

Lemma read_bytes_ok m a n l : bytes_ok m → read_bytes m a n = Some l → Forall is_byte l.
Proof.
  intros Hm. revert a l. induction n as [|n IH]; intros a l; simpl; [by intros [= <-]|].
  intros (c & Hc & (k & Hk & [= <-])%bind_Some)%bind_Some. constructor; [by apply Hm in Hc | eauto].
Qed.

Lemma write_bytes_lookup_in l : ∀ m m' a b, a ≤ b < a + Z.of_nat (length l) →
  write_bytes m a l !! b = write_bytes m' a l !! b.
Proof.
  induction l as [|c l IH]; intros m m' a b Hb; simpl in *; [lia|].
  destruct (decide (a = b)) as [->|]; [by rewrite !lookup_insert_eq|].
  rewrite !lookup_insert_ne by done. apply IH. lia.
Qed.

Lemma write_read_bytes m a n l : read_bytes m a n = Some l → write_bytes m a l = m.
Proof.
  revert a l. induction n as [|n IH]; intros a l; simpl; [by intros [= <-]|].
  intros (c & Hc & (k & Hk & [= <-])%bind_Some)%bind_Some. simpl. rewrite (IH _ _ Hk).
  by apply insert_id.
Qed.

(** Overwriting and writing back what was read restores the whole memory. *)
Lemma write_back m a l l' :
  read_bytes m a (length l') = Some l → write_bytes (write_bytes m a l') a l = m.
Proof.
  intros Hr. pose proof (length_read_bytes _ _ _ _ Hr) as Hl.
  rewrite <- (write_read_bytes m a (length l') l Hr) at 2. apply map_eq. intros b.
  destruct (decide (a ≤ b < a + Z.of_nat (length l))); [by apply write_bytes_lookup_in|].
  rewrite !write_bytes_lookup_out by lia. done.
Qed.

Lemma bytes_ok_store m a n v : bytes_ok m → bytes_ok (write_bytes m a (to_bytes n v)).
Proof.
  intros Hm. assert (Hb : Forall is_byte (to_bytes n v)).
  { unfold to_bytes. assert (Hs : Forall is_byte (le_split n v)).
    { revert v. induction n as [|n IH]; intros v; simpl; constructor; [|apply IH].
      unfold is_byte. apply Z.mod_pos_bound. lia. }
    destruct big_endian; [by apply Forall_rev | done]. }
  revert a. induction Hb as [|c l Hc _ IH]; intros a; simpl; [done|].
  apply map_Forall_insert_2; [done | apply IH].
Qed.

(** UT_PTR_SET for each pair of an address and a value, in order. *)
Fixpoint pointer_sets (line : Z) (sets : list (Z * Z)) : M unit :=
  match sets with
  | [] => skip
  | (p, v) :: sets => UnityPointer_Set p v line;; pointer_sets line sets
  end.

Definition mapped_pointers (m : gmap Z Z) (sets : list (Z * Z)) : Prop :=
  Forall (λ pv, is_Some (read_uint m pv.1 pointer_bytes)) sets.

Lemma read_bytes_store m a n v b k :
  is_Some (read_bytes m b k) → is_Some (read_bytes (write_bytes m a (to_bytes n v)) b k).
Proof.
  generalize (to_bytes n v) as l. intros l. revert b. induction k as [|k IH]; intros b; simpl; [done|].
  intros [r (c & Hc & (r' & Hr' & _)%bind_Some)%bind_Some].
  assert (is_Some (write_bytes m a l !! b)) as [d ->].
  { clear -Hc. revert a. induction l as [|e l IH]; intros a; simpl; [by eexists|].
    destruct (decide (a = b)) as [->|]; [rewrite lookup_insert_eq | rewrite lookup_insert_ne]; eauto. }
  simpl. destruct (IH (b + 1)) as [? ->]; eauto.
Qed.

Lemma UnityPointer_Set_eq p v line w i o :
  pointer_index w = Z.of_nat i → (i < 5)%nat → read_uint (mem w) p pointer_bytes = Some o →
  UnityPointer_Set p v line w =
  (Ret (), set_mem (write_bytes (mem w) p (to_bytes pointer_bytes v))
             (set_pointers (<[i := mkPointerPair p o]> (pointer_store w)) (Z.of_nat (S i)) w)).
Proof.
  intros Hi Hlt Ho. unfold UnityPointer_Set. rewrite bind_get, Hi.
  destruct (Z.geb_spec (Z.of_nat i) UNITY_MAX_POINTERS) as [Hge|_];
    [unfold UNITY_MAX_POINTERS in Hge; lia|].
  unfold mbind, M_bind. rewrite load_uint_eq, Ho. unfold modify, store_uint, modify.
  rewrite Nat2Z.id. unfold set_mem, set_pointers. simpl. do 2 f_equal. lia.
Qed.

(** What a sequence of sets leaves behind, and what the undo loop makes of it. *)
Lemma pointer_sets_undone line sets : ∀ w i,
  length (pointer_store w) = 5%nat → pointer_index w = Z.of_nat i →
  (i + length sets ≤ 5)%nat → bytes_ok (mem w) → mapped_pointers (mem w) sets →
  ∃ m ps, length ps = 5%nat ∧ take i ps = take i (pointer_store w) ∧
    pointer_sets line sets w
    = (Ret (), set_mem m (set_pointers ps (Z.of_nat (i + length sets)) w)) ∧
    undo_loop (i + length sets) (set_mem m (set_pointers ps (Z.of_nat (i + length sets)) w))
    = undo_loop i (set_pointers ps (Z.of_nat i) w).
Proof.
  induction sets as [|[p v] sets IH]; intros w i Hl Hi Hle Hb Hm; simpl in Hle.
  { exists (mem w), (pointer_store w). rewrite Nat.add_0_r, <- Hi. by destruct w. }
  inversion_clear Hm as [|?? [o Ho] Hms]. simpl in Ho. cbn [pointer_sets].
  rewrite (bind_Ret _ _ _ _ _ (UnityPointer_Set_eq p v line w i o Hi ltac:(lia) Ho)).
  set (w1 := set_mem _ _).
  destruct (IH w1 (S i)) as (m & ps & Hps & Htk & Hrun & Hundo); simpl; try done.
  - by rewrite length_insert.
  - lia.
  - by apply bytes_ok_store.
  - eapply Forall_impl; [exact Hms|]. intros [q u] Hq. simpl in *. unfold read_uint in *.
    rewrite fmap_is_Some in *. by apply read_bytes_store.
  - exists m, ps. simpl length. replace (i + S (length sets))%nat with (S i + length sets)%nat by lia.
    split_and!; [done | | exact Hrun | ].
    + apply (f_equal (take i)) in Htk. rewrite !take_take, Nat.min_l in Htk by lia.
      rewrite Htk. simpl. by rewrite take_insert_ge by lia.
    + change (set_mem m (set_pointers ps ?k w)) with (set_mem m (set_pointers ps k w1)).
      rewrite Hundo. cbn [undo_loop]. rewrite bind_modify, bind_get. cbn [pointer_store set_pointers].
      assert (Hp : ps !! i = Some (mkPointerPair p o)).
      { rewrite <- (lookup_take_lt ps (S i) i), Htk, lookup_take_lt by lia. simpl.
        apply list_lookup_insert_eq. lia. }
      rewrite Hp. simpl of_option. unfold mret, M_ret.
      rewrite (bind_Ret _ _ _ _ _ eq_refl). simpl pointer. simpl old_value.
      unfold store_uint. rewrite bind_modify. simpl mem.
      unfold read_uint in Ho. apply fmap_Some in Ho as (l & Hrl & ->).
      pose proof (length_read_bytes _ _ _ _ Hrl) as Hll. rewrite <- Hll at 2.
      rewrite to_of_bytes by by eapply read_bytes_ok.
      rewrite write_back by by rewrite length_to_bytes. by destruct w.
Qed.

(** C27: Pointers set through UnityPointer_Set are restored exactly: after any sequence of at
    most UNITY_MAX_POINTERS sets, overlapping and repeated targets included,
    UnityPointer_UndoAllSets leaves every byte of memory, the framework's state and the output
    as before the first set. *)
Theorem UnityPointer_sets_are_undone line sets w :
  length (pointer_store w) = 5%nat → bytes_ok (mem w) → mapped_pointers (mem w) sets →
  (length sets ≤ 5)%nat →
  ∃ ps, (UnityPointer_Init;; pointer_sets line sets;; UnityPointer_UndoAllSets) w
        = (Ret (), set_pointers ps 0 w).
Proof.
  intros Hl Hb Hm Hle. unfold UnityPointer_Init. rewrite bind_modify.
  destruct (pointer_sets_undone line sets (set_pointers (pointer_store w) 0 w) 0)
    as (m & ps & _ & _ & Hrun & Hundo); try done. simpl in Hrun, Hundo.
  exists ps. rewrite (bind_Ret _ _ _ _ _ Hrun). unfold UnityPointer_UndoAllSets.
  rewrite bind_get. simpl pointer_index. by rewrite Nat2Z.id.
Qed.

Lemma pointer_sets_app line sets sets' w :
  pointer_sets line (sets ++ sets') w = (pointer_sets line sets;; pointer_sets line sets') w.
Proof.
  revert w. induction sets as [|[p v] sets IH]; intros w; cbn [pointer_sets app]; [done|].
  rewrite bind_assoc. apply bind_ext. intros [] w'. apply IH.
Qed.

(** The undo loop looks at the pointer store, as far as it is in use, and at memory only. *)
Lemma undo_loop_frame n : ∀ w w',
  take n (pointer_store w) = take n (pointer_store w') → mem w = mem w' →
  (undo_loop n w).1 = (undo_loop n w').1 ∧ mem (undo_loop n w).2 = mem (undo_loop n w').2.
Proof.
  induction n as [|n IH]; intros w w' Hp Hm; cbn [undo_loop]; [done|].
  rewrite !bind_modify, !bind_get. cbn [pointer_store set_pointers].
  rewrite <- (lookup_take_lt (pointer_store w) (S n) n), Hp, lookup_take_lt by lia.
  destruct (pointer_store w' !! n) as [q|]; simpl of_option; [|done].
  unfold mret, M_ret. rewrite !(bind_Ret _ _ _ _ _ eq_refl). unfold store_uint. rewrite !bind_modify.
  apply IH; simpl; [|congruence].
  apply (f_equal (take n)) in Hp. by rewrite !take_take, !Nat.min_l in Hp by lia.
Qed.


(** In [w], undoing the sets in the pointer store gives the memory [m0]. *)
Definition undoes_to (m0 : gmap Z Z) (w : world) : Prop :=
  pointers_ok w ∧ bytes_ok (mem w) ∧ mem (undo_loop (Z.to_nat (pointer_index w)) w).2 = m0.

(** Code that changes memory by UT_PTR_SET only, however it ends. *)
Class Undoable {A} (m : M A) : Prop := undoable : ∀ m0 w, undoes_to m0 w → undoes_to m0 (m w).2.

Lemma undoes_to_same m0 w w' :
  pointer_index w' = pointer_index w → pointer_store w' = pointer_store w → mem w' = mem w →
  undoes_to m0 w → undoes_to m0 w'.
Proof.
  unfold undoes_to, pointers_ok. intros -> Hp Hm ([? ?] & ? & <-). rewrite Hp.
  split_and!; [done|lia|lia|by rewrite Hm|]. apply undo_loop_frame; congruence.
Qed.

#[export] Instance Undoable_ret {A} (a : A) : Undoable (mret a).
Proof. by intros m0 w. Qed.
#[export] Instance Undoable_skip : Undoable skip.
Proof. by intros m0 w. Qed.
#[export] Instance Undoable_if {A} (b : bool) (m k : M A) : Undoable m → Undoable k → Undoable (if b then m else k).
Proof. by destruct b. Qed.
#[export] Instance Undoable_protect (m : M unit) : Undoable m → Undoable (TEST_PROTECT m).
Proof. intros Hm m0 w Hw. specialize (Hm m0 w Hw). unfold TEST_PROTECT. by destruct (m w) as [[[]| | |] ?]. Qed.
#[export] Instance Undoable_Fail {A} msg line : Undoable (@UnityFail _ A msg line).
Proof.
  intros m0 w Hw. destruct (failed_or_ignored (Unity w)) eqn:E.
  - unfold UnityFail. by rewrite RETURN_IF_FAIL_OR_IGNORE_bind, E.
  - rewrite UnityFail_eq by done. by apply (undoes_to_same m0 w).
Qed.
#[export] Instance Undoable_TEST_ASSERT c line msg : Undoable (UNITY_TEST_ASSERT c line msg).
Proof. unfold UNITY_TEST_ASSERT. apply _. Qed.
Lemma Undoable_asserts m line msg ok text : asserts m line msg ok text → Undoable m.
Proof. intros Ha m0 w Hw. rewrite Ha. repeat case_match; [done|done|]. by apply (undoes_to_same m0 w). Qed.
Lemma Undoable_emits {A} (a : A) m s : (∀ w, m w = (Ret a, emit s w)) → Undoable m.
Proof. intros He m0 w Hw. rewrite He. by apply (undoes_to_same m0 w). Qed.

#[export] Instance Undoable_Pointer_Set p v line : Undoable (UnityPointer_Set p v line).
Proof.
  intros m0 w Hw. pose proof Hw as ([Hl Hi] & Hb & Hu).
  destruct (decide (pointer_index w = 5)) as [E5|].
  { unfold UnityPointer_Set. rewrite bind_get, E5. by apply Undoable_Fail. }
  destruct (read_uint (mem w) p pointer_bytes) as [o|] eqn:Ho.
  2:{ unfold UnityPointer_Set. rewrite bind_get. destruct (_ >=? _); [by apply Undoable_Fail|].
      unfold mbind, M_bind. by rewrite load_uint_eq, Ho. }
  set (i := Z.to_nat (pointer_index w)) in *.
  rewrite (UnityPointer_Set_eq p v line w i o) by (done || lia). split_and!.
  - split; simpl; [by rewrite length_insert|lia].
  - by apply bytes_ok_store.
  - cbn [snd set_mem set_pointers pointer_index]. rewrite Nat2Z.id. cbn [undo_loop].
    rewrite bind_modify, bind_get. cbn [pointer_store set_pointers set_mem].
    rewrite list_lookup_insert_eq by lia. simpl of_option. unfold mret, M_ret.
    rewrite (bind_Ret _ _ _ _ _ eq_refl). simpl pointer. simpl old_value. unfold store_uint. rewrite bind_modify.
    simpl mem. unfold read_uint in Ho. apply fmap_Some in Ho as (l & Hrl & ->).
    pose proof (length_read_bytes _ _ _ _ Hrl) as Hll. rewrite <- Hll at 2.
    rewrite to_of_bytes by by eapply read_bytes_ok. rewrite write_back by by rewrite length_to_bytes.
    rewrite <- Hu. apply undo_loop_frame; simpl; [|done]. by rewrite take_insert_ge by lia.
Qed.

(** One set too many fails the test instead of overrunning the pointer store, and the
    sets made before it are still undone. *)
Theorem UnityPointer_overflow_is_reported line sets p v more w :
  length (pointer_store w) = 5%nat → bytes_ok (mem w) → mapped_pointers (mem w) sets →
  length sets = 5%nat → failed_or_ignored (Unity w) = false →
  ∃ w1 w2,
    (UnityPointer_Init;; pointer_sets line (sets ++ (p, v) :: more)) w = (Jump, w1) ∧
    CurrentTestFailed (Unity w1) = 1 ∧
    UnityPointer_UndoAllSets w1 = (Ret (), w2) ∧ mem w2 = mem w.
Proof.
  intros Hl Hb Hm Hle Hw. unfold UnityPointer_Init. rewrite bind_modify.
  destruct (pointer_sets_undone line sets (set_pointers (pointer_store w) 0 w) 0)
    as (m & ps & _ & _ & Hrun & Hundo); try done; [lia|]. rewrite Hle in *.
  set (w0 := set_mem _ _) in Hrun, Hundo.
  set (w1 := set_Unity (with_CurrentTestFailed 1)
    (emit (fail_text (Unity w0) (Some (str "Too many pointers set")) line)
       (set_Unity (with_CurrentAssertionLineNumber line) w0))).
  destruct (undo_loop_frame 5 w1 w0) as [Ho Hmem]; [done..|].
  change (0 + 5)%nat with 5%nat in *. rewrite Hundo in Ho, Hmem.
  exists w1, (undo_loop 5 w1).2. split_and!; [|done| |done].
  - rewrite pointer_sets_app, (bind_Ret _ _ _ _ _ Hrun). cbn [pointer_sets]. apply bind_Jump.
    unfold UnityPointer_Set. rewrite bind_get. apply (UnityFail_eq _ line w0 Hw).
  - unfold UnityPointer_UndoAllSets. rewrite bind_get. change (Z.to_nat (pointer_index w1)) with 5%nat.
    by destruct (undo_loop 5 w1) as [o w2]; simpl in *; subst o.
Qed.
End pointers.

(** ** The command line *)

Section command_line.
Context `{Target}.

(** A value of is_digit is the same character on every target. *)
Lemma char_val_digit c : is_digit c → char_val c = c.
Proof.
  unfold is_digit, char_val, i8, u8. intros Hc. destruct char_signed.
  - apply swrap_small; simpl; lia.
  - apply uwrap_small; simpl; lia.
Qed.

Lemma is_decimal_digit_spec c : is_digit c → is_decimal_digit c = true.
Proof.
  intros Hc. unfold is_decimal_digit. rewrite char_val_digit by done.
  unfold is_digit in Hc. change (chr "0") with 48. change (chr "9") with 57.
  rewrite Z.geb_leb. lia.
Qed.

(** The digit loop computes the number written, modulo the width of RepeatCount. *)
Lemma repeat_digits_fold s acc :
  Forall is_digit s → 0 ≤ acc < 2 ^ 32 →
  repeat_digits s acc = u32 (fold_left (λ acc c, 10 * acc + (c - 48)) s acc).
Proof.
  intros Hs. revert acc. induction Hs as [|c s Hc Hs IH]; intros acc Hacc; cbn [repeat_digits fold_left].
  { unfold u32. by rewrite uwrap_small. }
  rewrite is_decimal_digit_spec, char_val_digit by done. change (chr "0") with 48.
  rewrite IH by (unfold u32; apply uwrap_range; lia). unfold is_digit in Hc.
  assert (Hf : ∀ a b, u32 a = u32 b → u32 (fold_left (λ acc c, 10 * acc + (c - 48)) s a)
                               = u32 (fold_left (λ acc c, 10 * acc + (c - 48)) s b)).
  { clear. induction s as [|d s IH]; intros a b E; cbn [fold_left]; [done|]. apply IH.
    unfold u32, uwrap in *. rewrite <- (Zplus_mod_idemp_l (10 * a)), <- (Zplus_mod_idemp_l (10 * b)).
    rewrite <- (Zmult_mod_idemp_r a), <- (Zmult_mod_idemp_r b), E. done. }
  apply Hf. unfold u32. rewrite uwrap_idemp, (uwrap_small 32 c), (uwrap_small 32 (c - 48)) by lia.
  unfold uwrap. rewrite Zplus_mod_idemp_l. f_equal. lia.
Qed.

Lemma repeat_digits_decimal n : 0 ≤ n < 2 ^ 64 → repeat_digits (decimal n) 0 = u32 n.
Proof.
  intros Hn. rewrite repeat_digits_fold; [|by destruct (decimal_digits n Hn) as (k & _ & _ & _ & ->);
    apply digits_down_digits | lia].
  change (fold_left _ _ 0) with (dec_value (decimal n)). by rewrite dec_value_decimal.
Qed.

Lemma decimal_starts_with_digit n : 0 ≤ n < 2 ^ 64 → is_decimal_digit (hd 0 (decimal n)) = true.
Proof.
  intros Hn. apply is_decimal_digit_spec. destruct (decimal_digits n Hn) as (k & _ & _ & _ & ->).
  pose proof (digits_down_digits k n) as Hf. by destruct k; inversion Hf.
Qed.

(** The options a user can ask for, and how they are written. *)
Record settings := mkSettings {
  want_verbose : bool;
  want_silent : bool;
  want_group : option cstr;
  want_name : option cstr;
  want_repeat : option Z;
}.

Definition render (s : settings) : list cstr :=
  (if want_verbose s then [str "-v"] else []) ++
  (if want_silent s then [str "-s"] else []) ++
  match want_group s with Some g => [str "-g"; g] | None => [] end ++
  match want_name s with Some n => [str "-n"; n] | None => [] end ++
  match want_repeat s with Some n => [str "-r"; decimal n] | None => [] end.

Definition fixture_of (s : settings) : UNITY_FIXTURE_T :=
  mkFixture (Z.b2z (want_verbose s)) (Z.b2z (want_silent s))
    (u32 (default 1 (want_repeat s))) (want_name s) (want_group s).

Definition writable (s : settings) : Prop :=
  match want_repeat s with Some n => 0 ≤ n < 2 ^ 64 | None => True end.

Lemma options_loop_v args w :
  options_loop (str "-v" :: args) w = options_loop args (set_UnityFixture (with_Verbose 1) w).
Proof. reflexivity. Qed.
Lemma options_loop_s args w :
  options_loop (str "-s" :: args) w = options_loop args (set_UnityFixture (with_Silent 1) w).
Proof. reflexivity. Qed.
Lemma options_loop_g g args w :
  options_loop (str "-g" :: g :: args) w
  = options_loop args (set_UnityFixture (with_GroupFilter (Some g)) w).
Proof. reflexivity. Qed.
Lemma options_loop_n n args w :
  options_loop (str "-n" :: n :: args) w
  = options_loop args (set_UnityFixture (with_NameFilter (Some n)) w).
Proof. reflexivity. Qed.
Lemma options_loop_r n args w :
  0 ≤ n < 2 ^ 64 →
  options_loop (str "-r" :: decimal n :: args) w
  = options_loop args (set_UnityFixture (with_RepeatCount (u32 n)) w).
Proof.
  intros Hn. cbn [options_loop].
  repeat match goal with |- context [bool_decide (str ?a = str ?b)] =>
    let v := eval vm_compute in (bool_decide (str a = str b)) in
    change (bool_decide (str a = str b)) with v end. cbn [orb].
  by rewrite decimal_starts_with_digit, repeat_digits_decimal.
Qed.

(** Options written by [render] are read back, whatever follows them. *)
Lemma options_loop_render s rest w :
  writable s → UnityFixture w = mkFixture 0 0 1 None None →
  options_loop (render s ++ rest) w = options_loop rest (set_UnityFixture (λ _, fixture_of s) w).
Proof.
  destruct s as [v sl g n r]. unfold writable, render, fixture_of. simpl. intros Hr Hw.
  rewrite <- !app_assoc.
  destruct v, sl, g as [g|], n as [n|]; cbn [app];
    rewrite ?options_loop_v, ?options_loop_s, ?options_loop_g, ?options_loop_n;
    destruct r as [r|]; cbn [app]; rewrite ?options_loop_r by done;
    f_equal; destruct w as [u f ps i m o]; simpl in *; subst; reflexivity.
Qed.

(** The options before any argument is looked at. *)
Definition default_options (w : world) : world :=
  set_UnityFixture (λ _, mkFixture 0 0 1 None None) w.

Lemma UnityGetCommandLineOptions_eq prog args w :
  UnityGetCommandLineOptions (prog :: args) w = options_loop args (default_options w).
Proof.
  destruct args as [|a args]; [done|]. unfold UnityGetCommandLineOptions.
  rewrite (proj2 (Z.eqb_neq _ 1)) by (simpl; lia). done.
Qed.

(** The command line round-trips: whatever verbosity, filters and repetition count are
    asked for, writing them as options and letting UnityGetCommandLineOptions read them sets
    exactly those options (the count modulo 2^32, the width of RepeatCount) and returns 0,
    filters that look like options included. *)
Theorem UnityGetCommandLineOptions_roundtrip prog s w :
  writable s →
  UnityGetCommandLineOptions (prog :: render s) w
  = (Ret 0, set_UnityFixture (λ _, fixture_of s) w).
Proof.
  intros Hs. rewrite UnityGetCommandLineOptions_eq, <- (app_nil_r (render s)).
  by rewrite options_loop_render.
Qed.

(** A filter option without its argument, or a request for help, makes UnityMain return 1
    without running any test, whatever valid options come before it. *)
Theorem UnityMain_rejects prog s rest runAllTests w :
  writable s →
  UnityMain (prog :: render s ++ [str "-g"]) runAllTests w
  = (Ret 1, set_UnityFixture (λ _, fixture_of s) w) ∧
  UnityMain (prog :: render s ++ [str "-n"]) runAllTests w
  = (Ret 1, set_UnityFixture (λ _, fixture_of s) w) ∧
  ∃ usage, UnityMain (prog :: render s ++ str "--help" :: rest) runAllTests w
  = (Ret 1, emit usage (set_UnityFixture (λ _, fixture_of s) w)).
Proof.
  intros Hs. split_and!; [| |eexists]; unfold UnityMain;
    (eassert (E : UnityGetCommandLineOptions _ w = (Ret 1, _));
      [ rewrite UnityGetCommandLineOptions_eq, options_loop_render by done
      | by rewrite (bind_Ret _ _ _ _ _ E) ]); [reflexivity..|].
  change (options_loop _) with (print_usage;; mret 1 : M Z). unfold print_usage, print_line.
  run_prints. rewrite !emit_emit. reflexivity.
Qed.
End command_line.

(** ** Code without undefined behaviour

    Every test of a program whose phases have defined behaviour and end
    completes, the framework's own code included. *)

Class Defined {A} (m : M A) : Prop := defined_run : ∀ w, defined (m w).

#[export] Instance Defined_ret {A} (a : A) : Defined (mret a).
Proof. by intros w. Qed.
#[export] Instance Defined_skip : Defined skip.
Proof. by intros w. Qed.
#[export] Instance Defined_get {A} (f : world → A) : Defined (get f).
Proof. by intros w. Qed.
#[export] Instance Defined_bind {A B} (m : M A) (k : A → M B) :
  Defined m → (∀ a, Defined (k a)) → Defined (m ≫= k).
Proof.
  intros Hm Hk w. specialize (Hm w). unfold mbind, M_bind, defined in *.
  destruct (m w) as [[a| | |] w']; simpl in *; [apply Hk | done | by destruct Hm..].
Qed.
#[export] Instance Defined_if {A} (b : bool) (m k : M A) :
  Defined m → Defined k → Defined (if b then m else k).
Proof. by destruct b. Qed.
#[export] Instance Defined_protect (m : M unit) : Defined m → Defined (TEST_PROTECT m).
Proof. intros Hm w. specialize (Hm w). unfold TEST_PROTECT. by destruct (m w) as [[[]| | |] ?]. Qed.
Lemma Defined_asserts m line msg ok text : asserts m line msg ok text → Defined m.
Proof. intros Ha w. rewrite Ha. by repeat case_match. Qed.
#[export] Instance Defined_Fail `{Target} {A} msg line : Defined (@UnityFail _ A msg line).
Proof.
  intros w. destruct (failed_or_ignored (Unity w)) eqn:E; [|by rewrite UnityFail_eq].
  unfold UnityFail. by rewrite RETURN_IF_FAIL_OR_IGNORE_bind, E.
Qed.
#[export] Instance Defined_Ignore `{Target} {A} msg line : Defined (@UnityIgnore _ A msg line).
Proof.
  intros w. destruct (failed_or_ignored (Unity w)) eqn:E; [|by rewrite UnityIgnore_eq].
  unfold UnityIgnore. by rewrite RETURN_IF_FAIL_OR_IGNORE_bind, E.
Qed.
#[export] Instance Defined_TEST_ASSERT `{Target} c line msg : Defined (UNITY_TEST_ASSERT c line msg).
Proof. unfold UNITY_TEST_ASSERT. apply _. Qed.

Class DefinedTest (t : test_case) : Prop := {
  defined_setup :: Defined (tc_setup t);
  defined_body :: Defined (tc_body t);
  defined_teardown :: Defined (tc_teardown t);
}.


Section runs.
Context `{Target}.

Lemma defined_phases t w :
  GoodTest t → DefinedTest t → flags_ok w → pointers_ok w → defined (test_phases t w).
Proof.
  intros Hg Hd Hf Hp. unfold test_phases. rewrite <- bind_assoc.
  set (m := TEST_PROTECT (tc_setup t;; tc_body t);; TEST_PROTECT (tc_teardown t)).
  assert (Hm : TestCode m) by apply _. assert (Hdm : Defined m) by apply _.
  specialize (Hm w Hf). specialize (Hdm w). unfold mbind, M_bind.
  destruct (m w) as [[[]| | |] w1]; simpl in *; try done; [|by destruct Hdm..].
  destruct Hm as (Hs & _ & _). destruct (ss_pointers _ _ Hs Hp) as [Hl Hi].
  unfold TEST_PROTECT, UnityPointer_UndoAllSets. rewrite bind_get.
  pose proof (undo_loop_returns (Z.to_nat (pointer_index w1)) w1 Hl ltac:(lia)) as Hu.
  by destruct (undo_loop _ w1) as [o w2]; simpl in *; subst.
Qed.

Lemma completes_intro ts : Forall GoodTest ts → Forall DefinedTest ts → completes ts.
Proof.
  intros Hg Hd w Hc Hp. revert w Hc Hp. induction Hg as [|t ts Ht Hts IH]; intros w Hc Hp; [done|].
  inversion_clear Hd as [|?? Hdt Hdts]. cbn [run_tests].
  assert (Ht1 : defined (run_test t w)).
  { destruct (tc_ignored t) eqn:Ei; [rewrite run_ignored_eq | rewrite run_test_eq]; try done;
      destruct (test_selected t w); try done.
    assert (Hpe : pointers_ok (enter_test t w)) by (destruct Hp; split; simpl; lia).
    pose proof (defined_phases t (enter_test t w) _ _ ltac:(left; exact Hc) Hpe) as Hph.
    unfold mbind, M_bind. destruct (test_phases t (enter_test t w)) as [[[]| | |] w1]; try done.
    by rewrite UnityConcludeFixtureTest_eq. }
  destruct (run_test_step t w Ht Hc Hp Ht1) as (Ho & Hc1 & Hp1 & _ & _).
  destruct (run_test t w) as [o w1] eqn:E. simpl in Ho. subst o.
  rewrite (bind_Ret _ _ _ _ _ E). by apply IH.
Qed.
(** The tests the filters select, which no test can change. *)
Lemma length_session ts : ∀ w,
  Forall GoodTest ts → clear w → pointers_ok w → defined (run_tests ts w) →
  length (session ts w) = length (filter (λ t, test_selected t w = true) ts).
Proof.
  induction ts as [|t ts IH]; intros w Hts Hc Hp Hd; [done|].
  inversion_clear Hts as [|?? Ht Hts']. cbn [session run_tests] in *.
  assert (Hd1 : defined (run_test t w)).
  { destruct Hd as [Hd1 Hd2]. unfold mbind, M_bind in Hd1, Hd2.
    by destruct (run_test t w) as [[[]| | |] w1]. }
  destruct (run_test_step t w Ht Hc Hp Hd1) as (Ho & Hc1 & Hp1 & Hf1 & _).
  destruct (run_test t w) as [o w1] eqn:E. simpl in Ho, Hc1, Hp1, Hf1. subst o.
  rewrite (bind_Ret _ _ _ _ _ E) in Hd. simpl snd.
  rewrite length_app, (IH w1 Hts' Hc1 Hp1 Hd), filter_cons.
  replace (filter (λ t, test_selected t w1 = true) ts)
    with (filter (λ t, test_selected t w = true) ts)
    by (apply list_filter_iff; intros x; unfold test_selected; by rewrite Hf1).
  destruct (test_selected t w) eqn:Es; case_decide; try done.
Qed.

(** C2: The accounting of a run refines an abstract session: from zeroed counters, running any
    list of tests returns, gives exactly the selected tests one verdict each, in order, and
    leaves NumberOfTests, TestFailures and TestIgnores equal to the totals of that session,
    whatever the tests do (fail, ignore, return, fail in setup or teardown). *)
Theorem run_tests_accounting ts w :
  Forall GoodTest ts → Z.of_nat (length ts) < 2 ^ 64 → clear w → pointers_ok w →
  represents [] w → defined (run_tests ts w) →
  let log := session ts w in
  let u := Unity (run_tests ts w).2 in
  (run_tests ts w).1 = Ret () ∧
  length log = length (filter (λ t, test_selected t w = true) ts) ∧
  NumberOfTests u = count Passed log + count Failed log + count Ignored log ∧
  TestFailures u = count Failed log ∧ TestIgnores u = count Ignored log.
Proof.
  intros Hg Hlen Hc Hp Hr Hd log u.
  destruct (run_tests_refines ts w [] Hg Hc Hp Hr Hd) as (Ho & _ & _ & _ & [Hn Hf Hi]).
  simpl in Hn, Hf, Hi. fold log u in Hn, Hf, Hi.
  pose proof (length_session ts w Hg Hc Hp Hd) as Hl. fold log in Hl.
  pose proof (length_filter (λ t, test_selected t w = true) ts).
  pose proof (count_bound Failed log). pose proof (count_bound Ignored log).
  rewrite Hn, Hf, Hi, <- count_total. unfold u64. rewrite !uwrap_small by lia. done.
Qed.

(** C1: The exit code and the last words of a test program: run with any options that ask for
    at least one run, UnityMain returns the number of failed tests of its last run, and its
    output ends with the summary of that run. *)
Theorem UnityMain_exit_code prog s ts w :
  writable s → 0 < u32 (default 1 (want_repeat s)) → pointers_ok w →
  Forall GoodTest ts → completes ts → Z.of_nat (length ts) < 2 ^ 31 →
  ∃ w1 w', clear w1 ∧
    UnityMain (prog :: render s) (run_tests ts) w = (Ret (count Failed (session ts w1)), w') ∧
    output w' = output (run_tests ts w1).2 ++ summary_text (session ts w1).
Proof.
  intros Hs Hr Hp Hg Hcs Hl.
  assert (E : UnityGetCommandLineOptions (prog :: render s) w
              = (Ret 0, set_UnityFixture (λ _, fixture_of s) w)).
  { by rewrite UnityGetCommandLineOptions_eq, <- (app_nil_r (render s)), options_loop_render. }
  unfold UnityMain. rewrite (bind_Ret _ _ _ _ _ E). cbn [negb Z.eqb].
  unfold upd_Fixture. rewrite bind_modify, bind_get.
  set (w0 := set_UnityFixture (with_Verbose 1) _).
  pose proof (uwrap_range 32 (default 1 (want_repeat s)) ltac:(lia)) as Hrange.
  destruct (run_loop_eq ts (Some prog) (S (Z.to_nat (RepeatCount (UnityFixture w0)))) 0 w0)
    as (w1 & w' & Hc1 & Hrun & Hw' & [_ Hf _]); try done;
    [lia | simpl; unfold u32 in *; lia.. |].
  exists w1, w'. split; [done|]. simpl head. rewrite (bind_Ret _ _ _ _ _ Hrun), bind_get, Hf.
  assert (Hlog : (length (session ts w1) ≤ length ts)%nat).
  { clear. revert w1. induction ts as [|t ts IH]; intros w; simpl; [lia|].
    rewrite length_app. specialize (IH (run_test t w).2). case_match; simpl; lia. }
  pose proof (count_bound Failed (session ts w1)).
  unfold mret, M_ret, i32, u64. rewrite (uwrap_small 64), swrap_small by (simpl; lia).
  split; [done|]. by rewrite Hw', output_emit.
Qed.

End runs.

(** ** Concrete programs *)

Section samples.
#[local] Existing Instance aarch64.

(** A passing, a failing and an ignored test. *)
Definition sample_tests : list test_case :=
  [ mkTest (str "grp") (str "ok") skip (UNITY_TEST_ASSERT true 10 None) skip (Some (str "t.c")) 9 false;
    mkTest (str "grp") (str "bad") skip (UNITY_TEST_ASSERT false 13 None) skip (Some (str "t.c")) 12 false;
    mkTest (str "grp") (str "later") skip skip skip (Some (str "t.c")) 15 true ].

Lemma sample_tests_good : Forall GoodTest sample_tests.
Proof.
  repeat (apply List.Forall_cons; [split; cbn [tc_setup tc_body tc_teardown]; apply _|]).
  apply List.Forall_nil.
Qed.
Lemma sample_tests_defined : Forall DefinedTest sample_tests.
Proof.
  repeat (apply List.Forall_cons; [split; cbn [tc_setup tc_body tc_teardown]; apply _|]).
  apply List.Forall_nil.
Qed.

Lemma run_tests_accounting_witness :
  NumberOfTests (Unity (run_tests sample_tests initial_world).2) = 3.
Proof.
  destruct (run_tests_accounting sample_tests initial_world sample_tests_good) as (_ & _ & E & _ & _);
    [vm_compute; reflexivity | done | split; [done | simpl; lia] | done |
     apply (completes_intro _ sample_tests_good sample_tests_defined); [done | split; [done | simpl; lia]] |].
  rewrite E. vm_compute. reflexivity.
Defined.

Definition sample_settings : settings :=
  mkSettings false true (Some (str "grp")) (Some (str "-h")) (Some 12).

Lemma UnityGetCommandLineOptions_roundtrip_witness :
  UnityGetCommandLineOptions (str "prog" :: render sample_settings) initial_world
  = (Ret 0, set_UnityFixture (λ _, fixture_of sample_settings) initial_world).
Proof.
  apply (UnityGetCommandLineOptions_roundtrip (str "prog") sample_settings initial_world).
  unfold writable. simpl. lia.
Defined.

Lemma UnityMain_rejects_witness :
  UnityMain (str "prog" :: render sample_settings ++ [str "-g"]) skip initial_world
  = (Ret 1, set_UnityFixture (λ _, fixture_of sample_settings) initial_world).
Proof.
  refine (proj1 (UnityMain_rejects (str "prog") sample_settings [] skip initial_world _)).
  unfold writable. simpl. lia.
Defined.

Lemma UnityMain_exit_code_witness :
  ∃ w1 w', clear w1 ∧
    UnityMain [str "prog"] (run_tests sample_tests) initial_world
    = (Ret (count Failed (session sample_tests w1)), w').
Proof.
  destruct (UnityMain_exit_code (str "prog") (mkSettings false false None None None) sample_tests
    initial_world) as (w1 & w' & Hc & E & _);
    [done | vm_compute; reflexivity | split; [done | simpl; lia] | apply sample_tests_good |
     apply (completes_intro _ sample_tests_good sample_tests_defined) | vm_compute; reflexivity |].
  exact (ex_intro _ w1 (ex_intro _ w' (conj Hc E))).
Defined.

(** Two pointers at 1000 and 1008, set three times. *)
Definition pointer_mem : gmap Z Z := write_bytes ∅ 1000 (repeat 7 16).
Definition pointer_world : world := set_mem pointer_mem initial_world.

Lemma pointer_mem_ok : bytes_ok pointer_mem.
Proof.
  apply map_Forall_to_list, Forall_forall. intros [a c] Hin.
  assert (Hall : forallb (λ kv, (0 <=? kv.2) && (kv.2 <? 256)) (map_to_list pointer_mem) = true)
    by (vm_compute; reflexivity).
  rewrite forallb_forall in Hall. apply list_elem_of_In in Hin. specialize (Hall _ Hin). simpl in *.
  unfold is_byte. lia.
Qed.

Lemma pointer_mapped sets :
  Forall (λ pv : Z * Z, pv.1 = 1000 ∨ pv.1 = 1008) sets → mapped_pointers pointer_mem sets.
Proof.
  intros Hs. eapply Forall_impl; [exact Hs|]. intros [p v] [E|E]; simpl in *; subst;
    vm_compute; by eexists.
Qed.



Lemma UnityPointer_sets_are_undone_witness :
  ∃ ps, (UnityPointer_Init;; pointer_sets 3 [(1000, 1); (1008, 2); (1000, 3)];;
         UnityPointer_UndoAllSets) pointer_world = (Ret (), set_pointers ps 0 pointer_world).
Proof.
  apply (UnityPointer_sets_are_undone 3 [(1000, 1); (1008, 2); (1000, 3)] pointer_world);
    [done | apply pointer_mem_ok | apply pointer_mapped; repeat constructor; simpl; lia | simpl; lia].
Defined.

Lemma UnityPointer_overflow_is_reported_witness :
  ∃ w1, (UnityPointer_Init;; pointer_sets 3 (repeat (1000, 1) 5 ++ [(1008, 2)])) pointer_world
        = (Jump, w1) ∧ CurrentTestFailed (Unity w1) = 1.
Proof.
  destruct (UnityPointer_overflow_is_reported 3 (repeat (1000, 1) 5) 1008 2 [] pointer_world)
    as (w1 & w2 & E & F & _ & _);
    [done | apply pointer_mem_ok | apply pointer_mapped; repeat constructor; simpl; lia | done | done |].
  exact (ex_intro _ w1 (conj E F)).
Defined.

(** A test that fails the first time it runs: it remembers in memory that it has run. *)
Definition flaky_test : test_case :=
  mkTest (str "grp") (str "flaky") skip
    (v ← load_uint 1000 1; store_uint 1000 1 0;; UNITY_TEST_ASSERT (v =? 0) 20 None)
    skip (Some (str "t.c")) 18 false.

(** With repetitions the exit code forgets earlier failures: a test that fails in the first
    of two runs makes UnityMain return 0, while a single run of it returns 1. *)
Theorem UnityMain_forgets_earlier_runs :
  (UnityMain [str "prog"; str "-r"; str "2"] (run_tests [flaky_test]) pointer_world).1 = Ret 0 ∧
  (UnityMain [str "prog"] (run_tests [flaky_test]) pointer_world).1 = Ret 1.
Proof. split; vm_compute; reflexivity. Qed.
End samples.
