(* ===== verification/UnityOptions.v ===== *)
(** * Command line support of Unity (src/unity/unity.c, UNITY_USE_COMMAND_LINE_ARGS)

    The option parser of unity.c and the matching of test names against the
    patterns it records: UnityParseOptions, IsStringInBiggerString,
    UnityStringArgumentMatches and UnityTestMatches. A pointer into a string
    is the suffix it points at, so a read past the terminator is a step off
    the empty list, which is undefined. *)

From S2P Require Import Prelude CMachine UnityOutput UnityAssert UnityAssertSpec.
From S2P Require Import UnityFixture UnityFixtureSpec.

(** UnityOptionIncludeNamed, UnityOptionExcludeNamed, UnityVerbosity *)
Record options := mkOptions {
  UnityOptionIncludeNamed : cstring;
  UnityOptionExcludeNamed : cstring;
  UnityVerbosity : Z;
}.

Definition with_Include p o := mkOptions (Some p) (UnityOptionExcludeNamed o) (UnityVerbosity o).
Definition with_Exclude p o := mkOptions (UnityOptionIncludeNamed o) (Some p) (UnityVerbosity o).
Definition with_Verbosity v o :=
  mkOptions (UnityOptionIncludeNamed o) (UnityOptionExcludeNamed o) v.

(** [s[i]], where reading the terminator is reading 0. *)
Definition char_at (s : cstr) (i : nat) : Z := nth i s 0.

Definition is_quote (c : Z) : bool := (c =? 34) || (c =? 39).
Definition is_separator (c : Z) : bool := is_quote c || (c =? chr ",").

Section options.
Context `{Target}.

(** ** UnityParseOptions *)

(** The cases n, f and x: the pattern after '=' or the next argument. *)
Definition pattern_argument (arg : cstr) (args : list cstr) (missing : string)
    (record_it : cstr → options) (parse : list cstr → options → M (Z * options)) (o : options) :
    M (Z * options) :=
  if char_at arg 2 =? chr "=" then parse args (record_it (drop 3 arg))
  else match args with
       | pattern :: args => parse args (record_it pattern)
       | [] => UnityPrint (Some (str missing));; UNITY_PRINT_EOL;; mret (1, o)
       end.

Fixpoint parse_loop (fuel : nat) (args : list cstr) (o : options) : M (Z * options) :=
  match fuel with
  | O => out_of_fuel
  | S fuel =>
      match args with
      | [] => mret (0, o)
      | arg :: args =>
          if char_at arg 0 =? chr "-" then
            let c := char_at arg 1 in
            if c =? chr "l" then mret (-1, o)
            else if (c =? chr "n") || (c =? chr "f") then
              pattern_argument arg args "ERROR: No Test String to Include Matches For"
                (λ p, with_Include p o) (parse_loop fuel) o
            else if c =? chr "q" then parse_loop fuel args (with_Verbosity 0 o)
            else if c =? chr "v" then parse_loop fuel args (with_Verbosity 2 o)
            else if c =? chr "x" then
              pattern_argument arg args "ERROR: No Test String to Exclude Matches For"
                (λ p, with_Exclude p o) (parse_loop fuel) o
            else
              UnityPrint (Some (str "ERROR: Unknown Option "));;
              UNITY_OUTPUT_CHAR c;;
              UNITY_PRINT_EOL;;
              mret (1, o)
          else parse_loop fuel args o
      end
  end.

(** [argv] lists argv[0] .. argv[argc-1]; each turn consumes an argument. *)
Definition UnityParseOptions (argv : list cstr) (o : options) : M (Z * options) :=
  parse_loop (S (length argv)) (tail argv) (mkOptions None None (UnityVerbosity o)).

(** ** IsStringInBiggerString *)

(** The tests on *sptr after a matching character. *)
Definition end_of_pattern (sptr : cstr) : option Z :=
  match sptr with
  | [] => Some 1
  | c :: _ =>
      if (c =? chr "*") || (c =? chr ",") || (c =? 34) || (c =? 39) then Some 1
      else if c =? chr ":" then Some 2
      else None
  end.

(** The inner loop: [Some r] for [return r], [None] when it ends. *)
Fixpoint match_here (lptr sptr : cstr) : option Z :=
  match lptr, sptr with
  | c :: lptr, d :: sptr =>
      if c =? d then
        match end_of_pattern sptr with
        | Some r => Some r
        | None => match_here lptr sptr
        end
      else None
  | _, _ => None
  end.

Fixpoint bigger_loop (lptr shortstring : cstr) : Z :=
  match lptr with
  | [] => 0
  | _ :: lnext =>
      match match_here lptr shortstring with
      | Some r => r
      | None => bigger_loop lnext shortstring
      end
  end.

(** [longstring] is dereferenced only after the test for a wildcard. *)
Definition IsStringInBiggerString (longstring : cstring) (shortstring : cstr) : M Z :=
  if char_at shortstring 0 =? chr "*" then mret 1
  else lptr ← of_option longstring; mret (bigger_loop lptr shortstring).

(** ** UnityStringArgumentMatches *)

(** The do-while loop looking for the end of the pattern at [ptr2], recording the part after
    a ':'; [None] when it steps past the terminator. *)
Fixpoint scan_partial (ptr2 : cstr) (ptrf : option cstr) : option (cstr * option cstr) :=
  match ptr2 with
  | [] => None
  | _ :: ptr2 =>
      let ptrf :=
        match ptr2 with
        | c :: _ :: _ => if c =? chr ":" then Some (tail ptr2) else ptrf
        | _ => ptrf
        end in
      match ptr2 with
      | [] => Some (ptr2, ptrf)
      | c :: _ => if is_separator c then Some (ptr2, ptrf) else scan_partial ptr2 ptrf
      end
  end.

(** The loop over the separators between two patterns. *)
Fixpoint skip_separators (ptr2 : cstr) : cstr :=
  match ptr2 with
  | c :: rest => if (c =? chr ":") || is_separator c then skip_separators rest else ptr2
  | [] => []
  end.

Fixpoint argument_loop (fuel : nat) (ptr1 : cstr) : M Z :=
  match fuel with
  | O => out_of_fuel
  | S fuel =>
      match ptr1 with
      | [] => mret 0
      | c :: rest =>
          let ptr1 := if is_quote c then rest else ptr1 in
          '(ptr2, ptrf) ← of_option (scan_partial ptr1 None);
          let ptr2 := skip_separators ptr2 in
          u ← get Unity;
          retval ← IsStringInBiggerString (TestFile u) ptr1;
          if retval =? 1 then mret retval
          else
            tested ← match ptrf with
                     | Some ptrf =>
                         if retval =? 2 then IsStringInBiggerString (CurrentTestName u) ptrf
                         else mret 0
                     | None => mret 0
                     end;
            if negb (tested =? 0) then mret 1
            else
              named ← IsStringInBiggerString (CurrentTestName u) ptr1;
              if named =? 1 then mret 1 else argument_loop fuel ptr2
      end
  end.

Definition UnityStringArgumentMatches (pattern : cstr) : M Z :=
  argument_loop (S (length pattern)) pattern.

Definition UnityTestMatches (o : options) : M Z :=
  retval ← match UnityOptionIncludeNamed o with
           | Some pattern => UnityStringArgumentMatches pattern
           | None => mret 1
           end;
  match UnityOptionExcludeNamed o with
  | Some pattern =>
      r ← UnityStringArgumentMatches pattern;
      mret (if negb (r =? 0) then 0 else retval)
  | None => mret retval
  end.
End options.

(** ** Specifications *)

(** [needle] occurs in [haystack], by the reference function strstr. *)
Definition occurs (needle haystack : cstr) : bool :=
  match strstr haystack needle with Some _ => true | None => false end.

(** The characters that end a pattern in the middle of a list of patterns. *)
Definition is_pattern_end (c : Z) : bool :=
  (c =? chr "*") || (c =? chr ",") || (c =? 34) || (c =? 39) || (c =? chr ":").

(** The part of a pattern that is compared, and whether a ':' ended it. *)
Fixpoint segment_tail (s : cstr) : cstr :=
  match s with
  | c :: s => if is_pattern_end c then [] else c :: segment_tail s
  | [] => []
  end.
Fixpoint ends_with_colon (s : cstr) : bool :=
  match s with
  | c :: s => if is_pattern_end c then c =? chr ":" else ends_with_colon s
  | [] => false
  end.

Lemma end_of_pattern_spec s :
  end_of_pattern s =
  match s with
  | [] => Some 1
  | c :: _ => if is_pattern_end c then Some (if c =? chr ":" then 2 else 1) else None
  end.
Proof.
  destruct s as [|c s]; [done|]. unfold end_of_pattern, is_pattern_end.
  destruct (Z.eqb_spec c (chr "*")), (Z.eqb_spec c (chr ",")), (Z.eqb_spec c 34),
    (Z.eqb_spec c 39), (Z.eqb_spec c (chr ":")); subst; done.
Qed.

Lemma match_here_spec l d s :
  match_here l (d :: s) =
  if prefix_of (d :: segment_tail s) l then Some (if ends_with_colon s then 2 else 1) else None.
Proof.
  revert l d. induction s as [|e s IH]; intros [|c l] d; cbn [match_here]; try done;
    rewrite end_of_pattern_spec; cbn [prefix_of segment_tail ends_with_colon];
    rewrite (Z.eqb_sym c d); destruct (d =? c); cbn [andb]; try done.
  destruct (is_pattern_end e) eqn:Ee; [done|]. rewrite IH. done.
Qed.

Lemma bigger_loop_spec l d s :
  bigger_loop l (d :: s) =
  if occurs (d :: segment_tail s) l then (if ends_with_colon s then 2 else 1) else 0.
Proof.
  unfold occurs. induction l as [|c l IH]; [done|]. cbn [bigger_loop strstr].
  rewrite match_here_spec. destruct (prefix_of _ (c :: l)); [done|]. apply IH.
Qed.

Lemma IsStringInBiggerString_eq l d s w :
  d ≠ chr "*" → IsStringInBiggerString (Some l) (d :: s) w = (Ret (bigger_loop l (d :: s)), w).
Proof.
  intros Hd. unfold IsStringInBiggerString. simpl char_at.
  by rewrite (proj2 (Z.eqb_neq d _)).
Qed.

(** C34: IsStringInBiggerString is substring search: for a non-empty pattern that is not a
    wildcard it answers whether the pattern, up to its first separator, occurs in the long
    string as strstr finds it, with 2 instead of 1 when a ':' ended the pattern; a separator in
    the first place counts as a character of the pattern. *)
Theorem IsStringInBiggerString_is_strstr l d s w :
  d ≠ chr "*" →
  IsStringInBiggerString (Some l) (d :: s) w =
  (Ret (if occurs (d :: segment_tail s) l then (if ends_with_colon s then 2 else 1) else 0), w).
Proof.
  intros Hd. by rewrite IsStringInBiggerString_eq, bigger_loop_spec.
Qed.

(** ** Lists of patterns *)

(** A pattern names a part of a test or file name, or a file part and a test part. *)
Inductive selector := Name (n : cstr) | FileTest (f t : cstr).

Definition selector_text (s : selector) : cstr :=
  match s with Name n => n | FileTest f t => f ++ str ":" ++ t end.

(** -n takes the patterns separated by commas. *)
Fixpoint selectors_text (l : list selector) : cstr :=
  match l with
  | [] => []
  | [s] => selector_text s
  | s :: l => selector_text s ++ str "," ++ selectors_text l
  end.

Definition selects (file name : cstr) (s : selector) : bool :=
  match s with
  | Name n => occurs n file || occurs n name
  | FileTest f t => occurs f file && occurs t name
  end.

(** Names as C identifiers and file names are: not empty, none of the special characters. *)
Definition plain (n : cstr) : Prop := n ≠ [] ∧ Forall (λ c, is_pattern_end c = false) n.
Definition plain_selector (s : selector) : Prop :=
  match s with Name n => plain n | FileTest f t => plain f ∧ plain t end.

(** What may follow a selector in the list. *)
Definition at_end (rest : cstr) : Prop := rest = [] ∨ ∃ more, rest = chr "," :: more.

Lemma plain_char c : is_pattern_end c = false →
  c ≠ chr "*" ∧ is_separator c = false ∧ is_quote c = false ∧ (c =? chr ":") = false.
Proof.
  unfold is_pattern_end, is_separator, is_quote. rewrite !orb_false_iff.
  intros ((((H1 & H2) & H3) & H4) & H5). apply Z.eqb_neq in H1.
  rewrite H2, H3, H4. done.
Qed.

Lemma segment_tail_app n rest :
  Forall (λ c, is_pattern_end c = false) n → segment_tail (n ++ rest) = n ++ segment_tail rest.
Proof. induction 1 as [|c n Hc _ IH]; cbn [app segment_tail]; [done|]. by rewrite Hc, IH. Qed.

Lemma ends_with_colon_app n rest :
  Forall (λ c, is_pattern_end c = false) n → ends_with_colon (n ++ rest) = ends_with_colon rest.
Proof. induction 1 as [|c n Hc _ IH]; cbn [app ends_with_colon]; [done|]. by rewrite Hc, IH. Qed.

(** Searching for the pattern a selector's text starts with. *)
Lemma search_plain n rest l w :
  plain n → (rest = [] ∨ ∃ c more, rest = c :: more ∧ is_pattern_end c = true) →
  IsStringInBiggerString (Some l) (n ++ rest) w =
  (Ret (if occurs n l then (if ends_with_colon rest then 2 else 1) else 0), w).
Proof.
  intros [Hne Hn] Hr. destruct n as [|d n]; [done|]. inversion_clear Hn as [|?? Hd Hn'].
  cbn [app]. rewrite IsStringInBiggerString_eq by by apply plain_char.
  rewrite bigger_loop_spec, segment_tail_app, ends_with_colon_app by done.
  assert (segment_tail rest = []) as ->.
  { destruct Hr as [->|(c & more & -> & Hc)]; [done|]. cbn [segment_tail]. by rewrite Hc. }
  by rewrite app_nil_r.
Qed.

Lemma at_end_pattern rest :
  at_end rest → rest = [] ∨ ∃ c more, rest = c :: more ∧ is_pattern_end c = true.
Proof. intros [->|[more ->]]; [by left|]. right. by exists (chr ","), more. Qed.

Lemma at_end_no_colon rest : at_end rest → ends_with_colon rest = false.
Proof. by intros [->|[more ->]]. Qed.

Lemma scan_cons d c l ptrf : (c =? chr ":") = false → is_separator c = false →
  scan_partial (d :: c :: l) ptrf = scan_partial (c :: l) ptrf.
Proof.
  intros Hc Hs. transitivity (let ptrf' := match l with [] => ptrf
      | _ :: _ => if c =? chr ":" then Some l else ptrf end in
    if is_separator c then Some (c :: l, ptrf') else scan_partial (c :: l) ptrf').
  - by destruct l.
  - rewrite Hc, Hs. by destruct l.
Qed.

Lemma scan_plain n rest : ∀ d ptrf,
  Forall (λ c, is_pattern_end c = false) n → at_end rest →
  scan_partial (d :: n ++ rest) ptrf = Some (rest, ptrf).
Proof.
  induction n as [|c n IH]; intros d ptrf Hn Hr.
  - destruct Hr as [->|[[|c more] ->]]; done.
  - inversion_clear Hn as [|?? Hc Hn']. destruct (plain_char c Hc) as (_ & Hs & _ & Hcol).
    change ((c :: n) ++ rest) with (c :: n ++ rest).
    rewrite scan_cons by done. by apply IH.
Qed.

Lemma scan_file_test f t rest : ∀ d ptrf,
  Forall (λ c, is_pattern_end c = false) f → plain t → at_end rest →
  scan_partial (d :: f ++ chr ":" :: t ++ rest) ptrf = Some (rest, Some (t ++ rest)).
Proof.
  induction f as [|c f IH]; intros d ptrf Hf [Hne Ht] Hr.
  - destruct t as [|e t]; [done|]. simpl app at 1.
    transitivity (scan_partial (chr ":" :: (e :: t) ++ rest) (Some ((e :: t) ++ rest))); [done|].
    by apply scan_plain.
  - inversion_clear Hf as [|?? Hc Hf']. destruct (plain_char c Hc) as (_ & Hs & _ & Hcol).
    change ((c :: f) ++ ?x) with (c :: f ++ x). rewrite scan_cons by done. by apply IH.
Qed.

Definition selector_rest (s : selector) (rest : cstr) : option cstr :=
  match s with Name _ => None | FileTest _ t => Some (t ++ rest) end.

Lemma scan_selector s rest :
  plain_selector s → at_end rest →
  scan_partial (selector_text s ++ rest) None = Some (rest, selector_rest s rest).
Proof.
  destruct s as [n|f t]; simpl; intros Hs Hr.
  - destruct Hs as [Hne Hn]. destruct n as [|d n]; [done|]. inversion_clear Hn. by apply scan_plain.
  - destruct Hs as [[Hne Hf] Ht]. destruct f as [|d f]; [done|]. inversion_clear Hf.
    rewrite <- !app_assoc. by apply scan_file_test.
Qed.

(** A selector's text starts with a plain character. *)
Lemma selector_head s : plain_selector s →
  ∃ c r, selector_text s = c :: r ∧ is_pattern_end c = false.
Proof.
  destruct s as [n|f t]; simpl.
  - intros [Hne Hn]. destruct n as [|c n]; [done|]. inversion_clear Hn. eauto.
  - intros [[Hne Hf] _]. destruct f as [|c f]; [done|]. inversion_clear Hf. simpl. eauto.
Qed.

(** One turn of the loop of UnityStringArgumentMatches. *)
Lemma argument_step fuel s rest file name w :
  plain_selector s → at_end rest →
  TestFile (Unity w) = Some file → CurrentTestName (Unity w) = Some name →
  argument_loop (S fuel) (selector_text s ++ rest) w =
  if selects file name s then (Ret 1, w) else argument_loop fuel (skip_separators rest) w.
Proof.
  intros Hs Hr Hf Hn. destruct (selector_head s Hs) as (c & r & E & Hc).
  destruct (plain_char c Hc) as (_ & _ & Hq & _).
  pose proof (scan_selector s rest Hs Hr) as Hscan. rewrite E in *.
  change ((c :: r) ++ rest) with (c :: r ++ rest) in *. cbn [argument_loop]. rewrite Hq, Hscan.
  simpl of_option. rewrite bind_mret, bind_get, Hf, Hn.
  change (c :: r ++ rest) with ((c :: r) ++ rest). rewrite <- E.
  pose proof (at_end_pattern rest Hr) as Hp. pose proof (at_end_no_colon rest Hr) as Hcol.
  destruct s as [n|f t]; simpl selector_text; simpl selector_rest; simpl selects; cbn match.
  - simpl in Hs. rewrite (bind_Ret _ _ _ _ _ (search_plain n rest file w Hs Hp)), Hcol.
    destruct (occurs n file); [done|]. cbn [Z.eqb orb].
    rewrite bind_mret. cbn [negb Z.eqb].
    rewrite (bind_Ret _ _ _ _ _ (search_plain n rest name w Hs Hp)), Hcol.
    by destruct (occurs n name).
  - destruct Hs as [Hsf Hst]. rewrite <- !app_assoc.
    assert (Hp' : str ":" ++ t ++ rest = [] ∨
      ∃ c more, str ":" ++ t ++ rest = c :: more ∧ is_pattern_end c = true)
      by (right; by eexists _, _).
    rewrite (bind_Ret _ _ _ _ _ (search_plain f _ file w Hsf Hp')).
    assert (Hnamed : ∀ k : Z → M Z,
      (IsStringInBiggerString (Some name) (f ++ str ":" ++ t ++ rest) ≫= k) w
      = k (if occurs f name then 2 else 0) w)
      by (intros k; apply (bind_Ret _ _ _ _ _ (search_plain f _ name w Hsf Hp'))).
    destruct (occurs f file); cbn [Z.eqb Pos.eqb andb];
      [ change (ends_with_colon (str ":" ++ t ++ rest)) with true; cbn [Z.eqb Pos.eqb];
        rewrite (bind_Ret _ _ _ _ _ (search_plain t rest name w Hst Hp)), Hcol;
        destruct (occurs t name); cbn [negb Z.eqb]; [done|]
      | rewrite bind_mret; cbn [negb Z.eqb] ];
      rewrite Hnamed; by destruct (occurs f name).
Qed.

Lemma skip_to_selectors s l :
  plain_selector s → skip_separators (selectors_text (s :: l)) = selectors_text (s :: l).
Proof.
  intros Hs. destruct (selector_head s Hs) as (c & r & E & Hc).
  destruct (plain_char c Hc) as (_ & Hsep & _ & Hcol).
  assert (∃ r', selectors_text (s :: l) = c :: r') as [r' ->].
  { cbn [selectors_text]. destruct l; rewrite E; simpl; eauto. }
  cbn [skip_separators]. by rewrite Hcol, Hsep.
Qed.

Lemma argument_loop_spec file name w l : ∀ fuel,
  Forall plain_selector l → (length (selectors_text l) < fuel)%nat →
  TestFile (Unity w) = Some file → CurrentTestName (Unity w) = Some name →
  argument_loop fuel (selectors_text l) w = (Ret (Z.b2z (existsb (selects file name) l)), w).
Proof.
  induction l as [|s l IH]; intros fuel Hl Hfu Hf Hn; (destruct fuel as [|fuel]; [lia|]); [done|].
  inversion_clear Hl as [|?? Hs Hl']. destruct (selector_head s Hs) as (c & r & E & _).
  assert (∃ rest, at_end rest ∧ selectors_text (s :: l) = selector_text s ++ rest ∧
            skip_separators rest = selectors_text l) as (rest & Hr & Et & Esk).
  { destruct l as [|s' l].
    - exists []. cbn [selectors_text]. rewrite app_nil_r. split; [by left | done].
    - exists (chr "," :: selectors_text (s' :: l)). split; [right; eauto | split; [done|]].
      inversion_clear Hl'. cbn [skip_separators]. by apply skip_to_selectors. }
  rewrite Et in *. rewrite (argument_step _ _ _ file name) by done.
  cbn [existsb]. destruct (selects file name s); [done|]. rewrite Esk. cbn [orb].
  apply IH; try done. rewrite length_app, E in Hfu. simpl in Hfu.
  assert (length (selectors_text l) ≤ length rest)%nat; [|lia].
  rewrite <- Esk. clear. induction rest as [|d rest IH]; simpl; [lia|]. case_match; simpl; lia.
Qed.

(** A list of patterns given with -n selects exactly the tests some pattern names: a plain
    pattern matches a test when it occurs in the test's name or in its file's name, a pattern
    file:test when both parts occur, in the file's name and in the test's name. *)
Theorem UnityStringArgumentMatches_selects file name l w :
  Forall plain_selector l →
  TestFile (Unity w) = Some file → CurrentTestName (Unity w) = Some name →
  UnityStringArgumentMatches (selectors_text l) w
  = (Ret (Z.b2z (existsb (selects file name) l)), w).
Proof. intros Hl Hf Hn. apply argument_loop_spec; [done | lia | done | done]. Qed.

(** UnityTestMatches accepts exactly the tests that the included patterns select (all of
    them without -n) and no excluded pattern selects. *)
Theorem UnityTestMatches_correct file name include exclude verbosity w :
  match include with Some l => Forall plain_selector l | None => True end →
  match exclude with Some l => Forall plain_selector l | None => True end →
  TestFile (Unity w) = Some file → CurrentTestName (Unity w) = Some name →
  let included := match include with Some l => existsb (selects file name) l | None => true end in
  let excluded := match exclude with Some l => existsb (selects file name) l | None => false end in
  UnityTestMatches (mkOptions (selectors_text <$> include) (selectors_text <$> exclude) verbosity) w
  = (Ret (Z.b2z (included && negb excluded)), w).
Proof.
  intros Hi He Hf Hn included excluded. unfold UnityTestMatches. simpl.
  assert (Hin : match selectors_text <$> include with
                | Some pattern => UnityStringArgumentMatches pattern | None => mret 1 end w
                = (Ret (Z.b2z included), w)).
  { destruct include; [apply argument_loop_spec; done || lia | done]. }
  rewrite (bind_Ret _ _ _ _ _ Hin). subst included excluded.
  destruct exclude as [x|]; simpl; [|by rewrite andb_true_r].
  assert (Hex : UnityStringArgumentMatches (selectors_text x) w
    = (Ret (Z.b2z (existsb (selects file name) x)), w)) by (apply argument_loop_spec; done || lia).
  rewrite (bind_Ret _ _ _ _ _ Hex). destruct (existsb (selects file name) x); simpl;
    [by rewrite andb_false_r | by rewrite andb_true_r].
Qed.

(** A pattern that is a single quote character makes UnityStringArgumentMatches read past
    the end of the string: the quote is skipped, and the search for the next pattern starts by
    stepping over the terminator. *)
Theorem UnityStringArgumentMatches_lone_quote w :
  (UnityStringArgumentMatches [34] w).1 = Undef ∧ (UnityStringArgumentMatches [39] w).1 = Undef.
Proof. done. Qed.

(** ** The option parser *)

(** The ways of writing an option; [alias] writes -f for -n. *)
Inductive option_item :=
  | IncludeEq (alias : bool) (p : cstr)
  | IncludeArg (alias : bool) (p : cstr)
  | ExcludeEq (p : cstr)
  | ExcludeArg (p : cstr)
  | Quietly
  | Verbosely
  | Other (arg : cstr).

Definition item_args (i : option_item) : list cstr :=
  match i with
  | IncludeEq alias p => [(if alias then str "-f=" else str "-n=") ++ p]
  | IncludeArg alias p => [if alias then str "-f" else str "-n"; p]
  | ExcludeEq p => [str "-x=" ++ p]
  | ExcludeArg p => [str "-x"; p]
  | Quietly => [str "-q"]
  | Verbosely => [str "-v"]
  | Other arg => [arg]
  end.

Definition item_ok (i : option_item) : Prop :=
  match i with Other arg => char_at arg 0 ≠ chr "-" | _ => True end.

Definition item_effect (o : options) (i : option_item) : options :=
  match i with
  | IncludeEq _ p | IncludeArg _ p => with_Include p o
  | ExcludeEq p | ExcludeArg p => with_Exclude p o
  | Quietly => with_Verbosity 0 o
  | Verbosely => with_Verbosity 2 o
  | Other _ => o
  end.

Section parse.
Context `{Target}.

Lemma parse_item fuel i rest o :
  item_ok i → parse_loop (S fuel) (item_args i ++ rest) o = parse_loop fuel rest (item_effect o i).
Proof.
  destruct i as [[] p|[] p|p|p| | |arg]; simpl; intros Hi; try reflexivity.
  by rewrite (proj2 (Z.eqb_neq _ _) Hi).
Qed.

Lemma parse_items items : ∀ fuel rest o,
  Forall item_ok items →
  parse_loop (length items + fuel) (concat (item_args <$> items) ++ rest) o
  = parse_loop fuel rest (fold_left item_effect items o).
Proof.
  induction items as [|i items IH]; intros fuel rest o Hi; [done|].
  inversion_clear Hi as [|?? Hi1 Hi2]. rewrite fmap_cons. cbn [concat length fold_left Nat.add].
  rewrite <- app_assoc, parse_item by done. by apply IH.
Qed.

Lemma length_items items : (length items ≤ length (concat (item_args <$> items)))%nat.
Proof.
  induction items as [|i items IH]; [done|]. rewrite fmap_cons. cbn [concat length].
  rewrite length_app. destruct i; simpl; lia.
Qed.

Lemma UnityParseOptions_items prog items rest o :
  Forall item_ok items →
  ∃ fuel, UnityParseOptions (prog :: concat (item_args <$> items) ++ rest) o
          = parse_loop (S fuel) rest
              (fold_left item_effect items (mkOptions None None (UnityVerbosity o))).
Proof.
  intros Hi. set (args := concat (item_args <$> items) ++ rest).
  assert (Hl : (length items ≤ length args)%nat)
    by (unfold args; rewrite length_app; pose proof (length_items items); lia).
  exists (S (length args - length items)). rewrite <- parse_items by done. fold args.
  unfold UnityParseOptions. cbn [length tail]. f_equal. lia.
Qed.

(** UnityParseOptions reads back what was written: any sequence of options, in both ways
    of giving a pattern, with the last pattern and verbosity winning, other arguments ignored
    and the patterns of an earlier call forgotten. *)
Theorem UnityParseOptions_roundtrip prog items o w :
  Forall item_ok items →
  UnityParseOptions (prog :: concat (item_args <$> items)) o w
  = (Ret (0, fold_left item_effect items (mkOptions None None (UnityVerbosity o))), w).
Proof.
  intros Hi. destruct (UnityParseOptions_items prog items [] o Hi) as [fuel E].
  rewrite app_nil_r in E. by rewrite E.
Qed.

(** UnityParseOptions stops at the first option it cannot read: a pattern option at the end
    of the command line and an unknown option are reported and return 1, -l returns -1. *)
Theorem UnityParseOptions_errors prog items c rest o w :
  Forall item_ok items →
  Forall (λ d, c ≠ d) [chr "l"; chr "n"; chr "f"; chr "q"; chr "v"; chr "x"] →
  let before := concat (item_args <$> items) in
  let o' := fold_left item_effect items (mkOptions None None (UnityVerbosity o)) in
  let result r text := (Ret (r, o'), emit text w) in
  UnityParseOptions (prog :: before ++ str "-l" :: rest) o w = result (-1) [] ∧
  UnityParseOptions (prog :: before ++ [str "-n"]) o w
  = result 1 (str "ERROR: No Test String to Include Matches For" ++ [10]) ∧
  UnityParseOptions (prog :: before ++ [str "-x"]) o w
  = result 1 (str "ERROR: No Test String to Exclude Matches For" ++ [10]) ∧
  UnityParseOptions (prog :: before ++ (chr "-" :: c :: []) :: rest) o w
  = result 1 (str "ERROR: Unknown Option " ++ [u8 c; 10]).
Proof.
  intros Hi Hc before o' result. unfold before, o', result.
  split_and!; match goal with |- UnityParseOptions (_ :: _ ++ ?r) _ _ = _ =>
    destruct (UnityParseOptions_items prog items r o Hi) as [fuel ->] end.
  - by rewrite emit_nil.
  - change (parse_loop _ _ _) with (UnityPrint (Some (str
      "ERROR: No Test String to Include Matches For"));; UNITY_PRINT_EOL;; mret (1, o') : M _).
    run_prints. by rewrite emit_emit.
  - change (parse_loop _ _ _) with (UnityPrint (Some (str
      "ERROR: No Test String to Exclude Matches For"));; UNITY_PRINT_EOL;; mret (1, o') : M _).
    run_prints. by rewrite emit_emit.
  - decompose_Forall. cbn [parse_loop]. simpl char_at.
    repeat (rewrite (proj2 (Z.eqb_neq c _)) by done).
    change (chr "-" =? chr "-") with true. cbn [orb]. run_prints. by rewrite !emit_emit.
Qed.
End parse.

(** ** Witnesses *)

Lemma IsStringInBiggerString_is_strstr_witness :
  IsStringInBiggerString (Some (str "test_mktime")) (str "mk:x") initial_world
  = (Ret 2, initial_world).
Proof.
  exact (IsStringInBiggerString_is_strstr (str "test_mktime") (chr "m") (str "k:x") initial_world
    ltac:(discriminate)).
Defined.

(** A test in progress: file test_time.c, test mktime_dst. *)
Definition matching_world : world :=
  set_Unity (λ u, with_TestFile (Some (str "test_time.c"))
    (with_CurrentTestName (Some (str "mktime_dst")) u)) initial_world.
Definition sample_selectors : list selector :=
  [Name (str "gmtime"); FileTest (str "time.c") (str "dst")].

Lemma sample_selectors_plain : Forall plain_selector sample_selectors.
Proof. repeat constructor; done. Qed.

Lemma UnityStringArgumentMatches_selects_witness :
  UnityStringArgumentMatches (str "gmtime,time.c:dst") matching_world = (Ret 1, matching_world).
Proof.
  exact (UnityStringArgumentMatches_selects (str "test_time.c") (str "mktime_dst")
    sample_selectors matching_world sample_selectors_plain eq_refl eq_refl).
Defined.

Lemma UnityTestMatches_correct_witness :
  UnityTestMatches (mkOptions (Some (str "gmtime,time.c:dst")) None 1) matching_world
  = (Ret 1, matching_world).
Proof.
  exact (UnityTestMatches_correct (str "test_time.c") (str "mktime_dst") (Some sample_selectors)
    None 1 matching_world sample_selectors_plain I eq_refl eq_refl).
Defined.

Lemma UnityParseOptions_roundtrip_witness :
  @UnityParseOptions aarch64 [str "prog"; str "-n=abc"; str "-v"; str "-x"; str "-y"]
    (mkOptions None None 1) initial_world
  = (Ret (0, mkOptions (Some (str "abc")) (Some (str "-y")) 2), initial_world).
Proof.
  exact (@UnityParseOptions_roundtrip aarch64 (str "prog")
    [IncludeEq false (str "abc"); Verbosely; ExcludeArg (str "-y")] (mkOptions None None 1)
    initial_world ltac:(repeat constructor)).
Defined.

Lemma UnityParseOptions_errors_witness :
  @UnityParseOptions aarch64 [str "prog"; str "-q"; str "-l"] (mkOptions None None 1) initial_world
  = (Ret (-1, mkOptions None None 0), initial_world).
Proof.
  exact (proj1 (@UnityParseOptions_errors aarch64 (str "prog") [Quietly] (chr "z") []
    (mkOptions None None 1) initial_world ltac:(repeat constructor)
    ltac:(repeat constructor; discriminate))).
Defined.
