(* ===== verification/UnityFloat.v ===== *)
(** * Floating point (src/unity/unity.c, UNITY_INCLUDE_FLOAT and UNITY_INCLUDE_DOUBLE)

    UnityPrintFloat, the comparisons of floats and doubles within a delta,
    their arrays and their traits. A value of a C floating type is a
    [spec_float] of the Standard Library (IEEE 754 without NaN payloads),
    every operation rounds to nearest even in the type's own format. *)

From Stdlib Require Import SpecFloat.
From S2P Require Import Prelude CMachine UnityOutput UnityAssert UnityAssertSpec.
From S2P Require Import UnityFrame.

(** ** Formats *)

(** A binary interchange format: precision, exponent range, size in bytes. *)
Record format := mkFormat { f_prec : Z; f_emax : Z; f_size : nat }.
Definition binary32 : format := mkFormat 24 128 4.
Definition binary64 : format := mkFormat 53 1024 8.

Definition isnan (x : spec_float) : bool := match x with S754_nan => true | _ => false end.
Definition isinf (x : spec_float) : bool := match x with S754_infinity _ => true | _ => false end.
Definition zero : spec_float := S754_zero false.

(** The object representation of a format. *)
Definition float_of_bits (f : format) (bits : Z) : spec_float :=
  let mw := f_prec f - 1 in
  let m := bits mod 2 ^ mw in
  let e := bits / 2 ^ mw mod (2 * f_emax f) in
  let s := Z.odd (bits / (2 ^ mw * (2 * f_emax f))) in
  if e =? 2 * f_emax f - 1 then (if m =? 0 then S754_infinity s else S754_nan)
  else if e =? 0 then
    match m with Zpos p => S754_finite s p (emin (f_prec f) (f_emax f)) | _ => S754_zero s end
  else match m + 2 ^ mw with
       | Zpos p => S754_finite s p (e - 1 + emin (f_prec f) (f_emax f))
       | _ => S754_nan
       end.

Definition bits_of_float (f : format) (x : spec_float) : Z :=
  let mw := f_prec f - 1 in
  let pack (s : bool) e m := (Z.b2z s * (2 * f_emax f) + e) * 2 ^ mw + m in
  match x with
  | S754_zero s => pack s 0 0
  | S754_infinity s => pack s (2 * f_emax f - 1) 0
  | S754_nan => pack false (2 * f_emax f - 1) (2 ^ (mw - 1))
  | S754_finite s m e =>
      if Zpos m <? 2 ^ mw then pack s 0 (Zpos m)
      else pack s (e + 1 - emin (f_prec f) (f_emax f)) (Zpos m - 2 ^ mw)
  end.

(** ** Double arithmetic *)

Definition dadd := SFadd 53 1024.
Definition dsub := SFsub 53 1024.
Definition dmul := SFmul 53 1024.
Definition ddiv := SFdiv 53 1024.
(** (UNITY_DOUBLE)n for an integer *)
Definition of_int (n : Z) : spec_float := binary_normalize 53 1024 n 0 false.
(** (UNITY_DOUBLE)x for a float *)
Definition to_double (x : spec_float) : spec_float :=
  match x with S754_finite s m e => binary_round 53 1024 s m e | _ => x end.

(** Truncation toward zero; no value for infinities and NaN. *)
Definition trunc (x : spec_float) : option Z :=
  match x with
  | S754_zero _ => Some 0
  | S754_finite s m e =>
      let v := if 0 <=? e then Zpos m * 2 ^ e else Zpos m / 2 ^ (- e) in
      Some (if s then - v else v)
  | _ => None
  end.
(** (UNITY_INT32)x, undefined when the truncated value does not fit. *)
Definition to_int32 (x : spec_float) : M Z :=
  of_option (v ← trunc x; if (- 2 ^ 31 <=? v) && (v <? 2 ^ 31) then Some v else None).

(** 0.5f, exactly 2^-1 *)
Definition half : spec_float := binary_normalize 53 1024 1 (-1) false.

(** ** UnityPrintFloat *)

Definition sig_digits : Z := 9.
Definition min_scaled : Z := 100000000.
Definition max_scaled : Z := 1000000000.
Definition ten_10 : spec_float := of_int 10000000000.
Definition ten : spec_float := of_int 10.

(** The bound given to each scaling loop: doubles range over less than 10^-324 .. 10^309 and the
    loops step by 10^10, respectively by 10 within 10^20. *)
Definition scale_fuel : nat := 64.

(** [while (number < max_scaled / 1e10f) { number *= 1e10f; exponent -= 10; }] *)
Definition scale_up : spec_float * Z → M (spec_float * Z) :=
  loop scale_fuel (λ '(number, exponent),
    mret (if SFltb number (ddiv (of_int max_scaled) ten_10)
          then Some (dmul number ten_10, exponent - 10) else None)).
(** [while (number * factor < min_scaled) { factor *= 10.0f; exponent--; }] *)
Definition find_factor (number : spec_float) : spec_float * Z → M (spec_float * Z) :=
  loop scale_fuel (λ '(factor, exponent),
    mret (if SFltb (dmul number factor) (of_int min_scaled)
          then Some (dmul factor ten, exponent - 1) else None)).
(** [while (number > min_scaled * 1e10f) { number /= 1e10f; exponent += 10; }] *)
Definition scale_down : spec_float * Z → M (spec_float * Z) :=
  loop scale_fuel (λ '(number, exponent),
    mret (if SFltb (dmul (of_int min_scaled) ten_10) number
          then Some (ddiv number ten_10, exponent + 10) else None)).
(** [while (number / divisor > max_scaled) { divisor *= 10.0f; exponent++; }] *)
Definition find_divisor (number : spec_float) : spec_float * Z → M (spec_float * Z) :=
  loop scale_fuel (λ '(divisor, exponent),
    mret (if SFltb (of_int max_scaled) (ddiv number divisor)
          then Some (dmul divisor ten, exponent + 1) else None)).
(** [while (n_int < min_scaled) { n_int *= 10; factor *= 10.0f; exponent--; }] *)
Definition scale_int : Z * spec_float * Z → M (Z * spec_float * Z) :=
  loop scale_fuel (λ '(n_int, factor, exponent),
    mret (if n_int <? min_scaled
          then Some (i32 (n_int * 10), dmul factor ten, exponent - 1) else None)).

(** The scaled number, its integer part split off, and the decimal exponent. *)
Definition scale_number (number : spec_float) : M (spec_float * Z * Z) :=
  if SFltb number (of_int 1) then
    '(number, exponent) ← scale_up (number, 0);
    '(factor, exponent) ← find_factor number (of_int 1, exponent);
    mret (dmul number factor, 0, exponent)
  else if SFltb (of_int max_scaled) number then
    '(number, exponent) ← scale_down (number, 0);
    '(divisor, exponent) ← find_divisor number (of_int 1, exponent);
    mret (ddiv number divisor, 0, exponent)
  else
    n_int ← to_int32 number;
    let number := dsub number (of_int n_int) in
    '(n_int, factor, exponent) ← scale_int (n_int, of_int 1, 0);
    mret (dmul number factor, n_int, exponent).

(** Rounding to the nearest integer, ties to even, and the carry into the exponent. *)
Definition round_scaled (number : spec_float) (n_int exponent : Z) : M (Z * Z) :=
  doubled ← to_int32 (dadd number number);
  let n := Z.quot (i32 (doubled + 1)) 2 in
  let n := if negb (Z.land n 1 =? 0) && SFeqb (dsub (of_int n) number) half then n - 1 else n in
  let n := i32 (n + n_int) in
  mret (if n >=? max_scaled then (min_scaled, exponent + 1) else (n, exponent)).

(** [while ((decimals > 0) && ((n % 10) == 0))] *)
Fixpoint strip_zeros (decimals : nat) (n : Z) : Z * nat :=
  match decimals with
  | O => (n, O)
  | S d => if Z.rem n 10 =? 0 then strip_zeros d (Z.quot n 10) else (n, decimals)
  end.

(** The digits written to buf[16], last one first; [None] when the buffer is full. *)
Fixpoint fill_digits (room : nat) (buf : list Z) (n : Z) (least : nat) : option (list Z) :=
  if negb (n =? 0) || (Nat.ltb (length buf) least) then
    match room with
    | O => None
    | S room => fill_digits room (u8 (chr "0" + Z.rem n 10) :: buf) (Z.quot n 10) least
    end
  else Some buf.

(** [while (digits > 0)], a point before the last [decimals] digits. *)
Fixpoint print_digits (buf : list Z) (decimals : nat) : M unit :=
  match buf with
  | [] => skip
  | c :: rest =>
      when (Nat.eqb (length buf) decimals) (UNITY_OUTPUT_CHAR (chr "."));;
      UNITY_OUTPUT_CHAR c;;
      print_digits rest decimals
  end.

Definition print_exponent (exponent : Z) : M unit :=
  if negb (exponent =? 0) then
    UNITY_OUTPUT_CHAR (chr "e");;
    (if exponent <? 0 then UNITY_OUTPUT_CHAR (chr "-") else UNITY_OUTPUT_CHAR (chr "+"));;
    buf ← of_option (fill_digits 16 [] (Z.abs exponent) 2);
    print_digits buf 0
  else skip.

(** Placing the decimal point of n * 10^exponent and printing it. *)
Definition print_decimal (n exponent : Z) : M unit :=
  let decimals :=
    if (exponent <=? 0) && (exponent >=? - (sig_digits + 3)) then - exponent else sig_digits - 1 in
  let '(n, d) := strip_zeros (Z.to_nat decimals) n in
  buf ← of_option (fill_digits 16 [] n (d + 1));
  print_digits buf d;;
  print_exponent (exponent + decimals).

Definition print_magnitude `{Target} (number : spec_float) : M unit :=
  if SFeqb number zero then UnityPrint (Some (str "0"))
  else if isnan number then UnityPrint (Some (str "nan"))
  else if isinf number then UnityPrint (Some (str "inf"))
  else
    '(number, n_int, exponent) ← scale_number number;
    '(n, exponent) ← round_scaled number n_int exponent;
    print_decimal n exponent.

Definition UnityPrintFloat `{Target} (input_number : spec_float) : M unit :=
  if SFltb input_number zero then
    UNITY_OUTPUT_CHAR (chr "-");; print_magnitude (SFopp input_number)
  else print_magnitude input_number.

(** ** Comparing within a delta *)

(** The macro UNITY_FLOAT_OR_DOUBLE_WITHIN with UNITY_NAN_CHECK, for one format. *)
Definition UNITY_FLOAT_OR_DOUBLE_WITHIN (f : format) (delta expected actual : spec_float) : bool :=
  if isinf expected && isinf actual && Bool.eqb (SFltb expected zero) (SFltb actual zero) then true
  else if isnan expected && isnan actual then true
  else
    let diff := SFsub (f_prec f) (f_emax f) actual expected in
    let diff := if SFltb diff zero then SFopp diff else diff in
    let delta := if SFltb delta zero then SFopp delta else delta in
    negb (isnan diff || isinf diff || SFltb delta diff).

Definition UnityFloatsWithin := UNITY_FLOAT_OR_DOUBLE_WITHIN binary32.
Definition UnityDoublesWithin := UNITY_FLOAT_OR_DOUBLE_WITHIN binary64.

(** UNITY_FLOAT_PRECISION (0.00001f) and UNITY_DOUBLE_PRECISION (1e-12), correctly rounded. *)
Definition UNITY_FLOAT_PRECISION : spec_float :=
  SFdiv 24 128 (binary_normalize 24 128 1 0 false) (binary_normalize 24 128 100000 0 false).
Definition UNITY_DOUBLE_PRECISION : spec_float := ddiv (of_int 1) (of_int 1000000000000).

(** UNITY_FLOAT_TRAIT_T *)
Inductive UNITY_FLOAT_TRAIT_T :=
  | UNITY_FLOAT_IS_NOT_INF | UNITY_FLOAT_IS_INF | UNITY_FLOAT_IS_NOT_NEG_INF
  | UNITY_FLOAT_IS_NEG_INF | UNITY_FLOAT_IS_NOT_NAN | UNITY_FLOAT_IS_NAN
  | UNITY_FLOAT_IS_NOT_DET | UNITY_FLOAT_IS_DET | UNITY_FLOAT_INVALID_TRAIT.

Definition trait_val (t : UNITY_FLOAT_TRAIT_T) : Z :=
  match t with
  | UNITY_FLOAT_IS_NOT_INF => 0 | UNITY_FLOAT_IS_INF => 1
  | UNITY_FLOAT_IS_NOT_NEG_INF => 2 | UNITY_FLOAT_IS_NEG_INF => 3
  | UNITY_FLOAT_IS_NOT_NAN => 4 | UNITY_FLOAT_IS_NAN => 5
  | UNITY_FLOAT_IS_NOT_DET => 6 | UNITY_FLOAT_IS_DET => 7
  | UNITY_FLOAT_INVALID_TRAIT => 8
  end.

Section float_assertions.
Context `{Target}.

Definition UNITY_PRINT_EXPECTED_AND_ACTUAL_FLOAT (expected actual : spec_float) : M unit :=
  UnityPrint (Some UnityStrExpected);;
  UnityPrintFloat expected;;
  UnityPrint (Some UnityStrWas);;
  UnityPrintFloat actual.

(** The body the float and double functions share: [widen] is the cast to UNITY_DOUBLE for
    printing, the identity for doubles. *)
Definition report_not_within (widen : spec_float → spec_float) (expected actual : spec_float)
    (msg : cstring) (lineNumber : Z) (where_ : M unit) : M unit :=
  UnityTestResultsFailBegin lineNumber;;
  where_;;
  UNITY_PRINT_EXPECTED_AND_ACTUAL_FLOAT (widen expected) (widen actual);;
  UnityAddMsgIfSpecified msg;;
  UNITY_PRINT_EOL;;
  UNITY_FAIL_AND_BAIL.

Definition UnityAssertFloatsWithin (delta expected actual : spec_float) (msg : cstring)
    (lineNumber : Z) : M unit :=
  RETURN_IF_FAIL_OR_IGNORE;;
  when (negb (UnityFloatsWithin delta expected actual))
    (report_not_within to_double expected actual msg lineNumber skip).

Definition UnityAssertDoublesWithin (delta expected actual : spec_float) (msg : cstring)
    (lineNumber : Z) : M unit :=
  RETURN_IF_FAIL_OR_IGNORE;;
  when (negb (UnityDoublesWithin delta expected actual))
    (report_not_within (λ x, x) expected actual msg lineNumber skip).

(** An object of a floating type in memory. *)
Definition load_float (f : format) (a : Z) : M spec_float :=
  bits ← load_uint a (f_size f); mret (float_of_bits f bits).

(** The loop of UnityAssertEqualFloatArray and UnityAssertEqualDoubleArray. *)
Fixpoint equal_float_array_loop (f : format) (precision : spec_float)
    (widen : spec_float → spec_float) (num_elements : Z) (msg : cstring) (lineNumber : Z)
    (flags : UNITY_FLAGS_T) (elements : nat) (ptr_expected ptr_actual : Z) : M unit :=
  match elements with
  | O => skip
  | S elements =>
      expected ← load_float f ptr_expected;
      actual ← load_float f ptr_actual;
      when (negb (UNITY_FLOAT_OR_DOUBLE_WITHIN f
                    (SFmul (f_prec f) (f_emax f) expected precision) expected actual))
        (report_not_within widen expected actual msg lineNumber
           (UnityPrint (Some UnityStrElement);;
            UnityPrintNumberUnsigned (u32 (num_elements - Z.of_nat elements - 1))));;
      equal_float_array_loop f precision widen num_elements msg lineNumber flags elements
        (if decide (flags = UNITY_ARRAY_TO_ARRAY) then ptr_expected + Z.of_nat (f_size f)
         else ptr_expected)
        (ptr_actual + Z.of_nat (f_size f))
  end.

Definition UnityAssertEqualFloatArray (expected actual num_elements : Z) (msg : cstring)
    (lineNumber : Z) (flags : UNITY_FLAGS_T) : M unit :=
  RETURN_IF_FAIL_OR_IGNORE;;
  when (num_elements =? 0) (UnityPrintPointlessAndBail lineNumber msg);;
  if expected =? actual then skip
  else
    null ← UnityIsOneArrayNull expected actual lineNumber msg;
    when null (UNITY_PRINT_EOL;; UNITY_FAIL_AND_BAIL);;
    equal_float_array_loop binary32 UNITY_FLOAT_PRECISION to_double num_elements msg lineNumber
      flags (Z.to_nat num_elements) expected actual.

Definition UnityAssertEqualDoubleArray (expected actual num_elements : Z) (msg : cstring)
    (lineNumber : Z) (flags : UNITY_FLAGS_T) : M unit :=
  RETURN_IF_FAIL_OR_IGNORE;;
  when (num_elements =? 0) (UnityPrintPointlessAndBail lineNumber msg);;
  if expected =? actual then skip
  else
    null ← UnityIsOneArrayNull expected actual lineNumber msg;
    when null (UNITY_PRINT_EOL;; UNITY_FAIL_AND_BAIL);;
    equal_float_array_loop binary64 UNITY_DOUBLE_PRECISION (λ x, x) num_elements msg lineNumber
      flags (Z.to_nat num_elements) expected actual.

(** [is_trait] after the switch of UnityAssertFloatSpecial; the default case keeps its initial
    value, the negation of should_be_trait. *)
Definition is_trait (actual : spec_float) (style : UNITY_FLOAT_TRAIT_T) : bool :=
  match style with
  | UNITY_FLOAT_IS_INF | UNITY_FLOAT_IS_NOT_INF => isinf actual && SFltb zero actual
  | UNITY_FLOAT_IS_NEG_INF | UNITY_FLOAT_IS_NOT_NEG_INF => isinf actual && SFltb actual zero
  | UNITY_FLOAT_IS_NAN | UNITY_FLOAT_IS_NOT_NAN => isnan actual
  | UNITY_FLOAT_IS_DET | UNITY_FLOAT_IS_NOT_DET => negb (isinf actual) && negb (isnan actual)
  | UNITY_FLOAT_INVALID_TRAIT => negb (Z.odd (trait_val style))
  end.

Definition trait_name (style : UNITY_FLOAT_TRAIT_T) : cstr :=
  match style with
  | UNITY_FLOAT_INVALID_TRAIT => UnityStrInvalidFloatTrait
  | _ => nth (Z.to_nat (Z.shiftr (trait_val style) 1))
           [UnityStrInf; UnityStrNegInf; UnityStrNaN; UnityStrDet] []
  end.

(** The body of UnityAssertFloatSpecial and UnityAssertDoubleSpecial. *)
Definition assert_special (widen : spec_float → spec_float) (actual : spec_float) (msg : cstring)
    (lineNumber : Z) (style : UNITY_FLOAT_TRAIT_T) : M unit :=
  RETURN_IF_FAIL_OR_IGNORE;;
  let should_be_trait := Z.odd (trait_val style) in
  when (negb (Bool.eqb (is_trait actual style) should_be_trait)) (
    UnityTestResultsFailBegin lineNumber;;
    UnityPrint (Some UnityStrExpected);;
    when (negb should_be_trait) (UnityPrint (Some UnityStrNot));;
    UnityPrint (Some (trait_name style));;
    UnityPrint (Some UnityStrWas);;
    UnityPrintFloat (widen actual);;
    UnityAddMsgIfSpecified msg;;
    UNITY_PRINT_EOL;;
    UNITY_FAIL_AND_BAIL).

Definition UnityAssertFloatSpecial := assert_special to_double.
Definition UnityAssertDoubleSpecial := assert_special (λ x, x).

Definition UnityFloatToPtr (num : spec_float) : M Z :=
  store_uint addr_UnityQuickCompare 4 (bits_of_float binary32 num);; mret addr_UnityQuickCompare.
Definition UnityDoubleToPtr (num : spec_float) : M Z :=
  store_uint addr_UnityQuickCompare 8 (bits_of_float binary64 num);; mret addr_UnityQuickCompare.
End float_assertions.
