(* ===== verification/UnityFloatSpec.v ===== *)
(** * What the floating point assertions promise

    The decimal formatting of UnityPrintFloat, the laws of the comparison
    within a delta, and the verdicts of the assertions on floats, doubles,
    their arrays and traits. *)

From Stdlib Require Import SpecFloat.
From S2P Require Import Prelude CMachine UnityOutput UnityAssert UnityAssertSpec.
From S2P Require Import UnityAssertProps UnityFrame UnityFloat.

(** ** Decimal formatting *)

Lemma strip_zeros_spec d : ∀ n m k,
  0 ≤ n → strip_zeros d n = (m, k) →
  (k ≤ d)%nat ∧ 0 ≤ m ≤ n ∧ n = m * 10 ^ Z.of_nat (d - k).
Proof.
  induction d as [|d IH]; intros n m k Hn; cbn [strip_zeros].
  { intros [= <- <-]. simpl. lia. }
  destruct (Z.eqb_spec (Z.rem n 10) 0) as [E|_].
  - rewrite Z.rem_mod_nonneg in E by lia. rewrite Z.quot_div_nonneg by lia. intros Hs.
    pose proof (Z.div_mod n 10 ltac:(lia)). pose proof (Z.div_pos n 10 Hn ltac:(lia)).
    destruct (IH _ _ _ ltac:(eassumption) Hs) as (Hk & Hm & Hv). split_and!; [lia..|].
    replace (S d - k)%nat with (S (d - k)) by lia.
    rewrite Nat2Z.inj_succ, Z.pow_succ_r by lia. lia.
  - intros [= <- <-]. replace (S d - S d)%nat with O by lia. simpl. lia.
Qed.

Lemma u8_digit r : 0 ≤ r < 10 → u8 (chr "0" + r) = 48 + r.
Proof. intros Hr. change (chr "0") with 48. unfold u8. apply uwrap_small; simpl; lia. Qed.

(** The buffer holds the digits of the number, padded with zeros. *)
Lemma fill_digits_spec room : ∀ buf n least,
  0 ≤ n < 10 ^ Z.of_nat room → (least ≤ room + length buf)%nat →
  ∃ ds, fill_digits room buf n least = Some (ds ++ buf) ∧ Forall is_digit ds ∧
    dec_value ds = n ∧ (least ≤ length (ds ++ buf))%nat ∧
    (n ≠ 0 ∨ (length buf < least)%nat → ds ≠ []).
Proof.
  induction room as [|room IH]; intros buf n least Hn Hl; cbn [fill_digits].
  - simpl in Hn, Hl. rewrite (proj2 (Z.eqb_eq n 0)) by lia. cbn [negb orb].
    rewrite (proj2 (Nat.ltb_ge _ _)) by lia. exists []. unfold dec_value. simpl. split_and!; try done; try lia; intros []; lia.
  - destruct (negb (n =? 0) || (length buf <? least)%nat) eqn:E.
    + rewrite Z.rem_mod_nonneg, Z.quot_div_nonneg by lia.
      pose proof (Z.mod_pos_bound n 10). rewrite u8_digit by lia.
      rewrite Nat2Z.inj_succ, Z.pow_succ_r in Hn by lia.
      destruct (IH (48 + n mod 10 :: buf) (n / 10) least) as (ds & -> & Hd & Hv & Hlen & _).
      { split; [apply Z.div_pos | apply Z.div_lt_upper_bound]; lia. }
      { simpl. lia. }
      exists (ds ++ [48 + n mod 10]). rewrite <- app_assoc. split_and!; try done.
      * apply Forall_app. split; [done|]. constructor; [|done]. unfold is_digit. lia.
      * rewrite dec_value_snoc, Hv. pose proof (Z.div_mod n 10). lia.
      * by destruct ds.
    + apply orb_false_iff in E as [E1 E2]. apply negb_false_iff, Z.eqb_eq in E1.
      apply Nat.ltb_ge in E2. exists []. unfold dec_value. simpl. split_and!; try done; try lia; intros []; lia.
Qed.

(** Digits with a point before the last [k]. *)
Fixpoint pointed (ds : list Z) (k : nat) : list Z :=
  match ds with
  | [] => []
  | c :: rest => (if Nat.eqb (length ds) k then str "." else []) ++ c :: pointed rest k
  end.

Lemma u8_is_digit c : is_digit c → u8 c = c.
Proof. unfold is_digit, u8. intros. apply uwrap_small; simpl; lia. Qed.

Lemma emits_print_digits ds k : Forall is_digit ds → emits (print_digits ds k) (pointed ds k).
Proof.
  induction 1 as [|c ds Hc Hds IH]; cbn [print_digits pointed]; [apply emits_skip|].
  change (c :: pointed ds k) with ([c] ++ pointed ds k). apply emits_seq.
  - apply emits_when, emits_char.
  - apply emits_seq; [|done]. pose proof (emits_char c) as Hch. by rewrite u8_is_digit in Hch.
Qed.

(** The exponent as e+dd or e-dd, nothing for 0. *)
Definition exponent_text (x : Z) (ds : list Z) : list Z :=
  if x =? 0 then [] else str "e" ++ (if x <? 0 then str "-" else str "+") ++ pointed ds 0.

Lemma print_exponent_spec x :
  Z.abs x < 10 ^ 16 →
  ∃ ds, emits (print_exponent x) (exponent_text x ds) ∧ Forall is_digit ds ∧
    dec_value ds = Z.abs x ∧ (2 ≤ length ds)%nat.
Proof.
  intros Hx. destruct (fill_digits_spec 16 [] (Z.abs x) 2) as (ds & Hf & Hd & Hv & Hl & _);
    [simpl Z.of_nat; lia | simpl; lia |].
  rewrite app_nil_r in Hf, Hl. exists ds. split_and!; try done.
  unfold print_exponent, exponent_text. destruct (x =? 0); cbn [negb]; [apply emits_skip|].
  apply emits_seq; [apply emits_char|]. apply emits_seq.
  - apply emits_if; apply emits_char.
  - rewrite Hf. intros w. simpl of_option. rewrite bind_mret. by apply emits_print_digits.
Qed.

(** C35: The decimal formatting of UnityPrintFloat is exact and stays within its 16-byte buffer:
    for a scaled mantissa n of at most nine digits and any exponent of a double, it prints
    digits with k of them after the point and an exponent x of at least two digits, such that
    the printed number is n * 10^exponent (both sides multiplied by 10^1000 to stay integral). *)
Theorem print_decimal_exact n exponent :
  0 < n < max_scaled → Z.abs exponent ≤ 900 →
  ∃ ds k x xs, emits (print_decimal n exponent) (pointed ds k ++ exponent_text x xs) ∧
    Forall is_digit ds ∧ (k < length ds)%nat ∧ Forall is_digit xs ∧ dec_value xs = Z.abs x ∧
    (2 ≤ length xs)%nat ∧
    dec_value ds * 10 ^ (x + 1000) = n * 10 ^ (exponent + Z.of_nat k + 1000).
Proof.
  intros Hn Hx. unfold print_decimal.
  set (decimals := if _ && _ then _ else _).
  assert (Hd : 0 ≤ decimals ≤ 12).
  { subst decimals. unfold sig_digits. rewrite Z.geb_leb.
    destruct (Z.leb_spec exponent 0), (Z.leb_spec (- (9 + 3)) exponent); simpl; lia. }
  clearbody decimals. destruct (strip_zeros (Z.to_nat decimals) n) as [m k] eqn:Es.
  destruct (strip_zeros_spec _ n m k ltac:(lia) Es) as (Hk & Hm & Hv).
  unfold max_scaled in Hn.
  destruct (fill_digits_spec 16 [] m (k + 1)) as (ds & Hf & Hds & Hdv & Hl & _);
    [simpl Z.of_nat; lia | simpl; lia |].
  destruct (print_exponent_spec (exponent + decimals)) as (xs & Hxe & Hxd & Hxv & Hxl); [lia|].
  rewrite app_nil_r in Hf, Hl. exists ds, k, (exponent + decimals), xs. split_and!; try done.
  - rewrite Hf. intros w. simpl of_option. rewrite bind_mret.
    by apply emits_seq; [apply emits_print_digits|].
  - lia.
  - rewrite Hdv, Hv, <- Z.mul_assoc, <- Z.pow_add_r by lia. f_equal. f_equal. lia.
Qed.

Lemma print_decimal_exact_witness :
  ∃ ds k x xs, emits (print_decimal 314159265 (-8)) (pointed ds k ++ exponent_text x xs) ∧
    dec_value ds * 10 ^ (x + 1000) = 314159265 * 10 ^ (-8 + Z.of_nat k + 1000).
Proof.
  destruct (print_decimal_exact 314159265 (-8)) as (ds & k & x & xs & He & _ & _ & _ & _ & _ & Hv);
    [unfold max_scaled; lia | simpl; lia |].
  exact (ex_intro _ ds (ex_intro _ k (ex_intro _ x (ex_intro _ xs (conj He Hv))))).
Defined.

(** ** Within a delta *)

Section within.
Context (f : format).
Abbreviation fsub := (SFsub (f_prec f) (f_emax f)).
Abbreviation within_f := (UNITY_FLOAT_OR_DOUBLE_WITHIN f).

Lemma SFopp_round s m e :
  SFopp (binary_round (f_prec f) (f_emax f) s m e)
  = binary_round (f_prec f) (f_emax f) (negb s) m e.
Proof.
  unfold binary_round, binary_round_aux. destruct (shl_align _ _ _) as [mz ez].
  destruct (shr_fexp _ _ _ _ _) as [r1 e1]. destruct (shr_fexp _ _ _ _ _) as [r2 e2].
  destruct (shr_m r2); try done. by destruct (_ <=? _).
Qed.

Lemma SFabs_normalize_opp m e z :
  SFabs (binary_normalize (f_prec f) (f_emax f) (- m) e z)
  = SFabs (binary_normalize (f_prec f) (f_emax f) m e z).
Proof.
  assert (Habs : ∀ x, SFabs (SFopp x) = SFabs x) by by intros [].
  destruct m as [|m|m]; simpl; [done|..].
  - change true with (negb false). by rewrite <- SFopp_round, Habs.
  - change true with (negb false). by rewrite <- SFopp_round, Habs.
Qed.

(** Subtraction is antisymmetric up to the sign of zero. *)
Lemma SFabs_sub_sym x y : SFabs (fsub x y) = SFabs (fsub y x).
Proof.
  destruct x as [[]|[]| |sx mx ex], y as [[]|[]| |sy my ey]; try done.
  unfold SFsub. rewrite (Z.min_comm ey ex), <- SFabs_normalize_opp. f_equal. f_equal. lia.
Qed.

Lemma SFsub_diag x : isnan x = false → isinf x = false → fsub x x = zero.
Proof.
  destruct x as [[]|s| |s m e]; try done. intros _ _. unfold SFsub. by rewrite Z.sub_diag.
Qed.

(** The comparison with the difference made non-negative only looks at its magnitude. *)
Definition far (delta diff : spec_float) : bool := isnan diff || isinf diff || SFltb delta diff.

Lemma far_abs delta diff :
  far (if SFltb delta zero then SFopp delta else delta)
    (if SFltb diff zero then SFopp diff else diff) = far (SFabs delta) (SFabs diff).
Proof. destruct delta as [[]|[]| |[] m e], diff as [[]|[]| |[] m' e']; done. Qed.

(** The reference: equal infinities, two NaNs, or finite values whose rounded distance is
    finite and at most the magnitude of delta. *)
Definition close (delta x y : spec_float) : Prop :=
  match x, y with
  | S754_nan, S754_nan => True
  | S754_infinity s, S754_infinity s' => s = s'
  | S754_nan, _ | _, S754_nan | S754_infinity _, _ | _, S754_infinity _ => False
  | _, _ => isinf (fsub y x) = false ∧ isnan (fsub y x) = false ∧
            SFltb (SFabs delta) (SFabs (fsub y x)) = false
  end.

Lemma far_false delta diff :
  far (SFabs delta) (SFabs diff) = false ↔
  isinf diff = false ∧ isnan diff = false ∧ SFltb (SFabs delta) (SFabs diff) = false.
Proof.
  unfold far. rewrite !orb_false_iff.
  assert (isnan (SFabs diff) = isnan diff) as -> by by destruct diff.
  assert (isinf (SFabs diff) = isinf diff) as -> by by destruct diff. tauto.
Qed.

Lemma within_close delta x y : within_f delta x y = true ↔ close delta x y.
Proof.
  unfold UNITY_FLOAT_OR_DOUBLE_WITHIN.
  change (negb (isnan ?d || isinf ?d || SFltb ?e ?d)) with (negb (far e d)).
  cbv zeta. rewrite far_abs.
  assert (Hf : negb (far (SFabs delta) (SFabs (fsub y x))) = true ↔
               far (SFabs delta) (SFabs (fsub y x)) = false) by apply negb_true_iff.
  rewrite far_false in Hf.
  destruct x as [sx|sx| |sx mx ex], y as [sy|sy| |sy my ey]; cbn [isinf isnan andb close];
    try done; try exact Hf;
    try (split; [|done]; intros E; by apply Hf in E as (? & ? & ?)).
  destruct sx, sy; cbn [SFltb SFcompare zero Bool.eqb]; try done;
    rewrite Hf; split; try done; by intros (? & ? & ?).
Qed.

Lemma close_sym delta x y : close delta x y → close delta y x.
Proof.
  assert (Hs : ∀ d e, SFabs d = SFabs e → isinf d = isinf e ∧ isnan d = isnan e)
    by by intros [] [].
  destruct x as [sx|sx| |sx mx ex], y as [sy|sy| |sy my ey]; unfold close; try done;
    match goal with |- context [fsub ?a ?b] =>
      destruct (Hs _ _ (SFabs_sub_sym a b)) as [-> ->]; by rewrite (SFabs_sub_sym a b) end.
Qed.
End within.

(** UnityFloatsWithin and UnityDoublesWithin decide closeness: both infinite with the same
    sign, both NaN, or both finite with a rounded distance that does not overflow and is at most
    the magnitude of delta. The relation is reflexive on every value, NaN and infinities
    included, symmetric, and does not depend on the sign of delta. *)
Theorem within_laws f delta x y :
  (UNITY_FLOAT_OR_DOUBLE_WITHIN f delta x y = true ↔ close f delta x y) ∧
  UNITY_FLOAT_OR_DOUBLE_WITHIN f delta x x = true ∧
  UNITY_FLOAT_OR_DOUBLE_WITHIN f delta x y = UNITY_FLOAT_OR_DOUBLE_WITHIN f delta y x ∧
  UNITY_FLOAT_OR_DOUBLE_WITHIN f (SFopp delta) x y = UNITY_FLOAT_OR_DOUBLE_WITHIN f delta x y.
Proof.
  split_and!.
  - apply within_close.
  - apply within_close. destruct x as [s|s| |s m e]; try done; unfold close;
      rewrite SFsub_diag by done; split_and!; try done; by destruct delta as [[]|[]| |[] ??].
  - apply eq_true_iff_eq. rewrite !within_close. split; apply close_sym.
  - apply eq_true_iff_eq. rewrite !within_close. unfold close.
    assert (SFabs (SFopp delta) = SFabs delta) as -> by by destruct delta. done.
Qed.

(** A NaN delta disables the comparison of doubles: any two finite values whose difference
    does not overflow are accepted, however far apart. *)
Theorem nan_delta_accepts x y :
  isinf x = false → isnan x = false → isinf y = false → isnan y = false →
  isinf (dsub y x) = false → isnan (dsub y x) = false →
  UnityDoublesWithin S754_nan x y = true.
Proof.
  intros Hx Hx' Hy Hy' Hi Hn. apply within_close. by destruct x, y.
Qed.

Lemma nan_delta_accepts_witness : UnityDoublesWithin S754_nan (of_int 1) (of_int 1000000) = true.
Proof.
  apply (nan_delta_accepts (of_int 1) (of_int 1000000)); vm_compute; reflexivity.
Defined.

(** ** The assertions *)

Section float_specs.
Context `{Target}.

Definition floats_text (te ta : list Z) : list Z := UnityStrExpected ++ te ++ UnityStrWas ++ ta.

Lemma report_not_within_eq widen expected actual msg line where_ t te ta w :
  emits where_ t → emits (UnityPrintFloat (widen expected)) te →
  emits (UnityPrintFloat (widen actual)) ta →
  report_not_within widen expected actual msg line where_ w
  = (Jump, report line (t ++ floats_text te ta) msg w).
Proof.
  intros Ht He Ha. unfold report_not_within, UNITY_PRINT_EXPECTED_AND_ACTUAL_FLOAT.
  rewrite (bind_Ret _ _ _ _ _ (UnityTestResultsFailBegin_eq _ _)), (emits_bind _ _ _ _ Ht).
  rewrite !bind_assoc. erewrite emits_bind by eauto with emits.
  rewrite bind_assoc, (emits_bind _ _ _ _ He), bind_assoc. erewrite emits_bind by eauto with emits.
  rewrite (emits_bind _ _ _ _ Ha), !emit_emit, finish_report. unfold floats_text.
  by rewrite <- ?app_assoc.
Qed.

(** The report of a failure does not return. *)
Lemma report_not_within_no_return widen expected actual msg line where_ w :
  (report_not_within widen expected actual msg line where_ w).1 ≠ Ret ().
Proof.
  assert (∀ {A} (m : M A) (k : A → M ()), (∀ a w, (k a w).1 ≠ Ret ()) → ∀ w, ((m ≫= k) w).1 ≠ Ret ()) as Hb.
  { intros A m k Hk w'. unfold mbind, M_bind. destruct (m w') as [[a| | |] w'']; [apply Hk|done..]. }
  unfold report_not_within. do 5 (apply Hb; clear w; intros _ w). done.
Qed.

(** UnityAssertDoublesWithin and UnityAssertFloatsWithin pass exactly when the values are
    close; a failure shows both values, if UnityPrintFloat prints them. *)
Theorem UnityAssertDoublesWithin_correct delta expected actual msg line w :
  undecided w →
  (passes (UnityAssertDoublesWithin delta expected actual msg line) w ↔ close binary64 delta expected actual) ∧
  (passes (UnityAssertFloatsWithin delta expected actual msg line) w ↔ close binary32 delta expected actual) ∧
  (∀ te ta, emits (UnityPrintFloat expected) te → emits (UnityPrintFloat actual) ta →
   ¬ close binary64 delta expected actual →
   UnityAssertDoublesWithin delta expected actual msg line w = (Jump, report line (floats_text te ta) msg w)) ∧
  (∀ te ta, emits (UnityPrintFloat (to_double expected)) te → emits (UnityPrintFloat (to_double actual)) ta →
   ¬ close binary32 delta expected actual →
   UnityAssertFloatsWithin delta expected actual msg line w = (Jump, report line (floats_text te ta) msg w)).
Proof.
  intros Hw. rewrite <- !within_close. unfold UnityAssertDoublesWithin, UnityAssertFloatsWithin, passes.
  rewrite !RETURN_IF_FAIL_OR_IGNORE_bind, Hw.
  change (UNITY_FLOAT_OR_DOUBLE_WITHIN binary64) with UnityDoublesWithin.
  change (UNITY_FLOAT_OR_DOUBLE_WITHIN binary32) with UnityFloatsWithin.
  assert (∀ (ok : bool) widen, when (negb ok) (report_not_within widen expected actual msg line skip) w = (Ret (), w) ↔ ok = true) as Hp.
  { intros [] widen; [done|]. split; [|done]. intros E. cbn [negb when] in E.
    pose proof (report_not_within_no_return widen expected actual msg line skip w) as Hr. by rewrite E in Hr. }
  split_and!; [apply Hp..| |]; intros te ta He Ha; rewrite <- within_close;
    intros Hn%not_true_iff_false;
    change (UNITY_FLOAT_OR_DOUBLE_WITHIN binary64) with UnityDoublesWithin in Hn;
    change (UNITY_FLOAT_OR_DOUBLE_WITHIN binary32) with UnityFloatsWithin in Hn; rewrite Hn;
    exact (report_not_within_eq _ _ _ _ _ _ [] te ta w emits_skip He Ha).
Qed.

(** The trait a style asks for, or asks not to find. *)
Definition has_trait (x : spec_float) (style : UNITY_FLOAT_TRAIT_T) : Prop :=
  match style with
  | UNITY_FLOAT_IS_INF => x = S754_infinity false
  | UNITY_FLOAT_IS_NOT_INF => x ≠ S754_infinity false
  | UNITY_FLOAT_IS_NEG_INF => x = S754_infinity true
  | UNITY_FLOAT_IS_NOT_NEG_INF => x ≠ S754_infinity true
  | UNITY_FLOAT_IS_NAN => x = S754_nan
  | UNITY_FLOAT_IS_NOT_NAN => x ≠ S754_nan
  | UNITY_FLOAT_IS_DET => x ≠ S754_nan ∧ ∀ s, x ≠ S754_infinity s
  | UNITY_FLOAT_IS_NOT_DET => x = S754_nan ∨ ∃ s, x = S754_infinity s
  | UNITY_FLOAT_INVALID_TRAIT => False
  end.

Lemma is_trait_spec x style :
  Bool.eqb (is_trait x style) (Z.odd (trait_val style)) = true ↔ has_trait x style.
Proof.
  destruct style, x as [s|[]| |[] m e]; cbn; split; try done; try (by intros []);
    try (by intros _; eauto); try (by intros [E|[s' E]]); try (by intros [_ E]; destruct (E true));
    try (by intros [_ E]; destruct (E false)).
Qed.

Lemma assert_special_spec widen actual msg line style t :
  emits (UnityPrintFloat (widen actual)) t →
  asserts (assert_special widen actual msg line style) line msg
    (Bool.eqb (is_trait actual style) (Z.odd (trait_val style)))
    (UnityStrExpected ++ (if negb (Z.odd (trait_val style)) then UnityStrNot else []) ++
     trait_name style ++ UnityStrWas ++ t).
Proof.
  intros Ht w. unfold assert_special. rewrite RETURN_IF_FAIL_OR_IGNORE_bind.
  destruct (failed_or_ignored (Unity w)); [done|]. cbv zeta.
  destruct (Bool.eqb _ _); [done|]. unfold when at 1. cbn [negb].
  rewrite (bind_Ret _ _ _ _ _ (UnityTestResultsFailBegin_eq _ _)).
  do 2 (erewrite emits_bind by eauto with emits).
  rewrite (emits_bind _ (trait_name style)) by (destruct style; apply emits_print_literal; reflexivity).
  erewrite emits_bind by eauto with emits.
  rewrite (emits_bind _ _ _ _ Ht), !emit_emit, finish_report. by rewrite <- ?app_assoc.
Qed.

(** UnityAssertDoubleSpecial and UnityAssertFloatSpecial pass exactly when the value has the
    trait the style names (or lacks it, for the NOT styles), and an invalid style always fails. *)
Theorem UnityAssertDoubleSpecial_correct actual msg line style t t' w :
  undecided w → emits (UnityPrintFloat actual) t → emits (UnityPrintFloat (to_double actual)) t' →
  (passes (UnityAssertDoubleSpecial actual msg line style) w ↔ has_trait actual style) ∧
  (fails (UnityAssertDoubleSpecial actual msg line style) line w ↔ ¬ has_trait actual style) ∧
  (passes (UnityAssertFloatSpecial actual msg line style) w ↔ has_trait actual style) ∧
  (fails (UnityAssertFloatSpecial actual msg line style) line w ↔ ¬ has_trait actual style).
Proof.
  intros Hw Ht Ht'. rewrite <- is_trait_spec, not_true_iff_false.
  destruct (asserts_decides _ _ _ _ _ _
    (assert_special_spec (λ x, x) actual msg line style t Ht) Hw) as [Hd1 Hd2].
  destruct (asserts_decides _ _ _ _ _ _
    (assert_special_spec to_double actual msg line style t' Ht') Hw) as [Hf1 Hf2]. done.
Qed.
End float_specs.

(** ** Object representation *)

Lemma Zdigits_bounds p :
  2 ^ (Zpos (digits2_pos p) - 1) ≤ Zpos p < 2 ^ Zpos (digits2_pos p).
Proof.
  induction p as [p IH|p IH|]; cbn [digits2_pos]; [..|simpl; lia];
    rewrite Pos2Z.inj_succ, Z.sub_succ_l, Z.pow_succ_r by lia;
    rewrite Z.pow_succ_r in * by lia; lia.
Qed.

(** Floats and doubles survive memory: decoding the object representation of any valid
    value of the 32-bit and 64-bit formats, subnormals, infinities and zeros included, gives
    the value back (and a NaN for a NaN). *)
Theorem float_bits_roundtrip f x :
  f = binary32 ∨ f = binary64 → valid_binary (f_prec f) (f_emax f) x = true →
  float_of_bits f (bits_of_float f x) = x.
Proof.
  intros Hf Hx.
  assert (Hp : 1 < f_prec f ∧ 1 < f_emax f ∧ f_prec f < f_emax f) by (destruct Hf as [-> | ->]; simpl; lia).
  set (mw := f_prec f - 1). set (P := 2 ^ mw).
  assert (HP : 1 < P) by (subst P mw; destruct Hf as [-> | ->]; simpl; lia).
  assert (Hun : ∀ s e m, 0 ≤ e < 2 * f_emax f → 0 ≤ m < P →
    let b := (Z.b2z s * (2 * f_emax f) + e) * P + m in
    b mod P = m ∧ b / P mod (2 * f_emax f) = e ∧ Z.odd (b / (P * (2 * f_emax f))) = s).
  { intros s e m He Hm b. subst b.
    assert (Hq : ((Z.b2z s * (2 * f_emax f) + e) * P + m) / P = Z.b2z s * (2 * f_emax f) + e)
      by (rewrite Z.div_add_l, Z.div_small by lia; lia).
    split_and!.
    - rewrite Z.add_comm, Z_mod_plus_full, Z.mod_small; lia.
    - rewrite Hq, Z.add_comm, Z_mod_plus_full, Z.mod_small; lia.
    - rewrite <- Z.div_div, Hq by lia. rewrite Z.div_add_l, Z.div_small by lia.
      rewrite Z.add_0_r. by destruct s. }
  unfold float_of_bits, bits_of_float. fold mw P.
  destruct x as [s|s| |s m e].
  - destruct (Hun s 0 0) as (-> & -> & ->); [lia..|].
    rewrite (proj2 (Z.eqb_neq _ _)) by lia. done.
  - destruct (Hun s (2 * f_emax f - 1) 0) as (-> & -> & ->); [lia..|]. by rewrite Z.eqb_refl.
  - assert (HP2 : 0 < 2 ^ (mw - 1) < P).
    { subst P mw. destruct Hf as [-> | ->]; simpl; lia. }
    destruct (Hun false (2 * f_emax f - 1) (2 ^ (mw - 1))) as (-> & -> & ->); [lia..|].
    rewrite Z.eqb_refl, (proj2 (Z.eqb_neq _ 0)) by lia. done.
  - unfold valid_binary, bounded in Hx. apply andb_true_iff in Hx as [Hc He].
    unfold canonical_mantissa, fexp in Hc. apply Z.eqb_eq in Hc. apply Z.leb_le in He.
    pose proof (Zdigits_bounds m) as Hm. set (d := Zpos (digits2_pos m)) in *.
    set (em := emin (f_prec f) (f_emax f)) in *.
    assert (Hem : em = 3 - f_emax f - f_prec f) by done.
    assert (Hmono : ∀ a b, a ≤ b → 2 ^ a ≤ 2 ^ b) by (intros; apply Z.pow_le_mono_r; lia).
    destruct (Z.ltb_spec (Zpos m) P) as [Hsub|Hnorm].
    + assert (d ≤ mw).
      { apply Z.nlt_ge. intros Hlt. pose proof (Hmono mw (d - 1)). subst P. lia. }
      destruct (Hun s 0 (Zpos m)) as (-> & -> & ->); [lia..|].
      rewrite (proj2 (Z.eqb_neq _ _)) by lia. simpl. f_equal. lia.
    + assert (Hd : d = f_prec f).
      { assert (d ≤ f_prec f) by lia. enough (mw < d) by lia.
        apply Z.nle_gt. intros Hle. pose proof (Hmono d mw Hle). subst P. lia. }
      rewrite Hd in Hm. assert (HP2 : 2 ^ f_prec f = 2 * P).
      { subst P mw. rewrite <- Z.pow_succ_r by lia. f_equal. lia. }
      destruct (Hun s (e + 1 - em) (Zpos m - P)) as (-> & -> & ->); [lia..|].
      rewrite (proj2 (Z.eqb_neq _ _)), (proj2 (Z.eqb_neq _ 0)) by lia.
      replace (Zpos m - P + P) with (Zpos m) by lia. f_equal. lia.
Qed.

Lemma float_bits_roundtrip_witness :
  float_of_bits binary64 (bits_of_float binary64 (S754_finite true 1 (-1074)))
  = S754_finite true 1 (-1074).
Proof.
  apply (float_bits_roundtrip binary64 (S754_finite true 1 (-1074)));
    [by right | vm_compute; reflexivity].
Defined.

(** ** Arrays *)

Section float_arrays.
Context `{Target}.

Definition read_float (f : format) (m : gmap Z Z) (a : Z) : option spec_float :=
  float_of_bits f <$> read_uint m a (f_size f).
Fixpoint read_floats (f : format) (m : gmap Z Z) (a : Z) (n : nat) : option (list spec_float) :=
  match n with
  | O => Some []
  | S n => x ← read_float f m a; l ← read_floats f m (a + Z.of_nat (f_size f)) n; Some (x :: l)
  end.
Definition read_expected_floats (flags : UNITY_FLAGS_T) (f : format) (m : gmap Z Z) (a : Z)
    (n : nat) : option (list spec_float) :=
  if decide (flags = UNITY_ARRAY_TO_ARRAY) then read_floats f m a n
  else replicate n <$> read_float f m a.

Lemma load_float_bind {B} f a (k : spec_float → M B) x w :
  read_float f (mem w) a = Some x → (load_float f a ≫= k) w = k x w.
Proof.
  unfold read_float, load_float, load_uint. intros (u & Hu & ->)%fmap_Some.
  rewrite bind_assoc, bind_assoc, bind_get, Hu. done.
Qed.

Definition prints (x : spec_float) : Prop := ∃ t, emits (UnityPrintFloat x) t.

Lemma equal_float_array_loop_eq f precision widen num msg line flags : ∀ n pe pa es xs w,
  read_expected_floats flags f (mem w) pe n = Some es →
  read_floats f (mem w) pa n = Some xs →
  Forall (λ x, prints (widen x)) es → Forall (λ x, prints (widen x)) xs →
  let ok e x := UNITY_FLOAT_OR_DOUBLE_WITHIN f (SFmul (f_prec f) (f_emax f) e precision) e x in
  let m := equal_float_array_loop f precision widen num msg line flags n pe pa in
  (forallb (λ '(e, x), ok e x) (zip es xs) = true → m w = (Ret (), w)) ∧
  (forallb (λ '(e, x), ok e x) (zip es xs) = false → ∃ text, m w = (Jump, report line text msg w)).
Proof.
  induction n as [|n IH]; intros pe pa es xs w He Hx Hpe Hpx; cbv zeta.
  { simpl in Hx. simplify_eq. by rewrite zip_with_nil_r. }
  apply bind_Some in Hx as (x & Hx & (xs' & Hxs & [= <-])%bind_Some).
  assert (∃ e es', es = e :: es' ∧ read_float f (mem w) pe = Some e ∧
    read_expected_floats flags f (mem w) (if decide (flags = UNITY_ARRAY_TO_ARRAY)
      then pe + Z.of_nat (f_size f) else pe) n = Some es') as (e & es' & -> & He' & Hes).
  { unfold read_expected_floats in *. destruct (decide (flags = UNITY_ARRAY_TO_ARRAY)) as [Hf|Hf].
    - apply bind_Some in He as (e & He & (es' & Hes & [= <-])%bind_Some). eauto.
    - apply fmap_Some in He as (e & He & ->). exists e, (replicate n e). by rewrite He. }
  apply Forall_cons in Hpe as [[te Hte] Hpe]. apply Forall_cons in Hpx as [[tx Htx] Hpx].
  cbn [equal_float_array_loop]. rewrite (load_float_bind _ _ _ _ _ He'), (load_float_bind _ _ _ _ _ Hx).
  cbn [zip zip_with forallb].
  destruct (UNITY_FLOAT_OR_DOUBLE_WITHIN f (SFmul (f_prec f) (f_emax f) e precision) e x);
    cbn [andb negb].
  - destruct (IH _ (pa + Z.of_nat (f_size f)) es' xs' w Hes Hxs Hpe Hpx) as [IH1 IH2].
    unfold when. rewrite (emits_bind _ [] _ _ emits_skip), emit_nil. done.
  - split; [done|]. intros _. eexists. unfold when. apply bind_Jump.
    eapply report_not_within_eq; [|done..]. eauto with emits.
Qed.

Lemma float_array_verdict f precision widen num msg line flags expected actual es xs w
    (m : M unit) :
  m w = array_prologue expected actual false
          (equal_float_array_loop f precision widen num msg line flags (Z.to_nat num)
             expected actual w) line msg w →
  undecided w → expected ≠ 0 → actual ≠ 0 → expected ≠ actual →
  read_expected_floats flags f (mem w) expected (Z.to_nat num) = Some es →
  read_floats f (mem w) actual (Z.to_nat num) = Some xs →
  Forall (λ x, prints (widen x)) es → Forall (λ x, prints (widen x)) xs →
  let all_close := Forall (λ ex, close f (SFmul (f_prec f) (f_emax f) ex.1 precision) ex.1 ex.2)
                     (zip es xs) in
  (passes m w ↔ all_close) ∧ (fails m line w ↔ ¬ all_close).
Proof.
  intros Hm Hw Hne Hna Hn He Hx Hpe Hpx all_close.
  destruct (equal_float_array_loop_eq f precision widen num msg line flags _ _ _ _ _ _ He Hx Hpe Hpx)
    as [H1 H2]. cbv zeta in H1, H2.
  unfold passes, fails. rewrite Hm, array_prologue_compare by done.
  set (b := forallb _ _) in *.
  assert (Hb : b = true ↔ all_close).
  { subst b all_close. rewrite forallb_forall, Forall_forall.
    split; intros Hall [e x] Hin; specialize (Hall (e, x)); simpl in *; apply within_close, Hall;
      by apply list_elem_of_In. }
  destruct b.
  - rewrite (H1 eq_refl). split; [tauto|]. split; [by intros (? & ? & ?) | tauto].
  - destruct (H2 eq_refl) as [text ->]. rewrite <- Hb. split; [done|]. split; [done|]. eauto.
Qed.

(** UnityAssertEqualDoubleArray on readable arrays passes exactly when every element is
    close to its expected one with a delta of expected * UNITY_DOUBLE_PRECISION (1e-12), and
    otherwise fails the test. *)
Theorem UnityAssertEqualDoubleArray_correct expected actual num msg line flags es xs w :
  undecided w → expected ≠ 0 → actual ≠ 0 → expected ≠ actual → 0 < num →
  read_expected_floats flags binary64 (mem w) expected (Z.to_nat num) = Some es →
  read_floats binary64 (mem w) actual (Z.to_nat num) = Some xs →
  Forall prints es → Forall prints xs →
  let m := UnityAssertEqualDoubleArray expected actual num msg line flags in
  let all_close := Forall (λ ex, close binary64 (dmul ex.1 UNITY_DOUBLE_PRECISION) ex.1 ex.2)
                     (zip es xs) in
  (passes m w ↔ all_close) ∧ (fails m line w ↔ ¬ all_close).
Proof.
  intros Hw He Ha Hn Hnum Hes Hxs Hpe Hpx m.
  apply (float_array_verdict binary64 UNITY_DOUBLE_PRECISION (λ x, x) num msg line flags
    expected actual es xs w m); try done.
  unfold m, UnityAssertEqualDoubleArray. rewrite array_prologue_eq.
  by rewrite (proj2 (Z.eqb_neq num 0)) by lia.
Qed.

(** The same for floats, with UNITY_FLOAT_PRECISION (0.00001f). *)
Lemma UnityAssertEqualFloatArray_verdict expected actual num msg line flags es xs w :
  undecided w → expected ≠ 0 → actual ≠ 0 → expected ≠ actual → 0 < num →
  read_expected_floats flags binary32 (mem w) expected (Z.to_nat num) = Some es →
  read_floats binary32 (mem w) actual (Z.to_nat num) = Some xs →
  Forall (λ x, prints (to_double x)) es → Forall (λ x, prints (to_double x)) xs →
  let m := UnityAssertEqualFloatArray expected actual num msg line flags in
  let all_close := Forall (λ ex, close binary32 (SFmul 24 128 ex.1 UNITY_FLOAT_PRECISION) ex.1 ex.2)
                     (zip es xs) in
  (passes m w ↔ all_close) ∧ (fails m line w ↔ ¬ all_close).
Proof.
  intros Hw He Ha Hn Hnum Hes Hxs Hpe Hpx m.
  apply (float_array_verdict binary32 UNITY_FLOAT_PRECISION to_double num msg line flags
    expected actual es xs w m); try done.
  unfold m, UnityAssertEqualFloatArray. rewrite array_prologue_eq.
  by rewrite (proj2 (Z.eqb_neq num 0)) by lia.
Qed.
End float_arrays.

(** ** Witnesses *)

Section float_samples.
#[local] Existing Instance aarch64.

(** Printing a concrete number by evaluation, whatever was printed before. *)
Ltac prints_tac := intros ?; vm_compute; reflexivity.

Lemma UnityAssertDoublesWithin_correct_witness :
  UnityAssertDoublesWithin (of_int 2) (of_int 10) (of_int 13) None 7 initial_world
  = (Jump, report 7 (floats_text (str "10") (str "13")) None initial_world).
Proof.
  destruct (UnityAssertDoublesWithin_correct (of_int 2) (of_int 10) (of_int 13) None 7 initial_world)
    as (_ & _ & E & _); [vm_compute; reflexivity|].
  apply (E (str "10") (str "13")); [prints_tac..|]. intros (_ & _ & Hc). vm_compute in Hc. discriminate.
Defined.

Lemma UnityAssertDoubleSpecial_correct_witness :
  passes (UnityAssertDoubleSpecial (of_int 3) None 7 UNITY_FLOAT_IS_DET) initial_world.
Proof.
  refine (proj2 (proj1 (UnityAssertDoubleSpecial_correct (of_int 3) None 7 UNITY_FLOAT_IS_DET
    (str "3") (str "3") initial_world _ _ _)) _);
    [vm_compute; reflexivity | prints_tac | prints_tac | split; discriminate].
Defined.

(** Two arrays of doubles: 1.5, 100 and 1.5, 101. *)
Definition one_and_half : spec_float := ddiv (of_int 3) (of_int 2).
Definition double_bytes (x : spec_float) : list Z := le_split 8 (bits_of_float binary64 x).
Definition double_world : world :=
  set_mem (write_bytes (write_bytes ∅ 100 (double_bytes one_and_half ++ double_bytes (of_int 100)))
    200 (double_bytes one_and_half ++ double_bytes (of_int 101))) initial_world.

Lemma UnityAssertEqualDoubleArray_correct_witness :
  fails (UnityAssertEqualDoubleArray 100 200 2 None 7 UNITY_ARRAY_TO_ARRAY) 7 double_world.
Proof.
  refine (proj2 (proj2 (UnityAssertEqualDoubleArray_correct 100 200 2 None 7 UNITY_ARRAY_TO_ARRAY
    [one_and_half; of_int 100] [one_and_half; of_int 101] double_world _ _ _ _ _ _ _ _ _)) _);
    [vm_compute; reflexivity | lia | lia | lia | lia | vm_compute; reflexivity
    | vm_compute; reflexivity | | |].
  - apply Forall_cons; split; [exists (str "1.5"); prints_tac|].
    apply Forall_singleton. exists (str "100"). prints_tac.
  - apply Forall_cons; split; [exists (str "1.5"); prints_tac|].
    apply Forall_singleton. exists (str "101"). prints_tac.
  - intros Hall. apply Forall_cons in Hall as [_ Hall]. apply Forall_singleton in Hall as (_ & _ & Hc).
    vm_compute in Hc. discriminate.
Defined.

(** UnityPrintFloat on the extreme doubles: the smallest subnormal and the largest finite
    number print with nine significant digits, one tenth and a third as a reader expects,
    and negative infinity with its sign. *)
Theorem UnityPrintFloat_samples :
  emits (UnityPrintFloat (S754_finite false 1 (-1074))) (str "4.94065646e-324") ∧
  emits (UnityPrintFloat (SFmax_float 53 1024)) (str "1.79769313e+308") ∧
  emits (UnityPrintFloat (ddiv (of_int 1) (of_int 10))) (str "0.1") ∧
  emits (UnityPrintFloat (ddiv (of_int (-1)) (of_int 3))) (str "-0.333333333") ∧
  emits (UnityPrintFloat (S754_infinity true)) (str "-inf").
Proof. split_and!; prints_tac. Qed.
End float_samples.

(** ** Float assertions are test code *)

#[export] Typeclasses Opaque to_int32 scale_up find_factor scale_down find_divisor scale_int
  scale_number round_scaled print_digits print_exponent print_decimal print_magnitude
  UnityPrintFloat UNITY_PRINT_EXPECTED_AND_ACTUAL_FLOAT report_not_within UnityAssertFloatsWithin
  UnityAssertDoublesWithin load_float equal_float_array_loop UnityAssertEqualFloatArray
  UnityAssertEqualDoubleArray assert_special UnityAssertFloatSpecial UnityAssertDoubleSpecial
  UnityFloatToPtr UnityDoubleToPtr.

Section float_frame.
Context `{Target}.

#[export] Instance Quiet_to_int32 x : Quiet (to_int32 x).
Proof. unfold to_int32. apply _. Qed.
#[export] Instance Quiet_scale_up s : Quiet (scale_up s).
Proof. unfold scale_up. quiet_tac. Qed.
#[export] Instance Quiet_find_factor n s : Quiet (find_factor n s).
Proof. unfold find_factor. quiet_tac. Qed.
#[export] Instance Quiet_scale_down s : Quiet (scale_down s).
Proof. unfold scale_down. quiet_tac. Qed.
#[export] Instance Quiet_find_divisor n s : Quiet (find_divisor n s).
Proof. unfold find_divisor. quiet_tac. Qed.
#[export] Instance Quiet_scale_int s : Quiet (scale_int s).
Proof. unfold scale_int. quiet_tac. Qed.
#[export] Instance Quiet_scale_number x : Quiet (scale_number x).
Proof. unfold scale_number. quiet_tac. Qed.
#[export] Instance Quiet_round_scaled x n e : Quiet (round_scaled x n e).
Proof. unfold round_scaled. quiet_tac. Qed.
#[export] Instance Quiet_print_digits b d : Quiet (print_digits b d).
Proof. induction b; cbn [print_digits]; quiet_tac. Qed.
#[export] Instance Quiet_print_exponent e : Quiet (print_exponent e).
Proof. unfold print_exponent. quiet_tac. Qed.
#[export] Instance Quiet_print_decimal n e : Quiet (print_decimal n e).
Proof. unfold print_decimal. cbv zeta. quiet_tac. Qed.
#[export] Instance Quiet_print_magnitude x : Quiet (print_magnitude x).
Proof. unfold print_magnitude. quiet_tac. Qed.
#[export] Instance Quiet_PrintFloat x : Quiet (UnityPrintFloat x).
Proof. unfold UnityPrintFloat. quiet_tac. Qed.
#[export] Instance Quiet_print_floats e a : Quiet (UNITY_PRINT_EXPECTED_AND_ACTUAL_FLOAT e a).
Proof. unfold UNITY_PRINT_EXPECTED_AND_ACTUAL_FLOAT. quiet_tac. Qed.
#[export] Instance Quiet_load_float f a : Quiet (load_float f a).
Proof. unfold load_float. quiet_tac. Qed.
#[export] Instance Quiet_FloatToPtr x : Quiet (UnityFloatToPtr x).
Proof. unfold UnityFloatToPtr. quiet_tac. Qed.
#[export] Instance Quiet_DoubleToPtr x : Quiet (UnityDoubleToPtr x).
Proof. unfold UnityDoubleToPtr. quiet_tac. Qed.

#[export] Instance TestCode_FloatsWithin d e a msg l :
  TestCode (UnityAssertFloatsWithin d e a msg l).
Proof. apply TestCode_guard. unfold report_not_within. checks_tac. Qed.
#[export] Instance TestCode_DoublesWithin d e a msg l :
  TestCode (UnityAssertDoublesWithin d e a msg l).
Proof. apply TestCode_guard. unfold report_not_within. checks_tac. Qed.
#[export] Instance TestCode_FloatSpecial a msg l s : TestCode (UnityAssertFloatSpecial a msg l s).
Proof. apply TestCode_guard. cbv zeta. checks_tac. Qed.
#[export] Instance TestCode_DoubleSpecial a msg l s : TestCode (UnityAssertDoubleSpecial a msg l s).
Proof. apply TestCode_guard. cbv zeta. checks_tac. Qed.
Lemma Checks_equal_float_array_loop f p wd num msg l fl n e a :
  Checks (equal_float_array_loop f p wd num msg l fl n e a).
Proof.
  revert e a. induction n as [|n IH]; intros e a; cbn [equal_float_array_loop];
    unfold report_not_within; checks_tac; apply IH.
Qed.
#[local] Existing Instance Checks_equal_float_array_loop.
#[export] Instance TestCode_EqualFloatArray e a n msg l f :
  TestCode (UnityAssertEqualFloatArray e a n msg l f).
Proof. apply TestCode_guard. checks_tac; apply _. Qed.
#[export] Instance TestCode_EqualDoubleArray e a n msg l f :
  TestCode (UnityAssertEqualDoubleArray e a n msg l f).
Proof. apply TestCode_guard. checks_tac; apply _. Qed.
End float_frame.
