(* ===== verification/UnityFormatted.v ===== *)
(** * Formatted messages (src/unity/unity.c, UNITY_INCLUDE_PRINT_FORMATTED)

    UnityPrintFVA, the interpreter of the format strings of TEST_PRINTF, and
    UnityPrintF. The variable arguments are a list of typed values. *)

From Stdlib Require Import SpecFloat.
From S2P Require Import Prelude CMachine UnityOutput UnityAssert UnityAssertSpec.
From S2P Require Import UnityFixtureSpec UnityFloat.

(** One variable argument, after the default promotions. *)
Inductive va :=
  | va_int (z : Z)
  | va_unsigned (z : Z)
  | va_double (x : spec_float)
  | va_string (s : cstring).

(** va_arg(va, int): an unsigned argument may be read as int when its value is in both types. *)
Definition va_arg_int (args : list va) : M (Z * list va) :=
  match args with
  | va_int z :: args => mret (z, args)
  | va_unsigned z :: args => if z <? 2 ^ 31 then mret (z, args) else undefined
  | _ => undefined
  end.
Definition va_arg_unsigned (args : list va) : M (Z * list va) :=
  match args with
  | va_unsigned z :: args => mret (z, args)
  | va_int z :: args => if 0 <=? z then mret (z, args) else undefined
  | _ => undefined
  end.
Definition va_arg_double (args : list va) : M (spec_float * list va) :=
  match args with va_double x :: args => mret (x, args) | _ => undefined end.
Definition va_arg_string (args : list va) : M (cstring * list va) :=
  match args with va_string s :: args => mret (s, args) | _ => undefined end.

Section formatted.
Context `{Target}.

(** The byte at the address of an int object. *)
Definition first_byte (ch : Z) : Z := hd 0 (to_bytes 4 (u32 ch)).

(** The switch on the character after '%'; what is left of the arguments. *)
Definition print_conversion (pch : Z) (args : list va) : M (list va) :=
  if (pch =? chr "d") || (pch =? chr "i") then
    '(number, args) ← va_arg_int args; UnityPrintNumber number;; mret args
  else if (pch =? chr "f") || (pch =? chr "g") then
    '(number, args) ← va_arg_double args; UnityPrintFloat number;; mret args
  else if pch =? chr "u" then
    '(number, args) ← va_arg_unsigned args; UnityPrintNumberUnsigned number;; mret args
  else if pch =? chr "b" then
    '(number, args) ← va_arg_unsigned args;
    UNITY_OUTPUT_CHAR (chr "0");; UNITY_OUTPUT_CHAR (chr "b");;
    UnityPrintMask (u64 (0 - 1)) number;; mret args
  else if (pch =? chr "x") || (pch =? chr "X") || (pch =? chr "p") then
    '(number, args) ← va_arg_unsigned args;
    UNITY_OUTPUT_CHAR (chr "0");; UNITY_OUTPUT_CHAR (chr "x");;
    UnityPrintNumberHex number 8;; mret args
  else if pch =? chr "c" then
    '(ch, args) ← va_arg_int args; UnityPrintChar (first_byte ch);; mret args
  else if pch =? chr "s" then
    '(string, args) ← va_arg_string args; UnityPrint string;; mret args
  else if pch =? chr "%" then UnityPrintChar pch;; mret args
  else UNITY_OUTPUT_CHAR (chr "%");; UnityPrintChar pch;; mret args.

(** The loop over the format. After a '%' at the very end the loop steps over the terminator
    and goes on reading behind the string, which is undefined. *)
Fixpoint UnityPrintFVA (format : cstr) (args : list va) : M unit :=
  match format with
  | [] => skip
  | c :: format =>
      if c =? chr "%" then
        match format with
        | pch :: format => args ← print_conversion pch args; UnityPrintFVA format args
        | [] => print_conversion 0 args;; undefined
        end
      else
        (if c =? 10 then UNITY_PRINT_EOL else UnityPrintChar c);;
        UnityPrintFVA format args
  end.

Definition UnityPrintF (line : Z) (format : cstring) (args : list va) : M unit :=
  file ← get (TestFile ∘ Unity);
  UnityTestResultsBegin file line;;
  UnityPrint (Some (str "INFO"));;
  match format with
  | Some format => UnityPrint (Some (str ": "));; UnityPrintFVA format args
  | None => skip
  end;;
  UNITY_PRINT_EOL.
End formatted.

(** ** Specification: a message as a list of pieces *)

Inductive piece :=
  | Lit (c : Z)
  | NewLine
  | Percent
  | Signed (z : Z)
  | Unsigned (z : Z)
  | Hex (z : Z)
  | Binary (z : Z)
  | Text (s : cstring)
  | Float (x : spec_float) (text : list Z).

Definition piece_format (p : piece) : cstr :=
  match p with
  | Lit c => [c]
  | NewLine => [10]
  | Percent => str "%%"
  | Signed _ => str "%d"
  | Unsigned _ => str "%u"
  | Hex _ => str "%x"
  | Binary _ => str "%b"
  | Text _ => str "%s"
  | Float _ _ => str "%f"
  end.

Definition piece_args (p : piece) : list va :=
  match p with
  | Signed z => [va_int z]
  | Unsigned z | Hex z | Binary z => [va_unsigned z]
  | Text s => [va_string s]
  | Float x _ => [va_double x]
  | _ => []
  end.

Definition piece_text (p : piece) : list Z :=
  match p with
  | Lit c => escape c
  | NewLine => [10]
  | Percent => str "%"
  | Signed z => signed_decimal z
  | Unsigned z => decimal z
  | Hex z => str "0x" ++ hex 8 z
  | Binary z => str "0b" ++ mask_text 32 (u64 (-1)) z
  | Text s => cstring_text s
  | Float _ text => text
  end.

(** Values of the argument's type; a float with the text UnityPrintFloat gives it. *)
Definition piece_ok `{Target} (p : piece) : Prop :=
  match p with
  | Lit c => 0 < c < 256 ∧ c ≠ chr "%" ∧ c ≠ 10
  | Signed z => - 2 ^ 31 ≤ z < 2 ^ 31
  | Unsigned z | Hex z | Binary z => 0 ≤ z < 2 ^ 32
  | Float x text => emits (UnityPrintFloat x) text
  | _ => True
  end.

Section formatted_spec.
Context `{Target}.

Lemma print_piece p format args w :
  piece_ok p →
  UnityPrintFVA (piece_format p ++ format) (piece_args p ++ args) w
  = UnityPrintFVA format args (emit (piece_text p) w).
Proof.
  destruct p as [c| | |z|z|z|z|s|x text]; simpl piece_ok; intros Hp;
    cbn [piece_format piece_args piece_text].
  - destruct Hp as (Hc & Hne & Hnl). change ([c] ++ format) with (c :: format).
    cbn [UnityPrintFVA app]. rewrite (proj2 (Z.eqb_neq c _) Hne), (proj2 (Z.eqb_neq c 10) Hnl).
    by rewrite (emits_bind _ _ _ _ (emits_UnityPrintChar c)).
  - by change (([10] ++ format)) with (10 :: format).
  - transitivity ((args ← (UnityPrintChar (chr "%");; mret args); UnityPrintFVA format args) w);
      [done|]. rewrite bind_assoc, (emits_bind _ _ _ _ (emits_UnityPrintChar _)). done.
  - transitivity ((args ← (UnityPrintNumber z;; mret args); UnityPrintFVA format args) w); [done|].
    rewrite bind_assoc, (emits_bind _ _ _ _ (emits_UnityPrintNumber z ltac:(unfold int64; lia))). done.
  - transitivity ((args ← (UnityPrintNumberUnsigned z;; mret args); UnityPrintFVA format args) w);
      [done|].
    rewrite bind_assoc,
      (emits_bind _ _ _ _ (emits_UnityPrintNumberUnsigned z ltac:(unfold uint64; lia))). done.
  - transitivity ((args ← (UNITY_OUTPUT_CHAR (chr "0");; UNITY_OUTPUT_CHAR (chr "x");;
      UnityPrintNumberHex z 8;; mret args); UnityPrintFVA format args) w); [done|].
    rewrite !bind_assoc, (emits_bind _ _ _ _ (emits_char _)), bind_assoc,
      (emits_bind _ _ _ _ (emits_char _)), bind_assoc.
    rewrite (emits_bind _ _ _ _ (emits_UnityPrintNumberHex z 8 ltac:(lia) ltac:(lia))).
    by rewrite bind_mret, !emit_emit.
  - transitivity ((args ← (UNITY_OUTPUT_CHAR (chr "0");; UNITY_OUTPUT_CHAR (chr "b");;
      UnityPrintMask (u64 (0 - 1)) z;; mret args); UnityPrintFVA format args) w); [done|].
    rewrite !bind_assoc, (emits_bind _ _ _ _ (emits_char _)), bind_assoc,
      (emits_bind _ _ _ _ (emits_char _)), bind_assoc.
    rewrite (emits_bind _ _ _ _ (emits_UnityPrintMask _ _)). by rewrite bind_mret, !emit_emit.
  - transitivity ((args ← (UnityPrint s;; mret args); UnityPrintFVA format args) w); [done|].
    by rewrite bind_assoc, (emits_bind _ _ _ _ (emits_UnityPrint s)).
  - transitivity ((args ← (UnityPrintFloat x;; mret args); UnityPrintFVA format args) w); [done|].
    by rewrite bind_assoc, (emits_bind _ _ _ _ Hp).
Qed.

Lemma print_pieces ps : ∀ w, Forall piece_ok ps →
  UnityPrintFVA (concat (piece_format <$> ps)) (concat (piece_args <$> ps)) w
  = (Ret (), emit (concat (piece_text <$> ps)) w).
Proof.
  induction ps as [|p ps IH]; intros w Hps; [by rewrite emit_nil|].
  inversion_clear Hps as [|?? Hp Hps']. rewrite !fmap_cons. cbn [concat].
  rewrite print_piece, IH by done. by rewrite emit_emit.
Qed.

(** UnityPrintF prints what its format says: any sequence of literal characters, line
    breaks, percent signs and %d, %u, %x, %b, %s and %f conversions, with arguments of the
    matching types in order, prints the texts of the pieces in order after the header of the
    message, and uses exactly the arguments given. *)
Theorem UnityPrintF_prints line ps w :
  Forall piece_ok ps →
  UnityPrintF line (Some (concat (piece_format <$> ps))) (concat (piece_args <$> ps)) w
  = (Ret (), emit (begin_text (TestFile (Unity w)) line ++ str "INFO: " ++
                   concat (piece_text <$> ps) ++ [10]) w).
Proof.
  intros Hps. unfold UnityPrintF. rewrite bind_get.
  rewrite (emits_bind _ _ _ _ (emits_UnityTestResultsBegin _ _)).
  rewrite (emits_bind _ (str "INFO")) by by apply emits_print_literal.
  rewrite bind_assoc, (emits_bind _ (str ": ")) by by apply emits_print_literal.
  rewrite (bind_Ret _ _ _ _ _ (print_pieces ps _ Hps)), emits_EOL, !emit_emit.
  by rewrite <- ?app_assoc.
Qed.

(** %c prints the first byte of an int object: the character on a little-endian target,
    but the byte 0 for every character on a big-endian one. *)
Theorem UnityPrintFVA_char ch w :
  0 ≤ ch < 256 →
  UnityPrintFVA (str "%c") [va_int ch] w
  = (Ret (), emit (escape (if big_endian then 0 else ch)) w).
Proof.
  intros Hc. transitivity ((args ← (UnityPrintChar (first_byte ch);; mret []); UnityPrintFVA [] args) w);
    [done|]. rewrite bind_assoc, (emits_bind _ _ _ _ (emits_UnityPrintChar _)), bind_mret.
  assert (first_byte ch = if big_endian then 0 else ch) as ->; [|done].
  unfold first_byte, to_bytes, u32. rewrite uwrap_small by lia.
  assert (ch mod 256 = ch) as Hm by (apply Z.mod_small; lia).
  assert (ch / 256 = 0) as Hd by (apply Z.div_small; lia).
  cbn [le_split]. rewrite Hm, Hd. by destruct big_endian.
Qed.

(** A format that ends with a single percent sign makes UnityPrintFVA read behind the end
    of the format. *)
Theorem UnityPrintFVA_dangling_percent args w : (UnityPrintFVA (str "%") args w).1 = Undef.
Proof.
  transitivity (((UNITY_OUTPUT_CHAR (chr "%");; UnityPrintChar 0;; mret args);; @undefined unit) w).1;
    [done|].
  by rewrite !bind_assoc, (emits_bind _ _ _ _ (emits_char _)), bind_assoc,
    (emits_bind _ _ _ _ (emits_UnityPrintChar _)).
Qed.
End formatted_spec.

(** ** Witnesses *)

Section formatted_samples.
#[local] Existing Instance aarch64.

Lemma UnityPrintF_prints_witness :
  UnityPrintF 7 (Some (str "n=%d %x")) [va_int (-5); va_unsigned 255] initial_world
  = (Ret (), emit (str "ASSERTION :7:INFO: n=-5 0x000000FF" ++ [10]) initial_world).
Proof.
  refine (UnityPrintF_prints 7
    [Lit (chr "n"); Lit (chr "="); Signed (-5); Lit (chr " "); Hex 255] initial_world _).
  repeat constructor; simpl; lia || discriminate.
Defined.

Lemma UnityPrintFVA_char_witness :
  @UnityPrintFVA sparcv8leon (str "%c") [va_int 65] initial_world
  = (Ret (), emit (str "\x00") initial_world).
Proof. refine (@UnityPrintFVA_char sparcv8leon 65 initial_world _). lia. Defined.
End formatted_samples.
