(* ===== verification/UnityMacros.v ===== *)
(** * The assertion macros (src/unity/unity_internals.h, src/unity/unity.h)

    The typed macros test code is written with: a macro family over the
    integer types is one definition that takes the type as an argument.
    unity_internals.h narrows the operands and picks the display style;
    unity.h adds the line and the message. *)

From Stdlib Require Import SpecFloat.
From S2P Require Import Prelude CMachine UnityOutput UnityAssert UnityAssertSpec.
From S2P Require Import UnityAssertProps UnityFrame UnityFloat UnityFloatSpec.

(** The suffix of a macro: the type its operands are taken as. *)
Inductive num_type :=
  | INT | INT8 | INT16 | INT32 | INT64
  | UINT | UINT8 | UINT16 | UINT32 | UINT64
  | HEX8 | HEX16 | HEX32 | HEX64
  | CHAR.

#[export] Instance num_type_eq_dec : EqDecision num_type.
Proof. solve_decision. Defined.

(** unity.h writes size_t for UINT and HEX for HEX32. *)
Abbreviation size_t := UINT.
Abbreviation HEX := HEX32.

Definition style_of (t : num_type) : UNITY_DISPLAY_STYLE_T :=
  match t with
  | INT => UNITY_DISPLAY_STYLE_INT | INT8 => UNITY_DISPLAY_STYLE_INT8
  | INT16 => UNITY_DISPLAY_STYLE_INT16 | INT32 => UNITY_DISPLAY_STYLE_INT32
  | INT64 => UNITY_DISPLAY_STYLE_INT64
  | UINT => UNITY_DISPLAY_STYLE_UINT | UINT8 => UNITY_DISPLAY_STYLE_UINT8
  | UINT16 => UNITY_DISPLAY_STYLE_UINT16 | UINT32 => UNITY_DISPLAY_STYLE_UINT32
  | UINT64 => UNITY_DISPLAY_STYLE_UINT64
  | HEX8 => UNITY_DISPLAY_STYLE_HEX8 | HEX16 => UNITY_DISPLAY_STYLE_HEX16
  | HEX32 => UNITY_DISPLAY_STYLE_HEX32 | HEX64 => UNITY_DISPLAY_STYLE_HEX64
  | CHAR => UNITY_DISPLAY_STYLE_CHAR
  end.

(** The casts of the EQUAL macros: HEX operands are narrowed to signed types. *)
Definition cast_equal (t : num_type) (z : Z) : Z :=
  match t with
  | INT8 | HEX8 | CHAR => i8 z
  | INT16 | HEX16 => i16 z
  | INT32 | HEX32 => i32 z
  | UINT8 => u8 z
  | UINT16 => u16 z
  | UINT32 => u32 z
  | INT | UINT | INT64 | UINT64 | HEX64 => i64 z
  end.

(** The casts of the ordering and WITHIN macros: HEX operands are unsigned. *)
Definition cast_compare (t : num_type) (z : Z) : Z :=
  match t with
  | INT8 | CHAR => i8 z
  | INT16 => i16 z
  | INT32 => i32 z
  | UINT8 | HEX8 => u8 z
  | UINT16 | HEX16 => u16 z
  | UINT32 | HEX32 => u32 z
  | INT | UINT | INT64 | UINT64 | HEX64 => i64 z
  end.

(** The casts of delta. *)
Definition cast_delta (t : num_type) (z : Z) : Z :=
  match t with
  | INT8 | UINT8 | HEX8 | CHAR => u8 z
  | INT16 | UINT16 | HEX16 => u16 z
  | INT32 | UINT32 | HEX32 => u32 z
  | INT | UINT | INT64 | UINT64 | HEX64 => u64 z
  end.

(** The ARRAY_WITHIN macros cast delta the same way, but for UINT8. *)
Definition cast_array_delta (t : num_type) (z : Z) : Z :=
  match t with UINT8 => u16 z | _ => cast_delta t z end.

(** The size given to UnityNumToPtr: UNITY_INT_WIDTH / 8 for INT and UINT. *)
Definition each_size (t : num_type) : Z :=
  match t with
  | INT8 | UINT8 | HEX8 | CHAR => 1
  | INT16 | UINT16 | HEX16 => 2
  | INT | UINT => UNITY_INT_WIDTH / 8
  | INT32 | UINT32 | HEX32 => 4
  | INT64 | UINT64 | HEX64 => 8
  end.

Definition is_64 (t : num_type) : bool :=
  match t with INT64 | UINT64 | HEX64 => true | _ => false end.

Section macros.
Context `{Target}.

(** ** unity_internals.h *)

Definition UNITY_TEST_FAIL (line : Z) (message : cstring) : M unit := UnityFail message (u64 line).
Definition UNITY_TEST_IGNORE (line : Z) (message : cstring) : M unit :=
  UnityIgnore message (u64 line).

Definition UNITY_TEST_ASSERT_NULL (pointer line : Z) (message : cstring) : M unit :=
  UNITY_TEST_ASSERT (pointer =? 0) line message.
Definition UNITY_TEST_ASSERT_NOT_NULL (pointer line : Z) (message : cstring) : M unit :=
  UNITY_TEST_ASSERT (negb (pointer =? 0)) line message.
Definition UNITY_TEST_ASSERT_EMPTY (pointer line : Z) (message : cstring) : M unit :=
  c ← load_uint pointer 1; UNITY_TEST_ASSERT (c =? 0) line message.
Definition UNITY_TEST_ASSERT_NOT_EMPTY (pointer line : Z) (message : cstring) : M unit :=
  c ← load_uint pointer 1; UNITY_TEST_ASSERT (negb (c =? 0)) line message.

(** The macros of the section for 64-bit support take their operands as UNITY_INT. *)
Definition UNITY_TEST_ASSERT_EQUAL_64 (t : num_type) (expected actual line : Z)
    (message : cstring) : M unit :=
  UnityAssertEqualNumber (i64 expected) (i64 actual) message (u64 line) (style_of t).
Definition UNITY_TEST_ASSERT_EQUAL_ARRAY_64 (t : num_type) (expected actual num_elements line : Z)
    (message : cstring) : M unit :=
  UnityAssertEqualIntArray expected actual (u32 num_elements) message (u64 line) (style_of t)
    UNITY_ARRAY_TO_ARRAY.
Definition UNITY_TEST_ASSERT_EACH_EQUAL_64 (t : num_type) (expected actual num_elements line : Z)
    (message : cstring) : M unit :=
  p ← UnityNumToPtr (i64 expected) 8;
  UnityAssertEqualIntArray p actual (u32 num_elements) message (u64 line) (style_of t)
    UNITY_ARRAY_TO_VAL.
Definition UNITY_TEST_ASSERT_WITHIN_64 (t : num_type) (delta expected actual line : Z)
    (message : cstring) : M unit :=
  UnityAssertNumbersWithin (u64 delta) (i64 expected) (i64 actual) message (u64 line) (style_of t).
Definition UNITY_TEST_ASSERT_COMPARE_64 (c : UNITY_COMPARISON_T) (t : num_type)
    (threshold actual line : Z) (message : cstring) : M unit :=
  UnityAssertGreaterOrLessOrEqualNumber (i64 threshold) (i64 actual) c message (u64 line)
    (style_of t).
Definition UNITY_TEST_ASSERT_ARRAY_WITHIN_64 (t : num_type)
    (delta expected actual num_elements line : Z) (message : cstring) : M unit :=
  UnityAssertNumbersArrayWithin (u64 delta) expected actual (u32 num_elements) message (u64 line)
    (style_of t) UNITY_ARRAY_TO_ARRAY.

(** UNITY_TEST_ASSERT_EQUAL_<t> *)
Definition UNITY_TEST_ASSERT_EQUAL (t : num_type) (expected actual line : Z) (message : cstring) :
    M unit :=
  if is_64 t then UNITY_TEST_ASSERT_EQUAL_64 t expected actual line message
  else UnityAssertEqualNumber (cast_equal t expected) (cast_equal t actual) message (u64 line)
         (style_of t).
Definition UNITY_TEST_ASSERT_BITS (mask expected actual line : Z) (message : cstring) : M unit :=
  UnityAssertBits (i64 mask) (i64 expected) (i64 actual) message (u64 line).

(** UNITY_TEST_ASSERT_NOT_EQUAL_<t>, _GREATER_THAN_<t>, _SMALLER_THAN_<t>,
    _GREATER_OR_EQUAL_<t> and _SMALLER_OR_EQUAL_<t> *)
Definition UNITY_TEST_ASSERT_COMPARE (c : UNITY_COMPARISON_T) (t : num_type)
    (threshold actual line : Z) (message : cstring) : M unit :=
  if is_64 t then UNITY_TEST_ASSERT_COMPARE_64 c t threshold actual line message
  else UnityAssertGreaterOrLessOrEqualNumber (cast_compare t threshold) (cast_compare t actual) c
         message (u64 line) (style_of t).

(** UNITY_TEST_ASSERT_<t>_WITHIN *)
Definition UNITY_TEST_ASSERT_WITHIN (t : num_type) (delta expected actual line : Z)
    (message : cstring) : M unit :=
  if is_64 t then UNITY_TEST_ASSERT_WITHIN_64 t delta expected actual line message
  else UnityAssertNumbersWithin (cast_delta t delta) (cast_compare t expected)
         (cast_compare t actual) message (u64 line) (style_of t).

(** UNITY_TEST_ASSERT_<t>_ARRAY_WITHIN *)
Definition UNITY_TEST_ASSERT_ARRAY_WITHIN (t : num_type)
    (delta expected actual num_elements line : Z) (message : cstring) : M unit :=
  if is_64 t then
    UNITY_TEST_ASSERT_ARRAY_WITHIN_64 t delta expected actual num_elements line message
  else UnityAssertNumbersArrayWithin (cast_array_delta t delta) expected actual (u32 num_elements)
         message (u64 line) (style_of t) UNITY_ARRAY_TO_ARRAY.

(** UNITY_DISPLAY_STYLE_POINTER and the cast UNITY_PTR_TO_INT *)
Definition UNITY_DISPLAY_STYLE_POINTER : UNITY_DISPLAY_STYLE_T :=
  if Nat.eqb pointer_bytes 4 then UNITY_DISPLAY_STYLE_HEX32
  else if Nat.eqb pointer_bytes 8 then UNITY_DISPLAY_STYLE_HEX64
  else UNITY_DISPLAY_STYLE_HEX16.
Definition UNITY_PTR_TO_INT (p : Z) : Z := swrap (8 * Z.of_nat pointer_bytes) p.

Definition UNITY_TEST_ASSERT_EQUAL_PTR (expected actual line : Z) (message : cstring) : M unit :=
  UnityAssertEqualNumber (UNITY_PTR_TO_INT expected) (UNITY_PTR_TO_INT actual) message (u64 line)
    UNITY_DISPLAY_STYLE_POINTER.

Definition UNITY_TEST_ASSERT_EQUAL_STRING (expected actual : cstring) (line : Z)
    (message : cstring) : M unit :=
  UnityAssertEqualString expected actual message (u64 line).
Definition UNITY_TEST_ASSERT_EQUAL_STRING_LEN (expected actual : cstring) (len line : Z)
    (message : cstring) : M unit :=
  UnityAssertEqualStringLen expected actual (u32 len) message (u64 line).
Definition UNITY_TEST_ASSERT_EQUAL_MEMORY (expected actual len line : Z) (message : cstring) :
    M unit :=
  UnityAssertEqualMemory expected actual (u32 len) 1 message (u64 line) UNITY_ARRAY_TO_ARRAY.

(** UNITY_TEST_ASSERT_EQUAL_<t>_ARRAY and the arrays of pointers, strings and blocks *)
Definition UNITY_TEST_ASSERT_EQUAL_ARRAY (t : num_type) (expected actual num_elements line : Z)
    (message : cstring) : M unit :=
  if is_64 t then UNITY_TEST_ASSERT_EQUAL_ARRAY_64 t expected actual num_elements line message
  else UnityAssertEqualIntArray expected actual (u32 num_elements) message (u64 line) (style_of t)
         UNITY_ARRAY_TO_ARRAY.
Definition UNITY_TEST_ASSERT_EQUAL_PTR_ARRAY (expected actual num_elements line : Z)
    (message : cstring) : M unit :=
  UnityAssertEqualIntArray expected actual (u32 num_elements) message (u64 line)
    UNITY_DISPLAY_STYLE_POINTER UNITY_ARRAY_TO_ARRAY.
Definition UNITY_TEST_ASSERT_EQUAL_STRING_ARRAY (expected actual num_elements line : Z)
    (message : cstring) : M unit :=
  UnityAssertEqualStringArray expected actual (u32 num_elements) message (u64 line)
    UNITY_ARRAY_TO_ARRAY.
Definition UNITY_TEST_ASSERT_EQUAL_MEMORY_ARRAY (expected actual len num_elements line : Z)
    (message : cstring) : M unit :=
  UnityAssertEqualMemory expected actual (u32 len) (u32 num_elements) message (u64 line)
    UNITY_ARRAY_TO_ARRAY.

(** UNITY_TEST_ASSERT_EACH_EQUAL_<t>: every element compared with one value *)
Definition UNITY_TEST_ASSERT_EACH_EQUAL (t : num_type) (expected actual num_elements line : Z)
    (message : cstring) : M unit :=
  if is_64 t then UNITY_TEST_ASSERT_EACH_EQUAL_64 t expected actual num_elements line message
  else
    p ← UnityNumToPtr (cast_equal t expected) (each_size t);
    UnityAssertEqualIntArray p actual (u32 num_elements) message (u64 line) (style_of t)
      UNITY_ARRAY_TO_VAL.
Definition UNITY_TEST_ASSERT_EACH_EQUAL_PTR (expected actual num_elements line : Z)
    (message : cstring) : M unit :=
  p ← UnityNumToPtr (UNITY_PTR_TO_INT expected) (Z.of_nat pointer_bytes);
  UnityAssertEqualIntArray p actual (u32 num_elements) message (u64 line)
    UNITY_DISPLAY_STYLE_POINTER UNITY_ARRAY_TO_VAL.
Definition UNITY_TEST_ASSERT_EACH_EQUAL_STRING (expected actual num_elements line : Z)
    (message : cstring) : M unit :=
  UnityAssertEqualStringArray expected actual (u32 num_elements) message (u64 line)
    UNITY_ARRAY_TO_VAL.
Definition UNITY_TEST_ASSERT_EACH_EQUAL_MEMORY (expected actual len num_elements line : Z)
    (message : cstring) : M unit :=
  UnityAssertEqualMemory expected actual (u32 len) (u32 num_elements) message (u64 line)
    UNITY_ARRAY_TO_VAL.

(** The macros on floats and doubles. *)
Inductive float_assertion :=
  | F_WITHIN (delta expected actual : spec_float)
  | F_EQUAL (expected actual : spec_float)
  | F_EQUAL_ARRAY (expected actual num_elements : Z)
  | F_EACH_EQUAL (expected : spec_float) (actual num_elements : Z)
  | F_SPECIAL (actual : spec_float) (style : UNITY_FLOAT_TRAIT_T).

Definition UNITY_TEST_ASSERT_FLOAT (x : float_assertion) (line : Z) (message : cstring) : M unit :=
  match x with
  | F_WITHIN delta expected actual =>
      UnityAssertFloatsWithin delta expected actual message (u64 line)
  | F_EQUAL expected actual =>
      UnityAssertFloatsWithin (SFmul 24 128 expected UNITY_FLOAT_PRECISION) expected actual
        message (u64 line)
  | F_EQUAL_ARRAY expected actual num_elements =>
      UnityAssertEqualFloatArray expected actual (u32 num_elements) message (u64 line)
        UNITY_ARRAY_TO_ARRAY
  | F_EACH_EQUAL expected actual num_elements =>
      p ← UnityFloatToPtr expected;
      UnityAssertEqualFloatArray p actual (u32 num_elements) message (u64 line) UNITY_ARRAY_TO_VAL
  | F_SPECIAL actual style => UnityAssertFloatSpecial actual message (u64 line) style
  end.

Definition UNITY_TEST_ASSERT_DOUBLE (x : float_assertion) (line : Z) (message : cstring) : M unit :=
  match x with
  | F_WITHIN delta expected actual =>
      UnityAssertDoublesWithin delta expected actual message (u64 line)
  | F_EQUAL expected actual =>
      UnityAssertDoublesWithin (dmul expected UNITY_DOUBLE_PRECISION) expected actual
        message (u64 line)
  | F_EQUAL_ARRAY expected actual num_elements =>
      UnityAssertEqualDoubleArray expected actual (u32 num_elements) message (u64 line)
        UNITY_ARRAY_TO_ARRAY
  | F_EACH_EQUAL expected actual num_elements =>
      p ← UnityDoubleToPtr expected;
      UnityAssertEqualDoubleArray p actual (u32 num_elements) message (u64 line) UNITY_ARRAY_TO_VAL
  | F_SPECIAL actual style => UnityAssertDoubleSpecial actual message (u64 line) style
  end.

(** ** unity.h: without a message *)

Definition TEST_FAIL_MESSAGE (message : cstring) (line : Z) : M unit := UNITY_TEST_FAIL line message.
Definition TEST_FAIL (line : Z) : M unit := UNITY_TEST_FAIL line None.
Definition TEST_IGNORE_MESSAGE (message : cstring) (line : Z) : M unit :=
  UNITY_TEST_IGNORE line message.
Definition TEST_IGNORE (line : Z) : M unit := UNITY_TEST_IGNORE line None.
Definition TEST_MESSAGE (message : cstring) (line : Z) : M unit := UnityMessage message (u64 line).
Definition TEST_PASS : M unit := TEST_ABORT.
Definition TEST_PASS_MESSAGE (message : cstring) (line : Z) : M unit :=
  UnityMessage message (u64 line);; TEST_ABORT.

(** The Boolean macros. *)
Inductive bool_assertion :=
  | B_ASSERT (condition : bool) | B_TRUE (condition : bool)
  | B_UNLESS (condition : bool) | B_FALSE (condition : bool)
  | B_NULL (pointer : Z) | B_NOT_NULL (pointer : Z)
  | B_EMPTY (pointer : Z) | B_NOT_EMPTY (pointer : Z).

Definition TEST_ASSERT_bool_MESSAGE (x : bool_assertion) (line : Z) (message : cstring) : M unit :=
  match x with
  | B_ASSERT c | B_TRUE c => UNITY_TEST_ASSERT c line message
  | B_UNLESS c | B_FALSE c => UNITY_TEST_ASSERT (negb c) line message
  | B_NULL p => UNITY_TEST_ASSERT_NULL p line message
  | B_NOT_NULL p => UNITY_TEST_ASSERT_NOT_NULL p line message
  | B_EMPTY p => UNITY_TEST_ASSERT_EMPTY p line message
  | B_NOT_EMPTY p => UNITY_TEST_ASSERT_NOT_EMPTY p line message
  end.
Definition TEST_ASSERT_bool (x : bool_assertion) (line : Z) : M unit :=
  TEST_ASSERT_bool_MESSAGE x line (Some (str match x with
    | B_ASSERT _ => " Expression Evaluated To FALSE"
    | B_TRUE _ => " Expected TRUE Was FALSE"
    | B_UNLESS _ => " Expression Evaluated To TRUE"
    | B_FALSE _ => " Expected FALSE Was TRUE"
    | B_NULL _ => " Expected NULL"
    | B_NOT_NULL _ => " Expected Non-NULL"
    | B_EMPTY _ => " Expected Empty"
    | B_NOT_EMPTY _ => " Expected Non-Empty"
    end)).

Definition TEST_ASSERT_EQUAL (t : num_type) (expected actual line : Z) : M unit :=
  UNITY_TEST_ASSERT_EQUAL t expected actual line None.

(** [1 << bit] in an unsigned type of [width] bits; a shift out of the type is undefined. *)
Definition shift_one (width bit : Z) : M Z :=
  if (0 <=? bit) && (bit <? width) then mret (uwrap width (Z.shiftl 1 bit)) else undefined.

(** The bit macros. *)
Inductive bits_assertion :=
  | BITS (mask expected actual : Z) | BITS_HIGH (mask actual : Z) | BITS_LOW (mask actual : Z)
  | BIT_HIGH (bit actual : Z) | BIT_LOW (bit actual : Z).
Definition TEST_ASSERT_bits (x : bits_assertion) (line : Z) : M unit :=
  match x with
  | BITS mask expected actual => UNITY_TEST_ASSERT_BITS mask expected actual line None
  | BITS_HIGH mask actual => UNITY_TEST_ASSERT_BITS mask (u64 (-1)) actual line None
  | BITS_LOW mask actual => UNITY_TEST_ASSERT_BITS mask 0 actual line None
  | BIT_HIGH bit actual =>
      mask ← shift_one 64 bit; UNITY_TEST_ASSERT_BITS mask (u64 (-1)) actual line None
  | BIT_LOW bit actual => mask ← shift_one 64 bit; UNITY_TEST_ASSERT_BITS mask 0 actual line None
  end.

(** TEST_ASSERT_NOT_EQUAL_<t>, _GREATER_THAN_<t>, _LESS_THAN_<t>, _GREATER_OR_EQUAL_<t> and
    _LESS_OR_EQUAL_<t>; without a type, INT. *)
Definition TEST_ASSERT_COMPARE (c : UNITY_COMPARISON_T) (t : num_type) (threshold actual line : Z) :
    M unit := UNITY_TEST_ASSERT_COMPARE c t threshold actual line None.
Definition TEST_ASSERT_WITHIN (t : num_type) (delta expected actual line : Z) : M unit :=
  UNITY_TEST_ASSERT_WITHIN t delta expected actual line None.
Definition TEST_ASSERT_ARRAY_WITHIN (t : num_type) (delta expected actual num_elements line : Z) :
    M unit := UNITY_TEST_ASSERT_ARRAY_WITHIN t delta expected actual num_elements line None.
Definition TEST_ASSERT_EQUAL_PTR (expected actual line : Z) : M unit :=
  UNITY_TEST_ASSERT_EQUAL_PTR expected actual line None.
Definition TEST_ASSERT_EQUAL_STRING (expected actual : cstring) (line : Z) : M unit :=
  UNITY_TEST_ASSERT_EQUAL_STRING expected actual line None.
Definition TEST_ASSERT_EQUAL_STRING_LEN (expected actual : cstring) (len line : Z) : M unit :=
  UNITY_TEST_ASSERT_EQUAL_STRING_LEN expected actual len line None.
Definition TEST_ASSERT_EQUAL_MEMORY (expected actual len line : Z) : M unit :=
  UNITY_TEST_ASSERT_EQUAL_MEMORY expected actual len line None.

(** The array macros of unity.h, against an array or against one value. *)
Inductive array_assertion :=
  | A_NUM (t : num_type) (expected actual num_elements : Z)
  | A_PTR (expected actual num_elements : Z)
  | A_STRING (expected actual num_elements : Z)
  | A_MEMORY (expected actual len num_elements : Z).
Definition TEST_ASSERT_EQUAL_ARRAY_MESSAGE (x : array_assertion) (line : Z) (message : cstring) :
    M unit :=
  match x with
  | A_NUM t e a n => UNITY_TEST_ASSERT_EQUAL_ARRAY t e a n line message
  | A_PTR e a n => UNITY_TEST_ASSERT_EQUAL_PTR_ARRAY e a n line message
  | A_STRING e a n => UNITY_TEST_ASSERT_EQUAL_STRING_ARRAY e a n line message
  | A_MEMORY e a len n => UNITY_TEST_ASSERT_EQUAL_MEMORY_ARRAY e a len n line message
  end.
Definition TEST_ASSERT_EACH_EQUAL_MESSAGE (x : array_assertion) (line : Z) (message : cstring) :
    M unit :=
  match x with
  | A_NUM t e a n => UNITY_TEST_ASSERT_EACH_EQUAL t e a n line message
  | A_PTR e a n => UNITY_TEST_ASSERT_EACH_EQUAL_PTR e a n line message
  | A_STRING e a n => UNITY_TEST_ASSERT_EACH_EQUAL_STRING e a n line message
  | A_MEMORY e a len n => UNITY_TEST_ASSERT_EACH_EQUAL_MEMORY e a len n line message
  end.
Definition TEST_ASSERT_EQUAL_ARRAY (x : array_assertion) (line : Z) : M unit :=
  TEST_ASSERT_EQUAL_ARRAY_MESSAGE x line None.
Definition TEST_ASSERT_EACH_EQUAL (x : array_assertion) (line : Z) : M unit :=
  TEST_ASSERT_EACH_EQUAL_MESSAGE x line None.
Definition TEST_ASSERT_FLOAT (x : float_assertion) (line : Z) : M unit :=
  UNITY_TEST_ASSERT_FLOAT x line None.
Definition TEST_ASSERT_DOUBLE (x : float_assertion) (line : Z) : M unit :=
  UNITY_TEST_ASSERT_DOUBLE x line None.

(** ** unity.h: with a message *)

Definition TEST_ASSERT_EQUAL_MESSAGE (t : num_type) (expected actual line : Z) (message : cstring) :
    M unit := UNITY_TEST_ASSERT_EQUAL t expected actual line message.
(** Unlike TEST_ASSERT_BITS_HIGH and TEST_ASSERT_BIT_HIGH, these use UNITY_UINT32. *)
Definition TEST_ASSERT_bits_MESSAGE (x : bits_assertion) (line : Z) (message : cstring) : M unit :=
  match x with
  | BITS mask expected actual => UNITY_TEST_ASSERT_BITS mask expected actual line message
  | BITS_HIGH mask actual => UNITY_TEST_ASSERT_BITS mask (u32 (-1)) actual line message
  | BITS_LOW mask actual => UNITY_TEST_ASSERT_BITS mask 0 actual line message
  | BIT_HIGH bit actual =>
      mask ← shift_one 32 bit; UNITY_TEST_ASSERT_BITS mask (u32 (-1)) actual line message
  | BIT_LOW bit actual => mask ← shift_one 32 bit; UNITY_TEST_ASSERT_BITS mask 0 actual line message
  end.
Definition TEST_ASSERT_COMPARE_MESSAGE (c : UNITY_COMPARISON_T) (t : num_type)
    (threshold actual line : Z) (message : cstring) : M unit :=
  UNITY_TEST_ASSERT_COMPARE c t threshold actual line message.
Definition TEST_ASSERT_WITHIN_MESSAGE (t : num_type) (delta expected actual line : Z)
    (message : cstring) : M unit :=
  UNITY_TEST_ASSERT_WITHIN t delta expected actual line message.
Definition TEST_ASSERT_ARRAY_WITHIN_MESSAGE (t : num_type)
    (delta expected actual num_elements line : Z) (message : cstring) : M unit :=
  UNITY_TEST_ASSERT_ARRAY_WITHIN t delta expected actual num_elements line message.
Definition TEST_ASSERT_EQUAL_PTR_MESSAGE (expected actual line : Z) (message : cstring) : M unit :=
  UNITY_TEST_ASSERT_EQUAL_PTR expected actual line message.
Definition TEST_ASSERT_EQUAL_STRING_MESSAGE (expected actual : cstring) (line : Z)
    (message : cstring) : M unit := UNITY_TEST_ASSERT_EQUAL_STRING expected actual line message.
Definition TEST_ASSERT_EQUAL_STRING_LEN_MESSAGE (expected actual : cstring) (len line : Z)
    (message : cstring) : M unit :=
  UNITY_TEST_ASSERT_EQUAL_STRING_LEN expected actual len line message.
Definition TEST_ASSERT_EQUAL_MEMORY_MESSAGE (expected actual len line : Z) (message : cstring) :
    M unit := UNITY_TEST_ASSERT_EQUAL_MEMORY expected actual len line message.
Definition TEST_ASSERT_FLOAT_MESSAGE (x : float_assertion) (line : Z) (message : cstring) : M unit :=
  UNITY_TEST_ASSERT_FLOAT x line message.
Definition TEST_ASSERT_DOUBLE_MESSAGE (x : float_assertion) (line : Z) (message : cstring) :
    M unit := UNITY_TEST_ASSERT_DOUBLE x line message.
End macros.

(** ** What the typed macros decide *)

Definition width (t : num_type) : Z :=
  match t with
  | INT8 | UINT8 | HEX8 | CHAR => 8
  | INT16 | UINT16 | HEX16 => 16
  | INT32 | UINT32 | HEX32 => 32
  | INT | UINT | INT64 | UINT64 | HEX64 => 64
  end.
Definition is_signed (t : num_type) : bool :=
  match t with INT | INT8 | INT16 | INT32 | INT64 | CHAR => true | _ => false end.

(** An operand as a value of the macro's type. *)
Definition typed (t : num_type) (z : Z) : Z :=
  if is_signed t then swrap (width t) z else uwrap (width t) z.

Lemma int64_uwrap w z : 0 < w < 64 → int64 (uwrap w z).
Proof.
  intros Hw. pose proof (uwrap_range w z ltac:(lia)).
  assert (2 ^ w ≤ 2 ^ 63) by (apply Z.pow_le_mono_r; lia). unfold int64. lia.
Qed.

Lemma cast_equal_int64 t z : int64 (cast_equal t z).
Proof. destruct t; (apply int64_swrap; lia) || (apply int64_uwrap; lia). Qed.
Lemma cast_compare_int64 t z : int64 (cast_compare t z).
Proof. destruct t; (apply int64_swrap; lia) || (apply int64_uwrap; lia). Qed.

Lemma cast_equal_eq t e a :
  cast_equal t e = cast_equal t a ↔ uwrap (width t) e = uwrap (width t) a.
Proof. destruct t; try done; apply swrap_eq_iff; simpl; lia. Qed.

(** The number the comparison functions see behind a cast operand. *)
Lemma compared_value t z :
  (if style_is_int (style_of t) then cast_compare t z else u64 (cast_compare t z)) = typed t z.
Proof.
  assert (Hu : ∀ w, 0 < w < 64 → u64 (uwrap w z) = uwrap w z).
  { intros w Hw. pose proof (uwrap_range w z ltac:(lia)). unfold u64. apply uwrap_small.
    assert (2 ^ w ≤ 2 ^ 64) by (apply Z.pow_le_mono_r; lia). lia. }
  destruct t; try done; try (apply Hu; lia); apply uwrap_swrap; lia.
Qed.

Lemma UNITY_TEST_ASSERT_EQUAL_eq `{Target} t e a line msg :
  UNITY_TEST_ASSERT_EQUAL t e a line msg
  = UnityAssertEqualNumber (cast_equal t e) (cast_equal t a) msg (u64 line) (style_of t).
Proof. by destruct t. Qed.
Lemma UNITY_TEST_ASSERT_COMPARE_eq `{Target} c t e a line msg :
  UNITY_TEST_ASSERT_COMPARE c t e a line msg
  = UnityAssertGreaterOrLessOrEqualNumber (cast_compare t e) (cast_compare t a) c msg (u64 line)
      (style_of t).
Proof. by destruct t. Qed.
Lemma UNITY_TEST_ASSERT_WITHIN_eq `{Target} t d e a line msg :
  UNITY_TEST_ASSERT_WITHIN t d e a line msg
  = UnityAssertNumbersWithin (cast_delta t d) (cast_compare t e) (cast_compare t a) msg (u64 line)
      (style_of t).
Proof. by destruct t. Qed.

Section macro_props.
Context `{Target}.

(** C32: TEST_ASSERT_EQUAL_<type> passes exactly when the operands are equal as values of the
    macro's type, that is modulo two to the type's width, for signed, unsigned, hexadecimal and
    char types alike, and otherwise fails the test at the assertion's line. *)
Theorem TEST_ASSERT_EQUAL_correct t expected actual line w :
  undecided w →
  (passes (TEST_ASSERT_EQUAL t expected actual line) w ↔
   expected mod 2 ^ width t = actual mod 2 ^ width t) ∧
  (fails (TEST_ASSERT_EQUAL t expected actual line) (u64 line) w ↔
   expected mod 2 ^ width t ≠ actual mod 2 ^ width t).
Proof.
  intros Hw. unfold TEST_ASSERT_EQUAL. rewrite UNITY_TEST_ASSERT_EQUAL_eq.
  change (?z mod 2 ^ width t) with (uwrap (width t) z). rewrite <- cast_equal_eq.
  destruct (asserts_decides _ _ _ _ _ _ (UnityAssertEqualNumber_spec _ _ None (u64 line)
    (style_of t) (cast_equal_int64 t expected) (cast_equal_int64 t actual)) Hw) as [-> ->].
  by rewrite Z.eqb_eq, Z.eqb_neq.
Qed.

(** The ordering macros compare the operands as values of the macro's type: signed for the
    INT types and CHAR, unsigned for the UINT and HEX types. *)
Theorem TEST_ASSERT_COMPARE_correct c t threshold actual line w :
  undecided w →
  let x : Z := typed t actual in
  let y : Z := typed t threshold in
  let holds : Prop := match c with
    | UNITY_GREATER_THAN => y < x
    | UNITY_GREATER_OR_EQUAL => y ≤ x
    | UNITY_SMALLER_THAN => x < y
    | UNITY_SMALLER_OR_EQUAL => x ≤ y
    | UNITY_NOT_EQUAL => x ≠ y
    | UNITY_EQUAL_TO | UNITY_UNKNOWN => True
    end in
  (passes (TEST_ASSERT_COMPARE c t threshold actual line) w ↔ holds) ∧
  (fails (TEST_ASSERT_COMPARE c t threshold actual line) (u64 line) w ↔ ¬ holds).
Proof.
  intros Hw x y holds. unfold TEST_ASSERT_COMPARE. rewrite UNITY_TEST_ASSERT_COMPARE_eq.
  destruct (asserts_decides _ _ _ _ _ _ (UnityAssertGreaterOrLessOrEqualNumber_spec _ _ c None
    (u64 line) (style_of t) (cast_compare_int64 t threshold) (cast_compare_int64 t actual)) Hw)
    as [-> ->].
  assert (E : compare_ok c (style_of t) (cast_compare t threshold) (cast_compare t actual) = true
    ↔ holds).
  { unfold compare_ok. rewrite !compared_value. fold x y. subst holds.
    destruct c; cbn beta zeta iota; try done;
      rewrite ?Z.gtb_ltb, ?Z.geb_leb, ?negb_true_iff, ?Z.ltb_lt, ?Z.leb_le, ?Z.eqb_neq; lia. }
  rewrite E, <- not_true_iff_false. tauto.
Qed.

(** TEST_ASSERT_<type>_WITHIN passes exactly when the operands, as values of the macro's
    type, differ by at most delta, for every delta of the unsigned type. *)
Theorem TEST_ASSERT_WITHIN_correct t delta expected actual line w :
  undecided w → 0 ≤ delta < 2 ^ width t →
  (passes (TEST_ASSERT_WITHIN t delta expected actual line) w ↔
   Z.abs (typed t actual - typed t expected) ≤ delta) ∧
  (fails (TEST_ASSERT_WITHIN t delta expected actual line) (u64 line) w ↔
   delta < Z.abs (typed t actual - typed t expected)).
Proof.
  intros Hw Hd. unfold TEST_ASSERT_WITHIN. rewrite UNITY_TEST_ASSERT_WITHIN_eq.
  destruct (asserts_decides _ _ _ _ _ _ (UnityAssertNumbersWithin_spec (cast_delta t delta) _ _ None
    (u64 line) (style_of t) (cast_compare_int64 t expected) (cast_compare_int64 t actual)) Hw)
    as [-> ->].
  assert (cast_delta t delta = delta) as -> by (destruct t; apply uwrap_small; simpl in *; lia).
  unfold within. rewrite !compared_value, Z.leb_le, Z.leb_gt. done.
Qed.

(** ** Arrays against one value *)

Lemma UnityNumToPtr_eq num size w :
  UnityNumToPtr num size w =
  (Ret addr_UnityQuickCompare,
   set_mem (write_bytes (mem w) addr_UnityQuickCompare
     (to_bytes (num_size size) (uwrap (8 * Z.of_nat (num_size size)) num))) w).
Proof. unfold UnityNumToPtr, num_size. by repeat case_match. Qed.

Lemma read_ints_write_out m a l b size n :
  b + Z.of_nat (n * size) ≤ a ∨ a + Z.of_nat (length l) ≤ b →
  read_ints (write_bytes m a l) b size n = read_ints m b size n.
Proof.
  revert b. induction n as [|n IH]; intros b Hb; cbn [read_ints]; [done|].
  unfold read_int, read_uint. rewrite read_bytes_write_out, IH by lia. done.
Qed.

Definition elem_size (t : num_type) : nat := Z.to_nat (elem_length (style_of t)).

Lemma each_size_elem t : num_size (each_size t) = elem_size t.
Proof. by destruct t. Qed.

Lemma swrap_swrap w v z : 0 < w ≤ v → swrap w (swrap v z) = swrap w z.
Proof.
  intros Hw. apply swrap_eq_iff; [lia|]. unfold uwrap.
  replace (2 ^ v) with (2 ^ w * 2 ^ (v - w)) by (rewrite <- Z.pow_add_r by lia; f_equal; lia).
  rewrite <- (Z.mod_mod_divide (swrap v z) (2 ^ w * 2 ^ (v - w)) (2 ^ w))
    by by apply Z.divide_factor_l.
  rewrite <- (Z.mod_mod_divide z (2 ^ w * 2 ^ (v - w)) (2 ^ w)) by by apply Z.divide_factor_l.
  f_equal. rewrite <- Z.pow_add_r by lia. replace (w + (v - w)) with v by lia.
  apply (uwrap_swrap v z). lia.
Qed.

Lemma stored_value t z :
  swrap (8 * Z.of_nat (elem_size t)) (cast_equal t z) = swrap (8 * Z.of_nat (elem_size t)) z.
Proof. destruct t; (apply swrap_swrap; by vm_compute) || apply swrap_uwrap. Qed.

Lemma UNITY_TEST_ASSERT_EACH_EQUAL_eq t e a n line msg w :
  UNITY_TEST_ASSERT_EACH_EQUAL t e a n line msg w =
  (p ← UnityNumToPtr (cast_equal t e) (each_size t);
   UnityAssertEqualIntArray p a (u32 n) msg (u64 line) (style_of t) UNITY_ARRAY_TO_VAL) w.
Proof. by destruct t. Qed.

Lemma first_bad_replicate n v xs :
  length xs = n → first_bad Z.eqb 0 (replicate n v) xs = None ↔ Forall (λ x, x = v) xs.
Proof.
  intros Hl. rewrite first_bad_None by by rewrite length_replicate. subst n. split.
  - intros Hf. remember (replicate (length xs) v) as r eqn:Er. revert Er.
    induction Hf as [|e x es xs E _ IH]; intros Er; [done|]. injection Er as -> Er.
    apply Z.eqb_eq in E. constructor; [done | by apply IH].
  - induction 1 as [|x xs -> _ IH]; constructor; [apply Z.eqb_refl | done].
Qed.

(** TEST_ASSERT_EACH_EQUAL_<type> passes exactly when every element of the array, read at
    the type's size, is the expected value narrowed to that size, and otherwise fails the test;
    the only memory it touches is the framework's comparison buffer. *)
Theorem TEST_ASSERT_EACH_EQUAL_correct t expected actual num line msg xs w :
  undecided w → 0 < num < 2 ^ 32 → actual ≠ 0 → addr_UnityQuickCompare ≠ 0 →
  actual + num * Z.of_nat (elem_size t) ≤ addr_UnityQuickCompare ∨
    addr_UnityQuickCompare + 8 ≤ actual →
  read_ints (mem w) actual (elem_size t) (Z.to_nat num) = Some xs →
  let v := swrap (8 * Z.of_nat (elem_size t)) expected in
  ∃ bytes,
    let w' := set_mem (write_bytes (mem w) addr_UnityQuickCompare bytes) w in
    length bytes = elem_size t ∧
    (Forall (λ x, x = v) xs →
     TEST_ASSERT_EACH_EQUAL_MESSAGE (A_NUM t expected actual num) line msg w = (Ret (), w')) ∧
    (¬ Forall (λ x, x = v) xs → ∃ text,
     TEST_ASSERT_EACH_EQUAL_MESSAGE (A_NUM t expected actual num) line msg w
     = (Jump, report (u64 line) text msg w')).
Proof.
  intros Hw Hnum Ha Hq Hdis Hxs v. cbn [TEST_ASSERT_EACH_EQUAL_MESSAGE].
  rewrite UNITY_TEST_ASSERT_EACH_EQUAL_eq, (bind_Ret _ _ _ _ _ (UnityNumToPtr_eq _ _ _)).
  rewrite each_size_elem. set (bytes := to_bytes _ _). exists bytes. cbv zeta.
  assert (Hlb : length bytes = elem_size t) by apply length_to_bytes.
  assert (Hel : (1 ≤ elem_size t ≤ 8)%nat) by (destruct t; vm_compute; lia).
  set (w' := set_mem _ _). split; [done|].
  assert (Hread : read_ints (mem w') actual (elem_size t) (Z.to_nat num) = Some xs).
  { simpl. rewrite read_ints_write_out; [done|]. rewrite Hlb. nia. }
  assert (Hexp : read_expected UNITY_ARRAY_TO_VAL (mem w') addr_UnityQuickCompare (elem_size t)
                   (Z.to_nat num) = Some (replicate (Z.to_nat num) v)).
  { unfold read_expected. case_decide; [done|]. unfold read_int. simpl mem.
    unfold bytes. rewrite read_uint_store by (apply uwrap_range; lia). simpl fmap.
    by rewrite swrap_uwrap, stored_value. }
  assert (Hu : u32 num = num) by (apply uwrap_small; lia). rewrite Hu.
  rewrite (UnityAssertEqualIntArray_spec _ _ num _ _ _ _ _ _ _ ltac:(lia) Hexp Hread).
  rewrite (proj2 (Z.eqb_neq num 0)), array_prologue_compare by (done || lia).
  pose proof (first_bad_replicate _ v xs (length_read_ints _ _ _ _ _ Hread)) as Hb.
  unfold array_outcome. destruct (first_bad _ _ _ _) as [[[i e] x]|].
  - split; [intros Hall; by apply Hb in Hall | eauto].
  - split; [done|]. intros Hn. by destruct Hn, Hb; auto.
Qed.

(** TEST_ASSERT_UINT8_ARRAY_WITHIN reads its bytes as signed: two arrays of one byte, 127
    and 128, are not accepted within a delta of 1. *)
Theorem UINT8_ARRAY_WITHIN_sign_extends w :
  undecided w → mem w !! 100 = Some 127 → mem w !! 200 = Some 128 →
  fails (TEST_ASSERT_ARRAY_WITHIN UINT8 1 100 200 1 7) 7 w ∧
  passes (TEST_ASSERT_WITHIN UINT8 1 127 128 7) w.
Proof.
  intros Hw He Ha. split.
  - assert (Hes : read_expected UNITY_ARRAY_TO_ARRAY (mem w) 100 1 1 = Some [127]).
    { unfold read_expected, read_ints, read_int, read_uint. simpl. rewrite He. simpl.
      unfold of_bytes. by destruct big_endian. }
    assert (Hxs : read_ints (mem w) 200 1 1 = Some [-128]).
    { unfold read_ints, read_int, read_uint. simpl. rewrite Ha. simpl.
      unfold of_bytes. by destruct big_endian. }
    eexists _, _.
    transitivity (UnityAssertNumbersArrayWithin 1 100 200 1 None 7 UNITY_DISPLAY_STYLE_UINT8
                    UNITY_ARRAY_TO_ARRAY w); [done|].
    rewrite (UnityAssertNumbersArrayWithin_spec 1 100 200 1 None 7 UNITY_DISPLAY_STYLE_UINT8
      UNITY_ARRAY_TO_ARRAY [127] [-128] w ltac:(lia) Hes Hxs).
    rewrite array_prologue_compare by done. reflexivity.
  - unfold passes, TEST_ASSERT_WITHIN. rewrite UNITY_TEST_ASSERT_WITHIN_eq.
    pose proof (UnityAssertNumbersWithin_spec (cast_delta UINT8 1) _ _ None (u64 7)
      (style_of UINT8) (cast_compare_int64 UINT8 127) (cast_compare_int64 UINT8 128) w) as Hs.
    unfold undecided in Hw. rewrite Hw in Hs. exact Hs.
Qed.

(** TEST_ASSERT_BITS_HIGH and TEST_ASSERT_BITS_HIGH_MESSAGE disagree on bits above 31: with
    the mask of bit 32, an actual value that has the bit set passes the first and fails the
    second, whose all-ones constant is 32 bits wide. *)
Theorem BITS_HIGH_MESSAGE_truncates msg w :
  undecided w →
  passes (TEST_ASSERT_bits (BITS_HIGH (2 ^ 32) (2 ^ 32)) 7) w ∧
  fails (TEST_ASSERT_bits_MESSAGE (BITS_HIGH (2 ^ 32) (2 ^ 32)) 7 msg) 7 w.
Proof.
  intros Hw. unfold undecided in Hw. split.
  - pose proof (UnityAssertBits_spec (i64 (2 ^ 32)) (i64 (u64 (-1))) (i64 (2 ^ 32)) None (u64 7) w)
      as Hs. rewrite Hw in Hs. exact Hs.
  - pose proof (UnityAssertBits_spec (i64 (2 ^ 32)) (i64 (u32 (-1))) (i64 (2 ^ 32)) msg (u64 7) w)
      as Hs. rewrite Hw in Hs. eexists _, _. exact Hs.
Qed.
End macro_props.

(** ** Macros are test code *)

Section macro_frame.
Context `{Target}.

#[export] Instance TestCode_abort {A} : TestCode (@TEST_ABORT A).
Proof. apply TestCode_quiet, Quiet_abort. Qed.

#[export] Instance TestCode_TEST_ASSERT_EQUAL t e a l : TestCode (TEST_ASSERT_EQUAL t e a l).
Proof. unfold TEST_ASSERT_EQUAL. rewrite UNITY_TEST_ASSERT_EQUAL_eq. apply _. Qed.
#[export] Instance TestCode_TEST_ASSERT_EQUAL_MESSAGE t e a l m :
  TestCode (TEST_ASSERT_EQUAL_MESSAGE t e a l m).
Proof. unfold TEST_ASSERT_EQUAL_MESSAGE. rewrite UNITY_TEST_ASSERT_EQUAL_eq. apply _. Qed.
#[export] Instance TestCode_TEST_ASSERT_COMPARE c t e a l : TestCode (TEST_ASSERT_COMPARE c t e a l).
Proof. unfold TEST_ASSERT_COMPARE. rewrite UNITY_TEST_ASSERT_COMPARE_eq. apply _. Qed.
#[export] Instance TestCode_TEST_ASSERT_WITHIN t d e a l : TestCode (TEST_ASSERT_WITHIN t d e a l).
Proof. unfold TEST_ASSERT_WITHIN. rewrite UNITY_TEST_ASSERT_WITHIN_eq. apply _. Qed.
#[export] Instance TestCode_TEST_ASSERT_bool x l : TestCode (TEST_ASSERT_bool x l).
Proof.
  unfold TEST_ASSERT_bool. destruct x; cbn [TEST_ASSERT_bool_MESSAGE];
    unfold UNITY_TEST_ASSERT_NULL, UNITY_TEST_ASSERT_NOT_NULL, UNITY_TEST_ASSERT_EMPTY,
      UNITY_TEST_ASSERT_NOT_EMPTY; apply _.
Qed.
#[export] Instance TestCode_TEST_ASSERT_EQUAL_STRING e a l : TestCode (TEST_ASSERT_EQUAL_STRING e a l).
Proof. unfold TEST_ASSERT_EQUAL_STRING, UNITY_TEST_ASSERT_EQUAL_STRING. apply _. Qed.
#[export] Instance TestCode_TEST_FAIL l : TestCode (TEST_FAIL l).
Proof. unfold TEST_FAIL, UNITY_TEST_FAIL. apply _. Qed.
#[export] Instance TestCode_TEST_IGNORE l : TestCode (TEST_IGNORE l).
Proof. unfold TEST_IGNORE, UNITY_TEST_IGNORE. apply _. Qed.
End macro_frame.

(** ** Witnesses *)

Section macro_samples.
#[local] Existing Instance aarch64.

Lemma TEST_ASSERT_EQUAL_correct_witness :
  passes (TEST_ASSERT_EQUAL HEX8 255 (-1) 7) initial_world.
Proof. by apply (TEST_ASSERT_EQUAL_correct HEX8 255 (-1) 7 initial_world). Defined.

Lemma TEST_ASSERT_COMPARE_correct_witness :
  passes (TEST_ASSERT_COMPARE UNITY_GREATER_THAN UINT8 127 128 7) initial_world.
Proof.
  refine (proj2 (proj1 (TEST_ASSERT_COMPARE_correct UNITY_GREATER_THAN UINT8 127 128 7
    initial_world _)) _); vm_compute; reflexivity.
Defined.

Lemma TEST_ASSERT_WITHIN_correct_witness :
  fails (TEST_ASSERT_WITHIN INT8 254 (-128) 127 7) 7 initial_world.
Proof.
  refine (proj2 (proj2 (TEST_ASSERT_WITHIN_correct INT8 254 (-128) 127 7 initial_world _ _)) _);
    [vm_compute; reflexivity | simpl; lia | vm_compute; reflexivity].
Defined.

(** The array 100 of sample_world holds the 16-bit values 1, 2, -1. *)
Lemma TEST_ASSERT_EACH_EQUAL_correct_witness :
  ∃ w' text, TEST_ASSERT_EACH_EQUAL_MESSAGE (A_NUM INT16 1 100 3) 7 None sample_world
             = (Jump, report 7 text None w').
Proof.
  destruct (TEST_ASSERT_EACH_EQUAL_correct INT16 1 100 3 7 None [1; 2; -1] sample_world)
    as (bytes & _ & _ & Hf);
    [vm_compute; reflexivity | lia | lia | vm_compute; discriminate
    | left; vm_compute; discriminate | vm_compute; reflexivity |].
  destruct Hf as [text E].
  - intros Hall. apply Forall_cons in Hall as [_ Hall]. apply Forall_cons in Hall as [Hx _].
    vm_compute in Hx. discriminate.
  - exact (ex_intro _ _ (ex_intro _ text E)).
Defined.

Lemma UINT8_ARRAY_WITHIN_sign_extends_witness :
  fails (TEST_ASSERT_ARRAY_WITHIN UINT8 1 100 200 1 7) 7
    (set_mem (<[100 := 127]> (<[200 := 128]> ∅)) initial_world).
Proof.
  refine (proj1 (UINT8_ARRAY_WITHIN_sign_extends
    (set_mem (<[100 := 127]> (<[200 := 128]> ∅)) initial_world) _ _ _));
    vm_compute; reflexivity.
Defined.

Lemma BITS_HIGH_MESSAGE_truncates_witness :
  fails (TEST_ASSERT_bits_MESSAGE (BITS_HIGH (2 ^ 32) (2 ^ 32)) 7 None) 7 initial_world.
Proof. refine (proj2 (BITS_HIGH_MESSAGE_truncates None initial_world _)). vm_compute. reflexivity. Defined.
End macro_samples.
