(* ===== verification/TestVerdict.v ===== *)
(** * Verdicts of test bodies

    A test body built from Unity's assertion macros passes without changing
    anything when all its conditions hold, and otherwise leaves by longjmp
    with the test marked as failed. The lemmas here compute the condition of
    a body from the conditions of its assertions. *)

From S2P Require Import Prelude CMachine UnityOutput UnityAssert UnityAssertSpec.
From S2P Require Import UnityAssertProps UnityMacros.

Section verdicts.
Context `{Target}.

(** [verdict m ok]: in a test that is still undecided, [m] passes if [ok]
    holds and fails the test otherwise. *)
Definition verdict (m : M unit) (ok : bool) : Prop := ∀ w, undecided w →
  if ok then passes m w else ∃ w', m w = (Jump, w') ∧ CurrentTestFailed (Unity w') = 1.

Lemma verdict_passes m ok w : verdict m ok → undecided w → passes m w ↔ ok = true.
Proof.
  intros Hm Hw. specialize (Hm w Hw). unfold passes in *. destruct ok; [done|].
  destruct Hm as (w' & -> & _). split; [by intros [=]|done].
Qed.

Lemma verdict_skip : verdict skip true.
Proof. done. Qed.

Lemma verdict_seq m k a b : verdict m a → verdict k b → verdict (m;; k) (a && b).
Proof.
  intros Hm Hk w Hw. specialize (Hm w Hw). specialize (Hk w Hw). destruct a; cbn [andb].
  - unfold passes in *. rewrite (bind_Ret _ _ _ _ _ Hm). by destruct b.
  - destruct Hm as (w' & E & ?). exists w'. split; [by apply bind_Jump|done].
Qed.

Lemma verdict_asserts m line msg ok text : asserts m line msg ok text → verdict m ok.
Proof.
  intros Ha w Hw. specialize (Ha w). unfold undecided in Hw. rewrite Hw in Ha. unfold passes.
  rewrite Ha. destruct ok; [done|]. eexists. split; [done|]. apply report_failed.
Qed.

Lemma verdict_EQUAL_MESSAGE t e a line msg :
  verdict (TEST_ASSERT_EQUAL_MESSAGE t e a line msg) (uwrap (width t) e =? uwrap (width t) a).
Proof.
  unfold TEST_ASSERT_EQUAL_MESSAGE. rewrite UNITY_TEST_ASSERT_EQUAL_eq.
  replace (_ =? _) with (cast_equal t e =? cast_equal t a).
  - eapply verdict_asserts, UnityAssertEqualNumber_spec; apply cast_equal_int64.
  - apply eq_bool_prop_intro. rewrite !Is_true_true, !Z.eqb_eq. apply cast_equal_eq.
Qed.

Lemma verdict_EQUAL t e a line :
  verdict (TEST_ASSERT_EQUAL t e a line) (uwrap (width t) e =? uwrap (width t) a).
Proof. apply (verdict_EQUAL_MESSAGE t e a line None). Qed.

Lemma verdict_TEST_ASSERT c line msg : verdict (UNITY_TEST_ASSERT c line msg) c.
Proof.
  intros w Hw. unfold UNITY_TEST_ASSERT. destruct c; [done|].
  rewrite UnityFail_eq by done. eexists. split; [done|]. done.
Qed.

Lemma verdict_ASSERT_MESSAGE c line msg :
  verdict (TEST_ASSERT_bool_MESSAGE (B_ASSERT c) line msg) c.
Proof. apply verdict_TEST_ASSERT. Qed.

Lemma verdict_TRUE_MESSAGE c line msg : verdict (TEST_ASSERT_bool_MESSAGE (B_TRUE c) line msg) c.
Proof. apply verdict_TEST_ASSERT. Qed.

Lemma verdict_FALSE_MESSAGE c line msg :
  verdict (TEST_ASSERT_bool_MESSAGE (B_FALSE c) line msg) (negb c).
Proof. apply verdict_TEST_ASSERT. Qed.

Lemma verdict_when b m ok : verdict m ok → verdict (when b m) (negb b || ok).
Proof. intros Hm. destruct b; [done|apply verdict_skip]. Qed.
End verdicts.

Create HintDb verdict discriminated.
#[export] Hint Constants Opaque : verdict.
#[export] Hint Resolve verdict_skip verdict_seq verdict_EQUAL_MESSAGE verdict_EQUAL
  verdict_ASSERT_MESSAGE verdict_TRUE_MESSAGE verdict_FALSE_MESSAGE verdict_when : verdict.

(** Closes a [verdict] goal up to the shape of the condition. *)
Ltac verdict_tac :=
  match goal with
  | |- verdict ?m ?c =>
      let Hv := fresh in
      eassert (Hv : verdict m _) by (eauto 50 with verdict);
      let e := fresh in
      enough (e : c = _) by (rewrite e; exact Hv);
      clear Hv
  end.
