(* ===== verification/ProfTrace.v ===== *)
(** * The kernel trace parser of perf/test_prof_sampling.c

    The profiling test records a kernel trace, reads it channel by channel
    (prof_drain) and walks the binary event stream of every channel
    (prof_evSize, prof_urecEnd, prof_parse and the loops of the tests
    idle_volume and kernel_entry_attributed). The streams come from outside
    the program, so every read of them is partial here: [None] is a read
    outside the channel's bytes. *)

From S2P Require Import Prelude CMachine UnityOutput UnityAssert UnityAssertSpec.
From S2P Require Import UnityMacros.

(** ** Data *)

(** A pointer into a channel is the list of bytes from it to the end of the
    channel; [size_t] values are [nat]s, as no channel comes near the width
    of the type. *)
Definition PROF_FN_SPAN : Z := 256.
Definition PROF_MIN_SAMPLES : Z := 50.
Definition PROF_NCHANS_MAX : nat := 64.
Definition PROF_HOLD_MS : Z := 300.
Definition PROF_IDLE_BUDGET : Z := Z.shiftl 2 20.

Definition EV_SAMPLE : Z := 64.
Definition EV_WAIT : Z := 65.
Definition EV_WAKEUP : Z := 66.
Definition EV_SEND : Z := 67.
Definition EV_RECV : Z := 68.
Definition EV_RESPOND : Z := 69.
Definition EV_STATS : Z := 70.

Definition SAMPLE_MODE : nat := 2.
Definition SAMPLE_SYSCALL : nat := 20.
Definition SAMPLE_ECLASS : nat := 22.
Definition SAMPLE_NK : nat := 31.
Definition SAMPLE_KFRAMES : nat := 32.

Definition WAIT_FLAGS : nat := 2.
Definition WAIT_BLOCKED : nat := 11.
Definition WAIT_SYSCALL : nat := 15.
Definition WAIT_ARGS : nat := 17.
Definition WAIT_NK : nat := 49.
Definition WAIT_KFRAMES : nat := 50.

(** The members of prof_common the parser and the drain use; [chanLen] is the
    length of the channel's list. *)
Record prof_common_t := mkProf {
  port : Z;
  busyTid : Z;
  clientTid : Z;
  serverTid : Z;
  kernelTid : Z;
  sendErr : Z;
  chan : list (list Z);
  nchans : nat;
}.

Definition set_chan (l : list (list Z)) (g : prof_common_t) : prof_common_t :=
  mkProf (port g) (busyTid g) (clientTid g) (serverTid g) (kernelTid g) (sendErr g) l (nchans g).

Record prof_result_t := mkResult {
  busySamples : Z; busyInLoop : Z;
  sendFound : bool; recvFound : bool; waitFound : bool; wakeFound : bool;
  r_mid : Z; sendTs : Z; wakeTs : Z; waitBlocked : Z;
  waitFlags : Z;
  waitSyscall : Z;
  waitArg0 : Z; waitLr : Z;
  recvTid : Z; waker : Z; wakeCause : Z;
}.

(** The result after memset. *)
Definition zero_result : prof_result_t :=
  mkResult 0 0 false false false false 0 0 0 0 0 0 0 0 0 0 0.

(** The assignments of the branches of prof_parse. *)
Definition with_send (mid ts : Z) (r : prof_result_t) : prof_result_t :=
  mkResult (busySamples r) (busyInLoop r) true (recvFound r) (waitFound r) (wakeFound r)
    mid ts (wakeTs r) (waitBlocked r) (waitFlags r) (waitSyscall r) (waitArg0 r) (waitLr r)
    (recvTid r) (waker r) (wakeCause r).
Definition with_sample (inLoop : bool) (r : prof_result_t) : prof_result_t :=
  mkResult (u32 (busySamples r + 1)) (if inLoop then u32 (busyInLoop r + 1) else busyInLoop r)
    (sendFound r) (recvFound r) (waitFound r) (wakeFound r)
    (r_mid r) (sendTs r) (wakeTs r) (waitBlocked r) (waitFlags r) (waitSyscall r) (waitArg0 r)
    (waitLr r) (recvTid r) (waker r) (wakeCause r).
Definition with_recv (tid : Z) (r : prof_result_t) : prof_result_t :=
  mkResult (busySamples r) (busyInLoop r) (sendFound r) true (waitFound r) (wakeFound r)
    (r_mid r) (sendTs r) (wakeTs r) (waitBlocked r) (waitFlags r) (waitSyscall r) (waitArg0 r)
    (waitLr r) tid (waker r) (wakeCause r).
Definition with_wait (flags blocked sc arg0 lr : Z) (r : prof_result_t) : prof_result_t :=
  mkResult (busySamples r) (busyInLoop r) (sendFound r) (recvFound r) true (wakeFound r)
    (r_mid r) (sendTs r) (wakeTs r) blocked flags sc arg0 lr
    (recvTid r) (waker r) (wakeCause r).
Definition with_wake (ts by_tid cause : Z) (r : prof_result_t) : prof_result_t :=
  mkResult (busySamples r) (busyInLoop r) (sendFound r) (recvFound r) (waitFound r) true
    (r_mid r) (sendTs r) ts (waitBlocked r) (waitFlags r) (waitSyscall r) (waitArg0 r)
    (waitLr r) (recvTid r) by_tid cause.

(** ** Reading little-endian fields *)

Definition rd16 (p : list Z) (o : nat) : option Z :=
  p0 ← p !! o; p1 ← p !! (o + 1)%nat;
  Some (u16 (Z.lor p0 (Z.shiftl p1 8))).

Definition rd32 (p : list Z) (o : nat) : option Z :=
  p0 ← p !! o; p1 ← p !! (o + 1)%nat; p2 ← p !! (o + 2)%nat; p3 ← p !! (o + 3)%nat;
  Some (Z.lor (Z.lor (Z.lor p0 (u32 (Z.shiftl p1 8))) (u32 (Z.shiftl p2 16))) (u32 (Z.shiftl p3 24))).

Definition rd64 (p : list Z) (o : nat) : option Z :=
  lo ← rd32 p o; hi ← rd32 p (o + 4)%nat;
  Some (Z.lor lo (u64 (Z.shiftl hi 32))).

(** [a && b] where evaluating a condition reads memory. *)
Definition andM (a b : option bool) : option bool := x ← a; if x : bool then b else Some false.
Infix "&&?" := andM (at level 40, left associativity).
Definition eqM (a : option Z) (b : Z) : option bool := x ← a; Some (x =? b).

(** ** Sizes of events *)

Definition prof_urecEnd (p : list Z) (avail o : nat) : option nat :=
  if (avail <? o + 33)%nat then Some O
  else
    nu ← p !! (o + 32)%nat;
    let o := (o + (33 + Z.to_nat nu * 8))%nat in
    if (avail <? o + 2)%nat then Some O
    else
      ns ← rd16 p o;
      let o := (o + (2 + Z.to_nat ns * 8))%nat in
      Some (if (avail <? o)%nat then O else o).

(** The designated initialisers of [fixed]; the other entries are 0. *)
Definition fixed_sizes : list (nat * nat) :=
  [(32, 1); (33, 1); (34, 2); (35, 2); (36, 2); (37, 2); (38, 133); (39, 4);
   (40, 3); (41, 3); (42, 1); (43, 1); (44, 20); (45, 6); (46, 6); (47, 6);
   (48, 6); (49, 3); (50, 2); (51, 133); (66, 5); (67, 14); (68, 12);
   (69, 10); (70, 8)]%nat.
Definition fixed : list nat :=
  foldr (λ e l, <[e.1 := e.2]> l) (replicate 71 O) fixed_sizes.

Definition prof_evSize (id : Z) (p : list Z) (avail : nat) : option nat :=
  if id =? EV_SAMPLE then
    if (avail <? SAMPLE_KFRAMES)%nat then Some O
    else nk ← p !! SAMPLE_NK; prof_urecEnd p avail (SAMPLE_KFRAMES + Z.to_nat nk * 8)
  else if id =? EV_WAIT then
    if (avail <? WAIT_KFRAMES)%nat then Some O
    else nk ← p !! WAIT_NK; prof_urecEnd p avail (WAIT_KFRAMES + Z.to_nat nk * 8)
  else
    if (length fixed <=? Z.to_nat id)%nat then Some O
    else
      n ← fixed !! Z.to_nat id;
      Some (if (n =? 0)%nat || (avail <? n)%nat then O else n).

(** ** Walking a stream

    [for (o = 0; o + 5U <= chanLen; o += 5U + sz) { id, p, sz; if (sz == 0U)
    break; body }], the loop prof_parse, idle_volume and
    kernel_entry_attributed share. The body gets the event's first byte (its
    timestamp), its id, payload and size. Every round advances by at least 6
    bytes, so one round per byte is enough. *)
Fixpoint ev_loop {S} (body : S → list Z → Z → list Z → nat → option S)
    (fuel : nat) (c : list Z) (o : nat) (s : S) : option S :=
  match fuel with
  | O => None
  | Datatypes.S fuel =>
      if (o + 5 <=? length c)%nat then
        id ← c !! (o + 4)%nat;
        let p := drop (o + 5) c in
        sz ← prof_evSize id p (length c - o - 5);
        if (sz =? 0)%nat then Some s
        else
          s' ← body s (drop o c) id p sz;
          ev_loop body fuel c (o + (5 + sz))%nat s'
      else Some s
  end.

(** The outer loop over the first [nchans] channels. *)
Fixpoint chan_loop {S} (body : S → list Z → Z → list Z → nat → option S)
    (cs : list (list Z)) (s : S) : option S :=
  match cs with
  | [] => Some s
  | c :: cs => s' ← ev_loop body (Datatypes.S (length c)) c 0 s; chan_loop body cs s'
  end.

(** ** prof_parse *)

(** One event of pass 0; [loop_addr] is the address of prof_busyLoop. *)
Definition parse_first (g : prof_common_t) (loop_addr : Z) (r : prof_result_t)
    (e : list Z) (id : Z) (p : list Z) (_ : nat) : option prof_result_t :=
  ts ← rd32 e 0;
  b ← Some (id =? EV_SEND) &&? eqM (rd16 p 0) (u16 (clientTid g)) &&? eqM (rd32 p 2) (port g);
  if b : bool then mid ← rd32 p 10; Some (with_send mid ts r)
  else
    b ← Some (id =? EV_SAMPLE) &&? eqM (rd16 p 0) (u16 (busyTid g)) &&? eqM (p !! 2%nat) 0;
    if b : bool then
      nk ← p !! SAMPLE_NK;
      pc ← rd64 p (SAMPLE_KFRAMES + Z.to_nat nk * 8);
      Some (with_sample ((loop_addr <=? pc) && (pc <? u64 (loop_addr + PROF_FN_SPAN))) r)
    else Some r.

(** One event of pass 1. *)
Definition parse_second (g : prof_common_t) (r : prof_result_t)
    (e : list Z) (id : Z) (p : list Z) (_ : nat) : option prof_result_t :=
  ts ← rd32 e 0;
  if sendFound r then
    b ← Some (id =? EV_RECV) &&? eqM (rd32 p 6) (r_mid r);
    if b : bool then tid ← rd16 p 0; Some (with_recv tid r)
    else
      b ← Some (id =? EV_WAIT) &&? eqM (rd16 p 0) (u16 (clientTid g)) &&?
          Some (sendTs r <=? ts) &&? Some (negb (waitFound r));
      if b : bool then
        nk ← p !! WAIT_NK;
        let u := (WAIT_KFRAMES + Z.to_nat nk * 8)%nat in
        flags ← p !! WAIT_FLAGS;
        blocked ← rd32 p WAIT_BLOCKED;
        sc ← rd16 p WAIT_SYSCALL;
        arg0 ← rd64 p WAIT_ARGS;
        lr ← rd64 p (u + 8);
        Some (with_wait flags blocked sc arg0 lr r)
      else
        b ← Some (id =? EV_WAKEUP) &&? eqM (rd16 p 0) (u16 (clientTid g)) &&?
            Some (sendTs r <=? ts) &&? Some (wakeTs r <=? ts);
        if b : bool then
          by_tid ← rd16 p 2;
          cause ← p !! 4%nat;
          Some (with_wake ts by_tid cause r)
        else Some r
  else Some r.

Definition prof_parse (g : prof_common_t) (loop_addr : Z) (pass : Z) (r : prof_result_t) :
    option prof_result_t :=
  chan_loop (if pass =? 0 then parse_first g loop_addr else parse_second g)
    (take (nchans g) (chan g)) r.

(** prof_record after the recording: both passes over a zeroed result. *)
Definition prof_analyse (g : prof_common_t) (loop_addr : Z) : option prof_result_t :=
  r ← prof_parse g loop_addr 0 zero_result; prof_parse g loop_addr 1 r.

(** ** The sums of idle_volume and kernel_entry_attributed *)

Record volume := mkVolume {
  bytes : list Z; total : Z; discarded : Z; dropped : Z; stats : bool }.

Definition zero_volume : volume := mkVolume (replicate 256 0) 0 0 0 false.

Definition volume_event (v : volume) (_ : list Z) (id : Z) (p : list Z) (sz : nat) : option volume :=
  b ← bytes v !! Z.to_nat id;
  let bs := <[Z.to_nat id := u64 (b + Z.of_nat (5 + sz))]> (bytes v) in
  if id =? EV_STATS then
    d ← rd32 p 0; l ← rd32 p 4;
    Some (mkVolume bs (total v) (u32 (discarded v + d)) (u32 (dropped v + l)) true)
  else Some (mkVolume bs (total v) (discarded v) (dropped v) (stats v)).

Fixpoint volume_loop (cs : list (list Z)) (v : volume) : option volume :=
  match cs with
  | [] => Some v
  | c :: cs =>
      v' ← ev_loop volume_event (S (length c)) c 0 v;
      volume_loop cs (mkVolume (bytes v') (u64 (total v' + Z.of_nat (length c)))
        (discarded v') (dropped v') (stats v'))
  end.

Definition idle_volume_sum (g : prof_common_t) : option volume :=
  volume_loop (take (nchans g) (chan g)) zero_volume.

Record entries := mkEntries { e_kernel : Z; e_known : Z; e_memory : Z }.

(** [sc_mmap] and [sc_munmap] are the numbers prof_sc_sys_mmap and
    prof_sc_sys_munmap, generated from the kernel's list of syscalls. *)
Definition kernel_event (g : prof_common_t) (sc_mmap sc_munmap : Z) (s : entries)
    (_ : list Z) (id : Z) (p : list Z) (_ : nat) : option entries :=
  mine ← Some (id =? EV_SAMPLE) &&? eqM (rd16 p 0) (u16 (kernelTid g)) &&? eqM (p !! SAMPLE_MODE) 1;
  if negb mine then Some s
  else
    sc ← rd16 p SAMPLE_SYSCALL;
    eclass ← p !! SAMPLE_ECLASS;
    Some (mkEntries (u32 (e_kernel s + 1))
      (if negb (sc =? 65535) || negb (eclass =? 255) then u32 (e_known s + 1) else e_known s)
      (if (sc =? sc_mmap) || (sc =? sc_munmap) || (eclass =? 36) then u32 (e_memory s + 1)
       else e_memory s)).

Definition kernel_entry_sum (g : prof_common_t) (sc_mmap sc_munmap : Z) : option entries :=
  chan_loop (kernel_event g sc_mmap sc_munmap) (take (nchans g) (chan g)) (mkEntries 0 0 0).

(** ** prof_drain

    perf_read and realloc are the kernel's and the C library's: [perf_read k c]
    is the result of reading channel [c] into a buffer of 64 KiB and the bytes
    it stored, [alloc k n] whether an allocation of [n] bytes succeeds. *)
Class Perf := {
  kernel : Type;
  perf_read : kernel → nat → (Z * list Z) * kernel;
  alloc : kernel → Z → bool * kernel;
}.

Definition ENOMEM : Z := 12.

Section drain.
Context `{Perf}.

(** The loop over [k]: at most 64 reads of a channel. Returns the value of
    [got] after the loop, or nothing when realloc failed. *)
Fixpoint drain_chan (n : nat) (c : nat) (got : Z) (total : Z) (buf : list Z) (k : kernel) :
    option Z * Z * list Z * kernel :=
  match n with
  | O => (Some got, total, buf, k)
  | S n =>
      let '((got, data), k) := perf_read k c in
      if 0 <? got then
        let '(ok, k) := alloc k (Z.of_nat (length buf) + got) in
        if negb ok then (None, total, buf, k)
        else drain_chan n c got (total + got) (buf ++ take (Z.to_nat got) data) k
      else (Some got, total, buf, k)
  end.

(** The loop over the channels, [c] being the next one and [m] the number left. *)
Fixpoint drain_chans (m c : nat) (got total : Z) (cs : list (list Z)) (k : kernel) :
    Z * list (list Z) * kernel :=
  match m with
  | O => (total, cs, k)
  | S m =>
      let '(res, total, buf, k) := drain_chan 64 c got total (default [] (cs !! c)) k in
      let cs := <[c := buf]> cs in
      match res with
      | None => (- ENOMEM, cs, k)
      | Some got => if got <? 0 then (got, cs, k) else drain_chans m (S c) got total cs k
      end
  end.

Definition prof_drain (g : prof_common_t) (k : kernel) : Z * prof_common_t * kernel :=
  let '(ok, k) := alloc k (Z.shiftl 1 16) in
  if negb ok then (- ENOMEM, g, k)
  else
    let '(ret, cs, k) := drain_chans (nchans g) 0 0 0 (chan g) k in
    (ret, set_chan cs g, k).

(** [while ((ret >= 0) && ((ret = prof_drain()) > 0)) { }], after the trace
    was stopped; nothing when the bound is not enough. *)
Fixpoint drain_rest (fuel : nat) (ret : Z) (g : prof_common_t) (k : kernel) :
    option (Z * prof_common_t * kernel) :=
  match fuel with
  | O => None
  | S fuel =>
      if 0 <=? ret then
        let '(ret, g, k) := prof_drain g k in
        if 0 <? ret then drain_rest fuel ret g k else Some (ret, g, k)
      else Some (ret, g, k)
  end.
End drain.

(** ** The tests *)

Section tests.
Context `{Target}.

(** [ret] is what prof_record returned, [r] the result it stored. *)
Definition busy_loop_attributed (ret : Z) (r : prof_result_t) : M unit :=
  TEST_ASSERT_EQUAL_MESSAGE INT 0 ret 423
    (Some (str "perf_start/perf_read failed (another trace running?)"));;
  TEST_ASSERT_bool_MESSAGE (B_ASSERT (PROF_MIN_SAMPLES <=? busySamples r)) 425
    (Some (str "too few thread_sample events of the busy thread (no sampling?)"));;
  TEST_ASSERT_bool_MESSAGE (B_ASSERT (u32 (busySamples r * 9) <=? u32 (busyInLoop r * 10))) 427
    (Some (str "busy thread's sampled PCs are not in its loop")).

(** [client_addr] is the address of prof_clientThread, [sc_msgSend] the
    number prof_sc_msgSend. *)
Definition blocked_send_attributed (ret : Z) (r : prof_result_t) (g : prof_common_t)
    (client_addr sc_msgSend : Z) : M unit :=
  TEST_ASSERT_EQUAL_MESSAGE INT 0 ret 435
    (Some (str "perf_start/perf_read failed (another trace running?)"));;
  TEST_ASSERT_EQUAL INT 0 (sendErr g) 436;;
  TEST_ASSERT_bool_MESSAGE (B_ASSERT (sendFound r)) 438
    (Some (str "no msg_send of the client to the port"));;
  TEST_ASSERT_bool_MESSAGE (B_ASSERT (recvFound r)) 439 (Some (str "no msg_recv of that message"));;
  TEST_ASSERT_EQUAL_MESSAGE INT (serverTid g) (recvTid r) 440
    (Some (str "msg_recv names another thread than the server"));;
  TEST_ASSERT_bool_MESSAGE (B_ASSERT (waitFound r)) 442
    (Some (str "no thread_wait of the client after its msg_send"));;
  TEST_ASSERT_EQUAL_MESSAGE UINT64 (port g) (waitArg0 r) 443
    (Some (str "thread_wait: msgSend's port is not the first argument"));;
  TEST_ASSERT_EQUAL_MESSAGE INT sc_msgSend (waitSyscall r) 444
    (Some (str "thread_wait: syscall is not msgSend (the SVC before its pc)"));;
  TEST_ASSERT_bool_MESSAGE
    (B_ASSERT ((client_addr <? waitLr r) && (waitLr r <? u64 (client_addr + 4 * PROF_FN_SPAN)))) 446
    (Some (str "thread_wait: user lr is not in the caller of msgSend()"));;
  TEST_ASSERT_bool_MESSAGE (B_ASSERT (wakeFound r)) 449 (Some (str "no thread_wakeup of the client"));;
  TEST_ASSERT_EQUAL_MESSAGE INT (serverTid g) (waker r) 450
    (Some (str "the client was not woken by the server"));;
  TEST_ASSERT_EQUAL_MESSAGE INT 0 (wakeCause r) 451
    (Some (str "thread_wakeup cause is not an explicit wakeup"));;
  TEST_ASSERT_bool_MESSAGE (B_ASSERT (negb (Z.land (waitFlags r) 2 =? 0))) 452
    (Some (str "thread_wait of the client is not a deferred one (waitMinUs)"));;
  TEST_ASSERT_bool_MESSAGE (B_ASSERT ((PROF_HOLD_MS - 50) * 1000 <=? waitBlocked r)) 453
    (Some (str "blocked time shorter than the server held the request")).

(** The assertions of kernel_entry_attributed on its counts. *)
Definition kernel_entry_verdict (s : entries) : M unit :=
  TEST_ASSERT_bool_MESSAGE (B_ASSERT (10 <=? e_kernel s)) 615
    (Some (str "too few kernel-mode samples of a thread that lives in mmap/munmap"));;
  TEST_ASSERT_bool_MESSAGE (B_ASSERT (u32 (e_kernel s * 9) <=? u32 (e_known s * 10))) 617
    (Some (str "kernel-mode samples without their syscall or exception"));;
  TEST_ASSERT_bool_MESSAGE (B_ASSERT (e_kernel s <=? u32 (e_memory s * 2))) 618
    (Some (str "kernel time not attributed to mmap/munmap or the page fault")).

(** The assertions of idle_volume on its sums. *)
Definition idle_volume_verdict (v : volume) : M unit :=
  TEST_ASSERT_bool_MESSAGE (B_ASSERT (stats v)) 524
    (Some (str "no trace_stats event at the end of the trace"));;
  TEST_ASSERT_EQUAL_MESSAGE UINT32 0 (discarded v) 525
    (Some (str "the kernel lost events (a full channel)"));;
  TEST_ASSERT_EQUAL_MESSAGE UINT32 0 (dropped v) 526
    (Some (str "the kernel lost waits (no free wait slot)"));;
  TEST_ASSERT_bool_MESSAGE (B_ASSERT (total v <=? PROF_IDLE_BUDGET)) 527
    (Some (str "an idle 2 s recording exceeds its byte budget")).
End tests.
