(* ===== verification/ProfTraceProps.v ===== *)
(** * Properties of the kernel trace parser

    Walking a channel never reads outside it and ends, whatever bytes the
    kernel delivered; on a recorded stream of events the walk sees exactly
    those events; and what the two passes of prof_parse report is stated on
    the events themselves. *)

From S2P Require Import Prelude CMachine UnityOutput UnityAssert UnityAssertSpec.
From S2P Require Import UnityAssertProps UnityMacros TestVerdict ProfTrace.

(** ** Fields *)

(** The little-endian field of [n] bytes at offset [o]. *)
Definition fld (p : list Z) (o n : nat) : Z := le_combine (take n (drop o p)).

Lemma fld_app p q o n : (o + n ≤ length p)%nat → fld (p ++ q) o n = fld p o n.
Proof.
  intros H. unfold fld. rewrite drop_app_le, take_app_le; [done| |]; rewrite ?length_drop; lia.
Qed.

Lemma fld_cons p o n x : p !! o = Some x → fld p o (S n) = x + 256 * fld p (S o) n.
Proof. intros E. unfold fld. by rewrite (drop_S _ _ _ E). Qed.

Lemma fld_0 p o : fld p o 0 = 0.
Proof. done. Qed.

(** Merging disjoint bit ranges with [|] is addition. *)
Lemma lor_shiftl_add a b k : 0 ≤ k → 0 ≤ a < 2 ^ k → Z.lor a (Z.shiftl b k) = a + b * 2 ^ k.
Proof.
  intros Hk Ha. rewrite <- Z.shiftl_mul_pow2 by done.
  rewrite <- Z.lxor_lor, Z.add_nocarry_lxor; [done| |];
    apply Z.bits_inj'; intros i Hi; rewrite Z.land_spec, Z.bits_0;
    (destruct (decide (i < k)); [rewrite (Z.shiftl_spec_low b k i) by done; by rewrite andb_false_r|]);
    destruct (decide (a = 0)) as [->|]; [by rewrite Z.bits_0| |by rewrite Z.bits_0|];
    rewrite (Z.bits_above_log2 a i); try done; try lia;
    apply Z.lt_le_trans with k; try lia; apply Z.log2_lt_pow2; lia.
Qed.

Section fields.
Context (p : list Z) (Hp : Forall is_byte p).

Lemma byte_lookup o x : p !! o = Some x → is_byte x.
Proof. intros E. by eapply Forall_lookup_1. Qed.

Lemma fld_range o n : 0 ≤ fld p o n < 256 ^ Z.of_nat n.
Proof using Hp.
  revert o. induction n as [|n IH]; intros o; [done|].
  destruct (p !! o) as [x|] eqn:E.
  - rewrite (fld_cons _ _ _ _ E). pose proof (byte_lookup _ _ E) as [??]. specialize (IH (S o)).
    rewrite Nat2Z.inj_succ, Z.pow_succ_r by lia. lia.
  - unfold fld. rewrite drop_ge by by apply lookup_ge_None_1. rewrite take_nil. simpl le_combine.
    assert (0 < 256 ^ Z.of_nat (S n)) by (apply Z.pow_pos_nonneg; lia). lia.
Qed.

Lemma rd8_fld o : (o < length p)%nat → p !! o = Some (fld p o 1).
Proof using Hp.
  intros H. destruct (lookup_lt_is_Some_2 p o) as [x E]; [lia|].
  rewrite (fld_cons _ _ _ _ E), fld_0, E. f_equal. lia.
Qed.

Lemma rd16_fld o : (o + 2 ≤ length p)%nat → rd16 p o = Some (fld p o 2).
Proof using Hp.
  intros H. unfold rd16.
  destruct (lookup_lt_is_Some_2 p o) as [x0 E0]; [lia|].
  destruct (lookup_lt_is_Some_2 p (o + 1)) as [x1 E1]; [lia|].
  pose proof (byte_lookup _ _ E0) as [??]. pose proof (byte_lookup _ _ E1) as [??].
  rewrite E0, E1. cbn [mbind option_bind]. f_equal.
  rewrite (fld_cons _ _ _ _ E0), (fld_cons _ _ _ x1), fld_0 by (by rewrite <- E1; f_equal; lia).
  rewrite lor_shiftl_add by lia. unfold u16. rewrite uwrap_small by lia. lia.
Qed.

Lemma rd32_fld o : (o + 4 ≤ length p)%nat → rd32 p o = Some (fld p o 4).
Proof using Hp.
  intros H. unfold rd32.
  destruct (lookup_lt_is_Some_2 p o) as [x0 E0]; [lia|].
  destruct (lookup_lt_is_Some_2 p (o + 1)) as [x1 E1]; [lia|].
  destruct (lookup_lt_is_Some_2 p (o + 2)) as [x2 E2]; [lia|].
  destruct (lookup_lt_is_Some_2 p (o + 3)) as [x3 E3]; [lia|].
  pose proof (byte_lookup _ _ E0) as [??]. pose proof (byte_lookup _ _ E1) as [??].
  pose proof (byte_lookup _ _ E2) as [??]. pose proof (byte_lookup _ _ E3) as [??].
  rewrite E0, E1, E2, E3. cbn [mbind option_bind]. f_equal.
  rewrite (fld_cons _ _ _ _ E0), (fld_cons _ _ _ x1), (fld_cons _ _ _ x2), (fld_cons _ _ _ x3), fld_0
    by (first [rewrite <- E1 | rewrite <- E2 | rewrite <- E3]; f_equal; lia).
  unfold u32. rewrite !(uwrap_small 32) by (rewrite Z.shiftl_mul_pow2 by lia; lia).
  rewrite (lor_shiftl_add x0 x1 8) by lia.
  rewrite (lor_shiftl_add _ x2 16) by lia.
  rewrite (lor_shiftl_add _ x3 24) by lia. lia.
Qed.

Lemma fld_split o n k : fld p o (n + k) = fld p o n + 256 ^ Z.of_nat n * fld p (o + n) k.
Proof using Hp.
  revert o. induction n as [|n IH]; intros o.
  - rewrite Nat.add_0_r, fld_0, Nat.add_0_l, Z.mul_1_l. done.
  - rewrite Nat.add_succ_l. destruct (p !! o) as [x|] eqn:E.
    + rewrite !(fld_cons _ _ _ _ E), IH, Nat2Z.inj_succ, Z.pow_succ_r by lia.
      replace (o + S n)%nat with (S o + n)%nat by lia. lia.
    + apply lookup_ge_None_1 in E. unfold fld. rewrite !drop_ge by lia. rewrite !take_nil.
      simpl le_combine. lia.
Qed.

Lemma rd64_fld o : (o + 8 ≤ length p)%nat → rd64 p o = Some (fld p o 8).
Proof using Hp.
  intros H. unfold rd64. rewrite !rd32_fld by lia. cbn [mbind option_bind]. f_equal.
  pose proof (fld_range o 4). pose proof (fld_range (o + 4) 4).
  unfold u64. rewrite uwrap_small by (rewrite Z.shiftl_mul_pow2 by lia; lia).
  rewrite lor_shiftl_add by lia. change 8%nat with (4 + 4)%nat. rewrite (fld_split o 4 4). lia.
Qed.
End fields.

(** ** Walking any bytes *)

(** What a size other than 0 says of the bytes at hand. *)
Definition enough (id : Z) (p : list Z) (sz : nat) : Prop :=
  (sz ≤ length p)%nat ∧
  (id = EV_SAMPLE → ∃ nk, p !! SAMPLE_NK = Some nk ∧ (SAMPLE_KFRAMES + Z.to_nat nk * 8 + 35 ≤ sz)%nat) ∧
  (id = EV_WAIT → ∃ nk, p !! WAIT_NK = Some nk ∧ (WAIT_KFRAMES + Z.to_nat nk * 8 + 35 ≤ sz)%nat) ∧
  (id = EV_WAKEUP → sz = 5%nat) ∧ (id = EV_SEND → sz = 14%nat) ∧ (id = EV_RECV → sz = 12%nat) ∧
  (id = EV_STATS → sz = 8%nat).

Lemma prof_urecEnd_safe p avail o : (avail ≤ length p)%nat →
  ∃ sz, prof_urecEnd p avail o = Some sz ∧ (sz = O ∨ (o + 35 ≤ sz ≤ avail)%nat).
Proof.
  intros Ha. unfold prof_urecEnd. case_match eqn:E1; [eauto|]. apply Nat.ltb_ge in E1.
  destruct (lookup_lt_is_Some_2 p (o + 32)) as [nu ->]; [lia|]. cbn [mbind option_bind].
  case_match eqn:E2; [eauto|]. apply Nat.ltb_ge in E2.
  unfold rd16. set (q := (o + (33 + _))%nat) in *.
  destruct (lookup_lt_is_Some_2 p q) as [a ->]; [lia|].
  destruct (lookup_lt_is_Some_2 p (q + 1)) as [b ->]; [lia|]. cbn [mbind option_bind].
  eexists. split; [done|]. case_match eqn:E3; [by left|]. apply Nat.ltb_ge in E3. right. lia.
Qed.

Lemma fixed_length : length fixed = 71%nat.
Proof. done. Qed.

Lemma prof_evSize_safe id p :
  ∃ sz, prof_evSize id p (length p) = Some sz ∧ (sz = O ∨ enough id p sz).
Proof.
  unfold prof_evSize. case_match eqn:Es; [|case_match eqn:Ew].
  - apply Z.eqb_eq in Es as ->. case_match eqn:E; [eauto|]. apply Nat.ltb_ge in E.
    destruct (lookup_lt_is_Some_2 p SAMPLE_NK) as [nk Hnk]; [unfold SAMPLE_NK, SAMPLE_KFRAMES in *; lia|].
    rewrite Hnk. cbn [mbind option_bind].
    destruct (prof_urecEnd_safe p (length p) (SAMPLE_KFRAMES + Z.to_nat nk * 8)) as (sz & -> & Hsz); [lia|].
    exists sz. split; [done|]. destruct Hsz as [?|?]; [by left|right].
    repeat split; try done; [lia|]. exists nk. split; [done|lia].
  - apply Z.eqb_eq in Ew as ->. case_match eqn:E; [eauto|]. apply Nat.ltb_ge in E.
    destruct (lookup_lt_is_Some_2 p WAIT_NK) as [nk Hnk]; [unfold WAIT_NK, WAIT_KFRAMES in *; lia|].
    rewrite Hnk. cbn [mbind option_bind].
    destruct (prof_urecEnd_safe p (length p) (WAIT_KFRAMES + Z.to_nat nk * 8)) as (sz & -> & Hsz); [lia|].
    exists sz. split; [done|]. destruct Hsz as [?|?]; [by left|right].
    repeat split; try done; [lia|]. exists nk. split; [done|lia].
  - case_match eqn:E; [eauto|]. apply Nat.leb_gt in E.
    destruct (lookup_lt_is_Some_2 fixed (Z.to_nat id)) as [n Hn]; [lia|]. rewrite Hn.
    cbn [mbind option_bind]. eexists. split; [done|]. case_match eqn:Ez; [by left|right].
    apply orb_false_iff in Ez as [Ez1%Nat.eqb_neq Ez2%Nat.ltb_ge].
    apply Z.eqb_neq in Es, Ew. split; [lia|].
    repeat split; try done; intros ->; vm_compute in Hn; by injection Hn.
Qed.

(** A loop body that can handle every event the walk hands it. *)
Definition handles {S} (I : S → Prop) (body : S → list Z → Z → list Z → nat → option S) : Prop :=
  ∀ s e id p sz, I s → (5 ≤ length e)%nat → is_byte id → enough id p sz →
  ∃ s', body s e id p sz = Some s' ∧ I s'.

Lemma ev_loop_safe {S} (I : S → Prop) body fuel c o s :
  handles I body → Forall is_byte c → I s → (length c < fuel + o)%nat → (0 < fuel)%nat →
  ∃ s', ev_loop body fuel c o s = Some s' ∧ I s'.
Proof.
  intros Hb Hc. revert o s. induction fuel as [|fuel IH]; intros o s Hs Hf Hf0; [lia|].
  cbn [ev_loop]. case_match eqn:E; [|eauto]. apply Nat.leb_le in E.
  destruct (lookup_lt_is_Some_2 c (o + 4)) as [id Hid]; [lia|]. rewrite Hid. cbn [mbind option_bind].
  replace (length c - o - 5)%nat with (length (drop (o + 5) c)) by (rewrite length_drop; lia).
  destruct (prof_evSize_safe id (drop (o + 5) c)) as (sz & -> & Hsz). cbn [mbind option_bind].
  case_match eqn:Ez; [eauto|]. apply Nat.eqb_neq in Ez. destruct Hsz as [?|Hsz]; [done|].
  destruct (Hb s (drop o c) id (drop (o + 5) c) sz Hs) as (s' & -> & Hs');
    [rewrite length_drop; lia | by eapply byte_lookup | done |].
  cbn [mbind option_bind]. destruct Hsz as [Hsz _]. rewrite length_drop in Hsz.
  apply IH; [done | lia | lia].
Qed.

Lemma chan_loop_safe {S} (I : S → Prop) body cs s :
  handles I body → Forall (Forall is_byte) cs → I s →
  ∃ s', chan_loop body cs s = Some s' ∧ I s'.
Proof.
  intros Hb Hcs. revert s. induction Hcs as [|c cs Hc _ IH]; intros s Hs; cbn [chan_loop]; [eauto|].
  destruct (ev_loop_safe I body (Datatypes.S (length c)) c 0 s) as (s' & -> & Hs'); [done..|lia|lia|].
  cbn [mbind option_bind]. by apply IH.
Qed.

Lemma rd16_some p o : (o + 2 ≤ length p)%nat → ∃ v, rd16 p o = Some v.
Proof.
  intros Hl. unfold rd16. destruct (lookup_lt_is_Some_2 p o) as [a ->]; [lia|].
  destruct (lookup_lt_is_Some_2 p (o + 1)) as [b ->]; [lia|]. eauto.
Qed.

Lemma rd32_some p o : (o + 4 ≤ length p)%nat → ∃ v, rd32 p o = Some v.
Proof.
  intros Hl. unfold rd32. destruct (lookup_lt_is_Some_2 p o) as [a ->]; [lia|].
  destruct (lookup_lt_is_Some_2 p (o + 1)) as [b ->]; [lia|].
  destruct (lookup_lt_is_Some_2 p (o + 2)) as [c ->]; [lia|].
  destruct (lookup_lt_is_Some_2 p (o + 3)) as [d ->]; [lia|]. eauto.
Qed.

Lemma rd64_some p o : (o + 8 ≤ length p)%nat → ∃ v, rd64 p o = Some v.
Proof.
  intros Hl. unfold rd64. destruct (rd32_some p o) as [a ->]; [lia|].
  destruct (rd32_some p (o + 4)) as [b ->]; [lia|]. cbn [mbind option_bind]. eauto.
Qed.

(** Steps over the reads of a loop body, the sizes at hand discharging each. *)
Ltac read_lia := unfold SAMPLE_NK, SAMPLE_KFRAMES, SAMPLE_MODE, SAMPLE_SYSCALL, SAMPLE_ECLASS,
  WAIT_FLAGS, WAIT_BLOCKED, WAIT_SYSCALL, WAIT_ARGS, WAIT_NK, WAIT_KFRAMES in *; lia.
Ltac read_step :=
  match goal with
  | |- context [rd16 ?p ?o] => destruct (rd16_some p o) as [? ->]; [read_lia|]
  | |- context [rd32 ?p ?o] => destruct (rd32_some p o) as [? ->]; [read_lia|]
  | |- context [rd64 ?p ?o] => destruct (rd64_some p o) as [? ->]; [read_lia|]
  | H : ?p !! ?o = Some _ |- context [?p !! ?o] => rewrite H
  | |- context [?p !! ?o] => destruct (lookup_lt_is_Some_2 p o) as [? ->]; [read_lia|]
  end; cbn [mbind option_bind andM eqM].

(** All reads of the branch at hand, then its conditions. *)
Ltac read_all := repeat first [read_step | progress cbn [mbind option_bind andM eqM negb] | case_match];
  eauto.

Lemma parse_first_handles g loop_addr : handles (λ _, True) (parse_first g loop_addr).
Proof.
  intros r e id p sz _ He Hid (Hsz & Hs & _ & _ & Hse & _). unfold parse_first.
  destruct (decide (id = EV_SEND)) as [E|E]; [|destruct (decide (id = EV_SAMPLE)) as [E'|E']].
  - specialize (Hse E). rewrite E, Z.eqb_refl. change (EV_SEND =? EV_SAMPLE) with false. read_all.
  - destruct (Hs E') as (nk & Hnk & Hlen). rewrite E', Z.eqb_refl.
    change (EV_SAMPLE =? EV_SEND) with false. cbn [andM mbind option_bind]. read_all.
  - apply Z.eqb_neq in E, E'. rewrite E, E'. cbn [andM mbind option_bind]. read_all.
Qed.

Lemma parse_second_handles g : handles (λ _, True) (parse_second g).
Proof.
  intros r e id p sz _ He Hid (Hsz & _ & Hw & Hwk & _ & Hre & _). unfold parse_second.
  destruct (decide (id = EV_RECV)) as [E|E]; [|destruct (decide (id = EV_WAIT)) as [E'|E'];
    [|destruct (decide (id = EV_WAKEUP)) as [E''|E'']]].
  - specialize (Hre E). rewrite E, Z.eqb_refl.
    change (EV_RECV =? EV_WAIT) with false. change (EV_RECV =? EV_WAKEUP) with false. read_all.
  - destruct (Hw E') as (nk & Hnk & Hlen). rewrite E', Z.eqb_refl.
    change (EV_WAIT =? EV_RECV) with false. change (EV_WAIT =? EV_WAKEUP) with false.
    cbn [andM mbind option_bind]. read_all.
  - specialize (Hwk E''). rewrite E'', Z.eqb_refl.
    change (EV_WAKEUP =? EV_WAIT) with false. change (EV_WAKEUP =? EV_RECV) with false.
    cbn [andM mbind option_bind]. read_all.
  - apply Z.eqb_neq in E, E', E''. rewrite E, E', E''. cbn [andM mbind option_bind]. read_all.
Qed.

Lemma volume_event_handles : handles (λ v, length (bytes v) = 256%nat) volume_event.
Proof.
  intros v e id p sz Hv He Hid (Hsz & _ & _ & _ & _ & _ & Hst). unfold volume_event, is_byte in *.
  destruct (lookup_lt_is_Some_2 (bytes v) (Z.to_nat id)) as [b ->]; [lia|]. cbn [mbind option_bind].
  destruct (id =? EV_STATS) eqn:E.
  - apply Z.eqb_eq in E. specialize (Hst E). repeat read_step. eexists. split; [done|].
    simpl. by rewrite length_insert.
  - eexists. split; [done|]. simpl. by rewrite length_insert.
Qed.

Lemma kernel_event_handles g a b : handles (λ _, True) (kernel_event g a b).
Proof.
  intros s e id p sz _ He Hid (Hsz & Hs & _). unfold kernel_event.
  destruct (id =? EV_SAMPLE) eqn:E; cbn [andM mbind option_bind negb]; [|eauto].
  apply Z.eqb_eq in E. destruct (Hs E) as (nk & Hnk & Hlen). read_all.
Qed.

Lemma volume_loop_safe cs v :
  Forall (Forall is_byte) cs → length (bytes v) = 256%nat → is_Some (volume_loop cs v).
Proof.
  intros Hcs. revert v. induction Hcs as [|c cs Hc _ IH]; intros v Hv; cbn [volume_loop]; [eauto|].
  destruct (ev_loop_safe (λ v, length (bytes v) = 256%nat) volume_event (S (length c)) c 0 v)
    as (v' & -> & Hv'); [apply volume_event_handles|done|done|lia|lia|].
  cbn [mbind option_bind]. by apply IH.
Qed.

(** C4: Whatever bytes the kernel delivers, walking the trace is memory safe and ends: both passes
    of prof_parse, the sums of idle_volume and those of kernel_entry_attributed read only bytes of
    their channel, truncated and unknown events included, and return. *)
Theorem trace_walks_are_safe g loop_addr pass r sc_mmap sc_munmap :
  Forall (Forall is_byte) (chan g) →
  is_Some (prof_parse g loop_addr pass r) ∧ is_Some (idle_volume_sum g) ∧
  is_Some (kernel_entry_sum g sc_mmap sc_munmap).
Proof.
  intros Hg. assert (Hcs : Forall (Forall is_byte) (take (nchans g) (chan g))) by by apply Forall_take.
  split_and!.
  - unfold prof_parse. case_match.
    + destruct (chan_loop_safe _ _ _ r (parse_first_handles g loop_addr) Hcs I) as (? & -> & _). eauto.
    + destruct (chan_loop_safe _ _ _ r (parse_second_handles g) Hcs I) as (? & -> & _). eauto.
  - by apply volume_loop_safe.
  - unfold kernel_entry_sum.
    destruct (chan_loop_safe _ _ _ (mkEntries 0 0 0) (kernel_event_handles g sc_mmap sc_munmap) Hcs I)
      as (? & -> & _). eauto.
Qed.

(** ** Streams of events

    What the kernel writes: a 32-bit timestamp, the event's id and its
    payload, whose size the id gives, or, for thread_sample and thread_wait,
    the counts inside it: kernel frames, user frames and the user stack. *)

Record event := mkEvent { ev_ts : Z; ev_id : Z; ev_payload : list Z }.

(** The user part: registers (pc first, lr second), frames and stack. *)
Definition urec_bytes (regs : list Z) (nu : Z) (frames : list Z) (ns : Z) (stack : list Z) : list Z :=
  regs ++ nu :: frames ++ le_split 2 ns ++ stack.

Inductive framed : Z → list Z → Prop :=
  | framed_fixed id n payload :
      (Z.to_nat id, n) ∈ fixed_sizes → length payload = n → framed id payload
  | framed_stack id h head nk kframes regs nu frames ns stack :
      (id = EV_SAMPLE ∧ h = SAMPLE_NK ∨ id = EV_WAIT ∧ h = WAIT_NK) →
      length head = h →
      is_byte nk → length kframes = (Z.to_nat nk * 8)%nat →
      length regs = 32%nat →
      is_byte nu → length frames = (Z.to_nat nu * 8)%nat →
      0 ≤ ns < 65536 → length stack = (Z.to_nat ns * 8)%nat →
      framed id (head ++ nk :: kframes ++ urec_bytes regs nu frames ns stack).

Definition wf_event (e : event) : Prop :=
  0 ≤ ev_ts e < 2 ^ 32 ∧ is_byte (ev_id e) ∧ Forall is_byte (ev_payload e) ∧
  framed (ev_id e) (ev_payload e).

Definition encode (e : event) : list Z := le_split 4 (ev_ts e) ++ ev_id e :: ev_payload e.

Lemma fld_le_split pre n z post :
  0 ≤ z < 256 ^ Z.of_nat n → fld (pre ++ le_split n z ++ post) (length pre) n = z.
Proof.
  intros Hz. unfold fld. rewrite drop_app_length.
  rewrite take_app_le, take_ge by (rewrite length_le_split; lia).
  rewrite le_combine_split by lia. by apply Z.mod_small.
Qed.

Lemma prof_urecEnd_spec pre regs nu frames ns stack rest avail :
  let p := pre ++ urec_bytes regs nu frames ns stack ++ rest in
  let e := (length pre + length (urec_bytes regs nu frames ns stack))%nat in
  Forall is_byte p → length regs = 32%nat → length frames = (Z.to_nat nu * 8)%nat →
  0 ≤ ns < 65536 → length stack = (Z.to_nat ns * 8)%nat → (avail ≤ length p)%nat →
  prof_urecEnd p avail (length pre) = Some (if (avail <? e)%nat then O else e).
Proof.
  intros p e Hb Hr Hf Hns Hst Ha.
  assert (He : e = (length pre + (33 + Z.to_nat nu * 8) + (2 + Z.to_nat ns * 8))%nat)
    by (unfold e, urec_bytes; rewrite !length_app; cbn [length]; rewrite !length_app, length_le_split; lia).
  unfold prof_urecEnd. destruct (avail <? _)%nat eqn:E1.
  { apply Nat.ltb_lt in E1. by rewrite (proj2 (Nat.ltb_lt _ _)) by lia. }
  assert (Hnu : p !! (length pre + 32)%nat = Some nu).
  { unfold p, urec_bytes. rewrite <- !app_assoc, app_assoc.
    replace (length pre + 32)%nat with (length (pre ++ regs)) by (rewrite length_app; lia).
    apply list_lookup_middle; done. }
  rewrite Hnu. cbn [mbind option_bind]. set (o := (length pre + (33 + _))%nat) in *.
  destruct (avail <? o + 2)%nat eqn:E2.
  { apply Nat.ltb_lt in E2. by rewrite (proj2 (Nat.ltb_lt _ _)) by lia. }
  apply Nat.ltb_ge in E2. rewrite rd16_fld by (done || lia).
  assert (Hns' : fld p o 2 = ns).
  { unfold p, urec_bytes. rewrite <- !app_assoc. cbn [app]. rewrite <- !app_assoc.
    rewrite (app_assoc pre), (cons_middle nu), (app_assoc _ [nu]), (app_assoc _ frames).
    replace o with (length (((pre ++ regs) ++ [nu]) ++ frames))
      by (rewrite !length_app; cbn [length]; unfold o; lia).
    apply fld_le_split. simpl. lia. }
  rewrite Hns'. cbn [mbind option_bind]. rewrite <- He. done.
Qed.

Lemma fixed_sizes_lookup i n : (i, n) ∈ fixed_sizes →
  fixed !! i = Some n ∧ n ≠ O ∧ (i < 71)%nat ∧ i ≠ 64%nat ∧ i ≠ 65%nat.
Proof.
  intros H. unfold fixed_sizes in H. repeat (apply elem_of_cons in H as [[= -> ->]|H]; [split_and!; first [lia | reflexivity]|]).
  by apply elem_of_nil in H.
Qed.

(** The size of an event, whole or truncated, whatever follows it. *)
Lemma prof_evSize_framed id payload rest avail :
  framed id payload → Forall is_byte (payload ++ rest) → 0 ≤ id → (avail ≤ length (payload ++ rest))%nat →
  prof_evSize id (payload ++ rest) avail =
  Some (if (avail <? length payload)%nat then O else length payload).
Proof.
  intros Hf Hb Hid Ha. destruct Hf as [id n payload Hn Hl|
    id h head nk kframes regs nu frames ns stack Hh Hhead Hnk Hk Hr Hnu Hfr Hns Hst].
  - destruct (fixed_sizes_lookup _ _ Hn) as (Hlk & Hn0 & ? & ? & ?). unfold prof_evSize.
    rewrite (proj2 (Z.eqb_neq id EV_SAMPLE)), (proj2 (Z.eqb_neq id EV_WAIT))
      by (unfold EV_SAMPLE, EV_WAIT; lia).
    rewrite fixed_length, (proj2 (Nat.leb_gt _ _)) by done. rewrite Hlk. cbn [mbind option_bind].
    rewrite (proj2 (Nat.eqb_neq n 0)) by done. by rewrite Hl.
  - set (u := urec_bytes regs nu frames ns stack) in *.
    assert (El : (head ++ nk :: kframes ++ u) ++ rest = (head ++ [nk] ++ kframes) ++ u ++ rest)
      by (rewrite <- !app_assoc; cbn [app]; by rewrite <- !app_assoc).
    assert (Elk : ((head ++ [nk] ++ kframes) ++ u ++ rest) !! h = Some nk)
      by (rewrite <- !app_assoc; apply list_lookup_middle; done).
    assert (Eh : length (head ++ [nk] ++ kframes) = (S h + Z.to_nat nk * 8)%nat)
      by (rewrite !length_app; cbn [length]; lia).
    assert (Elen : length (head ++ nk :: kframes ++ u) = (length (head ++ [nk] ++ kframes) + length u)%nat)
      by (rewrite !length_app; cbn [length]; rewrite !length_app; cbn [length]; lia).
    rewrite El in *. rewrite Elen.
    pose proof (prof_urecEnd_spec (head ++ [nk] ++ kframes) regs nu frames ns stack rest avail
      Hb Hr Hfr Hns Hst Ha) as Hu. fold u in Hu. rewrite Eh in Hu |- *.
    unfold prof_evSize.
    destruct Hh as [[-> ->]|[-> ->]];
      [change (EV_SAMPLE =? EV_SAMPLE) with true | change (EV_WAIT =? EV_SAMPLE) with false;
       change (EV_WAIT =? EV_WAIT) with true]; cbn iota;
      [destruct (avail <? SAMPLE_KFRAMES)%nat eqn:E | destruct (avail <? WAIT_KFRAMES)%nat eqn:E];
      try (apply Nat.ltb_lt in E; rewrite (proj2 (Nat.ltb_lt _ _)) by read_lia; done);
      rewrite Elk; cbn [mbind option_bind]; exact Hu.
Qed.

Lemma framed_enough id payload :
  framed id payload → Forall is_byte payload → 0 ≤ id → enough id payload (length payload).
Proof.
  intros Hf Hb Hid. destruct (prof_evSize_safe id payload) as (sz & Esz & Hsz).
  pose proof (prof_evSize_framed id payload [] (length payload) Hf) as E.
  rewrite app_nil_r in E. specialize (E Hb Hid (le_n _)). rewrite Nat.ltb_irrefl, Esz in E.
  injection E as ->. destruct Hsz as [H0|]; [|done].
  destruct Hf as [? n ? Hn Hl|]; [destruct (fixed_sizes_lookup _ _ Hn) as (_ & ? & _); lia|].
  rewrite length_app in H0. simpl in H0. lia.
Qed.

(** Fields of an event, whatever follows it. *)
Section event_fields.
Context (payload rest : list Z) (Hb : Forall is_byte (payload ++ rest)).

Lemma rd8_event o : (o < length payload)%nat → (payload ++ rest) !! o = Some (fld payload o 1).
Proof using Hb.
  intros Hl. rewrite rd8_fld by (done || rewrite length_app; lia). by rewrite fld_app by lia.
Qed.
Lemma rd16_event o : (o + 2 ≤ length payload)%nat → rd16 (payload ++ rest) o = Some (fld payload o 2).
Proof using Hb.
  intros Hl. rewrite rd16_fld by (done || rewrite length_app; lia). by rewrite fld_app by lia.
Qed.
Lemma rd32_event o : (o + 4 ≤ length payload)%nat → rd32 (payload ++ rest) o = Some (fld payload o 4).
Proof using Hb.
  intros Hl. rewrite rd32_fld by (done || rewrite length_app; lia). by rewrite fld_app by lia.
Qed.
Lemma rd64_event o : (o + 8 ≤ length payload)%nat → rd64 (payload ++ rest) o = Some (fld payload o 8).
Proof using Hb.
  intros Hl. rewrite rd64_fld by (done || rewrite length_app; lia). by rewrite fld_app by lia.
Qed.
End event_fields.

(** *** What an event says, on its fields *)

Section views.
Context (g : prof_common_t) (loop_addr : Z).

Definition tid_is (tid : Z) (e : event) : bool := fld (ev_payload e) 0 2 =? u16 tid.

(** msg_send of the client to the port *)
Definition is_send (e : event) : bool :=
  (ev_id e =? EV_SEND) && tid_is (clientTid g) e && (fld (ev_payload e) 2 4 =? port g).
(** a user-mode sample of the busy thread *)
Definition is_busy (e : event) : bool :=
  (ev_id e =? EV_SAMPLE) && tid_is (busyTid g) e && (fld (ev_payload e) 2 1 =? 0).
(** the pc, first of the user registers behind the kernel frames *)
Definition sample_pc (e : event) : Z :=
  fld (ev_payload e) (SAMPLE_KFRAMES + Z.to_nat (fld (ev_payload e) SAMPLE_NK 1) * 8) 8.
Definition in_loop (e : event) : bool :=
  (loop_addr <=? sample_pc e) && (sample_pc e <? u64 (loop_addr + PROF_FN_SPAN)).
(** msg_recv of message [mid] *)
Definition is_recv (mid : Z) (e : event) : bool :=
  (ev_id e =? EV_RECV) && (fld (ev_payload e) 6 4 =? mid).
(** thread_wait and thread_wakeup of the client, not before [ts] *)
Definition is_wait (ts : Z) (e : event) : bool :=
  (ev_id e =? EV_WAIT) && tid_is (clientTid g) e && (ts <=? ev_ts e).
Definition is_wakeup (ts : Z) (e : event) : bool :=
  (ev_id e =? EV_WAKEUP) && tid_is (clientTid g) e && (ts <=? ev_ts e).
(** the lr, second of the user registers *)
Definition wait_lr (e : event) : Z :=
  fld (ev_payload e) (WAIT_KFRAMES + Z.to_nat (fld (ev_payload e) WAIT_NK 1) * 8 + 8) 8.

Definition first_step (r : prof_result_t) (e : event) : prof_result_t :=
  if is_send e then with_send (fld (ev_payload e) 10 4) (ev_ts e) r
  else if is_busy e then with_sample (in_loop e) r
  else r.

Definition record_wait (e : event) : prof_result_t → prof_result_t :=
  with_wait (fld (ev_payload e) WAIT_FLAGS 1) (fld (ev_payload e) WAIT_BLOCKED 4)
    (fld (ev_payload e) WAIT_SYSCALL 2) (fld (ev_payload e) WAIT_ARGS 8) (wait_lr e).

Definition second_step (r : prof_result_t) (e : event) : prof_result_t :=
  if negb (sendFound r) then r
  else if is_recv (r_mid r) e then with_recv (fld (ev_payload e) 0 2) r
  else if is_wait (sendTs r) e && negb (waitFound r) then record_wait e r
  else if is_wakeup (sendTs r) e && (wakeTs r <=? ev_ts e) then
    with_wake (ev_ts e) (fld (ev_payload e) 2 2) (fld (ev_payload e) 4 1) r
  else r.

(** A body that does [step] with every whole event. *)
Definition performs {S} (step : S → event → S) (body : S → list Z → Z → list Z → nat → option S) : Prop :=
  ∀ s e rest, wf_event e → Forall is_byte rest →
  body s (encode e ++ rest) (ev_id e) (ev_payload e ++ rest) (length (ev_payload e)) = Some (step s e).

Lemma rd_ts e rest : wf_event e → Forall is_byte rest → rd32 (encode e ++ rest) 0 = Some (ev_ts e).
Proof.
  intros (Hts & Hid & Hp & _) Hr. unfold encode. rewrite <- app_assoc. rewrite rd32_fld.
  - f_equal. apply (fld_le_split [] 4). simpl. lia.
  - apply Forall_app. split; [|by apply Forall_app; split; [constructor|]].
    cbn [le_split]. repeat constructor; apply Z.mod_pos_bound; lia.
  - rewrite length_app, length_le_split. lia.
Qed.

Ltac event_step Hb :=
  match goal with
  | |- context [rd16 (?p ++ ?r) ?o] => rewrite (rd16_event p r Hb o) by read_lia
  | |- context [rd32 (?p ++ ?r) ?o] => rewrite (rd32_event p r Hb o) by read_lia
  | |- context [rd64 (?p ++ ?r) ?o] => rewrite (rd64_event p r Hb o) by read_lia
  | |- context [(?p ++ ?r) !! ?o] => rewrite (rd8_event p r Hb o) by read_lia
  end; cbn [mbind option_bind andM eqM].
Ltac event_all Hb := repeat first
  [event_step Hb | progress cbn [mbind option_bind andM eqM negb andb]
  | match goal with |- context [if ?b then _ else _] =>
      lazymatch b with context [if _ then _ else _] => fail | _ => destruct b end end]; try done.

Lemma parse_first_performs : performs first_step (parse_first g loop_addr).
Proof.
  intros r e rest Hwf Hr. unfold parse_first. rewrite rd_ts by done. cbn [mbind option_bind].
  destruct Hwf as (Hts & [Hid _] & Hp & Hf). destruct (framed_enough _ _ Hf Hp Hid) as (_ & Hs & _ & _ & Hse & _).
  assert (Hb : Forall is_byte (ev_payload e ++ rest)) by by apply Forall_app.
  unfold first_step, is_send, is_busy, tid_is, in_loop, sample_pc.
  destruct (decide (ev_id e = EV_SEND)) as [E|E]; [|destruct (decide (ev_id e = EV_SAMPLE)) as [E'|E']].
  - specialize (Hse E). rewrite E, Z.eqb_refl. change (EV_SEND =? EV_SAMPLE) with false. event_all Hb.
  - destruct (Hs E') as (nk & Hnk & Hlen). rewrite E', Z.eqb_refl.
    change (EV_SAMPLE =? EV_SEND) with false.
    rewrite rd8_fld in Hnk by (done || read_lia). injection Hnk as <-.
    cbn [andM mbind option_bind andb]. event_all Hb.
  - apply Z.eqb_neq in E, E'. rewrite E, E'. done.
Qed.

Lemma parse_second_performs : performs second_step (parse_second g).
Proof.
  intros r e rest Hwf Hr. unfold parse_second. rewrite rd_ts by done. cbn [mbind option_bind].
  destruct Hwf as (Hts & [Hid _] & Hp & Hf).
  destruct (framed_enough _ _ Hf Hp Hid) as (_ & _ & Hw & Hwk & _ & Hre & _).
  assert (Hb : Forall is_byte (ev_payload e ++ rest)) by by apply Forall_app.
  unfold second_step, is_recv, is_wait, is_wakeup, tid_is, record_wait, wait_lr.
  destruct (sendFound r); cbn [negb]; [|done].
  destruct (decide (ev_id e = EV_RECV)) as [E|E]; [|destruct (decide (ev_id e = EV_WAIT)) as [E'|E'];
    [|destruct (decide (ev_id e = EV_WAKEUP)) as [E''|E'']]].
  - specialize (Hre E). rewrite E, Z.eqb_refl.
    change (EV_RECV =? EV_WAIT) with false. change (EV_RECV =? EV_WAKEUP) with false. event_all Hb.
  - destruct (Hw E') as (nk & Hnk & Hlen). rewrite E', Z.eqb_refl.
    change (EV_WAIT =? EV_RECV) with false. change (EV_WAIT =? EV_WAKEUP) with false.
    rewrite rd8_fld in Hnk by (done || read_lia). injection Hnk as <-.
    cbn [andM mbind option_bind andb]. destruct (waitFound r); cbn [negb]; event_all Hb.
  - specialize (Hwk E''). rewrite E'', Z.eqb_refl.
    change (EV_WAKEUP =? EV_WAIT) with false. change (EV_WAKEUP =? EV_RECV) with false.
    cbn [andM mbind option_bind andb]. event_all Hb.
  - apply Z.eqb_neq in E, E', E''. rewrite E, E', E''. done.
Qed.
End views.

(** ** The walk sees the events *)

(** A channel: whole events and the beginning of one more. *)
Definition stream (es : list event) (tail : list Z) : list Z := (es ≫= encode) ++ tail.
Definition truncated (tail : list Z) : Prop :=
  ∃ e k, wf_event e ∧ (k < length (encode e))%nat ∧ tail = take k (encode e).

Lemma length_encode e : length (encode e) = (5 + length (ev_payload e))%nat.
Proof. unfold encode. rewrite length_app, length_le_split. simpl. lia. Qed.

Lemma encode_bytes e : wf_event e → Forall is_byte (encode e).
Proof.
  intros (_ & Hid & Hp & _). unfold encode. cbn [le_split app].
  do 4 (apply Forall_cons; split; [apply Z.mod_pos_bound; lia|]). by apply Forall_cons.
Qed.

Lemma drop_encode pre e rest : drop (length pre + 5) (pre ++ encode e ++ rest) = ev_payload e ++ rest.
Proof.
  rewrite drop_app_add. unfold encode. rewrite <- app_assoc. cbn [app].
  rewrite cons_middle, app_assoc. by rewrite drop_app_length' by (rewrite length_app, length_le_split; done).
Qed.

Lemma lookup_encode pre e rest : (pre ++ encode e ++ rest) !! (length pre + 4)%nat = Some (ev_id e).
Proof.
  unfold encode. rewrite <- app_assoc. cbn [app]. rewrite app_assoc.
  apply list_lookup_middle. by rewrite length_app, length_le_split.
Qed.

Lemma rd16_take p a o : (o + 2 ≤ a)%nat → rd16 (take a p) o = rd16 p o.
Proof. intros Hl. unfold rd16. by rewrite !lookup_take_lt by lia. Qed.

Lemma prof_urecEnd_take p a o : prof_urecEnd (take a p) a o = prof_urecEnd p a o.
Proof.
  unfold prof_urecEnd. case_match eqn:E; [done|]. apply Nat.ltb_ge in E.
  rewrite lookup_take_lt by lia. destruct (p !! _) as [nu|]; [|done]. cbn [mbind option_bind].
  case_match eqn:E2; [done|]. apply Nat.ltb_ge in E2. by rewrite rd16_take by lia.
Qed.

(** Sizes depend only on the bytes announced as available. *)
Lemma prof_evSize_take id p a : prof_evSize id (take a p) a = prof_evSize id p a.
Proof.
  unfold prof_evSize. case_match eqn:Es; [|case_match eqn:Ew; [|done]].
  - case_match eqn:E; [done|]. apply Nat.ltb_ge in E. rewrite lookup_take_lt by read_lia.
    destruct (p !! _); [|done]. apply prof_urecEnd_take.
  - case_match eqn:E; [done|]. apply Nat.ltb_ge in E. rewrite lookup_take_lt by read_lia.
    destruct (p !! _); [|done]. apply prof_urecEnd_take.
Qed.

Section walks.
Context {S : Type} (step : S → event → S) (body : S → list Z → Z → list Z → nat → option S).
Context (Hbody : performs step body).

Lemma ev_loop_tail pre tail fuel s :
  truncated tail → (0 < fuel)%nat → ev_loop body fuel (pre ++ tail) (length pre) s = Some s.
Proof using Type.
  intros (e & k & Hwf & Hk & ->) Hf. destruct fuel as [|fuel]; [lia|]. cbn [ev_loop].
  case_match eqn:E; [|done]. apply Nat.leb_le in E. rewrite length_app, length_take in E.
  rewrite length_encode in *.
  assert (Eid : (pre ++ take k (encode e)) !! (length pre + 4)%nat = Some (ev_id e)).
  { rewrite lookup_app_r, lookup_take_lt by lia. rewrite <- (lookup_encode pre e []), app_nil_r.
    by rewrite lookup_app_r by lia. }
  rewrite Eid. cbn [mbind option_bind].
  assert (Ep : drop (length pre + 5) (pre ++ take k (encode e)) = take (k - 5) (ev_payload e)).
  { by rewrite drop_app_add, skipn_firstn_comm. }
  rewrite Ep. replace (length _ - _ - 5)%nat with (k - 5)%nat
    by (rewrite length_app, length_take, length_encode; lia).
  destruct Hwf as (_ & [Hid _] & Hp & Hfr).
  pose proof (prof_evSize_framed _ _ [] (k - 5) Hfr) as Hsz. rewrite app_nil_r in Hsz.
  rewrite prof_evSize_take, Hsz, (proj2 (Nat.ltb_lt _ _)) by (done || lia). done.
Qed.

Lemma ev_loop_stream es tail pre fuel s :
  Forall wf_event es → truncated tail → Forall is_byte tail → (length (stream es tail) < fuel)%nat →
  ev_loop body fuel (pre ++ stream es tail) (length pre) s = Some (foldl step s es).
Proof using Hbody.
  intros Hes Ht Htb. revert pre fuel s. induction Hes as [|e es Hwf Hes IH]; intros pre fuel s Hf.
  { apply ev_loop_tail; [done|lia]. }
  assert (Hst : stream (e :: es) tail = encode e ++ stream es tail)
    by (unfold stream; by rewrite bind_cons, app_assoc).
  assert (Hrest : Forall is_byte (stream es tail)).
  { unfold stream. apply Forall_app. split; [|done]. clear -Hes. induction Hes as [|e' es' He' _ IH'];
      [constructor|]. rewrite bind_cons. apply Forall_app. split; [by apply encode_bytes|done]. }
  rewrite Hst in *. set (rest := stream es tail) in *. rewrite length_app, length_encode in Hf.
  destruct fuel as [|fuel]; [lia|]. cbn [ev_loop].
  rewrite (proj2 (Nat.leb_le _ _)) by (rewrite !length_app, length_encode; lia).
  rewrite lookup_encode. cbn [mbind option_bind]. rewrite drop_encode.
  replace (length _ - _ - 5)%nat with (length (ev_payload e ++ rest))
    by (rewrite !length_app, length_encode; lia).
  pose proof Hwf as (_ & [Hid _] & Hp & Hfr).
  rewrite prof_evSize_framed by (done || by apply Forall_app).
  rewrite (proj2 (Nat.ltb_ge _ _)) by (rewrite length_app; lia). cbn [mbind option_bind].
  assert (Hne : length (ev_payload e) ≠ O).
  { destruct Hfr as [? n ? Hn Hl|]; [destruct (fixed_sizes_lookup _ _ Hn) as (_ & ? & _); lia|].
    rewrite length_app. simpl. lia. }
  rewrite (proj2 (Nat.eqb_neq _ _)) by done. rewrite drop_app_length, Hbody by done.
  cbn [mbind option_bind foldl]. rewrite app_assoc.
  replace (length pre + (5 + length (ev_payload e)))%nat with (length (pre ++ encode e))
    by (rewrite length_app, length_encode; lia).
  apply IH. fold rest. lia.
Qed.

(** A recorded channel: its events and the unfinished rest. *)
Definition recorded (c : list Z) (es : list event) : Prop :=
  ∃ tail, Forall wf_event es ∧ truncated tail ∧ Forall is_byte tail ∧ c = stream es tail.

Lemma chan_loop_recorded cs ess s :
  Forall2 recorded cs ess → chan_loop body cs s = Some (foldl step s (concat ess)).
Proof using Hbody.
  intros H. revert s. induction H as [|c es cs ess (tail & He & Ht & Hb & ->) _ IH]; intros s; [done|].
  cbn [chan_loop concat]. rewrite (ev_loop_stream es tail [] _ s) by (done || simpl; lia).
  cbn [mbind option_bind]. by rewrite IH, foldl_app.
Qed.
End walks.

(** ** What prof_parse reports *)

Section reports.
Context (g : prof_common_t) (loop_addr : Z).

Definition count_events (f : event → bool) (es : list event) : Z := Z.of_nat (length (List.filter f es)).

Lemma filter_snoc f es (e : event) :
  List.filter f (es ++ [e]) = if f e then List.filter f es ++ [e] else List.filter f es.
Proof. rewrite List.filter_app. simpl. destruct (f e); [done|by rewrite app_nil_r]. Qed.

Lemma existsb_snoc f es (e : event) : existsb f (es ++ [e]) = existsb f es || f e.
Proof. rewrite existsb_app. simpl. by rewrite orb_false_r. Qed.

Lemma u32_succ_count f es e : f e = true →
  u32 (u32 (count_events f es) + 1) = u32 (count_events f (es ++ [e])).
Proof.
  intros E. unfold count_events. rewrite filter_snoc, E, length_app. simpl length.
  unfold u32, uwrap. rewrite Zplus_mod_idemp_l. f_equal. lia.
Qed.

Lemma count_skip f es e : f e = false → count_events f (es ++ [e]) = count_events f es.
Proof. intros E. unfold count_events. by rewrite filter_snoc, E. Qed.

Definition busy_in_loop (e : event) : bool := is_busy g e && in_loop loop_addr e.

(** The first pass: how often the busy thread was sampled, how often in its
    loop, and the last message the client sent to the port. *)
Record first_report (es : list event) (r : prof_result_t) : Prop := {
  fr_samples : busySamples r = u32 (count_events (is_busy g) es);
  fr_inloop : busyInLoop r = u32 (count_events busy_in_loop es);
  fr_found : sendFound r = existsb (is_send g) es;
  fr_send : ∀ s, last (List.filter (is_send g) es) = Some s →
    r_mid r = fld (ev_payload s) 10 4 ∧ sendTs r = ev_ts s;
}.

Definition nothing_found (r : prof_result_t) : Prop :=
  recvFound r = false ∧ waitFound r = false ∧ wakeFound r = false ∧ wakeTs r = 0.

Lemma send_not_busy e : is_send g e = true → is_busy g e = false.
Proof.
  unfold is_send, is_busy. intros [[->%Z.eqb_eq _]%andb_true_iff _]%andb_true_iff. done.
Qed.

Lemma first_pass es :
  let r := foldl (first_step g loop_addr) zero_result es in first_report es r ∧ nothing_found r.
Proof.
  induction es as [|e es [[Hs Hl Hf Hm] Hn]] using rev_ind; [split; [constructor; done|done]|].
  rewrite foldl_snoc. set (r := foldl _ _ es) in *. unfold first_step.
  destruct (is_send g e) eqn:E1.
  - assert (is_busy g e = false) as E2 by by apply send_not_busy.
    split; [|done]. constructor; simpl.
    + by rewrite count_skip.
    + rewrite count_skip; [done|]. unfold busy_in_loop. by rewrite E2.
    + by rewrite existsb_snoc, E1, orb_true_r.
    + intros s. rewrite filter_snoc, E1, last_snoc. by intros [= <-].
  - assert (Hf' : existsb (is_send g) (es ++ [e]) = existsb (is_send g) es)
      by by rewrite existsb_snoc, E1, orb_false_r.
    destruct (is_busy g e) eqn:E2; (split; [|done]); constructor; simpl;
      rewrite ?Hf'; try done; try (rewrite filter_snoc, E1; done).
    + rewrite Hs. by apply u32_succ_count.
    + destruct (in_loop loop_addr e) eqn:E3.
      * rewrite Hl. apply u32_succ_count. unfold busy_in_loop. by rewrite E2, E3.
      * rewrite count_skip; [done|]. unfold busy_in_loop. by rewrite E2, E3.
    + by rewrite count_skip.
    + rewrite count_skip; [done|]. unfold busy_in_loop. by rewrite E2.
Qed.

(** The second pass: who received the message, the first wait of the client
    from the sending on, and its latest wakeup over all channels. *)
Record second_report (mid ts : Z) (es : list event) (r : prof_result_t) : Prop := {
  sr_recv : recvFound r = existsb (is_recv mid) es;
  sr_recvTid : ∀ e, last (List.filter (is_recv mid) es) = Some e → recvTid r = fld (ev_payload e) 0 2;
  sr_wait : waitFound r = existsb (is_wait g ts) es;
  sr_waited : ∀ e, head (List.filter (is_wait g ts) es) = Some e →
    waitFlags r = fld (ev_payload e) WAIT_FLAGS 1 ∧ waitBlocked r = fld (ev_payload e) WAIT_BLOCKED 4 ∧
    waitSyscall r = fld (ev_payload e) WAIT_SYSCALL 2 ∧ waitArg0 r = fld (ev_payload e) WAIT_ARGS 8 ∧
    waitLr r = wait_lr e;
  sr_wake : wakeFound r = existsb (is_wakeup g ts) es;
  sr_latest : ∀ e, e ∈ es → is_wakeup g ts e = true → ev_ts e ≤ wakeTs r;
  sr_waker : wakeFound r = true → ∃ e, e ∈ es ∧ is_wakeup g ts e = true ∧ ev_ts e = wakeTs r ∧
    waker r = fld (ev_payload e) 2 2 ∧ wakeCause r = fld (ev_payload e) 4 1;
}.

(** The members of the first pass, kept by the second. *)
Definition same_first (r r' : prof_result_t) : Prop :=
  busySamples r' = busySamples r ∧ busyInLoop r' = busyInLoop r ∧ sendFound r' = sendFound r ∧
  r_mid r' = r_mid r ∧ sendTs r' = sendTs r.

Lemma second_step_first r r' e : same_first r r' → same_first r (second_step g r' e).
Proof. intros H. unfold second_step. by repeat case_match. Qed.

Lemma second_pass_first r es : same_first r (foldl (second_step g) r es).
Proof.
  induction es as [|e es IH] using rev_ind; [done|]. rewrite foldl_snoc. by apply second_step_first.
Qed.

Lemma head_snoc {A} (l : list A) x : head (l ++ [x]) = match head l with Some y => Some y | None => Some x end.
Proof. by destruct l. Qed.

Lemma head_filter_none f es : existsb f es = false → List.filter f es = ([] : list event).
Proof.
  induction es as [|e es IH]; [done|]. cbn [existsb List.filter]. intros [-> ?]%orb_false_iff. auto.
Qed.
Lemma head_filter_some f es : existsb f es = true → ∃ e : event, head (List.filter f es) = Some e.
Proof.
  induction es as [|e es IH]; [done|]. cbn [existsb List.filter]. destruct (f e); [simpl; eauto|auto].
Qed.

Lemma head_filter_in f es : existsb f es = true →
  ∃ e : event, head (List.filter f es) = Some e ∧ e ∈ es ∧ f e = true.
Proof.
  intros [e He]%head_filter_some. exists e. split; [done|].
  apply head_Some_elem_of, list_elem_of_In, filter_In in He. by rewrite list_elem_of_In.
Qed.
Lemma last_filter_some f es : existsb f es = true →
  ∃ e : event, last (List.filter f es) = Some e ∧ e ∈ es ∧ f e = true.
Proof.
  intros [e He]%head_filter_some. destruct (last (List.filter f es)) as [x|] eqn:Ex.
  - exists x. split; [done|]. apply last_Some_elem_of, list_elem_of_In, filter_In in Ex.
    by rewrite list_elem_of_In.
  - apply last_None in Ex. by rewrite Ex in He.
Qed.

Lemma ids_disjoint mid ts e :
  (is_recv mid e = true → is_wait g ts e = false ∧ is_wakeup g ts e = false) ∧
  (is_wait g ts e = true → is_wakeup g ts e = false).
Proof.
  unfold is_recv, is_wait, is_wakeup. split.
  - intros [->%Z.eqb_eq _]%andb_true_iff. done.
  - intros [[->%Z.eqb_eq _]%andb_true_iff _]%andb_true_iff. done.
Qed.

(** An event that is none of the three kinds leaves the report as it is. *)
Lemma second_report_skip mid ts es r e :
  second_report mid ts es r → is_recv mid e = false →
  (is_wait g ts e = true → waitFound r = true) →
  (is_wakeup g ts e = true → wakeFound r = true ∧ ev_ts e ≤ wakeTs r) →
  second_report mid ts (es ++ [e]) r.
Proof.
  intros [Hr Hrt Hw Hwd Hk Hkl Hkw] E1 E2 E3. constructor.
  - by rewrite existsb_snoc, E1, orb_false_r.
  - by rewrite filter_snoc, E1.
  - rewrite existsb_snoc, <- Hw. destruct (is_wait g ts e); [rewrite E2 by done; done|by rewrite orb_false_r].
  - rewrite filter_snoc. destruct (is_wait g ts e); [|done]. rewrite head_snoc.
    destruct (head_filter_some (is_wait g ts) es) as [x Hx]; [rewrite <- Hw; auto|]. rewrite Hx. intros y [= <-]. auto.
  - rewrite existsb_snoc, <- Hk. destruct (is_wakeup g ts e); [|by rewrite orb_false_r].
    by rewrite (proj1 (E3 eq_refl)).
  - intros x [Hx| ->%list_elem_of_singleton]%elem_of_app Hxk; [auto|]. by apply E3.
  - intros Hf. destruct (Hkw Hf) as (x & ? & ?). exists x. split; [apply elem_of_app; auto|done].
Qed.

Lemma second_pass r0 es :
  sendFound r0 = true → nothing_found r0 → Forall (λ e, 0 ≤ ev_ts e) es →
  second_report (r_mid r0) (sendTs r0) es (foldl (second_step g) r0 es).
Proof.
  intros Hs (Hn1 & Hn2 & Hn3 & Hn4) Hes.
  induction es as [|e es IH] using rev_ind.
  { constructor; simpl; try done; intros; try (rewrite Hn3 in *; done). by apply elem_of_nil in H. }
  apply Forall_app in Hes as [Hes He]. rewrite Forall_singleton in He. specialize (IH Hes).
  rewrite foldl_snoc. pose proof (second_pass_first r0 es) as (_ & _ & Hsf & Hmid & Hts).
  set (r := foldl _ _ es) in *. set (mid := r_mid r0) in *. set (ts := sendTs r0) in *.
  unfold second_step. rewrite Hsf, Hs, Hmid, Hts. cbn [negb].
  destruct (ids_disjoint mid ts e) as [Hd1 Hd2].
  destruct (is_recv mid e) eqn:E1; [|destruct (is_wait g ts e && negb (waitFound r)) eqn:E2;
    [|destruct (is_wakeup g ts e && (wakeTs r <=? ev_ts e)) eqn:E3]].
  - destruct (Hd1 eq_refl) as [E2 E3]. destruct IH as [Hr Hrt Hw Hwd Hk Hkl Hkw].
    constructor; simpl; rewrite ?existsb_snoc, ?filter_snoc, ?E1, ?E2, ?E3, ?orb_true_r, ?orb_false_r; try done.
    + intros x. rewrite last_snoc. by intros [= <-].
    + intros x [Hx| ->%list_elem_of_singleton]%elem_of_app Hxk; [auto|]. by rewrite E3 in Hxk.
    + intros Hf. destruct (Hkw Hf) as (x & ? & ?). exists x. split; [apply elem_of_app; auto|done].
  - apply andb_true_iff in E2 as [E2 E2'%negb_true_iff]. pose proof (Hd2 E2) as E3.
    destruct IH as [Hr Hrt Hw Hwd Hk Hkl Hkw].
    constructor; simpl; rewrite ?existsb_snoc, ?filter_snoc, ?E1, ?E2, ?E3, ?orb_true_r, ?orb_false_r; try done.
    + rewrite (head_filter_none (is_wait g ts) es) by by rewrite <- Hw. by intros x [= <-].
    + intros x [Hx| ->%list_elem_of_singleton]%elem_of_app Hxk; [auto|]. by rewrite E3 in Hxk.
    + intros Hf. destruct (Hkw Hf) as (x & ? & ?). exists x. split; [apply elem_of_app; auto|done].
  - apply andb_true_iff in E3 as [E3 E3'%Z.leb_le].
    assert (is_wait g ts e = false) as E4
      by (destruct (is_wait g ts e) eqn:E4; [|done]; by rewrite (Hd2 eq_refl) in E3).
    destruct IH as [Hr Hrt Hw Hwd Hk Hkl Hkw].
    constructor; simpl; rewrite ?existsb_snoc, ?filter_snoc, ?E1, ?E3, ?E4, ?orb_true_r, ?orb_false_r; try done.
    + intros x [Hx| ->%list_elem_of_singleton]%elem_of_app Hxk; [|done]. specialize (Hkl x Hx Hxk). lia.
    + intros _. exists e. split; [apply elem_of_app; right; by apply list_elem_of_singleton|done].
  - apply second_report_skip; [done..| |].
    + intros E4. rewrite E4 in E2. by apply negb_false_iff in E2.
    + intros E4. rewrite E4 in E3. apply Z.leb_gt in E3.
      destruct (wakeFound r) eqn:E5; [split; [done|lia]|]. exfalso.
      assert (wakeTs r = 0) as E6; [|lia]. clear -E5 Hn3 Hn4. subst r.
      induction es as [|x es IH] using rev_ind; [done|]. rewrite foldl_snoc in *.
      set (r := foldl _ _ es) in *. unfold second_step in *. repeat case_match; simpl in *; auto; done.
Qed.

Lemma second_pass_nothing r es : sendFound r = false → foldl (second_step g) r es = r.
Proof.
  intros Hs. induction es as [|e es IH]; [done|]. cbn [foldl].
  assert (second_step g r e = r) as ->; [|done]. unfold second_step. by rewrite Hs.
Qed.

Lemma recorded_ts cs ess : Forall2 recorded cs ess → Forall (λ e, 0 ≤ ev_ts e) (concat ess).
Proof.
  induction 1 as [|c es cs ess (tail & He & _) _ IH]; [constructor|]. cbn [concat].
  apply Forall_app. split; [|done]. eapply Forall_impl; [done|]. by intros e [[? _] _].
Qed.

(** Both passes, on the events of the channels. *)
Lemma prof_analyse_reports_aux ess :
  Forall2 recorded (take (nchans g) (chan g)) ess →
  let es := concat ess in
  ∃ r, prof_analyse g loop_addr = Some r ∧ first_report es r ∧
    (sendFound r = true → second_report (r_mid r) (sendTs r) es r) ∧
    (sendFound r = false → nothing_found r).
Proof.
  intros Hrec es. unfold prof_analyse, prof_parse. cbn [Z.eqb].
  rewrite (chan_loop_recorded _ _ (parse_first_performs g loop_addr) _ ess) by done.
  cbn [mbind option_bind].
  rewrite (chan_loop_recorded _ _ (parse_second_performs g) _ ess) by done. fold es.
  destruct (first_pass es) as [[Hs Hl Hf Hm] Hn]. set (r1 := foldl _ zero_result es) in *.
  pose proof (second_pass_first r1 es) as (E1 & E2 & E3 & E4 & E5). eexists. split; [done|].
  set (r2 := foldl _ r1 es) in *. split_and!.
  - constructor; rewrite ?E1, ?E2, ?E3, ?E4, ?E5; done.
  - rewrite E3, E4, E5. intros Hsf. apply second_pass; [done..|].
    by apply recorded_ts in Hrec.
  - intros Hsf. rewrite E3 in Hsf. unfold r2. by rewrite second_pass_nothing.
Qed.
(** C30: Prof_parse attributes what a trace shows. On channels that hold recorded events (and, at the
    end, the beginning of one more), the two passes return counts of the busy thread's user-mode
    samples, all and those inside its loop; the client's last message to the port; for that
    message, the thread that received it, the client's first wait from then on with its flags,
    length, syscall, argument and return address, and the latest wakeup of the client whichever
    channel it is in. First and last are in the order in which the channels are walked, one after
    the other. *)
Theorem prof_analyse_reports ess :
  Forall2 recorded (take (nchans g) (chan g)) ess →
  let es := concat ess in
  ∃ r, prof_analyse g loop_addr = Some r ∧ first_report es r ∧
    (sendFound r = true → second_report (r_mid r) (sendTs r) es r) ∧
    (sendFound r = false → nothing_found r).
Proof. apply prof_analyse_reports_aux. Qed.
End reports.

(** ** The verdicts of the tests *)

Section test_verdicts.
Context `{Target} (g : prof_common_t) (loop_addr : Z).

(** The test busy_loop_attributed judges the trace: after a recording that succeeded it passes
    exactly when the channels hold at least 50 user-mode samples of the busy thread and at least
    nine in ten of them have their pc inside the loop. *)
Theorem busy_loop_attributed_judges ess :
  Forall2 recorded (take (nchans g) (chan g)) ess →
  Z.of_nat (length (concat ess)) < 2 ^ 28 →
  let n := count_events (is_busy g) (concat ess) in
  let m := count_events (busy_in_loop g loop_addr) (concat ess) in
  ∃ r, prof_analyse g loop_addr = Some r ∧
    verdict (busy_loop_attributed 0 r) ((50 <=? n) && (9 * n <=? 10 * m)).
Proof.
  intros Hrec Hlen n m. destruct (prof_analyse_reports_aux g loop_addr ess Hrec) as (r & Hr & [Hs Hl _ _] & _).
  exists r. split; [done|]. unfold busy_loop_attributed.
  assert (0 ≤ n < 2 ^ 28) by (subst n; split; [unfold count_events; lia|];
    pose proof (filter_length_le (is_busy g) (concat ess)); unfold count_events; lia).
  assert (0 ≤ m < 2 ^ 28) by (subst m; split; [unfold count_events; lia|];
    pose proof (filter_length_le (busy_in_loop g loop_addr) (concat ess)); unfold count_events; lia).
  verdict_tac. fold n in Hs. fold m in Hl. rewrite Hs, Hl. unfold u32, PROF_MIN_SAMPLES.
  rewrite !(uwrap_small 32 n), !(uwrap_small 32 m), (uwrap_small 32 (n * 9)),
    (uwrap_small 32 (m * 10)), Z.eqb_refl by lia.
  by rewrite (Z.mul_comm n), (Z.mul_comm m).
Qed.

(** A pass of blocked_send_attributed means what it says: the trace holds a message of the
    client to the port, a receipt of that message by the server, a deferred wait of the client
    not before it, in msgSend on that port, called from the client's code and at least 250 ms
    long, and its latest wakeup is an explicit one by the server. *)
Theorem blocked_send_attributed_sound ess client_addr sc_msgSend w :
  Forall2 recorded (take (nchans g) (chan g)) ess → undecided w →
  ∀ r, prof_analyse g loop_addr = Some r →
  passes (blocked_send_attributed 0 r g client_addr sc_msgSend) w →
  let es := concat ess in
  ∃ s rc wt wk, s ∈ es ∧ rc ∈ es ∧ wt ∈ es ∧ wk ∈ es ∧
    is_send g s = true ∧
    is_recv (fld (ev_payload s) 10 4) rc = true ∧
    u64 (fld (ev_payload rc) 0 2) = u64 (serverTid g) ∧
    is_wait g (ev_ts s) wt = true ∧
    u64 (fld (ev_payload wt) WAIT_ARGS 8) = u64 (port g) ∧
    u64 (fld (ev_payload wt) WAIT_SYSCALL 2) = u64 sc_msgSend ∧
    client_addr < wait_lr wt ∧
    Z.testbit (fld (ev_payload wt) WAIT_FLAGS 1) 1 = true ∧
    250000 ≤ fld (ev_payload wt) WAIT_BLOCKED 4 ∧
    is_wakeup g (ev_ts s) wk = true ∧
    u64 (fld (ev_payload wk) 2 2) = u64 (serverTid g) ∧
    (∀ e, e ∈ es → is_wakeup g (ev_ts s) e = true → ev_ts e ≤ ev_ts wk).
Proof.
  intros Hrec Hw r Hr Hpass es.
  destruct (prof_analyse_reports_aux g loop_addr ess Hrec) as (r' & Hr' & [_ _ Hf Hs] & H2 & _).
  rewrite Hr in Hr'. injection Hr' as <-. fold es in Hf, Hs, H2.
  eassert (Hv : verdict (blocked_send_attributed 0 r g client_addr sc_msgSend) _)
    by (unfold blocked_send_attributed; eauto 50 with verdict).
  apply (verdict_passes _ _ _ Hv Hw) in Hpass. clear Hv.
  rewrite !andb_true_iff, !Z.eqb_eq in Hpass.
  destruct Hpass as (_ & _ & Esf & Erf & Ert & Ewf & Earg & Esc & [Elr _] & Ekf & Ewk & _ & Efl & Ebl).
  destruct (H2 Esf) as [Hr1 Hr2 Hw1 Hw2 Hk1 Hk2 Hk3].
  destruct (last_filter_some (is_send g) es) as (s & Hls & Hins & Es); [by rewrite <- Hf|].
  destruct (Hs s Hls) as [Emid Ets]. rewrite Emid, Ets in *.
  destruct (last_filter_some (is_recv (fld (ev_payload s) 10 4)) es) as (rc & Hlr & Hinr & Erc);
    [by rewrite <- Hr1|].
  destruct (head_filter_in (is_wait g (ev_ts s)) es) as (wt & Hlw & Hinw & Ewt); [by rewrite <- Hw1|].
  destruct (Hw2 wt Hlw) as (Ef & Eb & Esy & Ea & El). rewrite Ef, Eb, Esy, Ea, El, (Hr2 rc Hlr) in *.
  destruct (Hk3 Ekf) as (wk & Hink & Ewks & Ekts & Ewkr & _). rewrite Ewkr in *.
  exists s, rc, wt, wk. split_and!; try done;
    try (symmetry; first [exact Ert | exact Earg | exact Esc | exact Ewk]).
  - by apply Z.ltb_lt.
  - apply negb_true_iff, Z.eqb_neq in Efl. destruct (Z.testbit _ 1) eqn:Et; [done|]. exfalso. apply Efl.
    apply Z.bits_inj'. intros i Hi. rewrite Z.land_spec, Z.bits_0. change 2 with (2 ^ 1).
    rewrite Z.pow2_bits_eqb by lia. destruct (Z.eqb_spec 1 i) as [<-|]; [by rewrite Et|by rewrite andb_false_r].
  - apply Z.leb_le in Ebl. unfold PROF_HOLD_MS in Ebl. lia.
  - rewrite Ekts. done.
Qed.
End test_verdicts.

(** ** Draining the channels *)

(** perf_read stores at most the size of its buffer and says how much. *)
Class PerfLaws `{Perf} := {
  perf_read_size : ∀ k c got data k',
    perf_read k c = ((got, data), k') → 0 < got → got ≤ 65536 ∧ Z.of_nat (length data) = got;
}.

Section draining.
Context `{PerfLaws}.

Lemma drain_chan_appends n c got total buf k res total' buf' k' :
  drain_chan n c got total buf k = (res, total', buf', k') →
  ∃ new, buf' = buf ++ new ∧ total' = total + Z.of_nat (length new) ∧
    Z.of_nat (length new) ≤ Z.of_nat n * 65536.
Proof.
  revert got total buf k. induction n as [|n IH]; intros got total buf k; cbn [drain_chan].
  { intros [= <- <- <- <-]. exists []. rewrite app_nil_r. split; [done|]. simpl. lia. }
  destruct (perf_read k c) as [[got1 data] k1] eqn:Er. case_match eqn:Eg; cycle 1.
  { intros [= <- <- <- <-]. exists []. rewrite app_nil_r. split; [done|]. simpl. lia. }
  apply Z.ltb_lt in Eg. destruct (perf_read_size _ _ _ _ _ Er Eg) as [Hle Hlen].
  destruct (alloc k1 _) as [ok k2]. destruct ok; cbn [negb]; cycle 1.
  { intros [= <- <- <- <-]. exists []. rewrite app_nil_r. split; [done|]. simpl. lia. }
  intros (new & -> & -> & Hnew)%IH. exists (take (Z.to_nat got1) data ++ new).
  rewrite app_assoc, length_app, length_take. split; [done|]. lia.
Qed.

Lemma length_concat_insert (cs : list (list Z)) c buf new :
  cs !! c = Some buf →
  Z.of_nat (length (concat (<[c := buf ++ new]> cs))) = Z.of_nat (length (concat cs)) + Z.of_nat (length new).
Proof.
  intros Hc. rewrite <- (take_drop_middle cs c buf Hc) at 2.
  rewrite insert_take_drop by by eapply lookup_lt_Some.
  rewrite !concat_app. cbn [concat]. rewrite !length_app. lia.
Qed.

Definition grown (b b' : list Z) : Prop := ∃ new, b' = b ++ new.
#[local] Instance grown_preorder : PreOrder grown.
Proof.
  split; [intros b; exists []; by rewrite app_nil_r|].
  intros x y z [n1 ->] [n2 ->]. exists (n1 ++ n2). by rewrite app_assoc.
Qed.

Lemma drain_chans_appends m c got total cs k ret cs' k' :
  drain_chans m c got total cs k = (ret, cs', k') → (c + m ≤ length cs)%nat → 0 ≤ total →
  Forall2 grown cs cs' ∧ (∀ i, (c + m ≤ i)%nat → cs' !! i = cs !! i) ∧
  ret ≤ total + Z.of_nat m * 2 ^ 22 ∧
  (0 ≤ ret → ret = total + Z.of_nat (length (concat cs')) - Z.of_nat (length (concat cs))).
Proof.
  revert c got total cs k. induction m as [|m IH]; intros c got total cs k; cbn [drain_chans].
  { intros [= <- <- <-] Hl Ht. split_and!; [done|done|lia|lia]. }
  intros Hrun Hl Ht. destruct (lookup_lt_is_Some_2 cs c) as [buf Hc]; [lia|].
  rewrite Hc in Hrun. change (default [] (Some buf)) with buf in Hrun.
  destruct (drain_chan 64 c got total buf k) as [[[res total1] buf1] k1] eqn:Ed. cbn beta iota in Hrun.
  destruct (drain_chan_appends _ _ _ _ _ _ _ _ _ _ Ed) as (new & -> & -> & Hnew).
  pose proof (length_concat_insert cs c buf new Hc) as Hlen.
  assert (Hgrow : Forall2 grown cs (<[c := buf ++ new]> cs)).
  { apply Forall2_same_length_lookup_2; [by rewrite length_insert|]. intros i x y Hx Hy.
    destruct (decide (i = c)) as [->|].
    - rewrite list_lookup_insert_eq in Hy by lia. rewrite Hc in Hx. exists new. congruence.
    - rewrite list_lookup_insert_ne in Hy by done. replace y with x by congruence. done. }
  assert (Hout : ∀ i, (c + S m ≤ i)%nat → <[c := buf ++ new]> cs !! i = cs !! i)
    by (intros; by rewrite list_lookup_insert_ne by lia).
  assert (Herr : ∀ e, e < 0 → (e, <[c := buf ++ new]> cs, k1) = (ret, cs', k') →
    Forall2 grown cs cs' ∧ (∀ i, (c + S m ≤ i)%nat → cs' !! i = cs !! i) ∧
    ret ≤ total + Z.of_nat (S m) * 2 ^ 22 ∧
    (0 ≤ ret → ret = total + Z.of_nat (length (concat cs')) - Z.of_nat (length (concat cs)))).
  { intros e He [= <- <- <-]. split_and!; [done|done|lia|lia]. }
  destruct res as [got1|]; [|apply (Herr (- ENOMEM)); [unfold ENOMEM; lia|exact Hrun]].
  destruct (got1 <? 0) eqn:Eg; [apply Z.ltb_lt in Eg; exact (Herr got1 Eg Hrun)|].
  apply IH in Hrun as (Hg & Ho & Hb & Hr); [|rewrite length_insert; lia|lia].
  split_and!; [|intros i Hi; by rewrite Ho, Hout by lia|lia|intros Hr0; rewrite Hr by done; lia].
  by etrans.
Qed.

(** Prof_drain only ever appends: every channel keeps what it had as a prefix, channels beyond
    nchans are untouched, a successful pass returns exactly the number of bytes added, and that
    number, at most 2^22 per channel, fits the int it is summed in. *)
Theorem prof_drain_appends g k ret g' k' :
  prof_drain g k = (ret, g', k') → length (chan g) = PROF_NCHANS_MAX → (nchans g ≤ PROF_NCHANS_MAX)%nat →
  Forall2 grown (chan g) (chan g') ∧
  (∀ c, (nchans g ≤ c)%nat → chan g' !! c = chan g !! c) ∧
  ret ≤ Z.of_nat (nchans g) * 2 ^ 22 ∧ ret < 2 ^ 31 ∧
  (0 ≤ ret → ret = Z.of_nat (length (concat (chan g'))) - Z.of_nat (length (concat (chan g)))).
Proof.
  intros Hd Hlen Hn. unfold PROF_NCHANS_MAX in *. unfold prof_drain in Hd.
  destruct (alloc k _) as [ok k1]. destruct ok; cbn [negb] in Hd; cycle 1.
  { injection Hd as <- <- <-. unfold ENOMEM. split_and!; [done|done|lia|lia|lia]. }
  destruct (drain_chans _ _ _ _ _ _) as [[ret1 cs] k2] eqn:E. injection Hd as <- <- <-.
  destruct (drain_chans_appends _ _ _ _ _ _ _ _ _ E) as (Hg & Ho & Hb & Hr); [lia|lia|].
  cbn [chan set_chan]. split_and!; [done| |lia|lia|].
  - intros c Hc. apply Ho. lia.
  - intros Hr0. rewrite Hr by done. lia.
Qed.
End draining.

(** ** A recorded trace *)

Section sample_trace.
#[local] Existing Instance aarch64.

Definition zeros (n : nat) : list Z := replicate n 0.

(** The busy thread is 7, the client 5, the server 6, the port 3; the loop is
    at 4096 and the client's code at 8192. *)
Definition sample_events : list event :=
  [ mkEvent 90 EV_SAMPLE
      ((le_split 2 7 ++ zeros 29) ++ 0 :: [] ++ urec_bytes (le_split 8 4100 ++ zeros 24) 0 [] 0 []);
    mkEvent 100 EV_SEND (le_split 2 5 ++ le_split 4 3 ++ zeros 4 ++ le_split 4 77);
    mkEvent 110 EV_RECV (le_split 2 6 ++ zeros 4 ++ le_split 4 77 ++ zeros 2);
    mkEvent 500 EV_WAKEUP (le_split 2 5 ++ le_split 2 6 ++ [0]);
    mkEvent 510 EV_WAIT
      ((le_split 2 5 ++ [2] ++ zeros 8 ++ le_split 4 300000 ++ le_split 2 9 ++ le_split 8 3 ++ zeros 24) ++
       0 :: [] ++ urec_bytes (zeros 8 ++ le_split 8 8200 ++ zeros 16) 0 [] 0 []) ].
Definition sample_tail : list Z := take 3 (encode (mkEvent 600 EV_STATS (zeros 8))).
Definition sample_prof : prof_common_t :=
  mkProf 3 7 5 6 0 0 (stream sample_events sample_tail :: replicate 63 []) 1.

Lemma sample_bytes l : forallb (λ c, (0 <=? c) && (c <? 256)) l = true → Forall is_byte l.
Proof.
  intros Hl. apply List.Forall_forall. intros x Hx. rewrite forallb_forall in Hl.
  specialize (Hl x Hx). unfold is_byte. lia.
Qed.

Lemma sample_fixed id payload n :
  fixed_sizes !! n = Some (Z.to_nat id, length payload) → framed id payload.
Proof. intros Hn. eapply framed_fixed; [by eapply list_elem_of_lookup_2|done]. Qed.

Lemma sample_events_wf : Forall wf_event sample_events.
Proof.
  assert (Hb : ∀ e, 0 ≤ ev_ts e < 2 ^ 32 → is_byte (ev_id e) →
    forallb (λ c, (0 <=? c) && (c <? 256)) (ev_payload e) = true → framed (ev_id e) (ev_payload e) → wf_event e)
    by (intros; split_and!; [lia|lia|done|by apply sample_bytes|done]).
  assert (H0 : is_byte 0) by (unfold is_byte; lia).
  assert (Hns : 0 ≤ 0 < 65536) by lia.
  refine (Forall_cons_2 _ _ _ _ (Forall_cons_2 _ _ _ _ (Forall_cons_2 _ _ _ _
    (Forall_cons_2 _ _ _ _ (Forall_cons_2 _ _ _ _ (Forall_nil_2 _))))));
    (apply Hb; [cbn [ev_ts]; lia|vm_compute; split; [discriminate|reflexivity]|vm_compute; reflexivity|]);
    cbn [ev_id ev_payload].
  - exact (framed_stack EV_SAMPLE SAMPLE_NK (le_split 2 7 ++ zeros 29) 0 []
      (le_split 8 4100 ++ zeros 24) 0 [] 0 [] (or_introl (conj eq_refl eq_refl))
      eq_refl H0 eq_refl eq_refl H0 eq_refl Hns eq_refl).
  - by apply (sample_fixed _ _ 21).
  - by apply (sample_fixed _ _ 22).
  - by apply (sample_fixed _ _ 20).
  - exact (framed_stack EV_WAIT WAIT_NK (le_split 2 5 ++ [2] ++ zeros 8 ++ le_split 4 300000 ++
      le_split 2 9 ++ le_split 8 3 ++ zeros 24) 0 [] (zeros 8 ++ le_split 8 8200 ++ zeros 16) 0 [] 0 [] (or_intror (conj eq_refl eq_refl))
      eq_refl H0 eq_refl eq_refl H0 eq_refl Hns eq_refl).
Qed.

Lemma sample_recorded : Forall2 recorded (take (nchans sample_prof) (chan sample_prof)) [sample_events].
Proof.
  constructor; [|constructor]. exists sample_tail. split_and!; [apply sample_events_wf| | |done].
  - exists (mkEvent 600 EV_STATS (zeros 8)), 3%nat. split_and!; [|vm_compute; lia|done].
    split_and!; cbn [ev_ts]; [lia|lia|vm_compute; split; [discriminate|reflexivity]| |].
    + by apply sample_bytes.
    + by apply (sample_fixed _ _ 24).
  - by apply sample_bytes.
Qed.

Lemma trace_walks_are_safe_witness :
  Forall (Forall is_byte) (chan sample_prof) ∧ is_Some (prof_parse sample_prof 4096 1 zero_result).
Proof.
  assert (Hb : Forall (Forall is_byte) (chan sample_prof)).
  { constructor; [by apply sample_bytes|]. apply Forall_replicate. constructor. }
  split; [exact Hb|]. exact (proj1 (trace_walks_are_safe sample_prof 4096 1 zero_result 20 21 Hb)).
Defined.

Lemma prof_analyse_reports_witness : ∃ r, prof_analyse sample_prof 4096 = Some r ∧
  first_report sample_prof 4096 sample_events r.
Proof.
  destruct (prof_analyse_reports sample_prof 4096 [sample_events] sample_recorded) as (r & Hr & Hf & _).
  exists r. change (concat [sample_events]) with (sample_events ++ []) in Hf.
  rewrite app_nil_r in Hf. exact (conj Hr Hf).
Defined.

Lemma busy_loop_attributed_judges_witness : ∃ r, prof_analyse sample_prof 4096 = Some r ∧
  verdict (busy_loop_attributed 0 r) false.
Proof.
  refine (busy_loop_attributed_judges sample_prof 4096 [sample_events] sample_recorded _).
  vm_compute. reflexivity.
Defined.

Definition sample_result : prof_result_t := default zero_result (prof_analyse sample_prof 4096).

Lemma blocked_send_attributed_sound_witness :
  passes (blocked_send_attributed 0 sample_result sample_prof 8192 9) initial_world ∧
  ∃ s rc wt wk, s ∈ sample_events ∧ rc ∈ sample_events ∧ wt ∈ sample_events ∧ wk ∈ sample_events.
Proof.
  assert (Hp : passes (blocked_send_attributed 0 sample_result sample_prof 8192 9) initial_world)
    by (vm_compute; reflexivity).
  split; [exact Hp|].
  assert (Hr : prof_analyse sample_prof 4096 = Some sample_result) by (vm_compute; reflexivity).
  destruct (blocked_send_attributed_sound sample_prof 4096 [sample_events] 8192 9 initial_world
    sample_recorded eq_refl sample_result Hr Hp) as (s & rc & wt & wk & Hs & Hrc & Hwt & Hwk & _).
  change (concat [sample_events]) with (sample_events ++ []) in *. rewrite app_nil_r in *.
  exact (ex_intro _ s (ex_intro _ rc (ex_intro _ wt
    (ex_intro _ wk (conj Hs (conj Hrc (conj Hwt Hwk))))))).
Defined.
End sample_trace.

(** A kernel with one read of three bytes left in channel 0. *)
#[local] Instance small_perf : Perf := {|
  kernel := bool;
  perf_read := λ k c, if k && (c =? 0)%nat then ((3, [1; 2; 3]), false) else ((0, []), k);
  alloc := λ k _, (true, k) |}.
#[local] Instance small_perf_laws : PerfLaws.
Proof.
  split. intros [] [|c] got data k'; simpl; intros [= <- <- <-] ?; simpl; lia.
Qed.

Lemma prof_drain_appends_witness :
  (prof_drain sample_prof true).1.1 = 3 ∧
  Forall2 grown (chan sample_prof) (chan (prof_drain sample_prof true).1.2).
Proof.
  split; [vm_compute; reflexivity|].
  refine (proj1 (prof_drain_appends sample_prof true 3 (prof_drain sample_prof true).1.2
    (prof_drain sample_prof true).2 _ _ _)).
  - vm_compute. reflexivity.
  - vm_compute. reflexivity.
  - vm_compute. lia.
Defined.
