(* ===== verification/SpawnStorm.v ===== *)
(** * spawn-storm: the process-launch stress of spawnstorm/spawn_storm.c

    The program in its parts: the step tags formatted without stdio
    (storm_putNum, storm_tag), the command line of main, the worker that keeps
    a window of children in flight and accounts for every launch (the loop of
    main), and the monitor that watches the worker, reports hangs and recovers
    from them (storm_snapshot, storm_dumpAll, storm_monitor). The operating
    system is a parameter. printf, fprintf and storm_say lines are events that
    carry the values printed; what goes out through debug() from storm_tag is
    the line itself. *)

From S2P Require Import Prelude CMachine UnityOutput.

(** ** Numbers and tags *)

Definition LINE_SIZE : nat := 96.
Definition DIGITS_SIZE : nat := 24.

(** [*p++ = c] into line[96]; [None] when it is full. *)
Definition put (c : Z) (line : list Z) : option (list Z) :=
  if (length line <? LINE_SIZE)%nat then Some (line ++ [c]) else None.

Fixpoint puts (s : list Z) (line : list Z) : option (list Z) :=
  match s with
  | [] => Some line
  | c :: s => line ← put c line; puts s line
  end.

(** The do-while loop filling digits[24]; [fuel] bounds the decimal digits of
    a 64-bit number. *)
Fixpoint digit_buffer (fuel : nat) (u : Z) (digits : list Z) : option (list Z) :=
  match fuel with
  | O => None
  | S fuel =>
      if (length digits <? DIGITS_SIZE)%nat then
        let digits := digits ++ [48 + u mod 10] in
        let u := u / 10 in
        if u =? 0 then Some digits else digit_buffer fuel u digits
      else None
  end.

(** [while (n > 0u) *p++ = digits[--n]] copies the buffer backwards. *)
Definition storm_putNum (line : list Z) (v : Z) : option (list Z) :=
  let u := if v <? 0 then u64 (u64 (- (v + 1)) + 1) else u64 v in
  line ← (if v <? 0 then put 45 line else Some line);
  digits ← digit_buffer UINT_DIGITS u [];
  puts (rev digits) line.

Fixpoint storm_putVals (vals : list Z) (line : list Z) : option (list Z) :=
  match vals with
  | [] => Some line
  | v :: vals => line ← put 32 line; line ← storm_putNum line v; storm_putVals vals line
  end.

(** The string storm_tag hands to debug(); the final [*p = 0] needs room too.
    [vals] are the [nvals] first of a, b and c. *)
Definition tag_line (who what : list Z) (i : Z) (vals : list Z) : option (list Z) :=
  line ← puts (str "STORM ") [];
  line ← puts who line;
  line ← put 32 line;
  line ← puts what line;
  line ← put 32 line;
  line ← storm_putNum line (i64 i);
  line ← storm_putVals vals line;
  line ← put 10 line;
  _ ← put 0 line;
  Some line.

(** (end - start) in milliseconds, in unsigned long. *)
Definition spawn_elapsedMs (start stop : Z * Z) : Z :=
  u64 (u64 (stop.1 - start.1) * 1000 + u64 (Z.quot (stop.2 - start.2) 1000)).

(** ** The system *)

Record threadinfo := mkThread {
  t_pid : Z; t_tid : Z; t_ppid : Z; t_state : Z; t_priority : Z;
  t_cpuTime : Z; t_wait : Z; t_load : Z; t_name : list Z }.

Class Os := {
  os : Type;
  (** fork() and vfork() as the parent sees them, [true] for fork *)
  sys_fork : bool → os → Z * os;
  (** waitpid(-1, &status, 0): result, status and errno *)
  sys_waitpid : os → (Z * Z * Z) * os;
  (** waitpid(pid, &status, WNOHANG) *)
  sys_waitpid_nohang : Z → os → (Z * Z * Z) * os;
  sys_gettimeofday : os → (Z * Z) * os;
  sys_open_null : os → Z * os;
  sys_sleep : Z → os → unit * os;
  sys_monoSecs : os → Z * os;
  (** threadsinfo(256, ...): its result and the entries it stored *)
  sys_threadsinfo : os → (Z * list threadinfo) * os;
  sys_kill : Z → Z → os → Z * os;
  (** the status macros of sys/wait.h *)
  WIFEXITED : Z → bool;
  WEXITSTATUS : Z → Z;
  SIGKILL : Z;
  SIGUSR1 : Z;
}.

Definition EINTR : Z := 4.

(** Lines of output, with the values they show. *)
Inductive report :=
  | R_debug (line : list Z) | R_overrun
  | R_launch (n iterations : Z) | R_bug (in_flight : Z) | R_fork_failed (n : Z)
  | R_waitpid_failed (in_flight : Z) | R_bad (pid status : Z)
  | R_progress (reaped ok failed : Z) | R_slowest (pid ms : Z) | R_done (ok failed slowest : Z)
  | R_start (worker watchdog : Z) | R_worker_done (worker status after : Z) | R_no_worker
  | R_monitor_failed (errno : Z) | R_truncated
  | R_tick (t newest quiet : Z) | R_hang (child tid state quiet round : Z)
  | R_hang_none (quiet round : Z) | R_kill (child rc : Z) | R_poke (worker rc : Z) | R_stuck
  | R_dump_begin (n : Z) | R_dump (tag : list Z) (t : threadinfo) | R_dump_end (n : Z).

Section program.
Context `{Os}.

(** State passing: the system and the output so far, latest line first. *)
Record machine := mkMachine { m_os : os; m_log : list report }.
Definition P (A : Type) : Type := machine → A * machine.

#[global] Instance P_ret : MRet P := λ A a m, (a, m).
#[global] Instance P_bind : MBind P := λ A B f p m, let '(a, m) := p m in f a m.

Definition say (r : report) : P unit := λ m, ((), mkMachine (m_os m) (r :: m_log m)).
Definition call {A} (f : os → A * os) : P A := λ m,
  let '(a, o) := f (m_os m) in (a, mkMachine o (m_log m)).
Definition sayWhen (b : bool) (r : report) : P unit := if b then say r else mret ().

Definition storm_tag (enabled : bool) (who what : list Z) (i : Z) (vals : list Z) : P unit :=
  if negb enabled then mret ()
  else match tag_line who what i vals with
       | Some line => say (R_debug line)
       | None => say R_overrun
       end.

(** ** The worker: the launching loop of main *)

Definition SPAWN_MAX_PARALLEL : nat := 32.

Record config := mkConfig {
  iterations : Z; parallel : nat; useFork : bool; tags : bool }.

Record storm := mkStorm {
  launched : Z; reaped : Z; s_ok : Z; s_failed : Z; slowest : Z;
  inflight : list Z; before : list (Z * Z) }.

(** The first index below [n] whose entry satisfies [f], or [n]. *)
Fixpoint scan (f : Z → bool) (n : nat) (l : list Z) : nat :=
  match n, l with
  | S n, x :: l => if f x then O else S (scan f n l)
  | n, _ => n
  end.

Context (c : config).

(** One round of the inner while loop; [false] leaves it. *)
Definition launch (s : storm) : P (storm * bool) :=
  let slot := scan (λ p, p =? -1) (parallel c) (inflight s) in
  if (slot =? parallel c)%nat then
    say (R_bug (u64 (launched s - reaped s)));; mret (s, false)
  else
    let n := u64 (launched s + 1) in
    say (R_launch n (iterations c));;
    now ← call sys_gettimeofday;
    let bf := <[slot := now]> (before s) in
    storm_tag (tags c) (str "p") (str "fc") n [];;
    pid ← call (sys_fork (useFork c));
    (if negb (pid =? 0) then storm_tag (tags c) (str "p") (str "fr") n [pid] else mret ());;
    if pid <? 0 then
      say (R_fork_failed n);;
      mret (mkStorm n (u64 (reaped s + 1)) (s_ok s) (u64 (s_failed s + 1)) (slowest s) (inflight s) bf, true)
    else
      mret (mkStorm n (reaped s) (s_ok s) (s_failed s) (slowest s)
              (<[slot := pid]> (inflight s)) bf, true).

(** [while ((launched < iterations) && ((launched - reaped) < parallel))] *)
Fixpoint fill (fuel : nat) (s : storm) : P (option storm) :=
  match fuel with
  | O => mret None
  | S fuel =>
      if (launched s <? iterations c) && (u64 (launched s - reaped s) <? Z.of_nat (parallel c)) then
        '(s, more) ← launch s;
        if more : bool then fill fuel s else mret (Some s)
      else mret (Some s)
  end.

(** The waitpid() loop: EINTR tries again. *)
Fixpoint reap_wait (fuel : nat) (n : Z) : P (option (Z * Z * Z)) :=
  match fuel with
  | O => mret None
  | S fuel =>
      storm_tag (tags c) (str "p") (str "wc") n [];;
      '(res, status, errno) ← call sys_waitpid;
      if (0 <=? res) || negb (errno =? EINTR) then mret (Some (res, status, errno))
      else storm_tag (tags c) (str "p") (str "we") n [];; reap_wait fuel n
  end.

(** The accounting of one reaped child. *)
Definition account (s : storm) (res status : Z) (after : Z * Z) : P storm :=
  let i := scan (λ p, p =? res) (parallel c) (inflight s) in
  let found := negb (i =? parallel c)%nat in
  let fl := if found then <[i := -1]> (inflight s) else inflight s in
  let re := u64 (reaped s + 1) in
  let good := WIFEXITED status && (WEXITSTATUS status =? 0) in
  let ok := if good then u64 (s_ok s + 1) else s_ok s in
  let failed := if good then s_failed s else u64 (s_failed s + 1) in
  sayWhen (negb good) (R_bad res status);;
  sayWhen (re mod 100 =? 0) (R_progress re ok failed);;
  if found then
    let ms := spawn_elapsedMs (default (0, 0) (before s !! i)) after in
    if slowest s <? ms then
      say (R_slowest res ms);; mret (mkStorm (launched s) re ok failed ms fl (before s))
    else mret (mkStorm (launched s) re ok failed (slowest s) fl (before s))
  else mret (mkStorm (launched s) re ok failed (slowest s) fl (before s)).

(** One round of [while (reaped < iterations)]. *)
Definition storm_round (fuel : nat) (s : storm) : P (option storm) :=
  o ← fill fuel s;
  match o with
  | None => mret None
  | Some s =>
      if launched s =? reaped s then mret (Some s)
      else
        waitStart ← call sys_gettimeofday;
        w ← reap_wait fuel (launched s);
        match w with
        | None => mret None
        | Some (res, status, errno) =>
            after ← call sys_gettimeofday;
            storm_tag (tags c) (str "p") (str "wr") (launched s)
              [res; if 0 <=? res then status else - errno; i64 (spawn_elapsedMs waitStart after)];;
            if res <? 0 then
              let n := u64 (launched s - reaped s) in
              say (R_waitpid_failed n);;
              mret (Some (mkStorm (launched s) (launched s) (s_ok s) (u64 (s_failed s + n)) (slowest s)
                            (inflight s) (before s)))
            else s ← account s res status after; mret (Some s)
        end
  end.

Fixpoint storm_rounds (fuel inner : nat) (s : storm) : P (option storm) :=
  match fuel with
  | O => mret None
  | S fuel =>
      if reaped s <? iterations c then
        o ← storm_round inner s;
        match o with
        | None => mret None
        | Some s => storm_rounds fuel inner s
        end
      else mret (Some s)
  end.

Definition initial_storm : storm :=
  mkStorm 0 0 0 0 0 (replicate SPAWN_MAX_PARALLEL (-1)) (replicate SPAWN_MAX_PARALLEL (0, 0)).

(** main from the initialisation of the slots on: the exit code and the final
    counts. The line that announces the storm, the signal handler of the worker
    and the close of /dev/null have no effect on them and are left out. *)
Definition storm_worker (fuel inner : nat) : P (option (Z * storm)) :=
  _ ← (if (1 <? parallel c)%nat then call sys_open_null else mret (-1));
  o ← storm_rounds fuel inner initial_storm;
  match o with
  | None => mret None
  | Some s =>
      say (R_done (s_ok s) (s_failed s) (slowest s));;
      mret (Some (if s_failed s =? 0 then 0 else 1, s))
  end.
End program.

(** ** The child of a launch *)

Inductive child_call :=
  | C_dup2 (from to : Z) | C_malloc | C_tag (what : list Z) (n : Z) (vals : list Z)
  | C_access | C_memset_free | C_touch (n : Z) | C_execv | C_exit (code : Z).

(** What the child does between fork and exec, [launched] being the parent's
    count; execv only returns with an error, here [exec_errno]. [scratch] says
    whether malloc(64) succeeded. *)
Definition storm_child (c : config) (devNull launched : Z) (scratch : bool) (exec_errno : option Z) :
    list child_call :=
  let n := u64 (launched + 1) in
  (if (1 <? parallel c)%nat && (0 <=? devNull) then [C_dup2 devNull 1; C_dup2 devNull 2] else []) ++
  (if useFork c then
     [C_malloc] ++
     (if tags c then [C_tag (str "ac") n []] else []) ++ [C_access] ++
     (if tags c then [C_tag (str "ax") n []] else []) ++
     (if scratch then [C_memset_free] else []) ++ [C_touch launched]
   else []) ++
  (if tags c then [C_tag (str "ex") n []] else []) ++ [C_execv] ++
  match exec_errno with
  | None => []
  | Some e => (if tags c then [C_tag (str "ef") n [e]] else []) ++ [C_exit 1]
  end.

(** ** The monitor *)

Definition STORM_MAX_THREADS : Z := 256.
Definition STORM_TICK_SECS : Z := 5.
Definition STORM_MAX_DUMPS : Z := 3.

Section monitor.
Context `{Os}.

(** The static array after a call, and the clamped count; [warned] is the
    static flag of the truncation warning. *)
Definition storm_snapshot (snap : list threadinfo) (warned : bool) : P (Z * list threadinfo * bool) :=
  '(n, entries) ← call sys_threadsinfo;
  let snap := entries ++ drop (length entries) snap in
  if STORM_MAX_THREADS <=? n then
    sayWhen (negb warned) R_truncated;; mret (STORM_MAX_THREADS, snap, true)
  else mret (n, snap, warned).

(** [for (i = 0; i < n; i++) if (snap[i].tid == tid) break;]: the index, [n]
    clamped at 0 from below when there is none. *)
Definition find_tid (n : Z) (snap : list threadinfo) (tid : Z) : Z :=
  Z.of_nat (scan (λ x, x =? tid) (Z.to_nat n) (map t_tid snap)).

Definition no_thread : threadinfo := mkThread 0 0 0 0 0 0 0 0 [].

(** The line of a thread of the second snapshot, if it is shown. *)
Definition dump_second (self n : Z) (snap : list threadinfo) (t : threadinfo) : list report :=
  if t_pid t =? self then []
  else
    let i := find_tid n snap (t_tid t) in
    let old := default no_thread (snap !! Z.to_nat i) in
    if (i =? n) || negb (t_cpuTime old =? t_cpuTime t) || negb (t_state old =? t_state t)
    then [R_dump (if i =? n then str "d2-new" else str "d2-moved") t]
    else [].
(** The line of a thread of the first snapshot missing in the second. *)
Definition dump_gone (n2 : Z) (snap2 : list threadinfo) (t : threadinfo) : list report :=
  if find_tid n2 snap2 (t_tid t) =? n2 then [R_dump (str "d2-gone") t] else [].

Definition sayAll (rs : list report) : P unit := λ m,
  ((), mkMachine (m_os m) (rev rs ++ m_log m)).

(** Monitor-only static storage. *)
Record statics := mkStatics { storm_snap : list threadinfo; storm_snap2 : list threadinfo; warned : bool }.

Definition storm_dumpAll (self : Z) (st : statics) : P statics :=
  '(n, snap, w) ← storm_snapshot (storm_snap st) (warned st);
  sayAll (R_dump_begin n :: map (R_dump (str "d")) (take (Z.to_nat n) snap));;
  call (sys_sleep 2);;
  '(n2, snap2, w) ← storm_snapshot (storm_snap2 st) w;
  sayAll ((take (Z.to_nat n2) snap2 ≫= dump_second self n snap) ++
          (take (Z.to_nat n) snap ≫= dump_gone n2 snap2) ++ [R_dump_end n2]);;
  mret (mkStatics snap snap2 w).

Record watch := mkWatch {
  lastProgress : Z; lastTick : Z; dumps : Z; maxKid : Z; w_statics : statics }.

(** A new child is progress. *)
Fixpoint note_kids (worker : Z) (ts : list threadinfo) (w : watch) : P watch :=
  match ts with
  | [] => mret w
  | t :: ts =>
      if (t_ppid t =? worker) && (maxKid w <? t_pid t) then
        now ← call sys_monoSecs;
        note_kids worker ts (mkWatch now (lastTick w) 0 (t_pid t) (w_statics w))
      else note_kids worker ts w
  end.

Definition kids_of (worker : Z) (ts : list threadinfo) : list threadinfo :=
  List.filter (λ t, t_ppid t =? worker) ts.

Fixpoint kill_kids (ks : list threadinfo) : P unit :=
  match ks with
  | [] => mret ()
  | t :: ks => rc ← call (sys_kill (t_pid t) SIGKILL); say (R_kill (t_pid t) rc);; kill_kids ks
  end.

(** One round of the monitor's endless loop: the exit code, or the next state. *)
Definition monitor_round (worker self start watchdog : Z) (w : watch) : P (Z + watch) :=
  call (sys_sleep 1);;
  '(res, status, errno) ← call (sys_waitpid_nohang worker);
  if res =? worker then
    now ← call sys_monoSecs;
    say (R_worker_done worker status (u64 (now - start)));;
    sayWhen (WIFEXITED status && (WEXITSTATUS status =? 127)) R_no_worker;;
    mret (inl (if WIFEXITED status && (WEXITSTATUS status =? 0) then 0 else 1))
  else if (res <? 0) && negb (errno =? EINTR) then
    say (R_monitor_failed errno);; mret (inl 1)
  else
    '(n, snap, wd) ← storm_snapshot (storm_snap (w_statics w)) (warned (w_statics w));
    let st := mkStatics snap (storm_snap2 (w_statics w)) wd in
    let ts := take (Z.to_nat n) snap in
    w ← note_kids worker ts (mkWatch (lastProgress w) (lastTick w) (dumps w) (maxKid w) st);
    now ← call sys_monoSecs;
    let tick := STORM_TICK_SECS <=? u64 (now - lastTick w) in
    sayWhen tick (R_tick (u64 (now - start)) (maxKid w) (u64 (now - lastProgress w)));;
    let w := if tick then mkWatch (lastProgress w) now (dumps w) (maxKid w) (w_statics w) else w in
    if (u64 (now - lastProgress w) <? watchdog) || (STORM_MAX_DUMPS <=? dumps w) then mret (inr w)
    else
      let round := u64 (dumps w + 1) in
      let quiet := u64 (now - lastProgress w) in
      let kids := kids_of worker ts in
      (if (length kids =? 0)%nat then say (R_hang_none quiet round)
       else sayAll (map (λ t, R_hang (t_pid t) (t_tid t) (t_state t) quiet round) kids));;
      st ← storm_dumpAll self (w_statics w);
      (if (length kids =? 0)%nat then rc ← call (sys_kill worker SIGUSR1); say (R_poke worker rc)
       else kill_kids (kids_of worker (take (Z.to_nat n) (storm_snap st))));;
      now ← call sys_monoSecs;
      sayWhen (round =? STORM_MAX_DUMPS) R_stuck;;
      mret (inr (mkWatch now (lastTick w) round (maxKid w) st)).

(** storm_monitor after the fork of the worker, for at most [fuel] rounds. *)
Fixpoint monitor_loop (fuel : nat) (worker self start watchdog : Z) (w : watch) : P (Z + watch) :=
  match fuel with
  | O => mret (inr w)
  | S fuel =>
      o ← monitor_round worker self start watchdog w;
      match o with
      | inl code => mret (inl code)
      | inr w => monitor_loop fuel worker self start watchdog w
      end
  end.
End monitor.

(** ** The command line *)

Definition STORM_WATCHDOG_DEFAULT : Z := 10.
Definition STORM_WATCHDOG_MAX : Z := 600.
Definition STORM_WORKER_ARG : list Z := str "--worker".

Record storm_opts := mkOpts {
  o_parallel : Z; o_watchdog : Z; o_useFork : bool; o_tags : bool; o_noTags : bool; o_argi : nat }.

Inductive storm_error := E_parallel | E_watchdog | E_usage | E_iterations.

(** [argc > (argi + k)] and argv[argi] is the option [s]. *)
Definition option_at (argv : list (list Z)) (argi k : nat) (s : list Z) : bool :=
  (argi + k <? length argv)%nat && bool_decide (argv !! argi = Some s).

(** The endless option loop; every round consumes an argument, so one round
    more than there are arguments is enough. *)
Fixpoint storm_options (fuel : nat) (argv : list (list Z)) (o : storm_opts) :
    option (storm_error + storm_opts) :=
  match fuel with
  | O => None
  | S fuel =>
      let i := o_argi o in
      let next := default [] (argv !! S i) in
      if option_at argv i 1 (str "-p") then
        let p := strtoul10 next in
        if (p =? 0) || (Z.of_nat SPAWN_MAX_PARALLEL <? p) then Some (inl E_parallel)
        else storm_options fuel argv
               (mkOpts p (o_watchdog o) (o_useFork o) (o_tags o) (o_noTags o) (i + 2))
      else if option_at argv i 1 (str "-w") then
        let w := strtoul10 next in
        if STORM_WATCHDOG_MAX <? w then Some (inl E_watchdog)
        else storm_options fuel argv
               (mkOpts (o_parallel o) w (o_useFork o) (o_tags o) (o_noTags o) (i + 2))
      else if option_at argv i 0 (str "-f") then
        storm_options fuel argv (mkOpts (o_parallel o) (o_watchdog o) true true (o_noTags o) (i + 1))
      else if option_at argv i 0 (str "-t") then
        storm_options fuel argv (mkOpts (o_parallel o) (o_watchdog o) (o_useFork o) true (o_noTags o) (i + 1))
      else if option_at argv i 0 (str "-n") then
        storm_options fuel argv (mkOpts (o_parallel o) (o_watchdog o) (o_useFork o) (o_tags o) true (i + 1))
      else Some (inr o)
  end.

(** What main goes on to do: monitor a worker, or launch [path] with the
    arguments from [path] on. *)
Inductive plan :=
  | Monitor (watchdog : Z)
  | Launch (c : config) (isWorker : bool) (childArgv : list (list Z)).

Definition storm_main (argv : list (list Z)) : option (storm_error + plan) :=
  let isWorker := option_at argv 1 0 STORM_WORKER_ARG in
  o ← storm_options (S (length argv)) argv
        (mkOpts 1 STORM_WATCHDOG_DEFAULT false false false (if isWorker then 2 else 1));
  match o with
  | inl e => Some (inl e)
  | inr o =>
      let tags := if o_noTags o then false else o_tags o in
      if (length argv <? o_argi o + 2)%nat then Some (inl E_usage)
      else
        let iterations := strtoul10 (default [] (argv !! o_argi o)) in
        if iterations =? 0 then Some (inl E_iterations)
        else if negb isWorker && negb (o_watchdog o =? 0) then Some (inr (Monitor (o_watchdog o)))
        else Some (inr (Launch (mkConfig iterations (Z.to_nat (o_parallel o)) (o_useFork o) tags)
                          isWorker (drop (S (o_argi o)) argv)))
  end.

(** The command line the monitor runs the worker with. *)
Definition worker_argv (argv : list (list Z)) : list (list Z) :=
  match argv with
  | [] => [STORM_WORKER_ARG]
  | a :: args => a :: STORM_WORKER_ARG :: args
  end.
