(* ===== verification/SpawnStormProps.v ===== *)
(** * Properties of spawn-storm

    The step tags fit their buffer exactly and print their numbers; the
    worker accounts for every launch and keeps the window full; what goes
    wrong when waitpid() fails; the monitor recovers only after a full quiet
    window and a bounded number of times; the worker runs the storm the
    command line asked for. *)

From S2P Require Import Prelude CMachine UnityOutput SpawnStorm.

(** ** Tags *)

Lemma puts_eq s line :
  (length line + length s ≤ LINE_SIZE)%nat → puts s line = Some (line ++ s).
Proof.
  revert line. induction s as [|c s IH]; intros line Hl; cbn [puts length] in *; [by rewrite app_nil_r|].
  unfold put. rewrite (proj2 (Nat.ltb_lt _ _)) by lia. cbn [mbind option_bind].
  rewrite IH by (rewrite length_app; simpl; lia). by rewrite <- app_assoc.
Qed.

Lemma put_eq c line : (length line < LINE_SIZE)%nat → put c line = Some (line ++ [c]).
Proof. intros Hl. unfold put. by rewrite (proj2 (Nat.ltb_lt _ _)) by lia. Qed.

(** The digit buffer holds the textbook conversion backwards. *)
Lemma digit_buffer_itoa fuel u digits :
  0 ≤ u < 10 ^ Z.of_nat fuel → (length digits + fuel ≤ DIGITS_SIZE)%nat → (0 < fuel)%nat →
  ∃ ds, digit_buffer fuel u digits = Some ds ∧ rev ds = itoa fuel u (rev digits).
Proof.
  revert u digits. induction fuel as [|fuel IH]; intros u digits Hu Hl Hf; [lia|].
  cbn [digit_buffer itoa]. rewrite (proj2 (Nat.ltb_lt _ _)) by lia.
  rewrite Nat2Z.inj_succ, Z.pow_succ_r in Hu by lia.
  destruct (u <? 10) eqn:E.
  - apply Z.ltb_lt in E. rewrite (Z.div_small u 10) by lia. simpl (_ =? _).
    eexists. split; [done|]. by rewrite rev_app_distr.
  - apply Z.ltb_ge in E. assert (u / 10 ≠ 0) as En%Z.eqb_neq.
    { pose proof (Z.div_le_mono 10 u 10 ltac:(lia) E). change (10 / 10) with 1 in *. lia. }
    rewrite En. destruct fuel as [|fuel]; [simpl in Hu; lia|].
    destruct (IH (u / 10) (digits ++ [48 + u mod 10])) as (ds & -> & Hds).
    + split; [apply Z.div_pos; lia|apply Z.div_lt_upper_bound; lia].
    + rewrite length_app. simpl. lia.
    + lia.
    + exists ds. split; [done|]. by rewrite Hds, rev_app_distr.
Qed.

Lemma length_decimal n : 0 ≤ n < 2 ^ 64 → (length (decimal n) ≤ 20)%nat.
Proof.
  intros Hn. destruct (decimal_digits n Hn) as (k & Hk & _ & _ & ->).
  rewrite length_digits_down. unfold UINT_DIGITS in Hk. lia.
Qed.

(** A signed 64-bit number takes at most 20 characters: the sign excludes
    the twentieth digit. *)
Lemma length_signed_decimal v : int64 v → (length (signed_decimal v) ≤ 20)%nat.
Proof.
  intros Hv. unfold int64 in Hv. unfold signed_decimal. destruct (v <? 0) eqn:E.
  - apply Z.ltb_lt in E. destruct (decimal_digits (- v)) as (k & Hk & Hlo & _ & ->); [lia|].
    simpl length. rewrite length_digits_down. destruct Hlo as [Hlo| ->]; [|lia].
    assert (k < 19)%nat; [|lia]. destruct (decide (k < 19)%nat); [done|].
    assert (10 ^ 19 ≤ 10 ^ Z.of_nat k) by (apply Z.pow_le_mono_r; lia). lia.
  - apply Z.ltb_ge in E. apply length_decimal. lia.
Qed.

Lemma storm_putNum_eq line v :
  int64 v → (length line + length (signed_decimal v) ≤ LINE_SIZE)%nat →
  storm_putNum line v = Some (line ++ signed_decimal v).
Proof.
  intros Hv Hl. unfold int64 in Hv. unfold storm_putNum, signed_decimal in *.
  assert (Hd : ∀ u, 0 ≤ u < 2 ^ 64 → ∃ ds, digit_buffer UINT_DIGITS u [] = Some ds ∧ rev ds = decimal u).
  { intros u Hu. apply digit_buffer_itoa; unfold UINT_DIGITS, DIGITS_SIZE; simpl; lia. }
  destruct (v <? 0) eqn:E.
  - apply Z.ltb_lt in E. simpl length in Hl. rewrite put_eq by lia. cbn [mbind option_bind].
    unfold u64. rewrite (uwrap_small 64 (- (v + 1))), uwrap_small by lia.
    replace (- (v + 1) + 1) with (- v) by lia.
    destruct (Hd (- v)) as (ds & -> & Hds); [lia|]. cbn [mbind option_bind]. rewrite Hds.
    rewrite puts_eq by (rewrite length_app; simpl; lia). by rewrite <- app_assoc.
  - apply Z.ltb_ge in E. cbn [mbind option_bind]. unfold u64. rewrite uwrap_small by lia.
    destruct (Hd v) as (ds & -> & Hds); [lia|]. cbn [mbind option_bind]. rewrite Hds. by rewrite puts_eq.
Qed.

Definition vals_text (vals : list Z) : list Z := vals ≫= λ v, 32 :: signed_decimal v.

Lemma length_vals_text vals : Forall int64 vals → (length (vals_text vals) ≤ 21 * length vals)%nat.
Proof.
  unfold vals_text. induction 1 as [|v vals Hv _ IH]; [done|]. rewrite bind_cons, length_app. simpl length.
  pose proof (length_signed_decimal v Hv). lia.
Qed.

Lemma storm_putVals_eq vals line :
  Forall int64 vals → (length line + length (vals_text vals) ≤ LINE_SIZE)%nat →
  storm_putVals vals line = Some (line ++ vals_text vals).
Proof.
  unfold vals_text. intros Hv. revert line. induction Hv as [|v vals Hv _ IH]; intros line Hl;
    cbn [storm_putVals]; [by rewrite app_nil_r|].
  rewrite bind_cons, length_app in Hl. simpl length in Hl.
  rewrite put_eq by lia. cbn [mbind option_bind].
  rewrite storm_putNum_eq by (done || rewrite length_app; simpl; lia). cbn [mbind option_bind].
  rewrite IH by (rewrite !length_app; simpl; lia). rewrite bind_cons. cbn [app].
  by rewrite <- !app_assoc.
Qed.

(** The text of a tag. *)
Definition tag_text (who what : list Z) (i : Z) (vals : list Z) : list Z :=
  str "STORM " ++ who ++ [32] ++ what ++ [32] ++ signed_decimal (i64 i) ++ vals_text vals ++ [10].

Lemma tag_line_eq who what i vals :
  length who = 1%nat → length what = 2%nat → Forall int64 vals → (length vals ≤ 3)%nat →
  tag_line who what i vals = Some (tag_text who what i vals).
Proof.
  intros Hwho Hwhat Hv Hn. unfold tag_line, tag_text.
  pose proof (length_signed_decimal (i64 i) (int64_i64 i)). pose proof (length_vals_text vals Hv).
  assert (length (str "STORM ") = 6%nat) as H6 by done.
  rewrite puts_eq by (simpl; unfold LINE_SIZE; lia). cbn [mbind option_bind app].
  rewrite puts_eq by (unfold LINE_SIZE; lia). cbn [mbind option_bind].
  rewrite put_eq by (rewrite !length_app; unfold LINE_SIZE; lia). cbn [mbind option_bind].
  rewrite puts_eq by (rewrite !length_app; simpl length; unfold LINE_SIZE; lia). cbn [mbind option_bind].
  rewrite put_eq by (rewrite !length_app; simpl length; unfold LINE_SIZE; lia). cbn [mbind option_bind].
  rewrite storm_putNum_eq by (apply int64_i64 || rewrite !length_app; simpl length; unfold LINE_SIZE; lia).
  cbn [mbind option_bind].
  rewrite storm_putVals_eq by (done || rewrite !length_app; simpl length; unfold LINE_SIZE; lia).
  cbn [mbind option_bind].
  rewrite put_eq by (rewrite !length_app; simpl length; unfold LINE_SIZE; lia). cbn [mbind option_bind].
  rewrite put_eq by (rewrite !length_app; simpl length; unfold LINE_SIZE; lia). cbn [mbind option_bind].
  by rewrite <- !app_assoc.
Qed.

(** A step tag never overruns line[96], whatever the launch number and the three values, and
    reads "STORM who what i a b c" with the numbers in decimal; the longest tag, terminator
    included, takes exactly the 96 bytes. *)
Theorem storm_tag_fits who what i vals :
  length who = 1%nat → length what = 2%nat → Forall int64 vals → (length vals ≤ 3)%nat →
  tag_line who what i vals = Some (tag_text who what i vals) ∧
  option_map length (tag_line who what (- 2 ^ 63) [- 2 ^ 63; - 2 ^ 63; - 2 ^ 63]) = Some 95%nat.
Proof.
  intros Hwho Hwhat Hv Hn. split; [by apply tag_line_eq|].
  rewrite tag_line_eq; [|done|done| |simpl; lia].
  - cbn [option_map]. unfold tag_text. rewrite !length_app, Hwho, Hwhat. done.
  - do 3 (apply Forall_cons; split; [unfold int64; lia|]). constructor.
Qed.

Lemma storm_tag_fits_witness :
  tag_line (str "p") (str "wr") 7 [12; -3; 0] = Some (str "STORM p wr 7 12 -3 0" ++ [10]).
Proof.
  refine (eq_trans (proj1 (storm_tag_fits (str "p") (str "wr") 7 [12; -3; 0] _ _ _ _)) _).
  - reflexivity.
  - reflexivity.
  - do 3 (apply Forall_cons; split; [unfold int64; lia|]). apply Forall_nil; exact I.
  - simpl; lia.
  - vm_compute. reflexivity.
Defined.

(** ** Reasoning about the program *)

Section wp.
Context `{Os}.

(** [wp p Q m]: running [p] from [m] ends with [Q]. *)
Definition wp {A} (p : P A) (Q : A → machine → Prop) (m : machine) : Prop := Q (p m).1 (p m).2.

Lemma wp_ret {A} (a : A) Q m : Q a m → wp (mret a) Q m.
Proof. done. Qed.
Lemma wp_bind {A B} (p : P A) (f : A → P B) Q m :
  wp p (λ a, wp (f a) Q) m → wp (p ≫= f) Q m.
Proof. unfold wp, mbind, P_bind. by destruct (p m). Qed.
Lemma wp_say r Q m : Q () (mkMachine (m_os m) (r :: m_log m)) → wp (say r) Q m.
Proof. done. Qed.
Lemma wp_call {A} (f : os → A * os) Q m :
  (∀ a o, f (m_os m) = (a, o) → Q a (mkMachine o (m_log m))) → wp (call f) Q m.
Proof. intros Hq. unfold wp, call. destruct (f (m_os m)) as [a o] eqn:E. by apply Hq. Qed.
Lemma wp_mono {A} (p : P A) (Q Q' : A → machine → Prop) m :
  wp p Q m → (∀ a m', Q a m' → Q' a m') → wp p Q' m.
Proof. unfold wp. auto. Qed.
End wp.

(** ** A system that keeps its promises

    What POSIX says of fork() and waitpid() for a process that waits for all
    its children: fork returns a new child's pid or fails, waitpid takes one
    of the children away, or fails, with EINTR (finitely often in a row) or
    because there is no child. *)
Definition int32 (z : Z) : Prop := - 2 ^ 31 ≤ z < 2 ^ 31.

Class OsLaws `{Os} := {
  live : os → list Z;
  interrupts : os → nat;
  max_interrupts : nat;
  interrupts_bound : ∀ o, (interrupts o ≤ max_interrupts)%nat;
  fork_law : ∀ f o pid o', sys_fork f o = (pid, o') →
    int32 pid ∧ (0 < pid ∧ live o' ≡ₚ pid :: live o ∨ pid < 0 ∧ live o' = live o);
  waitpid_law : ∀ o res status e o', sys_waitpid o = ((res, status, e), o') →
    int32 res ∧ int32 status ∧ int32 (- e) ∧
    (0 < res ∧ live o ≡ₚ res :: live o' ∨
     res < 0 ∧ live o' = live o ∧
       (e = EINTR ∧ (interrupts o' < interrupts o)%nat ∨ e ≠ EINTR ∧ live o = []));
  gettimeofday_law : ∀ o t o', sys_gettimeofday o = (t, o') → live o' = live o;
  open_null_law : ∀ o fd o', sys_open_null o = (fd, o') → live o' = live o;
}.

Section scans.
Implicit Types (f : Z → bool) (l : list Z).

Lemma scan_spec f n l : (n ≤ length l)%nat →
  scan f n l = n ∧ (∀ i x, (i < n)%nat → l !! i = Some x → f x = false) ∨
  (scan f n l < n)%nat ∧ ∃ x, l !! scan f n l = Some x ∧ f x = true.
Proof.
  revert l. induction n as [|n IH]; intros l Hl; [left; split; [by destruct l|lia]|].
  destruct l as [|x l]; simpl in *; [lia|]. destruct (f x) eqn:E.
  - right. split; [lia|]. simpl. eauto.
  - destruct (IH l ltac:(lia)) as [[-> Hn]|(Hlt & y & Hy & Hf)].
    + left. split; [done|]. intros [|i] y ?; simpl; [congruence|]. apply Hn. lia.
    + right. split; [lia|]. simpl. eauto.
Qed.
Lemma scan_before f n l i x : (i < scan f n l)%nat → l !! i = Some x → f x = false.
Proof.
  revert l i. induction n as [|n IH]; intros [|y l] i Hi Hx; simpl in *; try done; try lia.
  destruct (f y) eqn:E; [lia|]. destruct i as [|i]; simpl in Hx; [congruence|].
  apply (IH l i); [lia|done].
Qed.
End scans.

(** The children in the first [n] slots. *)
Definition slots (n : nat) (l : list Z) : list Z := filter (λ p, p ≠ -1) (take n l).

Lemma slots_fill n l i pid :
  (i < n)%nat → l !! i = Some (-1) → pid ≠ -1 → slots n (<[i := pid]> l) ≡ₚ pid :: slots n l.
Proof.
  intros Hi Hl Hp. unfold slots. rewrite take_insert_lt by done.
  assert (Ht : take n l !! i = Some (-1)) by by rewrite lookup_take_lt.
  rewrite <- (take_drop_middle _ _ _ Ht) at 2.
  rewrite insert_take_drop by by eapply lookup_lt_Some.
  rewrite !filter_app, !filter_cons, decide_True, decide_False by (done || congruence).
  by rewrite Permutation_middle.
Qed.

Lemma slots_clear n l i pid :
  (i < n)%nat → l !! i = Some pid → pid ≠ -1 → slots n l ≡ₚ pid :: slots n (<[i := -1]> l).
Proof.
  intros Hi Hl Hp. unfold slots. rewrite take_insert_lt by done.
  assert (Ht : take n l !! i = Some pid) by by rewrite lookup_take_lt.
  rewrite <- (take_drop_middle _ _ _ Ht) at 1.
  rewrite insert_take_drop by by eapply lookup_lt_Some.
  rewrite !filter_app, !filter_cons, decide_True, decide_False by (done || congruence).
  by rewrite Permutation_middle.
Qed.

(** Without a free slot, all of them hold a child. *)
Lemma slots_full n l :
  (n ≤ length l)%nat → (∀ i x, (i < n)%nat → l !! i = Some x → (x =? -1) = false) →
  length (slots n l) = n.
Proof.
  unfold slots. revert l. induction n as [|n IH]; intros l Hl Hx; [by rewrite take_0|].
  destruct l as [|x l]; simpl in Hl; [lia|]. cbn [take].
  rewrite filter_cons, decide_True by (apply Z.eqb_neq, (Hx O); [lia|done]). simpl length. f_equal.
  apply IH; [lia|]. intros i y Hi Hy. apply (Hx (S i)); [lia|done].
Qed.

(** Lines that report a launch that failed. *)
Definition is_failure (r : report) : bool :=
  match r with R_fork_failed _ | R_bad _ _ => true | _ => false end.
Definition failures (log : list report) : Z := Z.of_nat (length (List.filter is_failure log)).
Definition is_bug (r : report) : bool :=
  match r with R_bug _ | R_overrun | R_waitpid_failed _ => true | _ => false end.

Section worker.
Context `{OsLaws} (c : config).
Context (Hn : (1 ≤ parallel c ≤ SPAWN_MAX_PARALLEL)%nat) (Hit : 0 < iterations c < 2 ^ 64).

(** The accounting of the worker: every launch is in flight, succeeded or
    failed; the slots hold exactly the children the system knows; nothing went
    wrong so far. *)
Record accounted (s : storm) (m : machine) : Prop := {
  ac_order : 0 ≤ reaped s ≤ launched s ∧ launched s ≤ iterations c;
  ac_window : launched s - reaped s = Z.of_nat (length (live (m_os m)));
  ac_slots : slots (parallel c) (inflight s) ≡ₚ live (m_os m);
  ac_pids : Forall (λ p, 0 < p) (live (m_os m));
  ac_length : length (inflight s) = SPAWN_MAX_PARALLEL;
  ac_total : 0 ≤ s_ok s ∧ s_ok s + s_failed s = reaped s;
  ac_failures : s_failed s = failures (m_log m);
  ac_no_bug : existsb is_bug (m_log m) = false;
}.

Lemma window_le s m : accounted s m → (length (live (m_os m)) ≤ parallel c)%nat.
Proof.
  intros [_ _ Hs _ _ _ _ _]. rewrite <- Hs. unfold slots.
  etrans; [apply length_filter|]. rewrite length_take. lia.
Qed.

(** Nothing the accounting depends on changes. *)
Lemma accounted_frame s m o log :
  accounted s m → live o = live (m_os m) → failures log = failures (m_log m) →
  existsb is_bug log = false → accounted s (mkMachine o log).
Proof.
  intros [? ? ? ? ? ? ? ?] Ho Hf Hb. constructor; simpl; rewrite ?Ho; try done. by rewrite Hf.
Qed.

Lemma wp_tag en who what i vals Q m :
  length who = 1%nat → length what = 2%nat → Forall int64 vals → (length vals ≤ 3)%nat →
  (∀ log, failures log = failures (m_log m) → existsb is_bug log = existsb is_bug (m_log m) →
    Q () (mkMachine (m_os m) log)) →
  wp (storm_tag en who what i vals) Q m.
Proof.
  intros Hwho Hwhat Hv Hl Hq. unfold storm_tag. destruct en; cbn [negb].
  - rewrite (tag_line_eq who what i vals) by done. apply wp_say, Hq; done.
  - apply wp_ret. destruct m. by apply Hq.
Qed.

Lemma int32_int64 z : int32 z → int64 z.
Proof. unfold int32, int64. lia. Qed.

Lemma launch_accounted s m :
  accounted s m → launched s < iterations c → launched s - reaped s < Z.of_nat (parallel c) →
  wp (launch c s) (λ r m', r.2 = true ∧ accounted r.1 m' ∧ launched r.1 = launched s + 1 ∧
    reaped s ≤ reaped r.1) m.
Proof.
  intros Ha Hlt Hw. destruct Ha as [Ho Hwin Hs Hp Hl Ht Hf Hb]. unfold launch.
  destruct (scan_spec (λ p, p =? -1) (parallel c) (inflight s)) as [[-> Hfull]|(Hslot & x & Hx & Ex)];
    [unfold SPAWN_MAX_PARALLEL in *; lia| |].
  { exfalso. apply slots_full in Hfull; [|unfold SPAWN_MAX_PARALLEL in *; lia]. rewrite Hs in Hfull. lia. }
  rewrite (proj2 (Nat.eqb_neq _ _)) by lia. set (slot := scan _ _ _) in *. apply Z.eqb_eq in Ex as ->.
  apply wp_bind, wp_say, wp_bind, wp_call. intros now o1 E1%gettimeofday_law. cbn [m_os m_log] in *.
  apply wp_bind, wp_tag; try done; [simpl; lia|]. intros log1 Hf1 Hb1. cbn [m_os m_log] in *.
  apply wp_bind, wp_call. intros pid o2 E2. apply fork_law in E2 as [Hpid Hfork]. cbn [m_os m_log] in *.
  unfold u64. rewrite !uwrap_small by lia.
  apply wp_bind. eapply (wp_mono _ (λ _ m', m_os m' = o2 ∧ failures (m_log m') = failures log1 ∧
    existsb is_bug (m_log m') = existsb is_bug log1)).
  { case_match; [|by apply wp_ret]. apply wp_tag; try done; [|simpl; lia].
    constructor; [by apply int32_int64|constructor]. }
  intros _ [o3 log3] (Eo3 & Hf3 & Hb3). cbn [m_os m_log] in *. subst o3.
  assert (Hf' : failures log3 = failures (m_log m)) by (rewrite Hf3, Hf1; done).
  assert (Hb' : existsb is_bug log3 = false) by (rewrite Hb3, Hb1; done).
  destruct Hfork as [[Hpos Hlive]|[Hneg Hlive]].
  - rewrite (proj2 (Z.ltb_ge _ _)) by lia. apply wp_ret. split_and!; [done| |done|simpl; lia].
    rewrite E1 in Hlive. constructor; cbn -[slots]; try done; try lia.
    + rewrite Hlive. simpl. lia.
    + rewrite slots_fill by (done || lia). by rewrite Hs, Hlive.
    + rewrite Hlive. by constructor.
    + by rewrite length_insert.
  - assert (0 ≤ s_failed s) by (rewrite Hf; unfold failures; lia).
    rewrite (proj2 (Z.ltb_lt _ _)) by lia. apply wp_bind, wp_say, wp_ret. split_and!; [done| |done|simpl; lia].
    rewrite E1 in Hlive. unfold u64. rewrite !uwrap_small by lia.
    constructor; cbn -[slots failures]; rewrite ?Hlive; try done; try lia.
    rewrite Hf, <- Hf'. unfold failures. cbn [List.filter is_failure]. simpl length. lia.
Qed.

(** Filling the window ends with everything launched, or with exactly
    [parallel] children in flight. *)
Lemma fill_accounted fuel s m :
  accounted s m → iterations c - launched s < Z.of_nat fuel →
  wp (fill c fuel s) (λ o m', ∃ s', o = Some s' ∧ accounted s' m' ∧ reaped s ≤ reaped s' ∧
    (launched s' = iterations c ∨ launched s' - reaped s' = Z.of_nat (parallel c))) m.
Proof.
  revert s m. induction fuel as [|fuel IH]; intros s m Ha Hf; [destruct Ha; lia|].
  cbn [fill]. pose proof Ha as [Ho Hwin _ _ _ _ _ _]. pose proof (window_le s m Ha).
  unfold u64. rewrite uwrap_small by lia.
  destruct (launched s <? iterations c) eqn:E1; cbn [andb]; cycle 1.
  { apply Z.ltb_ge in E1. apply wp_ret. exists s. split_and!; [done|done|lia|lia]. }
  destruct (launched s - reaped s <? Z.of_nat (parallel c)) eqn:E2; cycle 1.
  { apply Z.ltb_ge in E2. apply wp_ret. exists s. split_and!; [done|done|lia|lia]. }
  apply Z.ltb_lt in E1, E2. apply wp_bind.
  eapply wp_mono; [by apply launch_accounted|]. intros [s1 more] m1 (Hm & Ha1 & Hl1 & Hr1). cbn [fst snd] in *.
  subst more. eapply wp_mono; [apply IH; [done|lia]|].
  intros o m2 (s2 & -> & Ha2 & Hr & Hd). exists s2. split_and!; [done|done|lia|done].
Qed.

Lemma reap_wait_spec fuel n m :
  live (m_os m) ≠ [] → (interrupts (m_os m) < fuel)%nat →
  wp (reap_wait c fuel n) (λ o m', ∃ res status e, o = Some (res, status, e) ∧
    0 < res ∧ int32 res ∧ int32 status ∧ live (m_os m) ≡ₚ res :: live (m_os m') ∧
    failures (m_log m') = failures (m_log m) ∧
    existsb is_bug (m_log m') = existsb is_bug (m_log m)) m.
Proof.
  revert m. induction fuel as [|fuel IH]; intros m Hne Hf; [lia|]. cbn [reap_wait].
  apply wp_bind, wp_tag; try done; [simpl; lia|]. intros log1 Hf1 Hb1. cbn [m_os m_log] in *.
  apply wp_bind, wp_call. intros [[res status] e] o2 E2.
  apply waitpid_law in E2 as (Hres & Hst & _ & [[Hpos Hlive]|(Hneg & Hlive & [[-> Hint]|[_ He]])]);
    cbn [m_os m_log] in *; [| |done].
  - rewrite (proj2 (Z.leb_le _ _)) by lia. cbn [orb]. apply wp_ret. exists res, status, e. by split_and!.
  - rewrite (proj2 (Z.leb_gt _ _)) by lia. rewrite Z.eqb_refl. cbn [orb negb].
    apply wp_bind, wp_tag; try done; [simpl; lia|]. intros log2 Hf2 Hb2. cbn [m_os m_log] in *.
    eapply wp_mono; [apply IH; cbn [m_os]; [by rewrite Hlive|lia]|]. cbn [m_os m_log].
    intros o m' (res' & status' & e' & -> & ? & ? & ? & Hp & Hf3 & Hb3). exists res', status', e'.
    rewrite Hlive in Hp. split_and!; try done; congruence.
Qed.

Lemma account_accounted s m0 m res status after :
  accounted s m0 → live (m_os m0) ≡ₚ res :: live (m_os m) →
  failures (m_log m) = failures (m_log m0) → existsb is_bug (m_log m) = existsb is_bug (m_log m0) →
  wp (account c s res status after) (λ s' m', accounted s' m' ∧ reaped s' = reaped s + 1 ∧
    launched s' = launched s) m.
Proof.
  intros [Ho Hwin Hs Hp Hl Ht Hf Hb] Hlive Hf1 Hb1. unfold account.
  assert (Hlen : length (live (m_os m0)) = S (length (live (m_os m)))) by by rewrite Hlive.
  assert (Hpos : 0 < res) by (rewrite Hlive in Hp; by apply Forall_cons in Hp as [? _]).
  assert (0 ≤ s_failed s) by (rewrite Hf; unfold failures; lia).
  destruct (scan_spec (λ p, p =? res) (parallel c) (inflight s)) as [[_ Hno]|(Hslot & x & Hx & Ex)];
    [unfold SPAWN_MAX_PARALLEL in *; lia| |].
  { exfalso. assert (Hin : res ∈ slots (parallel c) (inflight s)) by (rewrite Hs, Hlive; left).
    apply list_elem_of_filter in Hin as [_ (i & Hi)%list_elem_of_lookup].
    apply lookup_take_Some in Hi as [Hi Hlt]. specialize (Hno i res Hlt Hi). lia. }
  set (i := scan _ _ _) in *. apply Z.eqb_eq in Ex as ->.
  rewrite (proj2 (Nat.eqb_neq _ _)) by lia. cbn [negb]. unfold u64. rewrite !uwrap_small by lia.
  set (good := WIFEXITED status && _). set (ok := if good then _ else _). set (failed := if good then _ else _).
  set (fl := <[i := -1]> (inflight s)).
  assert (Hslots : slots (parallel c) fl ≡ₚ live (m_os m)).
  { apply (Permutation_cons_inv (a := res)). rewrite <- Hlive, <- Hs. symmetry. by apply slots_clear; [..|lia]. }
  assert (Hacc : ∀ slow log, failures log = failed → existsb is_bug log = false →
    accounted (mkStorm (launched s) (reaped s + 1) ok failed slow fl (before s)) (mkMachine (m_os m) log)).
  { intros slow log Hfl Hbl. constructor; cbn -[slots failures]; try done; try lia.
    - rewrite Hlive in Hp. by apply Forall_cons in Hp as [_ ?].
    - unfold fl. by rewrite length_insert.
    - subst ok failed. destruct good; lia. }
  apply wp_bind. eapply (wp_mono _ (λ _ m', m_os m' = m_os m ∧ failures (m_log m') = failed ∧
    existsb is_bug (m_log m') = false)).
  { unfold sayWhen. subst failed. destruct good; cbn [negb].
    - apply wp_ret. split_and!; [done|by rewrite Hf1, Hf|congruence].
    - apply wp_say. cbn -[failures]. split_and!; [done| |congruence].
      rewrite Hf, <- Hf1. unfold failures. cbn [List.filter is_failure]. simpl length. lia. }
  intros _ [o1 log1] (Eo & Hf2 & Hb2). cbn [m_os m_log] in *. subst o1.
  apply wp_bind. eapply (wp_mono _ (λ _ m', m_os m' = m_os m ∧ failures (m_log m') = failed ∧
    existsb is_bug (m_log m') = false)).
  { unfold sayWhen. case_match; [by apply wp_say|by apply wp_ret]. }
  intros _ [o1 log2] (Eo & Hf3 & Hb3). cbn [m_os m_log] in *. subst o1.
  case_match; [apply wp_bind, wp_say, wp_ret|apply wp_ret]; (split; [by apply Hacc|done]).
Qed.

Lemma storm_round_accounted inner s m :
  accounted s m → reaped s < iterations c → iterations c < Z.of_nat inner → (max_interrupts < inner)%nat →
  wp (storm_round c inner s) (λ o m', ∃ s', o = Some s' ∧ accounted s' m' ∧ reaped s < reaped s') m.
Proof.
  intros Ha Hr Hi1 Hi2. unfold storm_round. apply wp_bind.
  eapply wp_mono; [apply fill_accounted; [done|destruct Ha; lia]|].
  intros o m1 (s1 & -> & Ha1 & Hr1 & Hd). destruct (launched s1 =? reaped s1) eqn:E.
  { apply Z.eqb_eq in E. apply wp_ret. exists s1. split_and!; [done|done|lia]. }
  apply Z.eqb_neq in E. apply wp_bind, wp_call. intros t1 o1 E1%gettimeofday_law.
  pose proof Ha1 as [Ho1 Hw1 _ _ _ _ _ _].
  apply wp_bind. eapply wp_mono; [apply reap_wait_spec; cbn [m_os]; rewrite ?E1|].
  { intros Hn0. rewrite Hn0 in Hw1. simpl in Hw1. lia. }
  { pose proof (interrupts_bound o1). lia. }
  cbn [m_os m_log]. intros o m2 (res & status & e & -> & Hpos & Hres & Hst & Hlive & Hf2 & Hb2).
  apply wp_bind, wp_call. intros t2 o2 E2%gettimeofday_law.
  apply wp_bind, wp_tag; try done.
  { rewrite (proj2 (Z.leb_le _ _)) by lia. cbv iota. do 2 (apply Forall_cons; split; [by apply int32_int64|]).
    apply Forall_cons; split; [apply int64_i64|constructor]. }
  cbn [m_os m_log]. intros log3 Hf3 Hb3. rewrite (proj2 (Z.ltb_ge _ _)) by lia.
  apply wp_bind. eapply wp_mono; [apply (account_accounted s1 m1); cbn [m_os m_log]; try done|].
  - rewrite E2, <- Hlive, <- E1. done.
  - congruence.
  - congruence.
  - intros s2 m3 (Ha2 & Hr2 & _). apply wp_ret. exists s2. split_and!; [done|done|lia].
Qed.

Lemma storm_rounds_accounted fuel inner s m :
  accounted s m → iterations c - reaped s < Z.of_nat fuel →
  iterations c < Z.of_nat inner → (max_interrupts < inner)%nat →
  wp (storm_rounds c fuel inner s) (λ o m', ∃ s', o = Some s' ∧ accounted s' m' ∧
    reaped s' = iterations c ∧ launched s' = iterations c) m.
Proof.
  revert s m. induction fuel as [|fuel IH]; intros s m Ha Hf Hi1 Hi2; [destruct Ha; lia|].
  cbn [storm_rounds]. destruct (reaped s <? iterations c) eqn:E; cycle 1.
  { apply Z.ltb_ge in E. apply wp_ret. exists s. pose proof Ha as [? _ _ _ _ _ _ _]. split_and!; [done|done|lia|lia]. }
  apply Z.ltb_lt in E. apply wp_bind. eapply wp_mono; [by apply storm_round_accounted|].
  intros o m1 (s1 & -> & Ha1 & Hr1). apply IH; [done|lia|done|done].
Qed.

Lemma accounted_initial o log :
  live o = [] → failures log = 0 → existsb is_bug log = false →
  accounted initial_storm (mkMachine o log).
Proof.
  intros Ho Hf Hb. constructor; cbn -[slots failures replicate]; rewrite ?Ho; try done; try lia.
  unfold slots. cbn -[replicate]. rewrite take_replicate.
  assert (Hr : ∀ k, filter (λ p, p ≠ -1) (replicate k (-1)) = []).
  { induction k as [|k IH]; [done|]. cbn [replicate]. by rewrite filter_cons_False by (intros Hx; by apply Hx). }
  by rewrite Hr.
Qed.

(** C3: Spawn-storm accounts for every launch. On a system that keeps fork's and waitpid's promises,
    for any window of 1 to 32 and any number of launches, the worker ends with every launch made
    and reaped, each of them either ok or failed, with no child left, with one line of output for
    every failure, never finding its window without a free slot and never losing a child, and its
    exit code is 0 exactly when no launch failed. The counters, unsigned long in the code, are 64
    bits wide, and waitpid is interrupted a bounded number of times in a row. *)
Theorem storm_worker_accounts o fuel inner :
  live o = [] → iterations c < Z.of_nat fuel → iterations c < Z.of_nat inner →
  (max_interrupts < inner)%nat →
  ∃ code s m, storm_worker c fuel inner (mkMachine o []) = (Some (code, s), m) ∧
    launched s = iterations c ∧ reaped s = iterations c ∧ s_ok s + s_failed s = iterations c ∧
    live (m_os m) = [] ∧ failures (m_log m) = s_failed s ∧
    existsb is_bug (m_log m) = false ∧ (code = 0 ↔ s_failed s = 0).
Proof.
  intros Hlive Hf1 Hf2 Hf3.
  assert (Hw : wp (storm_worker c fuel inner) (λ r m', ∃ code s, r = Some (code, s) ∧
    accounted s m' ∧ reaped s = iterations c ∧ launched s = iterations c ∧ (code = 0 ↔ s_failed s = 0))
    (mkMachine o [])).
  { unfold storm_worker. apply wp_bind.
    eapply (wp_mono _ (λ _ m', live (m_os m') = [] ∧ m_log m' = [])).
    { case_match; [|by apply wp_ret]. apply wp_call. intros fd o' E%open_null_law. cbn [m_os m_log] in *.
      by rewrite E. }
    intros _ [o1 log1] [Hl1 Elog]. cbn [m_os m_log] in *. subst log1.
    apply wp_bind. eapply wp_mono; [apply storm_rounds_accounted;
      [by apply accounted_initial|simpl; lia|done|done]|].
    intros r m1 (s1 & -> & Ha & Hr & Hl). apply wp_bind, wp_say, wp_ret.
    eexists _, s1. split; [done|]. split_and!; try done.
    - destruct m1 as [o2 log2]. apply (accounted_frame _ _ o2 _ Ha); [done|done|].
      by destruct Ha.
    - destruct (Z.eqb_spec (s_failed s1) 0); split; done. }
  unfold wp in Hw. destruct (storm_worker c fuel inner (mkMachine o [])) as [r m] eqn:Er.
  destruct Hw as (code & s & Hc & [Ho Hwin _ _ _ Ht Hfl Hb] & Hr & Hl & Hcode). cbn [fst snd] in *. subst r.
  exists code, s, m. split_and!; try done; [lia|].
  destruct (live (m_os m)); [done|]. simpl in Hwin. lia.
Qed.
End worker.

(** ** When waitpid() fails *)

Section failing.
Context `{Os} (c : config).
Context (Hn : (1 ≤ parallel c ≤ SPAWN_MAX_PARALLEL)%nat) (Hit : Z.of_nat (parallel c) < iterations c < 2 ^ 64).

(** Nothing in flight by the counts, but every slot still taken. *)
Definition stuck (s : storm) : Prop :=
  launched s = reaped s ∧ reaped s < iterations c ∧ length (inflight s) = SPAWN_MAX_PARALLEL ∧
  ∀ i p, (i < parallel c)%nat → inflight s !! i = Some p → p ≠ -1.

Lemma wp_tag_any en who what i vals Q m :
  (∀ log, Q () (mkMachine (m_os m) log)) → wp (storm_tag en who what i vals) Q m.
Proof.
  intros Hq. unfold storm_tag. destruct en; cbn [negb]; [|apply wp_ret; by destruct m].
  case_match; apply wp_say, Hq.
Qed.

Lemma stuck_round inner s m : stuck s → wp (storm_round c inner s) (λ o _, o = None ∨ o = Some s) m.
Proof.
  intros (Hl & Hr & Hlen & Hfull). unfold storm_round. apply wp_bind.
  eapply (wp_mono _ (λ o _, o = None ∨ o = Some s)).
  - destruct inner as [|inner]; cbn [fill]; [apply wp_ret; by left|].
    rewrite Hl, Z.sub_diag, (proj2 (Z.ltb_lt (reaped s) (iterations c))) by done. cbn [andb].
    change (u64 0) with 0. rewrite (proj2 (Z.ltb_lt 0 _)) by lia. apply wp_bind. unfold launch.
    destruct (scan_spec (λ p, p =? -1) (parallel c) (inflight s)) as [[-> _]|(Hslot & x & Hx & Ex)];
      [unfold SPAWN_MAX_PARALLEL in *; lia| |].
    + rewrite Nat.eqb_refl. apply wp_bind, wp_say, wp_ret, wp_ret. by right.
    + exfalso. apply Z.eqb_eq in Ex. by apply (Hfull _ _ Hslot Hx).
  - intros o m' [-> | ->]; [apply wp_ret; by left|]. rewrite Hl, Z.eqb_refl. apply wp_ret. by right.
Qed.

Lemma stuck_forever fuel inner s m : stuck s → wp (storm_rounds c fuel inner s) (λ o _, o = None) m.
Proof.
  intros Hs. revert m. induction fuel as [|fuel IH]; intros m; cbn [storm_rounds]; [by apply wp_ret|].
  pose proof Hs as (_ & Hr & _). rewrite (proj2 (Z.ltb_lt _ _)) by done. apply wp_bind.
  eapply wp_mono; [by apply stuck_round|]. intros o m' [-> | ->]; [by apply wp_ret|apply IH].
Qed.

(** [k] children launched into the first [k] slots, none reaped. *)
Definition launched_upto (k : nat) (s : storm) : Prop :=
  launched s = Z.of_nat k ∧ reaped s = 0 ∧ length (inflight s) = SPAWN_MAX_PARALLEL ∧
  (∀ i p, (i < k)%nat → inflight s !! i = Some p → p ≠ -1) ∧
  (∀ i p, (k ≤ i)%nat → inflight s !! i = Some p → p = -1).

Context (Hfork : ∀ f o, 0 < (sys_fork f o).1).

Lemma launch_upto k s m : (k < parallel c)%nat → launched_upto k s →
  wp (launch c s) (λ r _, r.2 = true ∧ launched_upto (S k) r.1) m.
Proof.
  intros Hk (Hl & Hr & Hlen & Hused & Hfree). unfold launch.
  assert (Hscan : scan (λ p, p =? -1) (parallel c) (inflight s) = k).
  { destruct (scan_spec (λ p, p =? -1) (parallel c) (inflight s)) as [[_ Hno]|(Hlt & x & Hx & Ex)];
      [unfold SPAWN_MAX_PARALLEL in *; lia| |].
    - destruct (lookup_lt_is_Some_2 (inflight s) k) as [x Hx]; [unfold SPAWN_MAX_PARALLEL in *; lia|].
      specialize (Hno k x Hk Hx). rewrite (Hfree k x) in Hno by done. done.
    - apply Z.eqb_eq in Ex. subst x. destruct (lt_eq_lt_dec (scan (λ p, p =? -1) (parallel c) (inflight s)) k)
        as [[Hlt'|]|Hgt]; [by destruct (Hused _ _ Hlt' Hx)|done|].
      destruct (lookup_lt_is_Some_2 (inflight s) k) as [x Hxk]; [unfold SPAWN_MAX_PARALLEL in *; lia|].
      pose proof (scan_before _ _ _ _ _ Hgt Hxk) as Hf. rewrite (Hfree k x) in Hf by done. done. }
  rewrite Hscan, (proj2 (Nat.eqb_neq _ _)) by lia.
  unfold u64. rewrite !uwrap_small by (unfold SPAWN_MAX_PARALLEL in *; lia).
  apply wp_bind, wp_say, wp_bind, wp_call. intros now o1 _.
  apply wp_bind, wp_tag_any. intros log1. apply wp_bind, wp_call. intros pid o2 E2. cbn [m_os] in E2.
  assert (Hpid : 0 < pid) by (pose proof (Hfork (useFork c) o1) as Hp; by rewrite E2 in Hp).
  apply wp_bind. eapply (wp_mono _ (λ _ _, True)); [case_match; [by apply wp_tag_any|by apply wp_ret]|].
  intros _ m1 _. rewrite (proj2 (Z.ltb_ge _ _)) by lia. apply wp_ret. split; [done|]. cbn [fst].
  split_and!; cbn; [lia|done|by rewrite length_insert| |].
  - intros i p Hi. destruct (decide (i = k)) as [->|].
    + rewrite list_lookup_insert_eq by (unfold SPAWN_MAX_PARALLEL in *; lia). intros [= <-]. lia.
    + rewrite list_lookup_insert_ne by done. apply Hused. lia.
  - intros i p Hi. rewrite list_lookup_insert_ne by lia. apply Hfree. lia.
Qed.

Lemma fill_upto inner k s m : (k ≤ parallel c)%nat → launched_upto k s →
  wp (fill c inner s) (λ o _, ∀ s', o = Some s' → launched_upto (parallel c) s') m.
Proof.
  revert k s m. induction inner as [|inner IH]; intros k s m Hk Hu; cbn [fill]; [by apply wp_ret|].
  pose proof Hu as (Hl & Hr & _). rewrite Hl, Hr, Z.sub_0_r, (proj2 (Z.ltb_lt _ _)) by lia. cbn [andb].
  unfold u64. rewrite uwrap_small by lia. destruct (Z.of_nat k <? _) eqn:E.
  - apply Z.ltb_lt in E. apply wp_bind. eapply wp_mono; [apply (launch_upto k); [lia|done]|].
    intros [s1 more] m1 [Hm Hu1]. cbn [fst snd] in *. subst more. apply (IH (S k)); [lia|done].
  - apply Z.ltb_ge in E. apply wp_ret. intros s' [= <-]. by replace (parallel c) with k by lia.
Qed.

(** A waitpid() that fails makes the worker spin for ever: when forks succeed but the first
    waitpid() fails for another reason than a signal, the counts say that nothing is in flight
    while all slots are still taken, so that with launches left no round makes progress again,
    however long it runs. *)
Theorem storm_worker_livelock fuel inner m :
  (∀ o, let '((res, _, e), _) := sys_waitpid o in res < 0 ∧ e ≠ EINTR) →
  (storm_worker c fuel inner m).1 = None.
Proof.
  intros Hwait. change (wp (storm_worker c fuel inner) (λ o _, o = None) m). unfold storm_worker.
  apply wp_bind. eapply (wp_mono _ (λ _ _, True)); [done|]. intros _ m1 _.
  apply wp_bind. eapply (wp_mono _ (λ o _, o = None)); [|intros o m2 ->; by apply wp_ret].
  destruct fuel as [|fuel]; cbn [storm_rounds]; [by apply wp_ret|].
  rewrite (proj2 (Z.ltb_lt _ _)) by (cbn; lia). apply wp_bind.
  eapply (wp_mono _ (λ o _, ∀ s, o = Some s → stuck s)); cycle 1.
  { intros [s|] m2 Hs; [|by apply wp_ret]. by apply stuck_forever, Hs. }
  unfold storm_round. apply wp_bind. eapply wp_mono; [apply (fill_upto inner 0); [lia|]|].
  { split_and!; try done; [lia|]. intros i p _ Hp. by apply lookup_replicate in Hp as [-> _]. }
  intros [s|] m2 Hs; [|by apply wp_ret]. destruct (Hs s eq_refl) as (Hl & Hr & Hlen & Hused & _).
  rewrite Hl, Hr, (proj2 (Z.eqb_neq _ _)) by lia. apply wp_bind, wp_call. intros t1 o1 _.
  apply wp_bind. eapply (wp_mono _ (λ o _, ∀ res st e, o = Some (res, st, e) → res < 0)).
  { generalize (mkMachine o1 (m_log m2)) as m3. clear -Hwait.
    induction inner as [|inner IH]; intros m3; cbn [reap_wait]; [by apply wp_ret|].
    apply wp_bind, wp_tag_any. intros log. apply wp_bind, wp_call. intros [[res st] e] o E.
    pose proof (Hwait (m_os (mkMachine (m_os m3) log))) as Hw. rewrite E in Hw.
    rewrite (proj2 (Z.eqb_neq e EINTR)) by apply Hw. rewrite orb_true_r. apply wp_ret.
    intros ??? [= <- <- <-]. apply Hw. }
  intros [[[res st] e]|] m3 Hres; [|by apply wp_ret]. specialize (Hres _ _ _ eq_refl).
  apply wp_bind, wp_call. intros t2 o2 _. apply wp_bind, wp_tag_any. intros log2.
  rewrite (proj2 (Z.ltb_lt res 0)) by done. apply wp_bind, wp_say, wp_ret. intros s' [= <-].
  split_and!; cbn; [done|lia|done|done].
Qed.
End failing.

(** ** The monitor *)

Section monitoring.
Context `{Os} (worker self start watchdog : Z).

(** A recovery dumps all threads once. *)
Definition is_recovery (r : report) : bool := match r with R_dump_begin _ => true | _ => false end.
Definition recoveries (log : list report) : Z := Z.of_nat (length (List.filter is_recovery log)).

(** A reported hang was a full quiet window, in one of the rounds a stall gets. *)
Definition hang_ok (r : report) : Prop :=
  match r with
  | R_hang _ _ _ quiet round | R_hang_none quiet round => watchdog ≤ quiet ∧ 1 ≤ round ≤ STORM_MAX_DUMPS
  | _ => True
  end.

(** The output grew by lines with [k] recoveries, hangs among them justified. *)
Definition adds (k : Z) (m m' : machine) : Prop :=
  recoveries (m_log m') = recoveries (m_log m) + k ∧
  (Forall hang_ok (m_log m) → Forall hang_ok (m_log m')).

Lemma adds_refl m o : adds 0 m (mkMachine o (m_log m)).
Proof. split; [simpl; lia|done]. Qed.

Lemma adds_trans j k m1 m2 m3 : adds j m1 m2 → adds k m2 m3 → adds (j + k) m1 m3.
Proof. intros [E1 H1] [E2 H2]. split; [lia|auto]. Qed.

Lemma adds_say r m : is_recovery r = false → hang_ok r → adds 0 m (mkMachine (m_os m) (r :: m_log m)).
Proof.
  intros Hr Hh. split; [|intros ?; by constructor]. unfold recoveries. cbn [m_log List.filter].
  rewrite Hr. lia.
Qed.

(** Quiet lines: neither recoveries nor hangs. *)
Definition quiet_line (r : report) : Prop := is_recovery r = false ∧ hang_ok r.

Lemma wp_sayAll rs Q m : Q () (mkMachine (m_os m) (rev rs ++ m_log m)) → wp (sayAll rs) Q m.
Proof. done. Qed.

Lemma adds_sayAll rs m : Forall quiet_line rs → adds 0 m (mkMachine (m_os m) (rev rs ++ m_log m)).
Proof.
  intros Hrs. split.
  - unfold recoveries. cbn [m_log]. rewrite List.filter_app, length_app.
    assert (List.filter is_recovery (rev rs) = []) as ->; [|simpl; lia].
    apply Forall_rev in Hrs. induction Hrs as [|r l [Hr _] _ IH]; [done|]. cbn [List.filter]. by rewrite Hr.
  - intros Hm. apply Forall_app. split; [|done]. apply Forall_rev. eapply Forall_impl; [done|]. by intros r [].
Qed.

Lemma wp_sayWhen b r Q m : quiet_line r →
  (∀ m', m_os m' = m_os m → adds 0 m m' → Q () m') → wp (sayWhen b r) Q m.
Proof.
  intros [Hr Hh] Hq. unfold sayWhen. destruct b.
  - apply wp_say, Hq; [done|by apply adds_say].
  - apply wp_ret, Hq; [done|]. destruct m. apply (adds_refl (mkMachine _ _)).
Qed.

Lemma wp_snapshot snap wd Q m :
  (∀ r m', adds 0 m m' → Q r m') → wp (storm_snapshot snap wd) Q m.
Proof.
  intros Hq. unfold storm_snapshot. apply wp_bind, wp_call. intros [n entries] o _. case_match.
  - apply wp_bind, wp_sayWhen; [done|]. intros m' _ Ha. apply wp_ret, Hq.
    eapply (adds_trans 0 0); [apply adds_refl|done].
  - apply wp_ret, Hq, adds_refl.
Qed.

Lemma dump_second_quiet n snap ts : Forall quiet_line (ts ≫= dump_second self n snap).
Proof.
  induction ts as [|t ts IH]; [constructor|]. rewrite bind_cons. apply Forall_app. split; [|done].
  unfold dump_second. case_match; [constructor|]. by repeat case_match; repeat constructor.
Qed.

Lemma dump_gone_quiet n2 snap2 ts : Forall quiet_line (ts ≫= dump_gone n2 snap2).
Proof.
  induction ts as [|t ts IH]; [constructor|]. rewrite bind_cons. apply Forall_app. split; [|done].
  unfold dump_gone. case_match; repeat constructor.
Qed.

(** storm_dumpAll is one recovery. *)
Lemma wp_dumpAll st Q m : (∀ st' m', adds 1 m m' → Q st' m') → wp (storm_dumpAll self st) Q m.
Proof.
  intros Hq. unfold storm_dumpAll. apply wp_bind, wp_snapshot. intros [[n snap] w1] m1 Ha1.
  apply wp_bind, wp_sayAll. set (m2 := mkMachine _ _).
  assert (Ha2 : adds 1 m1 m2).
  { subst m2. cbn [rev]. rewrite <- app_assoc. cbn [app].
    assert (adds 1 m1 (mkMachine (m_os m1) (R_dump_begin n :: m_log m1))) as Hb.
    { split; [|intros ?; by constructor]. unfold recoveries. cbn [m_log List.filter is_recovery length]. lia. }
    eapply (adds_trans 1 0); [done|]. apply (adds_sayAll _ (mkMachine (m_os m1) (R_dump_begin n :: m_log m1))).
    apply Forall_map, Forall_true. done. }
  apply wp_bind, wp_call. intros _ o _. apply wp_bind, wp_snapshot. intros [[n2 snap2] w2] m3 Ha3.
  apply wp_bind, wp_sayAll, wp_ret, Hq.
  eapply (adds_trans 1 0); [|apply adds_sayAll].
  - eapply (adds_trans 0 1); [done|]. eapply (adds_trans 1 0); [done|].
    eapply (adds_trans 0 0); [apply adds_refl|done].
  - apply Forall_app. split; [apply dump_second_quiet|]. apply Forall_app. split; [apply dump_gone_quiet|].
    by repeat constructor.
Qed.

Lemma wp_kill_kids ks Q m : (∀ m', adds 0 m m' → Q () m') → wp (kill_kids ks) Q m.
Proof.
  revert m. induction ks as [|t ks IH]; intros m Hq; cbn [kill_kids].
  { apply wp_ret, Hq. destruct m. apply (adds_refl (mkMachine _ _)). }
  apply wp_bind, wp_call. intros rc o _. apply wp_bind, wp_say, IH. intros m' Ha. apply Hq.
  eapply (adds_trans 0 0); [|exact Ha]. by apply (adds_say (R_kill (t_pid t) rc) (mkMachine o (m_log m))).
Qed.

(** Progress only raises the newest child, and grants new recoveries only then. *)
Lemma wp_note_kids ts w Q m :
  (∀ w' m', adds 0 m m' → maxKid w ≤ maxKid w' → (dumps w' = dumps w ∨ dumps w' = 0) →
    (maxKid w' = maxKid w → w' = w) → Q w' m') →
  wp (note_kids worker ts w) Q m.
Proof.
  revert w m Q. induction ts as [|t ts IH]; intros w m Q Hq; cbn [note_kids].
  { apply wp_ret, Hq; auto; [|lia]. destruct m. apply (adds_refl (mkMachine _ _)). }
  case_match eqn:E; [|by apply IH]. apply andb_true_iff in E as [_ E%Z.ltb_lt].
  apply wp_bind, wp_call. intros now o _. apply IH. cbn. intros w' m' Ha Hk Hd Hs. apply Hq.
  - eapply (adds_trans 0 0); [apply adds_refl|done].
  - lia.
  - destruct Hd; auto.
  - lia.
Qed.

(** What one round does to the watch and the output. *)
Definition watched (w : watch) (m : machine) (w' : watch) (m' : machine) : Prop :=
  maxKid w ≤ maxKid w' ∧ 0 ≤ dumps w' ≤ STORM_MAX_DUMPS ∧
  (Forall (hang_ok) (m_log m) → Forall hang_ok (m_log m')) ∧
  (maxKid w' = maxKid w →
    recoveries (m_log m') = recoveries (m_log m) + (dumps w' - dumps w)).

Lemma wp_hangs quiet round (kids : list threadinfo) (Q : unit → machine → Prop) m :
  watchdog ≤ quiet → 1 ≤ round ≤ STORM_MAX_DUMPS →
  (∀ m', adds 0 m m' → Q () m') →
  wp (if (length kids =? 0)%nat then say (R_hang_none quiet round)
      else sayAll (map (λ t, R_hang (t_pid t) (t_tid t) (t_state t) quiet round) kids)) Q m.
Proof.
  intros Hq Hr HQ. case_match.
  - apply wp_say, HQ, adds_say; done.
  - apply wp_sayAll, HQ, adds_sayAll. apply Forall_map, Forall_true. done.
Qed.

Lemma monitor_round_watched w m :
  0 ≤ dumps w ≤ STORM_MAX_DUMPS →
  wp (monitor_round worker self start watchdog w) (λ r m', ∀ w', r = inr w' → watched w m w' m') m.
Proof.
  intros Hd. unfold monitor_round. apply wp_bind, wp_call. intros _ o0 _.
  apply wp_bind, wp_call. intros [[res status] e] o1 _. case_match.
  { apply wp_bind, wp_call. intros now o2 _. apply wp_bind, wp_say, wp_bind, wp_sayWhen; [done|].
    intros m' _ _. by apply wp_ret. }
  case_match; [by apply wp_bind, wp_say, wp_ret|].
  apply wp_bind, wp_snapshot. cbn [m_log]. intros [[n snap] wd] m1 Ha1.
  apply wp_bind, wp_note_kids. cbn. intros w2 m2 Ha2 Hk Hdu Hsame.
  apply wp_bind, wp_call. intros now o3 _. apply wp_bind, wp_sayWhen; [done|].
  intros m4 _ Ha4. set (w3 := if STORM_TICK_SECS <=? u64 (now - lastTick w2)
    then mkWatch (lastProgress w2) now (dumps w2) (maxKid w2) (w_statics w2) else w2).
  assert (Hw3 : dumps w3 = dumps w2 ∧ maxKid w3 = maxKid w2) by (subst w3; by case_match).
  destruct Hw3 as [Hd3 Hk3]. clearbody w3.
  assert (Ha : adds 0 m m4).
  { eapply (adds_trans 0 0); [apply (adds_refl m o1)|]. eapply (adds_trans 0 0); [done|].
    eapply (adds_trans 0 0); [done|]. eapply (adds_trans 0 0); [apply adds_refl|done]. }
  assert (Hsame' : maxKid w3 = maxKid w → dumps w3 = dumps w).
  { rewrite Hk3, Hd3. intros E. specialize (Hsame E). by subst w2. }
  assert (Hb3 : 0 ≤ dumps w3 ≤ STORM_MAX_DUMPS) by (rewrite Hd3; unfold STORM_MAX_DUMPS in *; lia).
  case_match eqn:Eq.
  { apply wp_ret. intros w' [= <-]. destruct Ha as [Hr Hh].
    split_and!; [lia|lia|lia|done|intros E; specialize (Hsame' E); lia]. }
  apply orb_false_iff in Eq as [Eq1%Z.ltb_ge Eq2%Z.leb_gt].
  assert (Hround : u64 (dumps w3 + 1) = dumps w3 + 1)
    by (apply uwrap_small; unfold STORM_MAX_DUMPS in *; lia). rewrite Hround.
  apply wp_bind, wp_hangs; [done|lia|]. intros m5 Ha5.
  apply wp_bind, wp_dumpAll. intros st m6 Ha6. apply wp_bind.
  eapply (wp_mono _ (λ _ m', adds 0 m6 m')).
  { case_match; [|by apply wp_kill_kids]. apply wp_bind, wp_call. intros rc o7 _. apply wp_say.
    by apply (adds_say (R_poke worker rc) (mkMachine o7 (m_log m6))). }
  intros _ m7 Ha7. apply wp_bind, wp_call. intros now2 o8 _. apply wp_bind, wp_sayWhen; [done|].
  intros m9 _ Ha9. apply wp_ret. intros w' [= <-]. cbn.
  assert (Hall : adds 1 m m9).
  { eapply (adds_trans 0 1); [exact Ha|]. eapply (adds_trans 0 1); [exact Ha5|].
    eapply (adds_trans 1 0); [exact Ha6|]. eapply (adds_trans 0 0); [exact Ha7|].
    eapply (adds_trans 0 0); [apply adds_refl|exact Ha9]. }
  destruct Hall as [Hr Hh]. split_and!; cbn; [lia|lia|lia|done|intros E; specialize (Hsame' E); lia].
Qed.

(** The monitor recovers sparingly: it reports a hang only after a full quiet window of the
    watchdog's length, in one of at most three rounds, and while no new child of the worker
    appears it makes at most three recoveries, however long it watches. *)
Theorem monitor_recovers_sparingly fuel w m w' m' :
  0 ≤ dumps w ≤ STORM_MAX_DUMPS →
  monitor_loop fuel worker self start watchdog w m = (inr w', m') →
  (Forall hang_ok (m_log m) → Forall hang_ok (m_log m')) ∧ 0 ≤ dumps w' ≤ STORM_MAX_DUMPS ∧
  (maxKid w' = maxKid w → recoveries (m_log m') - recoveries (m_log m) ≤ STORM_MAX_DUMPS).
Proof.
  intros Hd Hrun. enough (watched w m w' m') as (_ & Hb & Hh & Hr).
  { split_and!; [done|lia|lia|]. intros E. specialize (Hr E). unfold STORM_MAX_DUMPS in *. lia. }
  revert w m Hd Hrun. induction fuel as [|fuel IH]; intros w m Hd Hrun; cbn [monitor_loop] in Hrun.
  { injection Hrun as <- <-. split_and!; [lia|lia|lia|done|lia]. }
  unfold mbind, P_bind in Hrun. pose proof (monitor_round_watched w m Hd) as Hw. unfold wp in Hw.
  destruct (monitor_round worker self start watchdog w m) as [[code|w1] m1]; [done|].
  cbn [fst snd] in Hw. destruct (Hw w1 eq_refl) as (Hk1 & Hb1 & Hh1 & Hr1).
  destruct (IH w1 m1 Hb1 Hrun) as (Hk2 & Hb2 & Hh2 & Hr2).
  split_and!; [lia|lia|lia|auto|]. intros E. assert (maxKid w1 = maxKid w) as E1 by lia.
  rewrite Hr2 by lia. rewrite Hr1 by done. lia.
Qed.
End monitoring.

(** ** The command line *)

Lemma strtoul10_decimal n : 0 ≤ n < 2 ^ 64 → strtoul10 (decimal n) = n.
Proof.
  intros Hn. destruct (decimal_digits n Hn) as (k & _ & _ & Hk & E).
  assert (Hall : ∀ s, Forall is_digit s → leading_digits s = s).
  { induction 1 as [|x s Hx _ IH]; [done|]. cbn [leading_digits]. unfold is_digit_char, is_digit in *.
    rewrite (proj2 (Z.leb_le _ _)), (proj2 (Z.leb_le _ _)) by lia. by rewrite IH. }
  pose proof (digits_down_digits k n) as Hd. pose proof (dec_value_decimal n Hn) as Hv. rewrite E in *.
  destruct (digits_down k n) as [|x s] eqn:Ed; [by destruct k|]. unfold strtoul10. cbn [skip_spaces].
  assert (Hx : 48 ≤ x ≤ 57) by by apply Forall_cons in Hd as [? _].
  assert (is_space x = false) as -> by (unfold is_space; lia).
  rewrite (proj2 (Z.eqb_neq x 45)), (proj2 (Z.eqb_neq x 43)) by lia. rewrite Hall, Hv by done.
  by rewrite (proj2 (Z.leb_gt _ _)) by lia.
Qed.

(** Options as a user gives them. *)
Inductive storm_item := I_p (n : Z) | I_w (n : Z) | I_f | I_t | I_n.

Definition item_args (i : storm_item) : list (list Z) :=
  match i with
  | I_p n => [str "-p"; decimal n] | I_w n => [str "-w"; decimal n]
  | I_f => [str "-f"] | I_t => [str "-t"] | I_n => [str "-n"]
  end.
Definition item_ok (i : storm_item) : Prop :=
  match i with
  | I_p n => 1 ≤ n ≤ Z.of_nat SPAWN_MAX_PARALLEL | I_w n => 0 ≤ n ≤ STORM_WATCHDOG_MAX | _ => True
  end.

Definition get_p (i : storm_item) : option Z := match i with I_p n => Some n | _ => None end.
Definition get_w (i : storm_item) : option Z := match i with I_w n => Some n | _ => None end.
Definition is_f (i : storm_item) : bool := match i with I_f => true | _ => false end.
Definition is_t (i : storm_item) : bool := match i with I_t | I_f => true | _ => false end.
Definition is_n (i : storm_item) : bool := match i with I_n => true | _ => false end.

(** The options a list of items asks for, [argi] being the first argument. *)
Definition asked (argi : nat) (items : list storm_item) : storm_opts :=
  mkOpts (default 1 (last (omap get_p items))) (default STORM_WATCHDOG_DEFAULT (last (omap get_w items)))
    (existsb is_f items) (existsb is_t items) (existsb is_n items)
    (argi + length (items ≫= item_args)).

Lemma option_at_here pre x rest k s :
  option_at (pre ++ x :: rest) (length pre) k s = (k <? S (length rest))%nat && bool_decide (x = s).
Proof.
  unfold option_at. rewrite length_app, lookup_app_r, Nat.sub_diag by lia. simpl length. f_equal.
  - apply eq_bool_prop_intro. rewrite !Is_true_true, !Nat.ltb_lt. lia.
  - apply bool_decide_ext. simpl. split; [by intros [= ->]|by intros ->].
Qed.

Lemma option_at_second a x rest k s :
  option_at (a :: x :: rest) 1 k s = (k <? S (length rest))%nat && bool_decide (x = s).
Proof. exact (option_at_here [a] x rest k s). Qed.

(** One option at the front of the arguments. *)
Lemma storm_options_item fuel pre i rest o :
  item_ok i → (1 ≤ length rest)%nat → o_argi o = length pre →
  storm_options (S fuel) (pre ++ item_args i ++ rest) o =
  storm_options fuel (pre ++ item_args i ++ rest)
    (mkOpts (default (o_parallel o) (get_p i)) (default (o_watchdog o) (get_w i))
       (o_useFork o || is_f i) (o_tags o || is_t i) (o_noTags o || is_n i)
       (length (pre ++ item_args i))).
Proof.
  intros Hi Hr Ho. cbn [storm_options]. rewrite Ho. rewrite length_app.
  assert (Hnext : ∀ x y, (pre ++ [x; y] ++ rest) !! S (length pre) = Some y).
  { intros x y. rewrite lookup_app_r by lia. by replace (S (length pre) - length pre)%nat with 1%nat by lia. }
  assert (Hlen : (1 <? S (length rest))%nat = true) by (apply Nat.ltb_lt; lia).
  destruct i as [n|n| | |]; cbn [item_args app length get_p get_w is_f is_t is_n item_ok] in *;
    rewrite !option_at_here, ?orb_true_r, ?orb_false_r; cbn [length].
  - cbn [Nat.ltb Nat.leb andb]. rewrite bool_decide_true by done. cbn [app] in Hnext. rewrite Hnext.
    cbn [default]. unfold SPAWN_MAX_PARALLEL in *. cbn [id]. rewrite strtoul10_decimal by lia.
    rewrite (proj2 (Z.eqb_neq n 0)), (proj2 (Z.ltb_ge _ _)) by lia. done.
  - cbn [Nat.ltb Nat.leb andb]. rewrite bool_decide_false, bool_decide_true by done.
    cbn [app] in Hnext. rewrite Hnext. cbn [default id]. unfold STORM_WATCHDOG_MAX in *.
    rewrite strtoul10_decimal by lia. rewrite (proj2 (Z.ltb_ge _ _)) by lia. done.
  - rewrite Hlen. cbn [Nat.ltb Nat.leb andb].
    rewrite bool_decide_false, bool_decide_false, bool_decide_true by done. done.
  - rewrite Hlen. cbn [Nat.ltb Nat.leb andb].
    rewrite bool_decide_false, bool_decide_false, bool_decide_false, bool_decide_true by done. done.
  - rewrite Hlen. cbn [Nat.ltb Nat.leb andb].
    rewrite bool_decide_false, bool_decide_false, bool_decide_false, bool_decide_false, bool_decide_true
      by done. done.
Qed.

Lemma last_omap_cons {A} (f : storm_item → option A) i items d :
  default (default d (f i)) (last (omap f items)) = default d (last (omap f (i :: items))).
Proof.
  cbn [omap list_omap]. destruct (f i) as [x|]; [|done]. rewrite last_cons.
  by destruct (last (omap f items)).
Qed.

(** Not an option: the number of launches ends the options. *)
Lemma storm_options_end fuel pre it path args o :
  0 ≤ it < 2 ^ 64 → o_argi o = length pre →
  storm_options (S fuel) (pre ++ decimal it :: path :: args) o = Some (inr o).
Proof.
  intros Hit Ho. cbn [storm_options]. rewrite Ho, !option_at_here.
  destruct (decimal_digits it Hit) as (k & _ & _ & _ & E). pose proof (digits_down_digits k it) as Hd.
  assert (Hne : ∀ c, bool_decide (decimal it = 45 :: c) = false).
  { intros c. apply bool_decide_false. rewrite E. intros E'. rewrite E' in Hd.
    apply Forall_cons in Hd as [Hd _]. unfold is_digit in Hd. lia. }
  change (str "-p") with (45 :: str "p"). change (str "-w") with (45 :: str "w").
  change (str "-f") with (45 :: str "f"). change (str "-t") with (45 :: str "t").
  change (str "-n") with (45 :: str "n"). rewrite !Hne, !andb_false_r. done.
Qed.

Lemma storm_options_items items fuel pre it path args o :
  Forall item_ok items → 0 ≤ it < 2 ^ 64 → o_argi o = length pre → (length items < fuel)%nat →
  storm_options fuel (pre ++ (items ≫= item_args) ++ decimal it :: path :: args) o =
  Some (inr (mkOpts (default (o_parallel o) (last (omap get_p items)))
    (default (o_watchdog o) (last (omap get_w items)))
    (o_useFork o || existsb is_f items) (o_tags o || existsb is_t items) (o_noTags o || existsb is_n items)
    (length (pre ++ (items ≫= item_args))))).
Proof.
  intros Hi Hit. revert fuel pre o. induction Hi as [|i items Hi _ IH]; intros fuel pre o Ho Hf.
  { destruct fuel as [|fuel]; [simpl in Hf; lia|]. change ([] ≫= item_args) with (@nil (list Z)). cbn [app].
    rewrite storm_options_end by done. rewrite app_nil_r, !orb_false_r. destruct o. simpl in *. by subst. }
  destruct fuel as [|fuel]; [simpl in Hf; lia|]. rewrite bind_cons, <- app_assoc.
  rewrite storm_options_item; [|done|rewrite length_app; simpl; lia|done].
  rewrite (app_assoc pre). rewrite IH by (done || simpl in *; lia). cbn [o_parallel o_watchdog o_useFork o_tags o_noTags].
  rewrite !last_omap_cons. cbn [existsb]. rewrite !orb_assoc. by rewrite <- app_assoc.
Qed.

Lemma length_bind_items items : (length items ≤ length (items ≫= item_args))%nat.
Proof.
  induction items as [|i items IH]; [done|]. rewrite bind_cons, length_app. destruct i; simpl; lia.
Qed.

(** A command line of spawn-storm, or of the worker it runs. *)
Definition storm_command (worker : bool) (prog : list Z) (items : list storm_item) (it : Z)
    (path : list Z) (args : list (list Z)) : list (list Z) :=
  prog :: (if worker then [STORM_WORKER_ARG] else []) ++
  (items ≫= item_args) ++ decimal it :: path :: args.

(** What a list of options asks to launch; -n wins over -t and -f in any order. *)
Definition asked_config (items : list storm_item) (it : Z) : config :=
  mkConfig it (Z.to_nat (default 1 (last (omap get_p items)))) (existsb is_f items)
    (existsb is_t items && negb (existsb is_n items)).
Definition asked_watchdog (items : list storm_item) : Z :=
  default STORM_WATCHDOG_DEFAULT (last (omap get_w items)).

Lemma storm_main_command worker prog items it path args :
  Forall item_ok items → 0 < it < 2 ^ 64 →
  storm_main (storm_command worker prog items it path args) =
  Some (inr (if negb worker && negb (asked_watchdog items =? 0) then Monitor (asked_watchdog items)
             else Launch (asked_config items it) worker (path :: args))).
Proof.
  intros Hi Hit. set (argv := storm_command worker prog items it path args).
  set (pre := prog :: if worker then [STORM_WORKER_ARG] else []).
  assert (Eargv : argv = pre ++ (items ≫= item_args) ++ decimal it :: path :: args) by done.
  assert (Hw : option_at argv 1 0 STORM_WORKER_ARG = worker).
  { rewrite Eargv. subst pre. destruct worker.
    - apply (option_at_second prog STORM_WORKER_ARG).
    - cbn [app]. destruct items as [|i items].
      + change ([] ≫= item_args) with (@nil (list Z)). cbn [app].
        rewrite option_at_second, bool_decide_false; [by rewrite andb_false_r|].
        destruct (decimal_digits it) as (k & _ & _ & _ & E); [lia|].
        pose proof (digits_down_digits k it) as Hd. rewrite E. intros E'. rewrite E' in Hd.
        change STORM_WORKER_ARG with (45 :: str "-worker") in Hd.
        apply Forall_cons in Hd as [Hd _]. unfold is_digit in Hd. lia.
      + rewrite bind_cons. destruct i; cbn [item_args app];
          rewrite option_at_second, bool_decide_false by done; by rewrite andb_false_r. }
  unfold storm_main. rewrite Hw. rewrite Eargv at 1 2.
  rewrite (storm_options_items items); cycle 1.
  { done. } { lia. } { subst pre. by destruct worker. }
  { rewrite !length_app. pose proof (length_bind_items items). lia. }
  cbn [mbind option_bind o_noTags o_tags o_argi o_watchdog o_parallel o_useFork orb].
  rewrite Eargv, app_assoc. set (q := pre ++ _).
  rewrite (proj2 (Nat.ltb_ge _ _)) by (rewrite length_app; simpl; lia).
  rewrite lookup_app_r, Nat.sub_diag by lia. cbn [lookup list_lookup default id].
  rewrite strtoul10_decimal, (proj2 (Z.eqb_neq it 0)) by lia.
  fold (asked_watchdog items). case_match; [done|]. f_equal. f_equal. unfold asked_config. f_equal.
  - f_equal. destruct (existsb is_n items); [by rewrite andb_false_r|by rewrite andb_true_r].
  - rewrite drop_app_ge by lia. by replace (S (length q) - length q)%nat with 1%nat by lia.
Qed.

(** Spawn-storm does what its command line says: any sequence of options (the last -p and -w
    counting, -n winning over -t and -f in any order), a number of launches and a program make
    main monitor a worker for the watchdog asked for, or launch directly when it is 0; and the
    worker, run with the command line the monitor builds, launches exactly what was asked. *)
Theorem storm_main_reads prog items it path args :
  Forall item_ok items → 0 < it < 2 ^ 64 →
  storm_main (storm_command false prog items it path args) =
    Some (inr (if asked_watchdog items =? 0 then Launch (asked_config items it) false (path :: args)
               else Monitor (asked_watchdog items))) ∧
  storm_main (worker_argv (storm_command false prog items it path args)) =
    Some (inr (Launch (asked_config items it) true (path :: args))).
Proof.
  intros Hi Hit. split.
  - rewrite storm_main_command by done. cbn [negb andb]. by destruct (asked_watchdog items =? 0).
  - apply (storm_main_command true prog items it path args Hi Hit).
Qed.

(** ** Concrete systems *)

(** Pids from a rising counter, children waited for in the order of their
    death; child 3 exits with code 1. The clock advances with every reading;
    snapshots come from a script. *)
Record toy := mkToy { next_pid : Z; kids : list Z; clock : Z; snapshots : list (list threadinfo) }.

Definition toy_fork (f : bool) (o : toy) : Z * toy :=
  if (0 <? next_pid o) && (next_pid o <? 2 ^ 31)
  then (next_pid o, mkToy (next_pid o + 1) (next_pid o :: kids o) (clock o) (snapshots o)) else (-1, o).
Definition toy_waitpid (o : toy) : (Z * Z * Z) * toy :=
  match kids o with
  | p :: ks => if (0 <? p) && (p <? 2 ^ 31)
               then ((p, if p =? 3 then 256 else 0, 0), mkToy (next_pid o) ks (clock o) (snapshots o))
               else ((p, 0, 0), mkToy (next_pid o) ks (clock o) (snapshots o))
  | [] => ((-1, 0, 10), o)
  end.
Definition toy_clock (o : toy) : Z * toy :=
  (clock o, mkToy (next_pid o) (kids o) (clock o + 1) (snapshots o)).
Definition toy_threadsinfo (o : toy) : (Z * list threadinfo) * toy :=
  match snapshots o with
  | [] => ((0, []), o)
  | s :: ss => ((Z.of_nat (length s), s), mkToy (next_pid o) (kids o) (clock o) ss)
  end.

Definition toy_os (wait : toy → (Z * Z * Z) * toy) : Os := {|
  os := toy; sys_fork := toy_fork; sys_waitpid := wait;
  sys_waitpid_nohang := λ _ o, ((0, 0, 0), o);
  sys_gettimeofday := λ o, let '(t, o) := toy_clock o in ((t, 0), o);
  sys_open_null := λ o, (3, o); sys_sleep := λ _ o, ((), o);
  sys_monoSecs := toy_clock; sys_threadsinfo := toy_threadsinfo; sys_kill := λ _ _ o, (0, o);
  WIFEXITED := λ s, Z.land s 127 =? 0; WEXITSTATUS := λ s, Z.land (Z.shiftr s 8) 255;
  SIGKILL := 9; SIGUSR1 := 10 |}.

(** A system whose states only hold pids a system can hand out. *)
Record good_toy := mkGood { the_toy : toy; toy_pids : Forall (λ p, 0 < p < 2 ^ 31) (kids the_toy) }.

Lemma toy_fork_pids f t : Forall (λ p, 0 < p < 2 ^ 31) (kids t) →
  Forall (λ p, 0 < p < 2 ^ 31) (kids (toy_fork f t).2).
Proof.
  intros Ht. unfold toy_fork. case_match eqn:E; [|done]. constructor; [|done].
  apply andb_true_iff in E as [?%Z.ltb_lt ?%Z.ltb_lt]. lia.
Qed.
Lemma toy_waitpid_pids t : Forall (λ p, 0 < p < 2 ^ 31) (kids t) →
  Forall (λ p, 0 < p < 2 ^ 31) (kids (toy_waitpid t).2).
Proof.
  intros Ht. unfold toy_waitpid. destruct (kids t) as [|p ks] eqn:E; [simpl; by rewrite E|].
  apply Forall_cons in Ht as [_ Ht]. by case_match.
Qed.

Definition good_os : Os := {|
  os := good_toy;
  sys_fork := λ f o, ((toy_fork f (the_toy o)).1, mkGood _ (toy_fork_pids f _ (toy_pids o)));
  sys_waitpid := λ o, ((toy_waitpid (the_toy o)).1, mkGood _ (toy_waitpid_pids _ (toy_pids o)));
  sys_waitpid_nohang := λ _ o, ((0, 0, 0), o);
  sys_gettimeofday := λ o, ((0, 0), o); sys_open_null := λ o, (3, o); sys_sleep := λ _ o, ((), o);
  sys_monoSecs := λ o, (0, o); sys_threadsinfo := λ o, ((0, []), o); sys_kill := λ _ _ o, (0, o);
  WIFEXITED := λ s, Z.land s 127 =? 0; WEXITSTATUS := λ s, Z.land (Z.shiftr s 8) 255;
  SIGKILL := 9; SIGUSR1 := 10 |}.

Definition good_laws : @OsLaws good_os.
Proof.
  refine (@Build_OsLaws good_os (λ o : good_toy, kids (the_toy o)) (λ _, O) O (λ _, le_n 0) _ _ _ _).
  - intros f [t Ht] pid o' [= <- <-]. cbn. unfold toy_fork, int32. case_match eqn:E.
    + apply andb_true_iff in E as [?%Z.ltb_lt ?%Z.ltb_lt]. cbn. split; [lia|]. left. split; [lia|done].
    + cbn. split; [lia|]. right. split; [lia|done].
  - intros [t Ht] res status e o' [= Hr <-]. cbn in *. unfold toy_waitpid, int32 in *.
    destruct (kids t) as [|p ks] eqn:E.
    + injection Hr as <- <- <-. cbn. split_and!; try lia. right. split_and!; [lia|by rewrite E|]. by right.
    + apply Forall_cons in Ht as [Hp _].
      rewrite (proj2 (Z.ltb_lt 0 p)), (proj2 (Z.ltb_lt p (2 ^ 31))) in * by lia. cbn [andb] in *.
      injection Hr as <- <- <-. cbn. split_and!; try lia; try (case_match; lia). left. split; [lia|done].
  - by intros o t o' [= _ <-].
  - by intros o t o' [= _ <-].
Defined.

Definition good_start : good_toy := mkGood (mkToy 1 [] 0 []) (Forall_nil_2 _).

Lemma storm_worker_accounts_witness :
  ∃ code s m, @storm_worker good_os (mkConfig 5 2 true true) 6 6 (@mkMachine good_os good_start []) =
    (Some (code, s), m) ∧ reaped s = 5 ∧ s_ok s + s_failed s = 5.
Proof.
  destruct (@storm_worker_accounts good_os good_laws (mkConfig 5 2 true true)
    ltac:(unfold SPAWN_MAX_PARALLEL; simpl; lia) ltac:(simpl; lia) good_start 6%nat 6%nat
    eq_refl ltac:(simpl; lia) ltac:(simpl; lia) ltac:(simpl; lia))
    as (code & s & m & Hrun & _ & Hr & Ht & _).
  exact (ex_intro _ code (ex_intro _ s (ex_intro _ m (conj Hrun (conj Hr Ht))))).
Defined.

Definition failing_wait (o : toy) : (Z * Z * Z) * toy := ((-1, 0, 10), o).
Definition failing_os : Os :=
  let o := toy_os failing_wait in
  {| os := toy; sys_fork := λ _ t, (1, t); sys_waitpid := failing_wait;
     sys_waitpid_nohang := @sys_waitpid_nohang o; sys_gettimeofday := @sys_gettimeofday o;
     sys_open_null := @sys_open_null o; sys_sleep := @sys_sleep o; sys_monoSecs := @sys_monoSecs o;
     sys_threadsinfo := @sys_threadsinfo o; sys_kill := @sys_kill o; WIFEXITED := @WIFEXITED o;
     WEXITSTATUS := @WEXITSTATUS o; SIGKILL := 9; SIGUSR1 := 10 |}.

Lemma storm_worker_livelock_witness :
  (@storm_worker failing_os (mkConfig 2 1 false false) 1000 1000
    (@mkMachine failing_os (mkToy 1 [] 0 []) [])).1 = None.
Proof.
  refine (@storm_worker_livelock failing_os (mkConfig 2 1 false false) _ _ _ 1000%nat 1000%nat _ _).
  - unfold SPAWN_MAX_PARALLEL; simpl; lia.
  - simpl; lia.
  - intros f o. simpl; lia.
  - intros o. simpl. unfold EINTR. lia.
Defined.

(** *** A hang seen by the monitor *)

Definition thread (pid tid ppid : Z) : threadinfo := mkThread pid tid ppid 1 4 0 0 0 [].

(** Worker 20 with the child 50, and, when the threads are dumped, a thread
    of another process in front of them. *)
Definition hang_script : list (list threadinfo) :=
  [[thread 20 20 1; thread 50 51 20]; [thread 7 8 1; thread 20 20 1; thread 50 51 20];
   [thread 7 8 1; thread 20 20 1; thread 50 51 20]].
Definition hang_watch : watch := mkWatch 0 100 0 50 (mkStatics [] [] false).
Definition hang_run :=
  @monitor_loop (toy_os toy_waitpid) 1 20 10 0 10 hang_watch
    (@mkMachine (toy_os toy_waitpid) (mkToy 1 [] 100 hang_script) []).

Lemma storm_main_reads_witness :
  storm_main (worker_argv (map str ["storm"; "-n"; "-f"; "-p"; "4"; "30"; "/bin/x"; "arg"])) =
  Some (inr (Launch (mkConfig 30 4 true false) true [str "/bin/x"; str "arg"])).
Proof.
  refine (proj2 (storm_main_reads (str "storm") [I_n; I_f; I_p 4] 30 (str "/bin/x") [str "arg"] _ _)).
  - repeat apply Forall_cons_2; try exact I; [|apply Forall_nil_2].
    unfold item_ok, SPAWN_MAX_PARALLEL. lia.
  - lia.
Defined.

Definition hang_end : watch := match hang_run.1 with inr w => w | inl _ => hang_watch end.
Lemma hang_run_eq : hang_run = (inr hang_end, hang_run.2).
Proof.
  assert (E : hang_run.1 = inr hang_end) by (vm_compute; reflexivity).
  exact (eq_trans (surjective_pairing hang_run) (f_equal (λ a, (a, hang_run.2)) E)).
Qed.

Lemma monitor_recovers_sparingly_witness :
  hang_run = (inr hang_end, hang_run.2) ∧ Forall (hang_ok 10) (m_log hang_run.2).
Proof.
  split; [exact hang_run_eq|].
  assert (Hd : 0 ≤ dumps hang_watch ≤ STORM_MAX_DUMPS) by (cbn; unfold STORM_MAX_DUMPS; lia).
  pose proof (@monitor_recovers_sparingly (toy_os toy_waitpid) 20 10 0 10 1%nat hang_watch _ _ _ Hd
    hang_run_eq) as [Hh _].
  apply Hh. apply Forall_nil_2.
Defined.

(** The monitor can miss the child it found hanging: it reports the hang from one snapshot, but
    dumping the threads overwrites that snapshot, and it then looks for children to kill in the
    new one, over as many entries as the old one had; a thread listed in front of the child in
    the meantime moves it out of reach, and nothing is killed. *)
Theorem monitor_misses_hung_child :
  R_hang 50 51 1 100 1 ∈ m_log hang_run.2 ∧
  existsb (λ r, match r with R_kill _ _ | R_poke _ _ => true | _ => false end) (m_log hang_run.2) = false.
Proof.
  split; [|vm_compute; reflexivity].
  apply list_elem_of_In. vm_compute. tauto.
Qed.
