(* ===== verification/MallocMt.v ===== *)
(** * The allocator stress of libc/malloc-mt/malloc_mt.c

    Workers churn a shared heap: every block they hold is filled with a
    pattern of its own seed and checked before it is resized or freed. The
    allocator is a parameter. A worker is a program that performs one load,
    one store or one allocator call at a time; programs run alone or
    interleaved at each of these actions, so an allocator call is atomic (what
    the heap lock is for) and everything else is not. *)

From S2P Require Import Prelude CMachine.

Definition MT_THREADS : nat := 4.
Definition MT_SLOTS : nat := 48.
Definition MT_SMALL_MAX : Z := 512.
Definition MT_MEDIUM_MAX : Z := 8192.
Definition MT_LARGE_MIN : Z := 32 * 1024.
Definition MT_LARGE_SPAN : Z := 96 * 1024.

(** ** Random numbers, sizes and patterns *)

(** One step of the xorshift generator, on the 32-bit state. *)
Definition mt_rand (s : Z) : Z :=
  let x := Z.lxor s (u32 (Z.shiftl s 13)) in
  let x := Z.lxor x (Z.shiftr x 17) in
  Z.lxor x (u32 (Z.shiftl x 5)).

(** The size drawn from a random number. *)
Definition mt_size (r : Z) : Z :=
  if r mod 64 =? 0 then MT_LARGE_MIN + Z.shiftr r 8 mod MT_LARGE_SPAN
  else if r mod 16 =? 0 then MT_SMALL_MAX + Z.shiftr r 8 mod (MT_MEDIUM_MAX - MT_SMALL_MAX)
  else 1 + Z.shiftr r 8 mod MT_SMALL_MAX.

Definition mt_byte (seed i : Z) : Z := u8 (Z.shiftr (u32 (u32 (u32 i * 2654435761) + seed)) 24).

(** ** Programs over a shared heap *)

(** The actions of a worker, each with what follows; a null pointer is 0, the
    result of posix_memalign() when it fails, too. [Crash] is an access out
    of the bounds of an array. *)
Inductive prog (A : Type) :=
  | Ret (a : A)
  | Crash
  | Load (a : Z) (k : Z → prog A)
  | Store (a v : Z) (k : prog A)
  | Malloc (n : Z) (k : Z → prog A)
  | Calloc (n : Z) (k : Z → prog A)
  | Memalign (align n : Z) (k : Z → prog A)
  | Realloc (p n : Z) (k : Z → prog A)
  | Free (p : Z) (k : prog A).
Arguments Ret {A} _.
Arguments Crash {A}.
Arguments Load {A} _ _.
Arguments Store {A} _ _ _.
Arguments Malloc {A} _ _.
Arguments Calloc {A} _ _.
Arguments Memalign {A} _ _ _.
Arguments Realloc {A} _ _ _.
Arguments Free {A} _ _.

#[export] Instance prog_ret : MRet prog := λ A a, Ret a.
#[export] Instance prog_bind : MBind prog := λ A B f,
  fix bind m := match m with
  | Ret a => f a
  | Crash => Crash
  | Load a k => Load a (λ c, bind (k c))
  | Store a v k => Store a v (bind k)
  | Malloc n k => Malloc n (λ p, bind (k p))
  | Calloc n k => Calloc n (λ p, bind (k p))
  | Memalign al n k => Memalign al n (λ p, bind (k p))
  | Realloc p n k => Realloc p n (λ q, bind (k q))
  | Free p k => Free p (bind k)
  end.

(** malloc, calloc, posix_memalign, realloc and free, over a state that
    includes the memory. *)
Class Heap := {
  heap : Type;
  load : heap → Z → Z;
  store : heap → Z → Z → heap;
  malloc : Z → heap → Z * heap;
  calloc : Z → heap → Z * heap;
  memalign : Z → Z → heap → Z * heap;
  realloc : Z → Z → heap → Z * heap;
  free : Z → heap → heap;
}.

Section running.
Context `{Heap}.

(** One action of a program. *)
Definition step {A} (m : prog A) (h : heap) : option (prog A * heap) :=
  match m with
  | Ret _ | Crash => None
  | Load a k => Some (k (load h a), h)
  | Store a v k => Some (k, store h a v)
  | Malloc n k => let '(p, h) := malloc n h in Some (k p, h)
  | Calloc n k => let '(p, h) := calloc n h in Some (k p, h)
  | Memalign al n k => let '(p, h) := memalign al n h in Some (k p, h)
  | Realloc p n k => let '(q, h) := realloc p n h in Some (k q, h)
  | Free p k => Some (k, free p h)
  end.

(** A program running alone; [None] when it crashes. *)
Fixpoint run {A} (m : prog A) (h : heap) : option (A * heap) :=
  match m with
  | Ret a => Some (a, h)
  | Crash => None
  | Load a k => run (k (load h a)) h
  | Store a v k => run k (store h a v)
  | Malloc n k => let '(p, h) := malloc n h in run (k p) h
  | Calloc n k => let '(p, h) := calloc n h in run (k p) h
  | Memalign al n k => let '(p, h) := memalign al n h in run (k p) h
  | Realloc p n k => let '(q, h) := realloc p n h in run (k q) h
  | Free p k => run k (free p h)
  end.

(** Programs interleaved as [schedule] says, one action at a time; the turn
    of a program that has ended passes. *)
Fixpoint interleave {A} (schedule : list nat) (h : heap) (ms : list (prog A)) : heap * list (prog A) :=
  match schedule with
  | [] => (h, ms)
  | t :: schedule =>
      match m ← ms !! t; step m h with
      | Some (m, h) => interleave schedule h (<[t := m]> ms)
      | None => interleave schedule h ms
      end
  end.
End running.

(** ** Workers *)

Record mt_block_t := mkBlock { b_p : Z; b_size : Z; b_seed : Z }.

Inductive mt_what :=
  | Not_zeroed | Misaligned | Alloc_failed | Changed_before_free | Changed_before_realloc
  | Realloc_failed | Realloc_lost | Single_changed.

(** [w_err] is the first error: its text and the byte it names. *)
Record mt_worker_t := mkWorker {
  w_id : Z; w_rng : Z; w_errors : Z; w_err : option (mt_what * Z); w_slot : list mt_block_t }.

Definition set_rng (x : Z) (w : mt_worker_t) : mt_worker_t :=
  mkWorker (w_id w) x (w_errors w) (w_err w) (w_slot w).
Definition set_slot (i : nat) (b : mt_block_t) (w : mt_worker_t) : mt_worker_t :=
  mkWorker (w_id w) (w_rng w) (w_errors w) (w_err w) (<[i := b]> (w_slot w)).

Definition mt_error (what : mt_what) (at_byte : Z) (w : mt_worker_t) : mt_worker_t :=
  mkWorker (w_id w) (w_rng w) (u32 (w_errors w + 1))
    (if w_errors w =? 0 then Some (what, at_byte) else w_err w) (w_slot w).

(** [for (i = from; i < b->size; i++) b->p[i] = mt_byte(b->seed, i)], [n] the
    bytes left. *)
Fixpoint fill_loop (n : nat) (b : mt_block_t) (i : Z) : prog () :=
  match n with
  | O => Ret ()
  | S n => Store (b_p b + i) (mt_byte (b_seed b) i) (fill_loop n b (i + 1))
  end.
Definition mt_fill (b : mt_block_t) (from : Z) : prog () :=
  fill_loop (Z.to_nat (b_size b - from)) b from.

(** The first byte in [[i, i + n)] that is not as [f] says. *)
Fixpoint first_wrong (f : Z → Z) (n : nat) (p i : Z) : prog (option Z) :=
  match n with
  | O => Ret None
  | S n => Load (p + i) (λ c, if c =? f i then first_wrong f n p (i + 1) else Ret (Some i))
  end.

(** Checks the bytes [[0, n)]; [true] when they are intact. *)
Definition mt_check (b : mt_block_t) (n : Z) (what : mt_what) (w : mt_worker_t) : prog (bool * mt_worker_t) :=
  bad ← first_wrong (mt_byte (b_seed b)) (Z.to_nat n) (b_p b) 0;
  match bad with
  | Some i => Ret (false, mt_error what i w)
  | None => Ret (true, w)
  end.

(** The three ways mt_alloc asks for a block. *)
Definition alloc_call (kind size : Z) (w : mt_worker_t) : prog (Z * mt_worker_t) :=
  if kind =? 6 then
    Calloc size (λ p,
      if p =? 0 then Ret (p, w)
      else
        bad ← first_wrong (λ _, 0) (Z.to_nat size) p 0;
        match bad with
        | Some k => Ret (p, mt_error Not_zeroed k w)
        | None => Ret (p, w)
        end)
  else if kind =? 7 then
    let r := mt_rand (w_rng w) in
    let align := Z.shiftl 16 (r mod 5) in
    let w := set_rng r w in
    Memalign align size (λ p,
      if negb (p =? 0) && negb (Z.land p (align - 1) =? 0) then Ret (p, mt_error Misaligned align w)
      else Ret (p, w))
  else Malloc size (λ p, Ret (p, w)).

Definition mt_alloc (i : nat) (w : mt_worker_t) : prog mt_worker_t :=
  let r := mt_rand (w_rng w) in
  let kind := r mod 8 in
  let r := mt_rand r in
  let size := mt_size r in
  let seed := mt_rand r in
  '(p, w) ← alloc_call kind size (set_rng seed w);
  if p =? 0 then Ret (set_slot i (mkBlock 0 0 seed) (mt_error Alloc_failed 0 w))
  else
    mt_fill (mkBlock p size seed) 0;;
    Ret (set_slot i (mkBlock p size seed) w).

Definition mt_release (i : nat) (b : mt_block_t) (w : mt_worker_t) : prog mt_worker_t :=
  if b_p b =? 0 then Ret w
  else
    '(_, w) ← mt_check b (b_size b) Changed_before_free w;
    Free (b_p b) (Ret (set_slot i (mkBlock 0 0 (b_seed b)) w)).

Definition mt_resize (i : nat) (b : mt_block_t) (w : mt_worker_t) : prog mt_worker_t :=
  let r := mt_rand (w_rng w) in
  let nsize := mt_size r in
  '(ok, w) ← mt_check b (b_size b) Changed_before_realloc (set_rng r w);
  if negb ok then Ret w
  else
    Realloc (b_p b) nsize (λ np,
      if np =? 0 then Ret (mt_error Realloc_failed nsize w)
      else
        let keep := if nsize <? b_size b then nsize else b_size b in
        let b := mkBlock np nsize (b_seed b) in
        '(ok, w) ← mt_check b keep Realloc_lost (set_slot i b w);
        if ok : bool then mt_fill b keep;; Ret w else Ret w).

(** One round of mt_churn. *)
Definition churn_step (w : mt_worker_t) : prog mt_worker_t :=
  let r := mt_rand (w_rng w) in
  let w := set_rng r w in
  let i := Z.to_nat (r mod Z.of_nat MT_SLOTS) in
  match w_slot w !! i with
  | None => Crash
  | Some b =>
      if b_p b =? 0 then mt_alloc i w
      else
        let r := mt_rand (w_rng w) in
        let w := set_rng r w in
        let k := r mod 4 in
        if (k =? 0) || (k =? 1) then mt_release i b w
        else if k =? 2 then mt_resize i b w
        else w ← mt_release i b w; mt_alloc i w
  end.

(** [for (n = 0; (n < iters) && (w->errors == 0u); n++)] *)
Fixpoint mt_churn (iters : nat) (w : mt_worker_t) : prog mt_worker_t :=
  match iters with
  | O => Ret w
  | S iters => if w_errors w =? 0 then w ← churn_step w; mt_churn iters w else Ret w
  end.

(** mt_thread's loop over the blocks of the single-threaded phase, every
    MT_THREADS-th from [i] on. A thread sees no other thread's part of the
    array, so [single] is its own copy; [fuel] rounds are enough. *)
Fixpoint take_over (fuel : nat) (i : nat) (single : list mt_block_t) (w : mt_worker_t) : prog mt_worker_t :=
  match fuel with
  | O => Ret w
  | S fuel =>
      if (i <? MT_SLOTS)%nat then
        match single !! i with
        | None => Crash
        | Some b =>
            if b_p b =? 0 then take_over fuel (i + MT_THREADS) single w
            else
              '(_, w) ← mt_check b (b_size b) Single_changed w;
              Free (b_p b) (take_over fuel (i + MT_THREADS) (<[i := mkBlock 0 (b_size b) (b_seed b)]> single) w)
        end
      else Ret w
  end.

(** mt_thread's final loop, [n] slots left. *)
Fixpoint release_all (n : nat) (w : mt_worker_t) : prog mt_worker_t :=
  match n with
  | O => Ret w
  | S n =>
      let i := (MT_SLOTS - S n)%nat in
      match w_slot w !! i with
      | None => Crash
      | Some b => w ← mt_release i b w; release_all n w
      end
  end.

(** mt_thread behind the barrier. *)
Definition mt_thread (iters : nat) (single : list mt_block_t) (w : mt_worker_t) : prog mt_worker_t :=
  w ← take_over MT_SLOTS (Z.to_nat (w_id w)) single w;
  w ← mt_churn iters w;
  release_all MT_SLOTS w.

(** ** The test *)

Definition MT_ITERS : nat := Z.to_nat 20000.
Definition MT_SINGLE_ITER : nat := Z.to_nat 20000.

(** A worker as memset() and single_then_concurrent set it up. *)
Definition mt_worker_init (id rng : Z) : mt_worker_t :=
  mkWorker id rng 0 None (replicate MT_SLOTS (mkBlock 0 0 0)).
Definition mt_single : mt_worker_t := mt_worker_init (-1) 625341585.
Definition mt_workers : list mt_worker_t :=
  (λ i, mt_worker_init (Z.of_nat i) (u32 (2654435769 * u32 (Z.of_nat i + 1)))) <$> seq 0 MT_THREADS.

(** The threads started after the single-threaded phase left [single]. *)
Definition mt_threads (iters : nat) (single : mt_worker_t) : list (prog mt_worker_t) :=
  mt_thread iters (w_slot single) <$> mt_workers.

(** The number of errors and the first error, from the threads joined in
    order. *)
Definition mt_collect (ws : list mt_worker_t) : Z * option (mt_what * Z) :=
  foldl (λ '(errors, first) w,
    (u32 (errors + w_errors w), if negb (w_errors w =? 0) && (errors =? 0) then w_err w else first)) (0, None) ws.
