(* ===== verification/MallocMtProps.v ===== *)
(** * Properties of the allocator stress

    Against an allocator that keeps the promises of malloc, calloc,
    posix_memalign, realloc and free, and that may run out of memory, the
    threads interleaved at every access report nothing but failed
    allocations, and give back every block; a corrupted block is always
    reported, at its first bad byte; the generator never gets stuck; and how
    far the patterns of different seeds can agree. *)

From S2P Require Import Prelude CMachine MallocMt.

(** ** The promises of an allocator *)

Section interface.
Context `{Heap}.

(** The contents of the blocks in [bs] are the same in both states. *)
Definition keeps (bs : gmap Z Z) (h h' : heap) : Prop :=
  ∀ p n i, bs !! p = Some n → 0 ≤ i < n → load h' (p + i) = load h (p + i).

(** [blocks h] are the live blocks with their sizes. An allocation may fail,
    giving a null pointer and leaving all blocks as they are; [exhausted] says
    that one did. *)
Class HeapLaws := {
  heap_ok : heap → Prop;
  blocks : heap → gmap Z Z;
  exhausted : heap → Prop;
  blocks_size h p n : heap_ok h → blocks h !! p = Some n → 0 ≤ n;
  blocks_disjoint h p n q m : heap_ok h → blocks h !! p = Some n → blocks h !! q = Some m →
    p ≠ q → p + n ≤ q ∨ q + m ≤ p;
  store_law h p n i v : heap_ok h → blocks h !! p = Some n → 0 ≤ i < n → 0 ≤ v < 256 →
    let h' := store h (p + i) v in
    heap_ok h' ∧ blocks h' = blocks h ∧ (exhausted h → exhausted h') ∧
    ∀ q m j, blocks h !! q = Some m → 0 ≤ j < m →
      load h' (q + j) = if decide (q + j = p + i) then v else load h (q + j);
  malloc_law h n : heap_ok h → 0 ≤ n → let '(p, h') := malloc n h in
    heap_ok h' ∧ (exhausted h → exhausted h') ∧ keeps (blocks h) h h' ∧
    if decide (p = 0) then blocks h' = blocks h ∧ exhausted h'
    else blocks h !! p = None ∧ blocks h' = <[p := n]> (blocks h);
  calloc_law h n : heap_ok h → 0 ≤ n → let '(p, h') := calloc n h in
    heap_ok h' ∧ (exhausted h → exhausted h') ∧ keeps (blocks h) h h' ∧
    if decide (p = 0) then blocks h' = blocks h ∧ exhausted h'
    else blocks h !! p = None ∧ blocks h' = <[p := n]> (blocks h) ∧ ∀ i, 0 ≤ i < n → load h' (p + i) = 0;
  memalign_law h k n : heap_ok h → 0 ≤ n → 0 ≤ k → let '(p, h') := memalign (2 ^ k) n h in
    heap_ok h' ∧ (exhausted h → exhausted h') ∧ keeps (blocks h) h h' ∧
    if decide (p = 0) then blocks h' = blocks h ∧ exhausted h'
    else blocks h !! p = None ∧ blocks h' = <[p := n]> (blocks h) ∧ Z.land p (2 ^ k - 1) = 0;
  realloc_law h p m n : heap_ok h → 0 < n → blocks h !! p = Some m → let '(q, h') := realloc p n h in
    heap_ok h' ∧ (exhausted h → exhausted h') ∧ keeps (delete p (blocks h)) h h' ∧
    if decide (q = 0) then blocks h' = blocks h ∧ keeps (blocks h) h h' ∧ exhausted h'
    else delete p (blocks h) !! q = None ∧ blocks h' = <[q := n]> (delete p (blocks h)) ∧
      ∀ i, 0 ≤ i < m → i < n → load h' (q + i) = load h (p + i);
  free_law h p m : heap_ok h → blocks h !! p = Some m → let h' := free p h in
    heap_ok h' ∧ blocks h' = delete p (blocks h) ∧ (exhausted h → exhausted h') ∧ keeps (delete p (blocks h)) h h';
}.
End interface.

(** ** Reasoning about one program

    A program owns blocks, given by their contents. *)

Abbreviation owned := (gmap Z (list Z)).

(** [m], owning [R], does nothing undefined, uses only blocks it owns, and
    ends with a result, the blocks it owns then, and whether an allocation
    failed (or had when [e] says so) as [Q] says. *)
Fixpoint wp {A} (m : prog A) (R : owned) (e : bool) (Q : A → owned → bool → Prop) : Prop :=
  match m with
  | Ret a => Q a R e
  | Crash => False
  | Load a k => ∃ p l i c, R !! p = Some l ∧ a = p + Z.of_nat i ∧ l !! i = Some c ∧ wp (k c) R e Q
  | Store a v k => ∃ p l i, R !! p = Some l ∧ a = p + Z.of_nat i ∧ (i < length l)%nat ∧ 0 ≤ v < 256 ∧
      wp k (<[p := <[i := v]> l]> R) e Q
  | Malloc n k => 0 ≤ n ∧ wp (k 0) R true Q ∧
      ∀ p l, p ≠ 0 → R !! p = None → Z.of_nat (length l) = n → wp (k p) (<[p := l]> R) e Q
  | Calloc n k => 0 ≤ n ∧ wp (k 0) R true Q ∧
      ∀ p, p ≠ 0 → R !! p = None → wp (k p) (<[p := replicate (Z.to_nat n) 0]> R) e Q
  | Memalign al n k => 0 ≤ n ∧ (∃ j, 0 ≤ j ∧ al = 2 ^ j) ∧ wp (k 0) R true Q ∧
      ∀ p l, p ≠ 0 → R !! p = None → Z.of_nat (length l) = n → Z.land p (al - 1) = 0 → wp (k p) (<[p := l]> R) e Q
  | Realloc p n k => 0 < n ∧ ∃ l, R !! p = Some l ∧ wp (k 0) R true Q ∧
      ∀ q l', q ≠ 0 → delete p R !! q = None → Z.of_nat (length l') = n →
        (∀ i, (i < length l)%nat → (i < length l')%nat → l' !! i = l !! i) → wp (k q) (<[q := l']> (delete p R)) e Q
  | Free p k => ∃ l, R !! p = Some l ∧ wp k (delete p R) e Q
  end.

Lemma prog_wp_mono {A} (m : prog A) R e Q Q' :
  wp m R e Q → (∀ a R e, Q a R e → Q' a R e) → wp m R e Q'.
Proof.
  intros Hm HQ. revert R e Hm. induction m as [a| |a k IH|a v k IH|n k IH|n k IH|al n k IH|p n k IH|p k IH]; intros R e; cbn [wp mbind prog_bind].
  - auto.
  - done.
  - intros (p & l & i & c & ? & ? & ? & ?). exists p, l, i, c. split_and!; auto.
  - intros (p & l & i & ? & ? & ? & [? ?] & ?). exists p, l, i. split_and!; auto.
  - intros (? & ? & Hk). split_and!; auto.
  - intros (? & ? & Hk). split_and!; auto.
  - intros (? & ? & ? & Hk). split_and!; auto.
  - intros (? & l & ? & ? & Hk). split; [done|]. exists l. split_and!; auto.
  - intros (l & ? & ?). exists l. auto.
Qed.

Lemma prog_wp_bind {A B} (m : prog A) (f : A → prog B) R e Q :
  wp m R e (λ a R e, wp (f a) R e Q) → wp (m ≫= f) R e Q.
Proof.
  revert R e. induction m as [a| |a k IH|a v k IH|n k IH|n k IH|al n k IH|p n k IH|p k IH]; intros R e; cbn [wp mbind prog_bind].
  - auto.
  - done.
  - intros (p & l & i & c & ? & ? & ? & ?). exists p, l, i, c. split_and!; auto.
  - intros (p & l & i & ? & ? & ? & [? ?] & ?). exists p, l, i. split_and!; auto.
  - intros (? & ? & Hk). split_and!; auto.
  - intros (? & ? & Hk). split_and!; auto.
  - intros (? & ? & ? & Hk). split_and!; auto.
  - intros (? & l & ? & ? & Hk). split; [done|]. exists l. split_and!; auto.
  - intros (l & ? & ?). exists l. auto.
Qed.


(** ** Programs run on a heap *)

Section adequacy.
Context `{HeapLaws}.

(** The live blocks are those of [T], with their contents. *)
Definition heap_is (h : heap) (T : owned) : Prop :=
  heap_ok h ∧ blocks h = (λ l, Z.of_nat (length l)) <$> T ∧
  ∀ p l i c, T !! p = Some l → l !! i = Some c → load h (p + Z.of_nat i) = c.

Lemma heap_is_block h T p l : heap_is h T → T !! p = Some l → blocks h !! p = Some (Z.of_nat (length l)).
Proof. intros (_ & -> & _) Hp. by rewrite lookup_fmap, Hp. Qed.

Lemma heap_is_free h T p : heap_is h T → blocks h !! p = None → T !! p = None.
Proof. intros (_ & -> & _). rewrite lookup_fmap. by destruct (T !! p). Qed.

Lemma heap_is_keeps h T h' :
  heap_is h T → heap_ok h' → blocks h' = blocks h → keeps (blocks h) h h' → heap_is h' T.
Proof.
  intros Hh Hok Hb Hk. pose proof Hh as (_ & Hbl & Hc). split; [done|]. split; [congruence|].
  intros p l i c Hp Hi. rewrite (Hk p (Z.of_nat (length l))); [by eapply Hc|by eapply heap_is_block|].
  apply lookup_lt_Some in Hi. lia.
Qed.

(** What is read at [p] in a state. *)
Definition read_block (h : heap) (p n : Z) : list Z := (λ i, load h (p + Z.of_nat i)) <$> seq 0 (Z.to_nat n).

Lemma length_read_block h p n : 0 ≤ n → Z.of_nat (length (read_block h p n)) = n.
Proof. intros Hn. unfold read_block. rewrite length_fmap, length_seq. lia. Qed.

Lemma read_block_lookup h p n i c : read_block h p n !! i = Some c ↔ (i < Z.to_nat n)%nat ∧ c = load h (p + Z.of_nat i).
Proof.
  unfold read_block. rewrite list_lookup_fmap. destruct (decide (i < Z.to_nat n)%nat).
  - rewrite lookup_seq_lt by done. cbn. split; [by intros [= <-]|by intros [_ ->]].
  - rewrite lookup_seq_ge by lia. split; [done|by intros [? _]].
Qed.

(** A new block. *)
Lemma heap_is_new h T h' p n :
  heap_is h T → heap_ok h' → 0 ≤ n → blocks h !! p = None → blocks h' = <[p := n]> (blocks h) →
  keeps (blocks h) h h' → heap_is h' (<[p := read_block h' p n]> T).
Proof.
  intros Hh Hok Hn Hp Hb Hk. pose proof Hh as (_ & Hbl & Hc). split; [done|]. split.
  - by rewrite Hb, Hbl, fmap_insert, length_read_block.
  - intros q l i c Hq Hi. apply lookup_insert_Some in Hq as [[<- <-]|[Hne Hq]].
    + apply read_block_lookup in Hi as [_ ->]. done.
    + rewrite (Hk q (Z.of_nat (length l))); [by eapply Hc|by eapply heap_is_block|].
      apply lookup_lt_Some in Hi. lia.
Qed.

(** A block less. *)
Lemma heap_is_delete h T h' p :
  heap_is h T → heap_ok h' → blocks h' = delete p (blocks h) → keeps (delete p (blocks h)) h h' →
  heap_is h' (delete p T).
Proof.
  intros Hh Hok Hb Hk. pose proof Hh as (_ & Hbl & Hc). split; [done|]. split.
  - by rewrite Hb, Hbl, fmap_delete.
  - intros q l i c Hq Hi. pose proof Hq as [Hne Hq']%lookup_delete_Some.
    rewrite (Hk q (Z.of_nat (length l))); [by eapply Hc| |apply lookup_lt_Some in Hi; lia].
    rewrite lookup_delete_ne by done. by eapply heap_is_block.
Qed.

Lemma heap_is_store h T p l i v :
  heap_is h T → T !! p = Some l → (i < length l)%nat → 0 ≤ v < 256 →
  let h' := store h (p + Z.of_nat i) v in
  heap_is h' (<[p := <[i := v]> l]> T) ∧ (exhausted h → exhausted h').
Proof.
  intros Hh Hp Hi Hv h'. pose proof Hh as (Hok & Hbl & Hc). pose proof (heap_is_block h T p l Hh Hp) as Hbp.
  destruct (store_law h p _ (Z.of_nat i) v Hok Hbp ltac:(lia) Hv) as (Hok' & Hb & He & Hld). split; [|done].
  split; [done|]. split.
  - subst h'. rewrite Hb, Hbl, fmap_insert, length_insert. symmetry. apply insert_id. by rewrite lookup_fmap, Hp.
  - intros q l' j c Hq Hj. apply lookup_insert_Some in Hq as [[<- <-]|[Hne Hq]].
    + pose proof (lookup_lt_Some _ _ _ Hj) as Hjl. rewrite length_insert in Hjl.
      subst h'. rewrite (Hld p (Z.of_nat (length l)) (Z.of_nat j)) by (done || lia).
      apply list_lookup_insert_Some in Hj as [(<- & <- & _)|[Hji Hj]].
      * by rewrite decide_True.
      * rewrite decide_False by lia. by eapply Hc.
    + pose proof (lookup_lt_Some _ _ _ Hj) as Hjl. pose proof (heap_is_block h T q l' Hh Hq) as Hbq.
      subst h'. rewrite (Hld q (Z.of_nat (length l')) (Z.of_nat j)) by (done || lia).
      rewrite decide_False; [by eapply Hc|].
      destruct (blocks_disjoint h p _ q _ Hok Hbp Hbq Hne); lia.
Qed.

(** What a program may rely on when it goes on. *)
Definition goes_on {A} (m : prog A) (F : owned) (Q : A → owned → bool → Prop) (h h' : heap) : Prop :=
  ∃ R e, wp m R e Q ∧ R ##ₘ F ∧ heap_is h' (R ∪ F) ∧ (e = true → exhausted h') ∧ (exhausted h → exhausted h').

Lemma goes_on_new {A} (k : prog A) R F e Q h h' p n :
  0 ≤ n → heap_is h (R ∪ F) → R ##ₘ F → (e = true → exhausted h) →
  heap_ok h' → (exhausted h → exhausted h') → keeps (blocks h) h h' →
  blocks h !! p = None → blocks h' = <[p := n]> (blocks h) →
  (R !! p = None → wp k (<[p := read_block h' p n]> R) e Q) → goes_on k F Q h h'.
Proof.
  intros Hn Hh Hd He Hok Hx Hk Hp Hb Hw.
  pose proof (heap_is_free _ _ _ Hh Hp) as [HR HF]%lookup_union_None.
  exists (<[p := read_block h' p n]> R), e. split_and!; [auto|by apply map_disjoint_insert_l| |auto|done].
  rewrite <- insert_union_l. by apply heap_is_new with h.
Qed.

Lemma goes_on_null {A} (k : prog A) R F Q h h' :
  wp k R true Q → heap_is h (R ∪ F) → R ##ₘ F → heap_ok h' → (exhausted h → exhausted h') →
  blocks h' = blocks h → exhausted h' → keeps (blocks h) h h' → goes_on k F Q h h'.
Proof. intros. exists R, true. split_and!; [done|done|by eapply heap_is_keeps|done|done]. Qed.

Lemma wp_step {A} (m : prog A) R F e Q h m' h' :
  wp m R e Q → R ##ₘ F → heap_is h (R ∪ F) → (e = true → exhausted h) → step m h = Some (m', h') →
  goes_on m' F Q h h'.
Proof.
  intros Hw Hd Hh He. pose proof Hh as (Hok & _ & Hc).
  destruct m as [a| |a k|a v k|n k|n k|al n k|p n k|p k]; cbn [step wp] in *; try done.
  - destruct Hw as (p & l & i & c & Hp & -> & Hi & Hw). intros [= <- <-].
    rewrite (Hc p l i c) by (by apply lookup_union_Some_l || done). by exists R, e.
  - destruct Hw as (p & l & i & Hp & -> & Hi & Hv & Hw). intros [= <- <-].
    destruct (heap_is_store h (R ∪ F) p l i v Hh) as [Hh' Hx]; [by apply lookup_union_Some_l|done|done|].
    exists (<[p := <[i := v]> l]> R), e. split_and!; [done| |by rewrite <- insert_union_l|auto|done].
    apply map_disjoint_insert_l. split; [by apply (map_disjoint_Some_l R F p l)|done].
  - destruct Hw as (Hn & Hnull & Hw). pose proof (malloc_law h n Hok Hn) as Hm. destruct (malloc n h) as [p h1].
    intros [= <- <-]. destruct Hm as (Hok1 & Hx & Hk & Hm). destruct (decide (p = 0)) as [->|Hp].
    + destruct Hm. by apply goes_on_null with R.
    + destruct Hm as [Hp0 Hb]. apply goes_on_new with R e p n; try done. intros. apply Hw; [done|done|by apply length_read_block].
  - destruct Hw as (Hn & Hnull & Hw). pose proof (calloc_law h n Hok Hn) as Hm. destruct (calloc n h) as [p h1].
    intros [= <- <-]. destruct Hm as (Hok1 & Hx & Hk & Hm). destruct (decide (p = 0)) as [->|Hp].
    + destruct Hm. by apply goes_on_null with R.
    + destruct Hm as (Hp0 & Hb & Hz). apply goes_on_new with R e p n; try done. intros HR.
      assert (read_block h1 p n = replicate (Z.to_nat n) 0) as ->; [|by apply Hw].
      apply list_eq. intros i. apply option_eq. intros c. rewrite read_block_lookup, lookup_replicate.
      split; intros [? ?]; [|split; [done|]]; [split; [|done]|]; subst; [apply Hz; lia|symmetry; apply Hz; lia].
  - destruct Hw as (Hn & (j & Hj & ->) & Hnull & Hw). pose proof (memalign_law h j n Hok Hn Hj) as Hm.
    destruct (memalign _ n h) as [p h1]. intros [= <- <-]. destruct Hm as (Hok1 & Hx & Hk & Hm).
    destruct (decide (p = 0)) as [->|Hp].
    + destruct Hm. by apply goes_on_null with R.
    + destruct Hm as (Hp0 & Hb & Hal). apply goes_on_new with R e p n; try done. intros.
      apply Hw; [done|done|by apply length_read_block|done].
  - destruct Hw as (Hn & l & Hl & Hnull & Hw).
    assert (F !! p = None) as HF by by apply (map_disjoint_Some_l R F p l).
    assert ((R ∪ F) !! p = Some l) as Hp by by apply lookup_union_Some_l.
    pose proof (realloc_law h p _ n Hok Hn (heap_is_block h _ p l Hh Hp)) as Hm. destruct (realloc p n h) as [q h1].
    intros [= <- <-]. destruct Hm as (Hok1 & Hx & Hk & Hm). destruct (decide (q = 0)) as [->|Hq].
    { destruct Hm as (? & ? & ?). by apply goes_on_null with R. }
    destruct Hm as (Hq0 & Hb & Hld). destruct Hh as (_ & Hbl & _).
    set (l' := read_block h1 q n). exists (<[q := l']> (delete p R)), e.
    assert (delete p (R ∪ F) !! q = None) as HT.
    { rewrite Hbl, <- fmap_delete, lookup_fmap in Hq0. by destruct (delete p (R ∪ F) !! q). }
    assert (delete p (R ∪ F) = delete p R ∪ F) as Edel by (rewrite delete_union; by rewrite (delete_id F)).
    rewrite Edel in HT. apply lookup_union_None in HT as [HR' HF'].
    split_and!; [|apply map_disjoint_insert_l; split; [done|by apply map_disjoint_delete_l]| |auto|done].
    + apply Hw; [done|done|apply length_read_block; lia|]. intros i Hi Hi'.
      destruct (lookup_lt_is_Some_2 l i Hi) as [c Hc']. rewrite Hc'.
      unfold l' in Hi'. pose proof (length_read_block h1 q n ltac:(lia)).
      apply read_block_lookup. split; [lia|]. rewrite Hld by lia. symmetry. by apply (Hc p l).
    + rewrite <- insert_union_l, <- Edel. split; [done|]. split.
      * rewrite Hb, Hbl, fmap_insert, fmap_delete. f_equal. symmetry. unfold l'. apply length_read_block. lia.
      * intros x y i c Hx' Hi. apply lookup_insert_Some in Hx' as [[<- <-]|[Hne Hx']].
        -- apply read_block_lookup in Hi as [_ ->]. done.
        -- pose proof Hx' as [Hne' Hxl]%lookup_delete_Some.
           rewrite (Hk x (Z.of_nat (length y))); [by eapply Hc| |apply lookup_lt_Some in Hi; lia].
           by rewrite Hbl, <- fmap_delete, lookup_fmap, Hx'.
  - destruct Hw as (l & Hl & Hw). intros [= <- <-].
    assert (F !! p = None) as HF by by apply (map_disjoint_Some_l R F p l).
    assert ((R ∪ F) !! p = Some l) as Hp by by apply lookup_union_Some_l.
    destruct (free_law h p _ Hok (heap_is_block h _ p l Hh Hp)) as (Hok1 & Hb & Hx & Hk).
    exists (delete p R), e. split_and!; [done|by apply map_disjoint_delete_l| |auto|done].
    assert (delete p R ∪ F = delete p (R ∪ F)) as -> by (rewrite delete_union; by rewrite (delete_id F)).
    by apply heap_is_delete with h.
Qed.

(** A program that has not ended can take a step. *)
Lemma wp_progress {A} (m : prog A) R e Q h : wp m R e Q → (∃ a, m = Ret a) ∨ is_Some (step m h).
Proof.
  destruct m; cbn [wp step]; try (by intros []); [by eauto|..]; right;
    try (match goal with |- context [let '(_, _) := ?x in _] => destruct x end); eauto.
Qed.

Lemma step_run {A} (m : prog A) h m' h' : step m h = Some (m', h') → run m h = run m' h'.
Proof.
  destruct m; cbn [step run]; try done; try (by intros [= <- <-]);
    match goal with |- context [let '(_, _) := ?x in _] => destruct x end; by intros [= <- <-].
Qed.

(** Every program ends: what follows an action is smaller. *)
Definition follows {A} (m' m : prog A) : Prop := ∃ h h', step m h = Some (m', h').

Lemma follows_wf {A} (m : prog A) : Acc follows m.
Proof.
  induction m as [a| |a k IH|a v k IH|n k IH|n k IH|al n k IH|p n k IH|p k IH];
    constructor; intros m' (h & h' & E); cbn [step] in E.
  - discriminate E.
  - discriminate E.
  - injection E as <- _. apply IH.
  - injection E as <- _. apply IH.
  - destruct (malloc n h). injection E as <- _. apply IH.
  - destruct (calloc n h). injection E as <- _. apply IH.
  - destruct (memalign al n h). injection E as <- _. apply IH.
  - destruct (realloc p n h). injection E as <- _. apply IH.
  - injection E as <- _. apply IH.
Qed.

(** A program running alone ends as [Q] says. *)
Lemma wp_run {A} (m : prog A) R F e Q h :
  wp m R e Q → R ##ₘ F → heap_is h (R ∪ F) → (e = true → exhausted h) →
  ∃ a h' R' e', run m h = Some (a, h') ∧ Q a R' e' ∧ R' ##ₘ F ∧ heap_is h' (R' ∪ F) ∧ (e' = true → exhausted h').
Proof.
  revert R e h. induction (follows_wf m) as [m _ IH]. intros R e h Hw Hd Hh He.
  destruct (wp_progress m R e Q h Hw) as [[a ->]|[[m' h'] E]]; [by exists a, h, R, e|].
  destruct (wp_step m R F e Q h m' h' Hw Hd Hh He E) as (R' & e' & Hw' & Hd' & Hh' & He' & _).
  rewrite (step_run _ _ _ _ E). apply (IH m' (ex_intro _ h (ex_intro _ h' E)) R' e'); done.
Qed.

(** Programs that own the blocks of [T] between them. *)
Fixpoint threads {A} (Q : A → owned → bool → Prop) (h : heap) (ms : list (prog A)) (T : owned) : Prop :=
  match ms with
  | [] => T = ∅
  | m :: ms => ∃ R T' e, T = R ∪ T' ∧ R ##ₘ T' ∧ wp m R e Q ∧ (e = true → exhausted h) ∧ threads Q h ms T'
  end.

Lemma threads_mono {A} (Q : A → owned → bool → Prop) h h' ms T :
  (exhausted h → exhausted h') → threads Q h ms T → threads Q h' ms T.
Proof.
  intros Hx. revert T. induction ms as [|m ms IH]; intros T; [done|].
  intros (R & T' & e & ? & ? & ? & ? & ?). exists R, T', e. split_and!; auto.
Qed.

Lemma threads_step {A} (Q : A → owned → bool → Prop) h ms T F t m m' h' :
  threads Q h ms T → T ##ₘ F → heap_is h (T ∪ F) → ms !! t = Some m → step m h = Some (m', h') →
  ∃ T', threads Q h' (<[t := m']> ms) T' ∧ T' ##ₘ F ∧ heap_is h' (T' ∪ F) ∧ (exhausted h → exhausted h').
Proof.
  revert T F t. induction ms as [|m0 ms IH]; intros T F t; [done|].
  intros (R & T' & e & -> & Hd & Hw & He & Hms) [HdR HdT]%map_disjoint_union_l Hh.
  destruct t as [|t]; cbn [lookup list_lookup].
  - intros [= ->] E. rewrite <- map_union_assoc in Hh.
    destruct (wp_step m R (T' ∪ F) e Q h m' h' Hw) as (R' & e' & Hw' & [Hd1 Hd2]%map_disjoint_union_r & Hh' & He' & Hx); try done.
    { by apply map_disjoint_union_r. }
    exists (R' ∪ T'). split_and!; [|by apply map_disjoint_union_l|by rewrite <- map_union_assoc|done].
    exists R', T', e'. split_and!; try done. by eapply threads_mono.
  - intros Ht E. rewrite (map_union_comm R T'), <- map_union_assoc in Hh by done.
    destruct (IH T' (R ∪ F) t Hms) as (T1 & Hms' & [Hd1 Hd2]%map_disjoint_union_r & Hh' & Hx); try done.
    { apply map_disjoint_union_r. split; [by apply map_disjoint_sym|done]. }
    exists (R ∪ T1). split_and!; [|by apply map_disjoint_union_l| |done].
    + exists R, T1, e. split_and!; auto.
    + by rewrite (map_union_comm R T1), <- map_union_assoc by by apply map_disjoint_sym.
Qed.

Lemma threads_interleave {A} (Q : A → owned → bool → Prop) schedule h ms T F :
  threads Q h ms T → T ##ₘ F → heap_is h (T ∪ F) →
  let '(h', ms') := interleave schedule h ms in
  length ms' = length ms ∧ (exhausted h → exhausted h') ∧ ∃ T', threads Q h' ms' T' ∧ T' ##ₘ F ∧ heap_is h' (T' ∪ F).
Proof.
  revert h ms T. induction schedule as [|t schedule IH]; intros h ms T Hms Hd Hh; cbn [interleave].
  { split_and!; [done..|]. by exists T. }
  destruct (ms !! t) as [m|] eqn:Ht; cbn [mbind option_bind]; [|by eapply IH].
  destruct (step m h) as [[m' h']|] eqn:E; [|by eapply IH].
  destruct (threads_step Q h ms T F t m m' h' Hms Hd Hh Ht E) as (T' & Hms' & Hd' & Hh' & Hx).
  specialize (IH h' (<[t := m']> ms) T' Hms' Hd' Hh'). destruct (interleave schedule h' _) as [h2 ms2].
  rewrite length_insert in IH. destruct IH as (? & ? & ?). auto.
Qed.

Lemma threads_lookup {A} (Q : A → owned → bool → Prop) h ms T t m :
  threads Q h ms T → ms !! t = Some m → ∃ R e, wp m R e Q ∧ (e = true → exhausted h).
Proof.
  revert T t. induction ms as [|m0 ms IH]; intros T [|t]; cbn [lookup list_lookup]; [done..| |].
  - intros (R & T' & e & _ & _ & Hw & He & _) [= ->]. eauto.
  - intros (R & T' & e & _ & _ & _ & _ & Hms) Ht. eauto.
Qed.

Lemma interleave_app {A} s s' h (ms : list (prog A)) :
  interleave (s ++ s') h ms = let '(h', ms') := interleave s h ms in interleave s' h' ms'.
Proof.
  revert h ms. induction s as [|t s IH]; intros h ms; cbn [app interleave]; [done|].
  destruct (m ← ms !! t; step m h) as [[m' h']|]; apply IH.
Qed.

(** A thread can always be run to its end. *)
Lemma threads_finish_one {A} (Q : A → owned → bool → Prop) t m : ∀ h ms T F,
  threads Q h ms T → T ##ₘ F → heap_is h (T ∪ F) → ms !! t = Some m →
  ∃ s h' a, interleave s h ms = (h', <[t := Ret a]> ms).
Proof.
  induction (follows_wf m) as [m _ IH]. intros h ms T F Hms Hd Hh Ht.
  destruct (threads_lookup Q h ms T t m Hms Ht) as (R & e & Hw & _).
  destruct (wp_progress m R e Q h Hw) as [[a ->]|[[m' h'] E]].
  { exists [], h, a. by rewrite list_insert_id. }
  destruct (threads_step Q h ms T F t m m' h' Hms Hd Hh Ht E) as (T' & Hms' & Hd' & Hh' & _).
  destruct (IH m' (ex_intro _ h (ex_intro _ h' E)) h' (<[t := m']> ms) T' F) as (s & h2 & a & Es); try done.
  { apply list_lookup_insert_eq. by eapply lookup_lt_Some. }
  exists (t :: s), h2, a. cbn [interleave]. rewrite Ht. cbn [mbind option_bind].
  by rewrite E, Es, list_insert_insert_eq.
Qed.

Lemma threads_finish {A} (Q : A → owned → bool → Prop) h ms T F :
  threads Q h ms T → T ##ₘ F → heap_is h (T ∪ F) →
  ∃ s h' (res : list A), interleave s h ms = (h', Ret <$> res).
Proof.
  intros Hms Hd Hh.
  assert (∀ n, (n ≤ length ms)%nat → ∃ s h' (res : list A), length res = n ∧
    interleave s h ms = (h', (Ret <$> res) ++ drop n ms)) as Hn.
  { induction n as [|n IH]; intros Hn; [by exists [], h, []|].
    destruct IH as (s & h1 & res & Hl & E); [lia|].
    pose proof (threads_interleave Q s h ms T F Hms Hd Hh) as Hi. rewrite E in Hi.
    destruct Hi as (_ & _ & T1 & Hms1 & Hd1 & Hh1).
    destruct (lookup_lt_is_Some_2 ms n) as [m Hm]; [lia|].
    assert (drop n ms = m :: drop (S n) ms) as Ed by by apply drop_S.
    destruct (threads_finish_one Q n m h1 ((Ret <$> res) ++ drop n ms) T1 F Hms1 Hd1 Hh1) as (s' & h2 & a & E').
    { rewrite lookup_app_r by (rewrite length_fmap; lia). rewrite length_fmap, Hl, Nat.sub_diag, Ed. done. }
    exists (s ++ s'), h2, (res ++ [a]). split; [rewrite length_app; cbn; lia|].
    rewrite interleave_app, E, E', Ed. f_equal. rewrite insert_app_r_alt by (rewrite length_fmap; lia).
    rewrite length_fmap, Hl, Nat.sub_diag, fmap_app, <- app_assoc. done. }
  destruct (Hn (length ms) ltac:(lia)) as (s & h' & res & _ & E). exists s, h', res.
  by rewrite drop_ge, app_nil_r in E by lia.
Qed.
End adequacy.

(** ** Blocks and patterns *)

Lemma mt_byte_range seed i : 0 ≤ mt_byte seed i < 256.
Proof. apply (uwrap_range 8). lia. Qed.

Lemma mt_size_pos r : 1 ≤ mt_size r.
Proof.
  unfold mt_size, MT_LARGE_MIN, MT_SMALL_MAX, MT_MEDIUM_MAX, MT_LARGE_SPAN.
  repeat case_match; match goal with |- context [?a mod ?b] => pose proof (Z.mod_pos_bound a b) end; lia.
Qed.

Definition block_pattern (seed n : Z) : list Z := (λ k, mt_byte seed (Z.of_nat k)) <$> seq 0 (Z.to_nat n).

Lemma length_block_pattern seed n : length (block_pattern seed n) = Z.to_nat n.
Proof. unfold block_pattern. by rewrite length_fmap, length_seq. Qed.

Lemma block_pattern_lookup seed n k : 0 ≤ k < n → block_pattern seed n !! Z.to_nat k = Some (mt_byte seed k).
Proof.
  intros Hk. unfold block_pattern. rewrite list_lookup_fmap, lookup_seq_lt by lia. cbn. do 2 f_equal. lia.
Qed.

Lemma block_pattern_eq seed l :
  (∀ k, 0 ≤ k < Z.of_nat (length l) → l !! Z.to_nat k = Some (mt_byte seed k)) →
  l = block_pattern seed (Z.of_nat (length l)).
Proof.
  intros Hl. apply list_eq. intros i. destruct (decide (i < length l)%nat).
  - specialize (Hl (Z.of_nat i) ltac:(lia)). rewrite Nat2Z.id in Hl. rewrite Hl.
    by rewrite <- (block_pattern_lookup seed (Z.of_nat (length l)) (Z.of_nat i)), Nat2Z.id by lia.
  - rewrite !lookup_ge_None_2; [done|rewrite length_block_pattern; lia|lia].
Qed.

Lemma wp_fill_loop n b i l R e (Q : () → owned → bool → Prop) :
  R !! b_p b = Some l → 0 ≤ i → i + Z.of_nat n = Z.of_nat (length l) →
  (∀ k, 0 ≤ k < i → l !! Z.to_nat k = Some (mt_byte (b_seed b) k)) →
  Q () (<[b_p b := block_pattern (b_seed b) (Z.of_nat (length l))]> R) e → wp (fill_loop n b i) R e Q.
Proof.
  revert i l R. induction n as [|n IH]; intros i l R Hb Hi Hn Hl HQ; cbn [fill_loop wp].
  - rewrite <- (block_pattern_eq (b_seed b) l) in HQ by (intros; apply Hl; lia). by rewrite insert_id in HQ.
  - exists (b_p b), l, (Z.to_nat i). split_and!; [done|lia|lia|apply mt_byte_range|apply mt_byte_range|].
    apply (IH (i + 1) (<[Z.to_nat i := mt_byte (b_seed b) i]> l)).
    + by rewrite lookup_insert_eq.
    + lia.
    + rewrite length_insert. lia.
    + intros k Hk. destruct (decide (k = i)) as [->|]; [apply list_lookup_insert_eq; lia|].
      rewrite list_lookup_insert_ne by lia. apply Hl. lia.
    + by rewrite length_insert, insert_insert_eq.
Qed.

Lemma wp_fill b from l R e (Q : () → owned → bool → Prop) :
  R !! b_p b = Some l → Z.of_nat (length l) = b_size b → 0 ≤ from ≤ b_size b →
  (∀ k, 0 ≤ k < from → l !! Z.to_nat k = Some (mt_byte (b_seed b) k)) →
  Q () (<[b_p b := block_pattern (b_seed b) (b_size b)]> R) e → wp (mt_fill b from) R e Q.
Proof.
  intros Hb Hl Hf Hp HQ. unfold mt_fill. apply (wp_fill_loop _ b from l); rewrite ?Hl; try done; lia.
Qed.

Lemma wp_first_wrong f n p i l R e (Q : option Z → owned → bool → Prop) :
  R !! p = Some l → 0 ≤ i → (∀ k, i ≤ k < i + Z.of_nat n → l !! Z.to_nat k = Some (f k)) →
  Q None R e → wp (first_wrong f n p i) R e Q.
Proof.
  revert i. induction n as [|n IH]; intros i Hp Hi Hl HQ; cbn [first_wrong wp]; [done|].
  exists p, l, (Z.to_nat i), (f i). split_and!; [done|lia|apply Hl; lia|].
  rewrite Z.eqb_refl. apply IH; [done|lia|intros; apply Hl; lia|done].
Qed.

Lemma wp_check b n what w l R e (Q : bool * mt_worker_t → owned → bool → Prop) :
  R !! b_p b = Some l → (∀ k, 0 ≤ k < n → l !! Z.to_nat k = Some (mt_byte (b_seed b) k)) →
  Q (true, w) R e → wp (mt_check b n what w) R e Q.
Proof.
  intros Hp Hl HQ. unfold mt_check. apply prog_wp_bind. apply (wp_first_wrong _ _ _ _ l); [done|lia|intros; apply Hl; lia|done].
Qed.

(** ** Slots *)

(** The blocks in the slots are live, distinct, intact, and all that is owned. *)
Fixpoint holds (bs : list mt_block_t) (R : owned) : Prop :=
  match bs with
  | [] => R = ∅
  | b :: bs =>
      if decide (b_p b = 0) then holds bs R
      else ∃ R', R = <[b_p b := block_pattern (b_seed b) (b_size b)]> R' ∧ R' !! b_p b = None ∧ 0 ≤ b_size b ∧ holds bs R'
  end.

#[export] Instance holds_proper : Proper ((≡ₚ) ==> (=) ==> iff) holds.
Proof.
  assert (∀ bs bs', bs ≡ₚ bs' → ∀ R, holds bs R → holds bs' R) as Hp.
  { induction 1 as [|b bs bs' _ IH|b c bs|bs bs' bs'' _ IH1 _ IH2]; intros R; cbn [holds]; [done| | |auto].
    - case_decide; [apply IH|]. intros (R' & ? & ? & ? & ?). exists R'. auto.
    - repeat case_decide; [done..|]. intros (R1 & -> & H1 & ? & R2 & -> & H2 & ? & ?).
      apply lookup_insert_None in H1 as [H1 Hne].
      exists (<[b_p c := block_pattern (b_seed c) (b_size c)]> R2). split_and!; [by apply insert_insert_ne|by rewrite lookup_insert_ne|done|].
      by exists R2. }
  intros bs bs' Hb R _ <-. split; apply Hp; [done|by symmetry].
Qed.

Lemma holds_at bs i b R : bs !! i = Some b → holds bs R ↔ holds (b :: delete i bs) R.
Proof. intros Hi. by rewrite <- (delete_Permutation bs i b Hi). Qed.

Lemma delete_insert_list {A} (l : list A) i x : delete i (<[i := x]> l) = delete i l.
Proof. revert i. induction l as [|y l IH]; intros [|i]; cbn; [done..|]. f_equal. apply IH. Qed.

Lemma holds_insert bs i b c R : bs !! i = Some c → holds (<[i := b]> bs) R ↔ holds (b :: delete i bs) R.
Proof.
  intros Hi. rewrite (holds_at (<[i := b]> bs) i b), delete_insert_list; [done|].
  apply list_lookup_insert_eq. by eapply lookup_lt_Some.
Qed.

(** A block put into an empty slot, and taken out of one. *)
Lemma holds_put bs i c p n s R :
  bs !! i = Some c → b_p c = 0 → holds bs R → p ≠ 0 → R !! p = None → 0 ≤ n →
  holds (<[i := mkBlock p n s]> bs) (<[p := block_pattern s n]> R).
Proof.
  intros Hi Hc HR Hp HRp Hn. rewrite (holds_insert _ _ _ c) by done. rewrite (holds_at _ i c) in HR by done.
  cbn [holds b_p b_seed b_size] in *. rewrite decide_True in HR by done. rewrite decide_False by done. by exists R.
Qed.

Lemma holds_take bs i b R :
  bs !! i = Some b → b_p b ≠ 0 → holds bs R →
  ∃ R', R = <[b_p b := block_pattern (b_seed b) (b_size b)]> R' ∧ R' !! b_p b = None ∧ 0 ≤ b_size b ∧
    ∀ c, b_p c = 0 → holds (<[i := c]> bs) R'.
Proof.
  intros Hi Hb HR. rewrite (holds_at _ i b) in HR by done. cbn [holds] in HR. rewrite decide_False in HR by done.
  destruct HR as (R' & -> & ? & ? & ?). exists R'. split_and!; [done..|]. intros c Hc.
  rewrite (holds_insert _ _ _ b) by done. cbn [holds]. by rewrite decide_True.
Qed.

(** ** One worker *)

(** No error, or the one error of an allocation that failed. *)
Definition clean (w : mt_worker_t) : Prop := w_errors w = 0 ∧ w_err w = None.
Definition out_of_memory (w : mt_worker_t) : Prop :=
  w_errors w = 1 ∧ ∃ what at_byte, w_err w = Some (what, at_byte) ∧ (what = Alloc_failed ∨ what = Realloc_failed).

(** A worker with its slots, and what it can report. *)
Definition worker_inv (w : mt_worker_t) (R : owned) (e : bool) : Prop :=
  length (w_slot w) = MT_SLOTS ∧ holds (w_slot w) R ∧ (clean w ∨ (e = true ∧ out_of_memory w)).

Lemma clean_mt_error what n w : clean w → (what = Alloc_failed ∨ what = Realloc_failed) → out_of_memory (mt_error what n w).
Proof. intros [He Hn] Hw. unfold out_of_memory, mt_error. rewrite He. cbn. split; [done|]. by exists what, n. Qed.

(** What a call for [size] bytes gives. *)
Lemma wp_alloc_call kind size w R e (Q : Z * mt_worker_t → owned → bool → Prop) :
  1 ≤ size → (∀ x, Q (0, set_rng x w) R true) →
  (∀ x p l, p ≠ 0 → R !! p = None → Z.of_nat (length l) = size → Q (p, set_rng x w) (<[p := l]> R) e) →
  wp (alloc_call kind size w) R e Q.
Proof.
  intros Hs H0 Hp. assert (set_rng (w_rng w) w = w) as Eset by by destruct w.
  unfold alloc_call. destruct (kind =? 6); [|destruct (kind =? 7)]; cbn [wp].
  - split_and!; [lia|specialize (H0 (w_rng w)); by rewrite Eset in H0|]. intros p Hp0 HR.
    rewrite (proj2 (Z.eqb_neq _ _)) by done. apply prog_wp_bind.
    apply (wp_first_wrong _ _ _ _ (replicate (Z.to_nat size) 0)); [apply lookup_insert_eq|lia| |].
    + intros k Hk. apply lookup_replicate. split; [done|lia].
    + specialize (Hp (w_rng w) p (replicate (Z.to_nat size) 0)). rewrite Eset in Hp. apply Hp; [done..|].
      rewrite length_replicate. lia.
  - set (r := mt_rand (w_rng w)). split_and!; [lia| |apply H0|].
    { exists (4 + r mod 5). pose proof (Z.mod_pos_bound r 5). split; [lia|].
      rewrite Z.shiftl_mul_pow2, Z.pow_add_r by lia. done. }
    intros p l Hp0 HR Hl Ha. rewrite Ha. cbn [Z.eqb negb]. rewrite andb_false_r. by apply Hp.
  - split_and!; [lia|specialize (H0 (w_rng w)); by rewrite Eset in H0|]. intros p l Hp0 HR Hl.
    specialize (Hp (w_rng w) p l). rewrite Eset in Hp. by apply Hp.
Qed.

Lemma wp_alloc i c w R e :
  worker_inv w R e → clean w → w_slot w !! i = Some c → b_p c = 0 → wp (mt_alloc i w) R e worker_inv.
Proof.
  intros (Hlen & HR & _) Hc Hi Hp. unfold mt_alloc.
  set (r := mt_rand (mt_rand (w_rng w))). set (size := mt_size r). pose proof (mt_size_pos r) as Hsz. fold size in Hsz.
  apply prog_wp_bind. apply wp_alloc_call; [done| |].
  - intros x. cbn [wp Z.eqb]. split_and!; [cbn; by rewrite length_insert| |right; split; [done|by apply clean_mt_error; auto]].
    cbn. rewrite (holds_insert _ _ _ c) by done. rewrite (holds_at _ i c) in HR by done.
    cbn [holds b_p] in *. by rewrite !decide_True in * by done.
  - intros x p l Hp0 HRp Hl. rewrite (proj2 (Z.eqb_neq p 0)) by done. apply prog_wp_bind.
    apply (wp_fill _ 0 l); cbn [b_p b_size b_seed]; [apply lookup_insert_eq|done|lia|lia|].
    rewrite insert_insert_eq. cbn [wp]. split_and!; [cbn; by rewrite length_insert| |by left].
    cbn. apply (holds_put _ _ c); try done. lia.
Qed.

(** Releasing a slot empties it and reports nothing. *)
Definition released (i : nat) (w w' : mt_worker_t) : Prop :=
  w_errors w' = w_errors w ∧ w_err w' = w_err w ∧ ∃ c, b_p c = 0 ∧ w_slot w' = <[i := c]> (w_slot w).

Lemma wp_release i b w R e :
  worker_inv w R e → w_slot w !! i = Some b →
  wp (mt_release i b w) R e (λ w' R' e', worker_inv w' R' e' ∧ released i w w').
Proof.
  intros (Hlen & HR & Hst) Hi. unfold mt_release. destruct (Z.eqb_spec (b_p b) 0) as [Hp|Hp]; cbn [wp].
  - split; [done|]. split_and!; [done..|]. exists b. split; [done|]. by rewrite list_insert_id.
  - destruct (holds_take _ _ _ _ Hi Hp HR) as (R' & -> & HRp & Hsz & Hput). apply prog_wp_bind.
    apply (wp_check _ _ _ _ (block_pattern (b_seed b) (b_size b))); [apply lookup_insert_eq|intros; by apply block_pattern_lookup|].
    cbn [wp]. exists (block_pattern (b_seed b) (b_size b)). split; [apply lookup_insert_eq|]. rewrite delete_insert_id by done.
    split; [|split; [done|split; [done|]]; by exists (mkBlock 0 0 (b_seed b))]. split; [cbn; by rewrite length_insert|]. split; [by apply Hput|done].
Qed.

Lemma wp_resize i b w R e :
  worker_inv w R e → clean w → w_slot w !! i = Some b → b_p b ≠ 0 → wp (mt_resize i b w) R e worker_inv.
Proof.
  intros (Hlen & HR & Hst) Hc Hi Hp. unfold mt_resize. set (r := mt_rand (w_rng w)). set (nsize := mt_size r).
  pose proof (mt_size_pos r) as Hns. fold nsize in Hns.
  destruct (holds_take _ _ _ _ Hi Hp HR) as (R' & HRe & HRp & Hsz & Hput). apply prog_wp_bind.
  apply (wp_check _ _ _ _ (block_pattern (b_seed b) (b_size b))); [rewrite HRe; apply lookup_insert_eq|intros; by apply block_pattern_lookup|].
  cbn [negb wp]. split; [lia|]. exists (block_pattern (b_seed b) (b_size b)). split; [rewrite HRe; apply lookup_insert_eq|].
  split.
  { cbn [Z.eqb wp]. split_and!; [done|done|]. right. split; [done|]. apply clean_mt_error; [done|by right]. }
  rewrite HRe, delete_insert_id by done. intros q l' Hq HRq Hl' Hcopy.
  rewrite (proj2 (Z.eqb_neq q 0)) by done. set (keep := if nsize <? b_size b then nsize else b_size b).
  assert (0 ≤ keep ≤ nsize ∧ keep ≤ b_size b) as Hkeep by (unfold keep; destruct (Z.ltb_spec nsize (b_size b)); lia).
  assert (∀ k, 0 ≤ k < keep → l' !! Z.to_nat k = Some (mt_byte (b_seed b) k)) as Hpre.
  { intros k Hk. rewrite Hcopy by (rewrite ?length_block_pattern; lia). apply block_pattern_lookup. lia. }
  apply prog_wp_bind. apply (wp_check _ _ _ _ l'); cbn [b_p b_seed]; [apply lookup_insert_eq|done|].
  apply prog_wp_bind. apply (wp_fill _ keep l'); cbn [b_p b_size b_seed]; [apply lookup_insert_eq|done|lia|done|].
  rewrite insert_insert_eq. cbn [wp]. split_and!; [cbn; by rewrite length_insert| |by left].
  cbn [w_slot set_slot]. rewrite <- (list_insert_insert_eq (w_slot w) i _ (mkBlock 0 0 0)).
  apply (holds_put _ _ (mkBlock 0 0 0)); try done; [|by apply Hput|lia].
  apply list_lookup_insert_eq. by eapply lookup_lt_Some.
Qed.

Lemma wp_churn_step w R e : worker_inv w R e → clean w → wp (churn_step w) R e worker_inv.
Proof.
  intros Hw Hc. unfold churn_step. set (r := mt_rand (w_rng w)). cbn [set_rng w_slot w_rng].
  pose proof (Z.mod_pos_bound r (Z.of_nat MT_SLOTS) ltac:(done)) as Hi. set (i := Z.to_nat _).
  destruct (lookup_lt_is_Some_2 (w_slot w) i) as [b Hb]; [destruct Hw as [-> _]; unfold i; lia|]. rewrite Hb.
  assert (∀ x, worker_inv (set_rng x w) R e) as Hx by (intros x; exact Hw).
  assert (∀ x, clean (set_rng x w)) as Hcx by (intros x; exact Hc).
  destruct (Z.eqb_spec (b_p b) 0) as [Hp|Hp]; [by apply (wp_alloc i b)|].
  destruct (_ || _); [|destruct (_ =? 2)].
  - eapply prog_wp_mono; [by apply wp_release|]. by intros w' R' e' [? _].
  - by apply wp_resize.
  - apply prog_wp_bind. eapply prog_wp_mono; [by apply wp_release|].
    intros w' R' e' [Hw' (He & Hn & c & Hc0 & Hs)]. apply (wp_alloc i c); [done| | |done].
    + destruct Hc. split; cbn in *; congruence.
    + rewrite Hs. apply list_lookup_insert_eq. by eapply lookup_lt_Some.
Qed.

Lemma wp_churn iters w R e : worker_inv w R e → wp (mt_churn iters w) R e worker_inv.
Proof.
  revert w R e. induction iters as [|iters IH]; intros w R e Hw; cbn [mt_churn]; [done|].
  destruct (Z.eqb_spec (w_errors w) 0) as [He|]; [|done]. apply prog_wp_bind.
  eapply prog_wp_mono; [apply wp_churn_step; [done|]|exact IH].
  destruct Hw as (_ & _ & [Hc|(_ & E & _)]); [done|congruence].
Qed.

Lemma holds_null bs R : (∀ i b, bs !! i = Some b → b_p b = 0) → holds bs R ↔ R = ∅.
Proof.
  induction bs as [|b bs IH]; intros Hb; cbn [holds]; [done|].
  rewrite decide_True by by apply (Hb 0%nat). apply IH. intros i. apply (Hb (S i)).
Qed.

(** What a thread ends with: no block is left. *)
Definition thread_done (w : mt_worker_t) (R : owned) (e : bool) : Prop :=
  R = ∅ ∧ (clean w ∨ (e = true ∧ out_of_memory w)).

Lemma wp_release_all n w R e :
  (n ≤ MT_SLOTS)%nat → worker_inv w R e → (∀ i b, (i < MT_SLOTS - n)%nat → w_slot w !! i = Some b → b_p b = 0) →
  wp (release_all n w) R e thread_done.
Proof.
  revert w R e. induction n as [|n IH]; intros w R e Hn Hw Hz; cbn [release_all].
  - destruct Hw as (Hl & HR & Hst). split; [|done]. apply (holds_null (w_slot w)); [|done].
    intros i b Hi. apply (Hz i); [|done]. apply lookup_lt_Some in Hi. lia.
  - set (i := (MT_SLOTS - S n)%nat). pose proof Hw as (Hl & _).
    destruct (lookup_lt_is_Some_2 (w_slot w) i) as [b Hb]; [lia|]. rewrite Hb. apply prog_wp_bind.
    eapply prog_wp_mono; [by apply wp_release|]. intros w' R' e' [Hw' (_ & _ & c & Hc & Hs)]. apply IH; [lia|done|].
    intros j b' Hj. rewrite Hs. intros [(-> & <- & _)|[? Hb']]%list_lookup_insert_Some; [done|].
    apply (Hz j); [unfold i in *; lia|done].
Qed.

(** ** The threads *)

(** The blocks of the single-threaded phase that fall to the thread that
    starts at [i]. *)
Fixpoint share (fuel i : nat) (single : list mt_block_t) : list mt_block_t :=
  match fuel with
  | O => []
  | S fuel => if (i <? MT_SLOTS)%nat then option_list (single !! i) ++ share fuel (i + MT_THREADS) single else []
  end.

Lemma share_insert fuel i j c single : (i < j)%nat → share fuel j (<[i := c]> single) = share fuel j single.
Proof.
  revert j. induction fuel as [|fuel IH]; intros j Hj; cbn [share]; [done|].
  destruct (_ <? _)%nat; [|done]. by rewrite list_lookup_insert_ne, IH by lia.
Qed.

Lemma wp_take_over fuel i single w R e (Q : mt_worker_t → owned → bool → Prop) :
  length single = MT_SLOTS → holds (share fuel i single) R → Q w ∅ e → wp (take_over fuel i single w) R e Q.
Proof.
  revert i single R. induction fuel as [|fuel IH]; intros i single R Hl HR HQ; cbn [share take_over holds] in *; [by subst|].
  destruct (Nat.ltb_spec i MT_SLOTS) as [Hi|Hi]; [|by cbn in HR; subst].
  destruct (lookup_lt_is_Some_2 single i) as [b Hb]; [lia|]. rewrite Hb in *. change (holds (b :: share fuel (i + MT_THREADS) single) R) in HR. cbn [holds] in HR.
  destruct (Z.eqb_spec (b_p b) 0) as [Hp|Hp].
  - rewrite decide_True in HR by done. by apply IH.
  - rewrite decide_False in HR by done. destruct HR as (R' & -> & HRp & Hsz & HR). apply prog_wp_bind.
    apply (wp_check _ _ _ _ (block_pattern (b_seed b) (b_size b))); [apply lookup_insert_eq|intros; by apply block_pattern_lookup|].
    cbn [wp]. exists (block_pattern (b_seed b) (b_size b)). split; [apply lookup_insert_eq|]. rewrite delete_insert_id by done.
    apply IH; [by rewrite length_insert|by rewrite share_insert by (unfold MT_THREADS; lia)|done].
Qed.

(** A worker before its first action. *)
Definition fresh (w : mt_worker_t) : Prop := ∃ id rng, w = mt_worker_init id rng.

Lemma fresh_inv w e : fresh w → worker_inv w ∅ e.
Proof.
  intros (id & rng & ->). split_and!; [done| |by left]. apply holds_null; [|done].
  intros i b [-> _]%lookup_replicate. done.
Qed.

Lemma wp_thread iters single w R e :
  fresh w → length single = MT_SLOTS → holds (share MT_SLOTS (Z.to_nat (w_id w)) single) R →
  wp (mt_thread iters single w) R e thread_done.
Proof.
  intros Hw Hl HR. unfold mt_thread. apply prog_wp_bind. apply wp_take_over; [done..|]. apply prog_wp_bind.
  eapply prog_wp_mono; [by apply wp_churn, fresh_inv|]. intros w' R' e' Hw'. apply wp_release_all; [done|done|lia].
Qed.

Lemma holds_app bs bs' R :
  holds (bs ++ bs') R → ∃ R1 R2, R = R1 ∪ R2 ∧ R1 ##ₘ R2 ∧ holds bs R1 ∧ holds bs' R2.
Proof.
  revert R. induction bs as [|b bs IH]; intros R; cbn [app holds].
  { intros HR. exists ∅, R. split_and!; [by rewrite map_empty_union|apply map_disjoint_empty_l|done|done]. }
  case_decide as Hp; [apply IH|]. intros (R' & -> & HRp & Hsz & HR).
  destruct (IH R' HR) as (R1 & R2 & -> & Hd & HR1 & HR2). apply lookup_union_None in HRp as [Hp1 Hp2].
  exists (<[b_p b := block_pattern (b_seed b) (b_size b)]> R1), R2.
  split_and!; [by rewrite insert_union_l|by apply map_disjoint_insert_l|by exists R1|done].
Qed.

Lemma threads_start `{HeapLaws} iters single ws T h :
  length single = MT_SLOTS → Forall fresh ws →
  holds (concat ((λ w, share MT_SLOTS (Z.to_nat (w_id w)) single) <$> ws)) T →
  threads thread_done h (mt_thread iters single <$> ws) T.
Proof.
  intros Hl Hws. revert T. induction Hws as [|w ws Hw Hws IH]; intros T HT; [done|].
  destruct (holds_app _ _ _ HT) as (R & T' & -> & Hd & HR & HT'). exists R, T', false.
  split_and!; [done|done|by apply wp_thread|done|by apply IH].
Qed.

Lemma shares_complete single :
  length single = MT_SLOTS →
  concat ((λ w, share MT_SLOTS (Z.to_nat (w_id w)) single) <$> mt_workers) ≡ₚ single.
Proof.
  intros Hl. do 48 (destruct single as [|? single]; [discriminate Hl|]). destruct single; [|discriminate Hl].
  cbn. solve_Permutation.
Qed.

(** ** The test *)

Section test.
Context `{HeapLaws}.

(** The blocks that are live at the start. *)
Definition contents (h : heap) : owned := map_imap (λ p n, Some (read_block h p n)) (blocks h).

Lemma contents_lookup h p l : contents h !! p = Some l ↔ ∃ n, blocks h !! p = Some n ∧ l = read_block h p n.
Proof.
  unfold contents. rewrite map_lookup_imap. destruct (blocks h !! p) as [n|]; cbn.
  - split; [intros [= <-]; by exists n|by intros (? & [= <-] & ->)].
  - split; [done|by intros (? & ? & _)].
Qed.

Lemma heap_is_contents h : heap_ok h → heap_is h (contents h).
Proof.
  intros Hok. split; [done|]. split.
  - apply map_eq. intros p. rewrite lookup_fmap. unfold contents. rewrite map_lookup_imap.
    destruct (blocks h !! p) as [n|] eqn:E; cbn; [|done]. by rewrite length_read_block by by eapply blocks_size.
  - intros p l i c (n & Hp & ->)%contents_lookup Hi. by apply read_block_lookup in Hi as [_ ->].
Qed.

Lemma contents_kept h h' : heap_ok h → heap_is h' (contents h) → blocks h' = blocks h ∧ keeps (blocks h) h h'.
Proof.
  intros Hok Hh. pose proof Hh as (_ & Hb & Hc). destruct (heap_is_contents h Hok) as (_ & Hb0 & _). split; [congruence|].
  intros p n i Hp Hi. assert (contents h !! p = Some (read_block h p n)) as Hl by (apply contents_lookup; eauto).
  pose proof (Hc p _ (Z.to_nat i) (load h (p + i)) Hl) as E. rewrite Z2Nat.id in E by lia. apply E.
  apply read_block_lookup. split; [lia|]. by rewrite Z2Nat.id by lia.
Qed.

Lemma done_all h (ws : list mt_worker_t) T :
  threads thread_done h (Ret <$> ws) T → T = ∅ ∧ Forall (λ w, clean w ∨ (exhausted h ∧ out_of_memory w)) ws.
Proof.
  revert T. induction ws as [|w ws IH]; intros T; cbn [fmap list_fmap threads wp]; [done|].
  intros (R & T' & e & -> & _ & [-> Hw] & He & Hws). destruct (IH _ Hws) as [-> HF].
  split; [apply map_empty_union|]. constructor; [|done]. destruct Hw as [|[-> ?]]; auto.
Qed.

(** What the main thread makes of the workers' errors. *)
Lemma mt_collect_clean ws : Forall clean ws → mt_collect ws = (0, None).
Proof.
  unfold mt_collect. generalize (@None (mt_what * Z)) as first. intros first Hws. revert first.
  induction Hws as [|w ws [He _] _ IH]; intros first; cbn [foldl]; [done|]. rewrite He. cbn. apply IH.
Qed.

(** C5: The threads of the allocator stress raise no false alarm. On an
    allocator that keeps the promises of malloc, calloc, posix_memalign,
    realloc and free, each call atomic, and that may return NULL, the
    single-threaded phase ends; however the threads are then interleaved, at
    every load, store and allocator call, none of them leaves the bounds of a
    block or an array, any schedule can be continued to the end of all
    threads, and there every block they allocated has been given back and the
    blocks that were live before are as they were. An error, of the first
    phase or of a thread, is a failed allocation or a failed realloc, at most
    one per thread, and comes only after a call did return NULL: otherwise the
    sum of errors is 0 and the test passes. For any number of rounds in either
    phase. *)
Theorem mt_workers_no_false_alarm siters iters h0 :
  heap_ok h0 →
  ∃ single h1, run (mt_churn siters mt_single) h0 = Some (single, h1) ∧
    (clean single ∨ (exhausted h1 ∧ out_of_memory single)) ∧
    ∀ schedule, let '(h2, ms) := interleave schedule h1 (mt_threads iters single) in
      (∀ t m, ms !! t = Some m → (∃ w, m = Ret w) ∨ is_Some (step m h2)) ∧
      (∃ more h3 ws, interleave more h2 ms = (h3, Ret <$> ws)) ∧
      (∀ ws, ms = Ret <$> ws →
         length ws = MT_THREADS ∧ blocks h2 = blocks h0 ∧ keeps (blocks h0) h0 h2 ∧
         Forall (λ w, clean w ∨ (exhausted h2 ∧ out_of_memory w)) ws ∧
         (¬ exhausted h2 → mt_collect ws = (0, None))).
Proof.
  intros Hok. pose proof (heap_is_contents h0 Hok) as Hh0.
  destruct (wp_run (mt_churn siters mt_single) ∅ (contents h0) false worker_inv h0)
    as (single & h1 & R & e & Hrun & (Hl & HR & Hst) & Hd & Hh1 & He).
  { apply wp_churn, fresh_inv. by exists (-1), 625341585. }
  { apply map_disjoint_empty_l. }
  { by rewrite map_empty_union. }
  { done. }
  exists single, h1. split; [done|]. split; [destruct Hst as [|[-> ?]]; auto|]. intros schedule.
  assert (threads thread_done h1 (mt_threads iters single) R) as Hms.
  { apply threads_start; [done| |by rewrite shares_complete].
    apply Forall_fmap, Forall_true. intros i. by eexists _, _. }
  pose proof (threads_interleave thread_done schedule h1 _ R (contents h0) Hms Hd Hh1) as Hi.
  destruct (interleave schedule h1 _) as [h2 ms]. destruct Hi as (Hlen & _ & T & Hms2 & Hd2 & Hh2). split_and!.
  - intros t m Ht. destruct (threads_lookup _ _ _ _ _ _ Hms2 Ht) as (R' & e' & Hw & _). by eapply wp_progress.
  - by apply (threads_finish thread_done h2 ms T (contents h0)).
  - intros ws ->. destruct (done_all h2 ws T Hms2) as [-> HF]. rewrite map_empty_union in Hh2.
    destruct (contents_kept h0 h2 Hok Hh2). split_and!; [by rewrite length_fmap in Hlen|done|done|done|].
    intros Hx. apply mt_collect_clean. eapply Forall_impl; [exact HF|]. intros w [|[? _]]; done.
Qed.

Lemma run_bind {A B} (m : prog A) (f : A → prog B) h :
  run (m ≫= f) h = '(a, h) ← run m h; run (f a) h.
Proof.
  revert h. induction m as [a| |a k IH|a v k IH|n k IH|n k IH|al n k IH|p n k IH|p k IH]; intros h; cbn.
  - done.
  - done.
  - apply IH.
  - apply IH.
  - destruct (malloc n h). apply IH.
  - destruct (calloc n h). apply IH.
  - destruct (memalign al n h). apply IH.
  - destruct (realloc p n h). apply IH.
  - apply IH.
Qed.

Lemma run_first_wrong f n p i h k0 :
  i ≤ k0 < i + Z.of_nat n → load h (p + k0) ≠ f k0 →
  ∃ k, run (first_wrong f n p i) h = Some (Some k, h) ∧ i ≤ k ≤ k0 ∧ load h (p + k) ≠ f k ∧
    ∀ j, i ≤ j < k → load h (p + j) = f j.
Proof.
  revert i. induction n as [|n IH]; intros i Hk Hbad; [lia|]. cbn [first_wrong run].
  destruct (Z.eqb_spec (load h (p + i)) (f i)) as [E|E].
  - destruct (decide (k0 = i)) as [->|]; [done|]. destruct (IH (i + 1)) as (k & Hr & ? & ? & Hj); [lia|done|].
    exists k. split_and!; [done|lia|lia|done|]. intros j Hji. destruct (decide (j = i)) as [->|]; [done|]. apply Hj. lia.
  - exists i. split_and!; [done|lia|lia|done|lia].
Qed.

(** A corrupted block is always reported: releasing a block with any byte off its pattern counts
    an error and records the first byte that is wrong, and the worker's churn stops there. *)
Theorem mt_release_detects i b h w k0 :
  b_p b ≠ 0 → w_errors w = 0 → 0 ≤ k0 < b_size b → load h (b_p b + k0) ≠ mt_byte (b_seed b) k0 →
  ∃ w', run (mt_release i b w) h = Some (w', free (b_p b) h) ∧ w_errors w' = 1 ∧
  (∃ k, w_err w' = Some (Changed_before_free, k) ∧ 0 ≤ k ≤ k0 ∧
    load h (b_p b + k) ≠ mt_byte (b_seed b) k ∧
    ∀ j, 0 ≤ j < k → load h (b_p b + j) = mt_byte (b_seed b) j) ∧
  ∀ iters, mt_churn iters w' = Ret w'.
Proof.
  intros Hp He Hk0 Hwrong. unfold mt_release, mt_check. rewrite (proj2 (Z.eqb_neq _ _)) by done.
  destruct (run_first_wrong (mt_byte (b_seed b)) (Z.to_nat (b_size b)) (b_p b) 0 h k0) as (k & Hr & Hk & Hbad & Hj); [lia|done|].
  rewrite !run_bind, Hr. cbn [mbind option_bind run]. eexists. split; [done|]. unfold mt_error. rewrite He.
  split; [done|]. split; [by exists k|]. by intros [|iters].
Qed.
End test.

(** ** Patterns and random numbers *)

(** Do the patterns of two seeds agree on the [n] bytes from [i] on? *)
Fixpoint agree (s1 s2 : Z) (n : nat) (i : Z) : bool :=
  match n with O => true | S n => (mt_byte s1 i =? mt_byte s2 i) && agree s1 s2 n (i + 1) end.

Lemma agree_spec s1 s2 n i : agree s1 s2 n i = true → ∀ k, i ≤ k < i + Z.of_nat n → mt_byte s1 k = mt_byte s2 k.
Proof.
  revert i. induction n as [|n IH]; intros i; cbn [agree]; [lia|].
  intros [E%Z.eqb_eq Hn]%andb_true_iff k Hk. destruct (decide (k = i)) as [->|]; [done|].
  apply (IH (i + 1)); [done|lia].
Qed.

(** Blocks with different seeds need not disagree within their first bytes: two seeds that
    differ by one have the same pattern throughout any small or medium block (up to 8 KiB), so
    that one block handed to two owners with such seeds goes unnoticed. *)
Theorem mt_patterns_can_agree : ∃ s1 s2, s1 ≠ s2 ∧ 0 ≤ s1 < 2 ^ 32 ∧ 0 ≤ s2 < 2 ^ 32 ∧
  ∀ i, 0 ≤ i < MT_MEDIUM_MAX → mt_byte s1 i = mt_byte s2 i.
Proof.
  exists 16777214, 16777215. split_and!; try lia. intros i Hi.
  apply (agree_spec _ _ (Z.to_nat MT_MEDIUM_MAX) 0); [vm_compute; reflexivity|]. unfold MT_MEDIUM_MAX in *. lia.
Qed.

(** A step [x ^= x << k] or [x ^= x >> k] loses no information. *)
Lemma xorshift_left x k : 0 < k → 0 ≤ x < 2 ^ 32 → Z.lxor x (u32 (Z.shiftl x k)) = 0 → x = 0.
Proof.
  intros Hk Hx E. apply Z.lxor_eq in E. apply Z.bits_inj_0. intros i.
  destruct (decide (0 ≤ i)) as [Hi|]; [|apply Z.testbit_neg_r; lia].
  revert Hi. revert i. refine (Zlt_0_ind _ _). intros i IH Hi. rewrite E. unfold u32, uwrap.
  destruct (decide (i < 32)).
  - rewrite Z.mod_pow2_bits_low, Z.shiftl_spec by lia. destruct (decide (0 ≤ i - k)).
    + apply IH. lia.
    + apply Z.testbit_neg_r. lia.
  - apply Z.mod_pow2_bits_high. lia.
Qed.

Lemma xorshift_right x k : 0 < k → 0 ≤ x < 2 ^ 32 → Z.lxor x (Z.shiftr x k) = 0 → x = 0.
Proof.
  intros Hk Hx E. apply Z.lxor_eq in E.
  rewrite Z.shiftr_div_pow2 in E by lia. destruct (decide (x = 0)) as [|Hne]; [done|].
  assert (x / 2 ^ k < x) by (apply Z.div_lt; [lia|]; apply Z.pow_gt_1; lia). lia.
Qed.

Lemma lxor_32 a b : 0 ≤ a < 2 ^ 32 → 0 ≤ b < 2 ^ 32 → 0 ≤ Z.lxor a b < 2 ^ 32.
Proof.
  intros Ha Hb. split; [apply Z.lxor_nonneg; lia|].
  destruct (decide (Z.lxor a b = 0)) as [->|Hne]; [lia|].
  assert (0 < Z.lxor a b) by (assert (0 ≤ Z.lxor a b) by (apply Z.lxor_nonneg; lia); lia).
  apply Z.log2_lt_pow2; [done|]. pose proof (Z.log2_lxor a b ltac:(lia) ltac:(lia)).
  assert (Hlog : ∀ c, 0 ≤ c < 2 ^ 32 → Z.log2 c < 32).
  { intros c Hc. destruct (decide (c = 0)) as [->|]; [done|]. apply Z.log2_lt_pow2; lia. }
  pose proof (Hlog a Ha). pose proof (Hlog b Hb). lia.
Qed.

(** The generator never gets stuck: from a seed that is not 0 no state of it is 0, so that the
    workers' sequences never degenerate, and every size it draws is between 1 and 131071. *)
Theorem mt_rand_never_zero s :
  0 < s < 2 ^ 32 → 0 < mt_rand s < 2 ^ 32 ∧ 1 ≤ mt_size (mt_rand s) < MT_LARGE_MIN + MT_LARGE_SPAN.
Proof.
  intros Hs. assert (Hr : 0 < mt_rand s < 2 ^ 32).
  { unfold mt_rand. set (x1 := Z.lxor s _). set (x2 := Z.lxor x1 _). set (x3 := Z.lxor x2 _).
    assert (H1 : 0 ≤ x1 < 2 ^ 32) by (apply lxor_32; [lia|apply (uwrap_range 32); lia]).
    assert (H2 : 0 ≤ x2 < 2 ^ 32).
    { apply lxor_32; [done|]. rewrite Z.shiftr_div_pow2 by lia. split; [apply Z.div_pos; lia|].
      apply Z.div_lt_upper_bound; lia. }
    assert (H3 : 0 ≤ x3 < 2 ^ 32) by (apply lxor_32; [done|apply (uwrap_range 32); lia]).
    assert (x3 ≠ 0); [|lia]. intros E3. apply (xorshift_left x2 5) in E3; [|lia|done].
    apply (xorshift_right x1 17) in E3; [|lia|done]. apply (xorshift_left s 13) in E3; lia. }
  split; [done|]. split; [apply mt_size_pos|].
  unfold mt_size, MT_LARGE_MIN, MT_SMALL_MAX, MT_MEDIUM_MAX, MT_LARGE_SPAN.
  repeat case_match; match goal with |- context [?a mod ?b] => pose proof (Z.mod_pos_bound a b) end; lia.
Qed.

(** ** A correct allocator

    Blocks are carved off the end of memory and never reused, until the limit
    is reached. *)

Record bump := mkBump { b_next : Z; b_limit : Z; b_failed : bool; b_blocks : gmap Z Z; b_mem : gmap Z Z }.

Definition bump_load (h : bump) (a : Z) : Z := default 0 (b_mem h !! a).
Definition bump_store (h : bump) (a v : Z) : bump :=
  mkBump (b_next h) (b_limit h) (b_failed h) (b_blocks h) (<[a := v]> (b_mem h)).
Definition bump_memalign (a n : Z) (h : bump) : Z * bump :=
  let p := a * (b_next h / a + 1) in
  if b_limit h <? p + n then (0, mkBump (b_next h) (b_limit h) true (b_blocks h) (b_mem h))
  else (p, mkBump (p + n) (b_limit h) (b_failed h) (<[p := n]> (b_blocks h)) (b_mem h)).
Fixpoint bump_copy (n : nat) (src dst : Z) (h : bump) : bump :=
  match n with
  | O => h
  | S n => bump_copy n (src + 1) (dst + 1) (bump_store h dst (bump_load h src))
  end.
Definition bump_free (p : Z) (h : bump) : bump :=
  mkBump (b_next h) (b_limit h) (b_failed h) (delete p (b_blocks h)) (b_mem h).
Fixpoint bump_zero (n : nat) (p : Z) (h : bump) : bump :=
  match n with O => h | S n => bump_zero n (p + 1) (bump_store h p 0) end.
Definition bump_calloc (n : Z) (h : bump) : Z * bump :=
  let '(p, h) := bump_memalign 16 n h in
  if p =? 0 then (0, h) else (p, bump_zero (Z.to_nat n) p h).
Definition bump_realloc (p n : Z) (h : bump) : Z * bump :=
  let m := default 0 (b_blocks h !! p) in
  let '(q, h1) := bump_memalign 16 n h in
  if q =? 0 then (0, h1) else (q, bump_free p (bump_copy (Z.to_nat (Z.min m n)) p q h1)).

#[local] Instance bump_heap : Heap := {|
  heap := bump; load := bump_load; store := bump_store;
  malloc := bump_memalign 16; calloc := bump_calloc; memalign := bump_memalign;
  realloc := bump_realloc; free := bump_free |}.

Definition bump_ok (h : bump) : Prop :=
  0 ≤ b_next h ∧ (∀ p n, b_blocks h !! p = Some n → 0 < p ∧ 0 ≤ n ∧ p + n ≤ b_next h) ∧
  (∀ p n q m, b_blocks h !! p = Some n → b_blocks h !! q = Some m → p ≠ q → p + n ≤ q ∨ q + m ≤ p).

Lemma bump_load_store h a v b : bump_load (bump_store h a v) b = if decide (a = b) then v else bump_load h b.
Proof.
  unfold bump_load, bump_store. simpl. case_decide as E; [subst; by rewrite lookup_insert_eq|].
  by rewrite lookup_insert_ne.
Qed.

(** The parts of the state other than memory. *)
Definition bump_rest (h : bump) : Z * Z * bool * gmap Z Z := (b_next h, b_limit h, b_failed h, b_blocks h).

Lemma bump_zero_spec n p h :
  bump_rest (bump_zero n p h) = bump_rest h ∧
  ∀ a, bump_load (bump_zero n p h) a = if decide (p ≤ a < p + Z.of_nat n) then 0 else bump_load h a.
Proof.
  revert p h. induction n as [|n IH]; intros p h; cbn [bump_zero].
  { split; [done|]. intros a. by rewrite decide_False by lia. }
  destruct (IH (p + 1) (bump_store h p 0)) as (-> & Hl). split; [done|].
  intros a. rewrite Hl, bump_load_store. repeat case_decide; lia || done.
Qed.

Lemma bump_copy_spec n src dst h : src + Z.of_nat n ≤ dst →
  bump_rest (bump_copy n src dst h) = bump_rest h ∧
  ∀ a, bump_load (bump_copy n src dst h) a =
    if decide (dst ≤ a < dst + Z.of_nat n) then bump_load h (a - dst + src) else bump_load h a.
Proof.
  revert src dst h. induction n as [|n IH]; intros src dst h Hs; cbn [bump_copy].
  { split; [done|]. intros a. by rewrite decide_False by lia. }
  destruct (IH (src + 1) (dst + 1) (bump_store h dst (bump_load h src)) ltac:(lia)) as (-> & Hl).
  split; [done|]. intros a. rewrite Hl, !bump_load_store.
  replace (a - (dst + 1) + (src + 1)) with (a - dst + src) by lia.
  repeat case_decide; try lia; try done; try (f_equal; lia).
Qed.

(** Nothing, or a new block behind the end of memory. *)
Lemma bump_memalign_ok k n h : bump_ok h → 0 ≤ n → 0 ≤ k → let '(p, h') := bump_memalign (2 ^ k) n h in
  bump_ok h' ∧ (b_failed h = true → b_failed h' = true) ∧ b_mem h' = b_mem h ∧
  if decide (p = 0) then b_blocks h' = b_blocks h ∧ b_failed h' = true
  else b_next h < p ∧ b_blocks h !! p = None ∧ b_blocks h' = <[p := n]> (b_blocks h) ∧ Z.land p (2 ^ k - 1) = 0.
Proof.
  intros (Hn & Hb & Hd) Hsz Hk. unfold bump_memalign. set (a := 2 ^ k).
  assert (Ha : 0 < a) by (apply Z.pow_pos_nonneg; lia). set (p := a * (b_next h / a + 1)).
  destruct (Z.ltb_spec (b_limit h) (p + n)); [by rewrite decide_True|].
  assert (Hp : b_next h < p).
  { subst p. pose proof (Z.div_mod (b_next h) a ltac:(lia)). pose proof (Z.mod_pos_bound (b_next h) a Ha). lia. }
  assert (Hnew : b_blocks h !! p = None).
  { destruct (b_blocks h !! p) eqn:E; [|done]. apply Hb in E as (? & ? & ?). lia. }
  rewrite decide_False by lia. split_and!; try done; [split_and!|].
  - simpl. lia.
  - intros q m. simpl. rewrite lookup_insert_Some. intros [[<- <-]|[_ Hq]]; [lia|]. apply Hb in Hq. lia.
  - intros q m r l. simpl. rewrite !lookup_insert_Some.
    intros [[<- <-]|[Hne Hq]] [[<- <-]|[Hne' Hr]] Hqr; [done| | |by apply (Hd q m r l)].
    + apply Hb in Hr. lia.
    + apply Hb in Hq. lia.
  - replace (a - 1) with (Z.ones k) by (rewrite Z.ones_equiv; subst a; lia).
    rewrite Z.land_ones by done. subst p a. rewrite Z.mul_comm. apply Z_mod_mult.
Qed.

Lemma bump_rest_ok h h' : bump_rest h' = bump_rest h → bump_ok h → bump_ok h'.
Proof. unfold bump_rest, bump_ok. by intros [= -> _ _ ->]. Qed.

Lemma bump_free_ok h p : bump_ok h → bump_ok (bump_free p h).
Proof.
  intros (Hn & Hb & Hd). split; [done|]. cbn [bump_free b_blocks b_next]. split.
  - intros q m [_ Hq]%lookup_delete_Some. by apply Hb.
  - intros q m r l [_ Hq]%lookup_delete_Some [_ Hr]%lookup_delete_Some. by apply Hd.
Qed.

#[local] Instance bump_laws : HeapLaws.
Proof.
  refine (@Build_HeapLaws bump_heap bump_ok b_blocks (λ h : bump, b_failed h = true) _ _ _ _ _ _ _ _).
  - intros h p n (_ & Hb & _) Hp. by apply Hb in Hp as (_ & ? & _).
  - intros h p n q m (_ & _ & Hd). apply Hd.
  - intros h p n i v Hok _ _ _. split_and!; [exact Hok|done|done|]. intros q m j _ _.
    change (bump_load (bump_store h (p + i) v) (q + j) = if decide (q + j = p + i) then v else bump_load h (q + j)).
    rewrite bump_load_store. repeat case_decide; done || lia.
  - intros h n Hok Hn. pose proof (bump_memalign_ok 4 n h Hok Hn ltac:(lia)) as Hm.
    change (malloc n h) with (bump_memalign (2 ^ 4) n h). destruct (bump_memalign (2 ^ 4) n h) as [p h'].
    destruct Hm as (? & ? & Em & Hm). split_and!; [done|done|by intros q m i _ _; cbn; unfold bump_load; rewrite Em|].
    destruct (decide (p = 0)); [done|]. by destruct Hm as (_ & ? & ? & _).
  - intros h n Hok Hn. pose proof (bump_memalign_ok 4 n h Hok Hn ltac:(lia)) as Hm.
    change (calloc n h) with (bump_calloc n h). unfold bump_calloc. change 16 with (2 ^ 4).
    destruct (bump_memalign (2 ^ 4) n h) as [p h1]. destruct Hm as (Hok1 & Hx & Em & Hm).
    destruct (Z.eqb_spec p 0) as [->|Hp].
    { rewrite decide_True in * by done. split_and!; [done|done|by intros q m i _ _; cbn; unfold bump_load; rewrite Em|apply Hm..]. }
    rewrite decide_False in * by done. destruct Hm as (Hlt & Hnew & Eb & _).
    destruct (bump_zero_spec (Z.to_nat n) p h1) as [Er Hl]. pose proof Er as [= En _ Ef Ebl].
    split_and!; [by apply (bump_rest_ok h1)|by rewrite Ef| |done|by rewrite Ebl|].
    + intros q m i Hq Hi. cbn. rewrite Hl, decide_False; [unfold bump_load; by rewrite Em|].
      destruct Hok as (_ & Hb0 & _). apply Hb0 in Hq. lia.
    + intros i Hi. cbn. rewrite Hl. by rewrite decide_True by lia.
  - intros h k n Hok Hn Hk. pose proof (bump_memalign_ok k n h Hok Hn Hk) as Hm.
    change (memalign (2 ^ k) n h) with (bump_memalign (2 ^ k) n h). destruct (bump_memalign (2 ^ k) n h) as [p h'].
    destruct Hm as (? & ? & Em & Hm). split_and!; [done|done|by intros q m i _ _; cbn; unfold bump_load; rewrite Em|].
    destruct (decide (p = 0)); [done|]. by destruct Hm as (_ & ? & ? & ?).
  - intros h p m n Hok Hn Hpm. pose proof (bump_memalign_ok 4 n h Hok ltac:(lia) ltac:(lia)) as Hm.
    change (realloc p n h) with (bump_realloc p n h). unfold bump_realloc. rewrite Hpm. cbn [default id].
    change 16 with (2 ^ 4). destruct (bump_memalign (2 ^ 4) n h) as [q h1]. destruct Hm as (Hok1 & Hx & Em & Hm).
    assert (∀ bs, keeps bs h h1) as Hk1 by (by intros bs x y i _ _; cbn; unfold bump_load; rewrite Em).
    destruct (Z.eqb_spec q 0) as [->|Hq].
    { rewrite decide_True in * by done. destruct Hm. split_and!; auto. }
    rewrite decide_False in * by done. destruct Hm as (Hlt & Hnew & Eb & _).
    destruct Hok as (_ & Hb0 & _). pose proof (Hb0 p m Hpm) as Hpm'.
    destruct (bump_copy_spec (Z.to_nat (Z.min m n)) p q h1) as [Er Hl]; [lia|]. pose proof Er as [= _ _ Ef Ebl].
    assert (Hqp : q ≠ p) by congruence.
    split_and!; [by apply bump_free_ok, (bump_rest_ok h1)|by cbn; rewrite Ef| |by rewrite lookup_delete_ne| |].
    + intros x y i [Hxp Hx']%lookup_delete_Some Hi. cbn.
      change (bump_load (bump_copy (Z.to_nat (Z.min m n)) p q h1) (x + i) = bump_load h (x + i)).
      rewrite Hl, decide_False; [unfold bump_load; by rewrite Em|]. apply Hb0 in Hx'. lia.
    + cbn. rewrite Ebl, Eb. by rewrite delete_insert_ne.
    + intros i Hi Hin.
      change (bump_load (bump_copy (Z.to_nat (Z.min m n)) p q h1) (q + i) = bump_load h (p + i)).
      rewrite Hl, decide_True by lia. replace (q + i - q + p) with (p + i) by lia.
      unfold bump_load. by rewrite Em.
  - intros h p m Hok _. split_and!; [by apply bump_free_ok|done|done|by intros x y i _ _].
Defined.

Definition empty_bump (limit : Z) : bump := mkBump 0 limit false ∅ ∅.
Lemma empty_bump_ok limit : bump_ok (empty_bump limit).
Proof. split_and!; cbn; [lia| |]; intros; by rewrite lookup_empty in *. Qed.

(** With a megabyte everything fits in three rounds; with a kilobyte the
    first phase already runs out. *)
Lemma mt_workers_no_false_alarm_witness :
  (∃ single h1, @run bump_heap _ (mt_churn 3 mt_single) (empty_bump 1000000) = Some (single, h1) ∧ clean single ∧
     ∀ schedule ws, (@interleave bump_heap _ schedule h1 (mt_threads 2 single)).2 = Ret <$> ws → length ws = MT_THREADS) ∧
  (∃ single h1, @run bump_heap _ (mt_churn 30 mt_single) (empty_bump 1000) = Some (single, h1) ∧ out_of_memory single).
Proof.
  split.
  - destruct (@mt_workers_no_false_alarm bump_heap bump_laws 3 2 (empty_bump 1000000) (empty_bump_ok _))
      as (single & h1 & Hrun & Hst & Hall).
    exists single, h1. split; [exact Hrun|]. split.
    + destruct Hst as [?|[Hx _]]; [done|]. exfalso. apply (f_equal (fmap (λ r, b_failed r.2))) in Hrun.
      change (Some false = Some (b_failed h1)) in Hrun. change (b_failed h1 = true) in Hx. congruence.
    + intros schedule ws E. specialize (Hall schedule). destruct (interleave _ _ _) as [h2 ms]. cbn in E. subst ms.
      destruct Hall as (_ & _ & Hall). apply (Hall ws eq_refl).
  - destruct (@mt_workers_no_false_alarm bump_heap bump_laws 30 2 (empty_bump 1000) (empty_bump_ok _))
      as (single & h1 & Hrun & Hst & _).
    exists single, h1. split; [exact Hrun|]. destruct Hst as [[He _]|[_ ?]]; [|done].
    exfalso. apply (f_equal (fmap (λ r, w_errors r.1))) in Hrun.
    change (Some 1 = Some (w_errors single)) in Hrun. congruence.
Defined.

Lemma mt_release_detects_witness :
  ∃ w' h', @run bump_heap _ (mt_release 0 (mkBlock 16 4 7) (mt_worker_init 0 1)) (mkBump 32 100 false ∅ {[18 := 200]}) = Some (w', h') ∧
    w_errors w' = 1.
Proof.
  destruct (@mt_release_detects bump_heap 0 (mkBlock 16 4 7) (mkBump 32 100 false ∅ {[18 := 200]}) (mt_worker_init 0 1) 2) as (w' & Hr & He & _).
  - discriminate.
  - reflexivity.
  - simpl; lia.
  - vm_compute. discriminate.
  - exact (ex_intro _ w' (ex_intro _ _ (conj Hr He))).
Defined.

Lemma mt_rand_never_zero_witness : 0 < mt_rand 625341585 < 2 ^ 32.
Proof. refine (proj1 (mt_rand_never_zero 625341585 _)). lia. Defined.
