(* ===== verification/MicroPython.v ===== *)
(** * The MicroPython test launcher, micropython/test_micropython.c

    Finds the directory and the options of a test script and runs it. The
    file system, the allocator and system() are parameters; what happens is a
    sequence of calls and messages. [None] is undefined behaviour. *)

From S2P Require Import Prelude CMachine.

Definition MICROPYTHON_BIN : list Z := str "/bin/micropython ".
Definition PATH_TO_TESTS : list Z := str "/usr/test/micropython/".
Definition CMDLINE_PREFIX : list Z := str "# cmdline: ".
Definition DIR_WITH_OPT_TESTS : list Z := str "cmdline".

(** [strncmp(s, p, strlen(p)) == 0] *)
Fixpoint starts_with (p s : list Z) : bool :=
  match p, s with
  | [], _ => true
  | a :: p, b :: s => (a =? b) && starts_with p s
  | _, [] => false
  end.

(** [strrchr(s, '/')] as the parts before and after the last slash. *)
Fixpoint split_last_slash (s : list Z) : option (list Z * list Z) :=
  match s with
  | [] => None
  | c :: s =>
      match split_last_slash s with
      | Some (d, f) => Some (c :: d, f)
      | None => if c =? 47 then Some ([], s) else None
      end
  end.

(** The line getline() reads: up to and including the first newline. *)
Fixpoint getline (s : list Z) : list Z :=
  match s with
  | [] => []
  | c :: s => if c =? 10 then [c] else c :: getline s
  end.

(** The string in a buffer: what is before its first null byte. *)
Fixpoint c_string (s : list Z) : list Z :=
  match s with
  | [] => []
  | c :: s => if c =? 0 then [] else c :: c_string s
  end.

(** What [strncpy(dst, s, n)] leaves in the [n] bytes of [dst]. *)
Definition strncpy (s : list Z) (n : nat) : list Z :=
  let t := take n (c_string s) in t ++ replicate (n - length t) 0.

(** [newLine = strchr(options, '\n'); if (newLine != NULL) *newLine = ' ']; the
    search ends at a null byte. *)
Fixpoint blank_newline (s : list Z) : list Z :=
  match s with
  | [] => []
  | c :: s => if c =? 0 then c :: s else if c =? 10 then 32 :: s else c :: blank_newline s
  end.

Inductive message :=
  | M_usage | M_alloc | M_no_test | M_open | M_options_alloc | M_failed | M_system.
Inductive call := Chdir (dir : list Z) | Err (m : message) | Running (path : list Z) | System (cmd : list Z).

Class Env := {
  chdir_ok : list Z → bool;
  access_ok : list Z → bool;
  (** the contents of a file, relative to the directory changed to *)
  file : list Z → option (list Z);
  (** does the k-th allocation site of the program succeed? (0 and 1: the two
      strdup or malloc calls of main, 2: the options, 3 and 4: upyth_concat) *)
  alloc_ok : nat → bool;
  system_result : list Z → Z;
}.

Section launcher.
Context `{Env}.

(** [realloc] to the length of both strings and [strcat]; NULL when the
    allocation fails. *)
Definition upyth_concat (site : nat) (str1 str2 : list Z) : option (list Z) :=
  if alloc_ok site then Some (str1 ++ str2) else None.

(** EXIT_SUCCESS with the options, if any, or EXIT_FAILURE with its message.
    An empty file makes getline() return -1: [lineLen] is unsigned, so the
    test for a negative length does not see it, and the buffer read next holds
    no string. *)
Definition upyth_optionsGet (path : list Z) : option (message + option (list Z)) :=
  if negb (starts_with DIR_WITH_OPT_TESTS path) then Some (inr None)
  else match file path with
       | None => Some (inl M_open)
       | Some [] => None
       | Some contents =>
           let line := getline contents in
           if negb (starts_with CMDLINE_PREFIX line) then Some (inr None)
           else
             let optionsLen := (length line - length CMDLINE_PREFIX)%nat in
             if negb (alloc_ok 2) then Some (inl M_options_alloc)
             else
               let options := blank_newline (strncpy (drop (length CMDLINE_PREFIX) line) optionsLen) in
               match optionsLen with
               | O => None
               | S last => Some (inr (Some (c_string (<[last := 32]> options))))
               end
       end.

(** The directory to change to, below the test directory, and the script. *)
Definition place (arg : list Z) : list Z * list Z :=
  match split_last_slash arg with
  | Some (d, f) => if starts_with DIR_WITH_OPT_TESTS arg then ([], arg) else (d, f)
  | None => ([], arg)
  end.

(** The calls and messages of main, and its exit code. *)
Definition upyth_main (args : list (list Z)) : option (list call * Z) :=
  match args with
  | [arg] =>
      let '(dir, testfile) := place arg in
      if negb (alloc_ok 0) then Some ([Err M_alloc], 1)
      else
        let cd := Chdir (PATH_TO_TESTS ++ dir) in
        if negb (chdir_ok (PATH_TO_TESTS ++ dir)) || negb (access_ok testfile) then Some ([cd; Err M_no_test], 1)
        else
          let pre := [cd; Running (PATH_TO_TESTS ++ arg)] in
          if negb (alloc_ok 1) then Some (pre ++ [Err M_alloc], 1)
          else
            o ← upyth_optionsGet testfile;
            match o with
            | inl m => Some (pre ++ [Err m], 1)
            | inr options =>
                match (cmd ← match options with
                             | Some o => upyth_concat 3 MICROPYTHON_BIN o
                             | None => Some MICROPYTHON_BIN
                             end;
                       upyth_concat 4 cmd testfile) with
                | None => Some (pre ++ [Err M_alloc], 1)
                | Some cmd =>
                  let res := system_result cmd in
                  Some (if res =? 1 then (pre ++ [System cmd; Err M_failed], 1)
                        else if negb (res =? 0) then (pre ++ [System cmd; Err M_system], 1)
                        else (pre ++ [System cmd], 0))
                end
            end
  | _ => Some ([Err M_usage], 1)
  end.
End launcher.

(** ** Properties *)

Lemma starts_with_app p s : starts_with p (p ++ s) = true.
Proof. induction p as [|c p IH]; [done|]. cbn [app starts_with]. by rewrite Z.eqb_refl. Qed.

Lemma split_last_slash_none f : 47 ∉ f → split_last_slash f = None.
Proof.
  induction f as [|c f IH]; [done|]. intros [Hc Hf]%not_elem_of_cons. cbn [split_last_slash].
  rewrite IH by done. by rewrite (proj2 (Z.eqb_neq _ _)) by done.
Qed.

Lemma split_last_slash_app d f : 47 ∉ f → split_last_slash (d ++ 47 :: f) = Some (d, f).
Proof.
  intros Hf. induction d as [|c d IH]; cbn [app split_last_slash]; [by rewrite split_last_slash_none|].
  by rewrite IH.
Qed.

Lemma getline_line l rest : 10 ∉ l → getline (l ++ 10 :: rest) = l ++ [10].
Proof.
  induction l as [|c l IH]; [done|]. intros [Hc Hl]%not_elem_of_cons. cbn [app getline].
  rewrite (proj2 (Z.eqb_neq c 10)) by done. by rewrite IH.
Qed.

Lemma getline_last l : 10 ∉ l → getline l = l.
Proof.
  induction l as [|c l IH]; [done|]. intros [Hc Hl]%not_elem_of_cons. cbn [getline].
  rewrite (proj2 (Z.eqb_neq c 10)) by done. by rewrite IH.
Qed.

Lemma c_string_none l : 0 ∉ l → c_string l = l.
Proof.
  induction l as [|c l IH]; [done|]. intros [Hc Hl]%not_elem_of_cons. cbn [c_string].
  rewrite (proj2 (Z.eqb_neq c 0)) by done. by rewrite IH.
Qed.

Lemma strncpy_all l : 0 ∉ l → strncpy l (length l) = l.
Proof. intros Hl. unfold strncpy. by rewrite c_string_none, firstn_all, Nat.sub_diag, app_nil_r. Qed.

Lemma blank_newline_app l rest : 0 ∉ l → 10 ∉ l → blank_newline (l ++ 10 :: rest) = l ++ 32 :: rest.
Proof.
  induction l as [|c l IH]; [done|]. intros [H0 Hl0]%not_elem_of_cons [Hc Hl]%not_elem_of_cons. cbn [app blank_newline].
  rewrite (proj2 (Z.eqb_neq c 0)), (proj2 (Z.eqb_neq c 10)) by done. by rewrite IH.
Qed.

Lemma blank_newline_none l : 10 ∉ l → blank_newline l = l.
Proof.
  induction l as [|c l IH]; [done|]. intros [Hc Hl]%not_elem_of_cons. cbn [blank_newline].
  rewrite (proj2 (Z.eqb_neq c 10)) by done. destruct (c =? 0); [done|]. by rewrite IH.
Qed.

Section launching.
Context `{Env}.

(** The options of a first line, [last] the character the code overwrites: its
    newline, or the last one of a file without a newline. *)
Lemma upyth_options_line path opts last rest :
  starts_with DIR_WITH_OPT_TESTS path = true → alloc_ok 2 = true → 10 ∉ opts → 0 ∉ opts → last ≠ 0 →
  last = 10 ∨ rest = [] → file path = Some (CMDLINE_PREFIX ++ opts ++ last :: rest) →
  upyth_optionsGet path = Some (inr (Some (opts ++ [32]))).
Proof.
  intros Hp Ha Hopts H0 Hl0 Hlast Hf. unfold upyth_optionsGet. rewrite Hp, Hf, Ha. cbn [negb].
  assert (10 ∉ CMDLINE_PREFIX ++ opts) as Hno by (rewrite not_elem_of_app; split; [by apply (bool_decide_unpack _)|done]).
  assert (getline (CMDLINE_PREFIX ++ opts ++ last :: rest) = CMDLINE_PREFIX ++ opts ++ [last]) as Hline.
  { rewrite !(app_assoc CMDLINE_PREFIX). destruct (decide (last = 10)) as [->|Hne]; [by apply getline_line|].
    destruct Hlast as [?| ->]; [done|]. apply getline_last. rewrite not_elem_of_app, not_elem_of_cons.
    split_and!; [done|congruence|apply not_elem_of_nil]. }
  rewrite Hline, starts_with_app, drop_app_length. cbn [negb].
  destruct (CMDLINE_PREFIX ++ opts ++ last :: rest) eqn:E; [by apply app_nil in E as [? [? ?]%app_nil]|].
  assert (Hn : (length (CMDLINE_PREFIX ++ opts ++ [last]) - length CMDLINE_PREFIX)%nat = length (opts ++ [last])).
  { rewrite !length_app. lia. }
  rewrite Hn, strncpy_all by (rewrite not_elem_of_app, not_elem_of_cons; split_and!; [done|congruence|apply not_elem_of_nil]).
  assert (∃ c, blank_newline (opts ++ [last]) = opts ++ [c]) as [c ->].
  { destruct (decide (last = 10)) as [->|Hne]; [exists 32; by apply blank_newline_app|exists last]. apply blank_newline_none.
    rewrite not_elem_of_app, not_elem_of_cons. split_and!; [done|congruence|apply not_elem_of_nil]. }
  rewrite length_app, Nat.add_comm. cbn [length Nat.add]. rewrite insert_app_r_alt, Nat.sub_diag by lia. cbn [insert list_insert].
  rewrite c_string_none; [done|]. rewrite not_elem_of_app, not_elem_of_cons. split_and!; [done|done|apply not_elem_of_nil].
Qed.

(** Once the script is in reach, the launcher runs the command line it built
    and passes its verdict on. *)
Lemma upyth_main_runs arg dir testfile options cmd :
  place arg = (dir, testfile) →
  (∀ k, alloc_ok k = true) → chdir_ok (PATH_TO_TESTS ++ dir) = true → access_ok testfile = true →
  upyth_optionsGet testfile = Some (inr options) → cmd = MICROPYTHON_BIN ++ default [] options ++ testfile →
  ∃ rest code, upyth_main [arg] =
    Some ([Chdir (PATH_TO_TESTS ++ dir); Running (PATH_TO_TESTS ++ arg); System cmd] ++ rest, code) ∧
    (code = 0 ↔ system_result cmd = 0) ∧ (code = 0 ∨ code = 1).
Proof.
  intros Hsplit Ha Hc Hacc Ho ->. unfold upyth_main, upyth_concat. rewrite Hsplit, !Ha, Hc, Hacc, Ho.
  cbn [negb orb mbind option_bind].
  assert (Hcmd : (cmd ← match options with Some o => Some (MICROPYTHON_BIN ++ o) | None => Some MICROPYTHON_BIN end;
      Some (cmd ++ testfile)) = Some (MICROPYTHON_BIN ++ default [] options ++ testfile)).
  { destruct options; cbn [mbind option_bind default]; [by rewrite <- app_assoc|done]. }
  rewrite Hcmd. destruct (Z.eqb_spec (system_result (MICROPYTHON_BIN ++ default [] options ++ testfile)) 1) as [E|E].
  - eexists [_], 1. split_and!; [done|rewrite E; lia|lia].
  - destruct (Z.eqb_spec (system_result (MICROPYTHON_BIN ++ default [] options ++ testfile)) 0) as [E'|E'];
      cbn [negb]; [eexists [], 0|eexists [_], 1]; split_and!; solve [done|lia].
Qed.

(** What the launcher does with its argument when nothing fails: it runs
    [cmd] from [dir] and passes its verdict on. *)
Definition launches (arg dir cmd : list Z) : Prop :=
  ∃ after code,
    upyth_main [arg] = Some ([Chdir (PATH_TO_TESTS ++ dir); Running (PATH_TO_TESTS ++ arg); System cmd] ++ after, code) ∧
    (code = 0 ↔ system_result cmd = 0) ∧ (code = 0 ∨ code = 1).

(** A file whose first line is "# cmdline: " and [opts], or does not start so. *)
Definition has_options (path opts : list Z) : Prop :=
  (10 ∉ opts) ∧ (0 ∉ opts) ∧ ∃ rest, file path = Some (CMDLINE_PREFIX ++ opts ++ 10 :: rest).
Definition has_none (path : list Z) : Prop :=
  ∃ c rest, file path = Some (c :: rest) ∧ starts_with CMDLINE_PREFIX (getline (c :: rest)) = false.

Lemma has_options_get path opts :
  (∀ k, alloc_ok k = true) → starts_with DIR_WITH_OPT_TESTS path = true → has_options path opts →
  upyth_optionsGet path = Some (inr (Some (opts ++ [32]))).
Proof. intros Ha Hp (H10 & H0 & rest & Hf). by apply (upyth_options_line path opts 10 rest); [..|left|]. Qed.

Lemma has_none_get path :
  starts_with DIR_WITH_OPT_TESTS path = true → has_none path → upyth_optionsGet path = Some (inr None).
Proof. intros Hp (c & rest & Hf & Hs). unfold upyth_optionsGet. by rewrite Hp, Hf, Hs. Qed.

(** C36: Which script is run how, when the allocations succeed and the script
    is there. An argument that starts with "cmdline" is run from the test
    directory, with the options of its first line "# cmdline: options" (free
    of null bytes) and a space before its name, or with none if its first line
    is another. Any other argument directory/name is run from its own
    directory, and gets the options of its first line only if the name itself
    starts with "cmdline"; one without a slash is run from the test directory
    without options. The exit code is 0 exactly when the run's is, and 1
    otherwise. *)
Theorem upyth_runs_with_options arg :
  (∀ k, alloc_ok k = true) → (∀ d, chdir_ok d = true) → (∀ s, access_ok s = true) →
  (starts_with DIR_WITH_OPT_TESTS arg = true →
     (∀ opts, has_options arg opts → launches arg [] (MICROPYTHON_BIN ++ opts ++ [32] ++ arg)) ∧
     (has_none arg → launches arg [] (MICROPYTHON_BIN ++ arg))) ∧
  (starts_with DIR_WITH_OPT_TESTS arg = false →
     (∀ dir f, arg = dir ++ 47 :: f → 47 ∉ f →
        if starts_with DIR_WITH_OPT_TESTS f then
          (∀ opts, has_options f opts → launches arg dir (MICROPYTHON_BIN ++ opts ++ [32] ++ f)) ∧
          (has_none f → launches arg dir (MICROPYTHON_BIN ++ f))
        else launches arg dir (MICROPYTHON_BIN ++ f)) ∧
     (47 ∉ arg → launches arg [] (MICROPYTHON_BIN ++ arg))).
Proof.
  intros Ha Hc Hacc.
  assert (∀ dir f options, place arg = (dir, f) → upyth_optionsGet f = Some (inr options) →
    launches arg dir (MICROPYTHON_BIN ++ default [] options ++ f)) as Hrun.
  { intros dir f options Hp Ho. by apply (upyth_main_runs arg dir f options). }
  split; intros Hs.
  - assert (place arg = ([], arg)) as Hp by (unfold place; rewrite Hs; by destruct (split_last_slash arg) as [[? ?]|]).
    split; [intros opts Ho|intros Ho].
    + rewrite (app_assoc opts). by apply (Hrun [] arg (Some (opts ++ [32])) Hp), has_options_get.
    + by apply (Hrun [] arg None Hp), has_none_get.
  - split.
    + intros dir f -> Hf. assert (place (dir ++ 47 :: f) = (dir, f)) as Hp by (unfold place; by rewrite split_last_slash_app, Hs).
      destruct (starts_with DIR_WITH_OPT_TESTS f) eqn:Ef; [split; [intros opts Ho|intros Ho]|].
      * rewrite (app_assoc opts). by apply (Hrun dir f (Some (opts ++ [32])) Hp), has_options_get.
      * by apply (Hrun dir f None Hp), has_none_get.
      * apply (Hrun dir f None Hp). unfold upyth_optionsGet. by rewrite Ef.
    + intros Hn. apply (Hrun [] arg None); [unfold place; by rewrite split_last_slash_none|].
      unfold upyth_optionsGet. by rewrite Hs.
Qed.

(** The two corners of that first line: with nothing after the prefix, not
    even a newline, the last store is in front of the buffer; without a
    newline at the end of the file it overwrites the last character of the
    options. *)
Theorem upyth_optionsGet_corners name opts :
  alloc_ok 2 = true → 10 ∉ opts → 0 ∉ opts →
  (file (DIR_WITH_OPT_TESTS ++ name) = Some CMDLINE_PREFIX → upyth_optionsGet (DIR_WITH_OPT_TESTS ++ name) = None) ∧
  (∀ c, file (DIR_WITH_OPT_TESTS ++ name) = Some (CMDLINE_PREFIX ++ opts ++ [c]) → c ≠ 10 → c ≠ 0 →
    upyth_optionsGet (DIR_WITH_OPT_TESTS ++ name) = Some (inr (Some (opts ++ [32])))).
Proof.
  intros Ha Hopts H0. split.
  - intros Hf. unfold upyth_optionsGet. rewrite starts_with_app, Ha. cbn [negb]. rewrite Hf. by vm_compute.
  - intros c Hf Hc Hc0. apply (upyth_options_line _ opts c []); first [done|apply starts_with_app|by right].
Qed.
End launching.

(** A file system with one script of each kind. *)
Definition toy_env : Env := {|
  chdir_ok _ := true; access_ok _ := true; alloc_ok _ := true;
  file p := if bool_decide (p = str "cmdline/a.py") then Some (str "# cmdline: -v -v" ++ 10 :: str "print(1)") else Some [];
  system_result c := if bool_decide (c = str "/bin/micropython -v -v cmdline/a.py") then 0 else 1;
|}.

Lemma upyth_runs_with_options_witness :
  @launches toy_env (str "cmdline/a.py") [] (str "/bin/micropython -v -v cmdline/a.py").
Proof.
  destruct (@upyth_runs_with_options toy_env (str "cmdline/a.py")) as [Hopt _]; [done..|].
  destruct (Hopt eq_refl) as [Hrun _]. apply (Hrun (str "-v -v")).
  split_and!; [by apply (bool_decide_unpack _)..|]. exists (str "print(1)"). reflexivity.
Defined.
