(* ===== verification/DiskPrefix.v ===== *)
(** * Numbers of the disk benchmark, disk/test_disk.c

    The integer helpers of the benchmark and test_disk_prefix, which writes a
    quantity in binary (K, M, G) or SI (m, u, k) notation. An int is a [Z]
    in its range: arithmetic that leaves the range, a division by zero and a
    loop that does not end are [None]. The theorems say that a quantity is
    rendered normalised and rounded half up, without overflow. *)

From S2P Require Import Prelude CMachine UnityOutput.

(** ** Checked int arithmetic *)

Definition in_int (z : Z) : bool := (- 2 ^ 31 <=? z) && (z <? 2 ^ 31).
Definition int_of (z : Z) : option Z := if in_int z then Some z else None.

Definition int_rem (x y : Z) : option Z := if y =? 0 then None else int_of (Z.rem x y).
Definition int_quot (x y : Z) : option Z := if y =? 0 then None else int_of (Z.quot x y).
Definition int_abs (x : Z) : option Z := int_of (Z.abs x).

(** ** Helpers *)

Definition test_disk_mod (x y : Z) : option Z :=
  ret ← int_rem x y;
  if ret <? 0 then a ← int_abs y; int_of (ret + a) else Some ret.

Definition test_disk_div (x y : Z) : option Z :=
  m ← test_disk_mod x y; d ← int_of (x - m); int_quot d y.

(** [while (x /= base) ret++]: with a base of 2 or more, 32 rounds are enough
    for an unsigned int. *)
Fixpoint log_loop (fuel : nat) (base x ret : Z) : option Z :=
  match fuel with
  | O => None
  | S fuel =>
      if base =? 0 then None
      else
        let x := x / base in
        if x =? 0 then Some ret else log_loop fuel base x (ret + 1)
  end.
Definition test_disk_log (base x : Z) : option Z := log_loop 32 base x 0.

(** The squaring loop; the exponent is halved each round, so 32 rounds are
    enough for an unsigned int. *)
Fixpoint pow_loop (fuel : nat) (x y ret : Z) : option Z :=
  match fuel with
  | O => None
  | S fuel =>
      if y =? 0 then Some ret
      else
        ret ← if Z.odd y then int_of (ret * x) else Some ret;
        let y := Z.shiftr y 1 in
        if y =? 0 then Some ret
        else x ← int_of (x * x); pow_loop fuel x y ret
  end.
Definition test_disk_pow (x y : Z) : option Z := pow_loop 33 x y 1.

Definition BP_OFFS : Z := 0.
Definition BP_EXP_OFFS : Z := 10.
Definition SI_OFFS : Z := 8.
Definition SI_EXP_OFFS : Z := 3.

Definition bp : list (list Z) :=
  [[]; str "K"; str "M"; str "G"; str "T"; str "P"; str "E"; str "Z"; str "Y"].
Definition si : list (list Z) :=
  [str "y"; str "z"; str "a"; str "f"; str "p"; str "n"; str "u"; str "m"; [];
   str "k"; str "M"; str "G"; str "T"; str "P"; str "E"; str "Z"; str "Y"].

(** The inner option is the NULL of an exponent outside the table. *)
Definition test_disk_bp (exp : Z) : option (option (list Z)) :=
  d ← test_disk_div exp BP_EXP_OFFS;
  exp ← int_of (d + BP_OFFS);
  Some (if (exp <? 0) || (Z.of_nat (length bp) <=? exp) then None else bp !! Z.to_nat exp).

Definition test_disk_si (exp : Z) : option (option (list Z)) :=
  d ← test_disk_div exp SI_EXP_OFFS;
  exp ← int_of (d + SI_OFFS);
  Some (if (exp <? 0) || (Z.of_nat (length si) <=? exp) then None else si !! Z.to_nat exp).

(** ** test_disk_prefix *)

(** [while (fpart && !(fpart % 10)) { fpart /= 10; prec--; }] *)
Fixpoint strip_loop (fuel : nat) (fpart prec : Z) : option (Z * Z) :=
  match fuel with
  | O => None
  | S fuel =>
      if negb (fpart =? 0) && (fpart mod 10 =? 0) then strip_loop fuel (fpart / 10) (prec - 1)
      else Some (fpart, prec)
  end.

(** %0*d: at least [w] digits. *)
Definition zero_padded (w : Z) (n : Z) : list Z :=
  let d := decimal n in replicate (Z.to_nat w - length d) 48 ++ d.

(** The numbers of the notation: integer part, fraction, its number of digits
    and the exponent, from the scaled [x] and the divisor to the end of the
    rounding. *)
Definition prefix_round (base x div exp offs prec : Z) : option (Z * Z * Z * Z) :=
  ax ← int_abs x;
  ipart ← int_quot ax div;
  p ← test_disk_pow 10 (prec + 1);
  r ← int_rem ax div;
  fpart ← if div =? 0 then None else Some (i32 (u64 (u64 p * u64 r) / div));
  f5 ← int_of (fpart + 5);
  fpart ← int_quot f5 10;
  pp ← test_disk_pow 10 prec;
  '(ipart, fpart, exp) ←
    if fpart =? pp then
      ipart ← int_of (ipart + 1);
      b ← test_disk_pow base offs;
      if ipart =? b then exp ← int_of (exp + offs); Some (1, 0, exp) else Some (ipart, 0, exp)
    else Some (ipart, fpart, exp);
  '(fpart, prec) ← strip_loop 12 fpart prec;
  Some (ipart, fpart, prec, exp).

(** The contents of [buff] and the offset of the pointer returned; the inner
    option is NULL. *)
Definition test_disk_prefix (base x y prec : Z) : option (option (list Z * nat)) :=
  ax ← int_abs x;
  div ← test_disk_log base ax;
  exp ← int_of (div + y);
  if 8 <? prec then Some None
  else if negb ((base =? 2) || (base =? 10)) then Some None
  else
    let offs := if base =? 2 then BP_EXP_OFFS else SI_EXP_OFFS in
    let fp := if base =? 2 then test_disk_bp else test_disk_si in
    m ← test_disk_mod exp offs;
    div ← int_of (div - m);
    '(x, div) ←
      if div <? 0 then k ← int_of (- div); p ← test_disk_pow base k; x ← int_of (x * p); Some (x, 0)
      else Some (x, div);
    div ← test_disk_pow base div;
    '(ipart, fpart, prec, exp) ← prefix_round base x div exp offs prec;
    prefix ← fp (if (ipart =? 0) && (fpart =? 0) then y else exp);
    match prefix with
    | None => Some None
    | Some prefix =>
        let sign := if x <? 0 then [45] else [] in
        let number :=
          if negb (fpart =? 0) then decimal ipart ++ 46 :: zero_padded prec fpart ++ prefix
          else decimal ipart ++ prefix in
        Some (Some (sign ++ number, length sign))
    end.

(** ** test_disk_time *)

(** Elapsed microseconds between two struct timeval. *)
Definition test_disk_time (start stop : Z * Z) : Z :=
  let sec := stop.1 - start.1 in
  let usec := stop.2 - start.2 in
  let '(sec, usec) := if (usec <? 0) && (0 <? sec) then (sec - 1, usec + 1000000) else (sec, usec) in
  let '(sec, usec) := if (usec <? 0) || (stop.1 <? start.1) then (0, 0) else (sec, usec) in
  u64 (usec + 1000000 * sec).

Example prefix_kb : test_disk_prefix 2 1536 0 1 = Some (Some (str "1.5K", O)).
Proof. reflexivity. Qed.

(** ** Properties of the helpers *)

Lemma int_of_Some z : - 2 ^ 31 ≤ z < 2 ^ 31 → int_of z = Some z.
Proof. intros ?. unfold int_of, in_int. by rewrite (proj2 (Z.leb_le _ _)), (proj2 (Z.ltb_lt _ _)) by lia. Qed.


(** Steps through the checked operations whose operands are in range. *)
Ltac int_step := rewrite ?int_of_Some by lia; cbn [mbind option_bind].

Lemma rem_to_mod x y : 0 < y → x mod y = if Z.rem x y <? 0 then Z.rem x y + y else Z.rem x y.
Proof.
  intros Hy. pose proof (Z.rem_bound_abs x y ltac:(lia)). pose proof (Z.quot_rem' x y).
  symmetry. destruct (Z.ltb_spec (Z.rem x y) 0).
  - apply (Z.mod_unique_pos _ _ (Z.quot x y - 1)); lia.
  - apply (Z.mod_unique_pos _ _ (Z.quot x y)); lia.
Qed.

Lemma test_disk_mod_spec x y : 0 < y < 2 ^ 31 → - 2 ^ 31 ≤ x < 2 ^ 31 → test_disk_mod x y = Some (x mod y).
Proof.
  intros Hy Hx. unfold test_disk_mod, int_rem, int_abs. rewrite (proj2 (Z.eqb_neq y 0)) by lia.
  pose proof (Z.rem_bound_abs x y ltac:(lia)). rewrite rem_to_mod by lia. int_step.
  destruct (Z.ltb_spec (Z.rem x y) 0); int_step; [|done]. by rewrite Z.abs_eq by lia.
Qed.

Lemma test_disk_div_spec x y : 0 < y < 2 ^ 31 → - 2 ^ 31 + y ≤ x < 2 ^ 31 → test_disk_div x y = Some (x / y).
Proof.
  intros Hy Hx. unfold test_disk_div, int_quot. rewrite test_disk_mod_spec by lia. cbn [mbind option_bind].
  pose proof (Z.mod_pos_bound x y ltac:(lia)). int_step. rewrite (proj2 (Z.eqb_neq y 0)) by lia.
  assert (E : x - x mod y = (x / y) * y) by (pose proof (Z.div_mod x y); lia).
  rewrite E, Z.quot_mul by lia. apply int_of_Some. pose proof (Z.div_mod x y). nia.
Qed.

Lemma log_loop_spec fuel base x ret : 2 ≤ base → 0 ≤ x < 2 ^ Z.of_nat fuel → (0 < fuel)%nat →
  ∃ l, 0 ≤ l < Z.of_nat fuel ∧ log_loop fuel base x ret = Some (ret + l) ∧
    base ^ l ≤ Z.max x 1 ∧ x < base ^ (l + 1).
Proof.
  intros Hb. revert x ret. induction fuel as [|fuel IH]; intros x ret Hx Hf; [lia|].
  cbn [log_loop]. rewrite (proj2 (Z.eqb_neq base 0)) by lia.
  pose proof (Z.div_mod x base ltac:(lia)) as E. pose proof (Z.mod_pos_bound x base ltac:(lia)).
  destruct (Z.eqb_spec (x / base) 0) as [E0|E0].
  - exists 0. rewrite E0 in E. split_and!; [lia..|f_equal; lia|lia|].
    change (0 + 1) with 1. rewrite Z.pow_1_r. lia.
  - assert (Hq : 0 < x / base) by (pose proof (Z.div_pos x base); lia).
    rewrite Nat2Z.inj_succ, Z.pow_succ_r in Hx by lia.
    assert (Hq' : x / base < 2 ^ Z.of_nat fuel) by (apply Z.div_lt_upper_bound; nia).
    destruct fuel as [|fuel]; [change (2 ^ Z.of_nat 0) with 1 in Hq'; lia|].
    destruct (IH (x / base) (ret + 1)) as (l & Hl & -> & Hlo & Hhi); [lia..|].
    exists (l + 1). rewrite Z.max_l in Hlo by lia. rewrite Z.pow_add_r, Z.pow_1_r in Hhi by lia.
    split_and!; [lia..|f_equal; lia| |]; rewrite ?Z.pow_add_r, ?Z.pow_1_r by lia; [rewrite Z.max_l|]; nia.
Qed.

Lemma test_disk_log_spec base x : 2 ≤ base → 0 ≤ x < 2 ^ 32 →
  ∃ l, 0 ≤ l < 32 ∧ test_disk_log base x = Some l ∧ base ^ l ≤ Z.max x 1 ∧ x < base ^ (l + 1).
Proof. intros Hb Hx. exact (log_loop_spec 32 base x 0 Hb Hx ltac:(lia)). Qed.

Lemma pow_loop_spec fuel x y ret :
  1 ≤ x → 1 ≤ ret → 0 ≤ y < 2 ^ (Z.of_nat fuel - 1) → ret * x ^ y < 2 ^ 31 →
  pow_loop fuel x y ret = Some (ret * x ^ y).
Proof.
  revert x y ret. induction fuel as [|fuel IH]; intros x y ret Hx Hr Hy Hb; [cbn in Hy; lia|].
  cbn [pow_loop]. destruct (Z.eqb_spec y 0) as [->|Hy0]; [f_equal; lia|].
  assert (1 ≤ Z.of_nat fuel) by (destruct fuel; [change (2 ^ (Z.of_nat 1 - 1)) with 1 in Hy|]; lia).
  assert (Hsplit : x ^ y = (if Z.odd y then x else 1) * (x * x) ^ (Z.shiftr y 1)).
  { rewrite Z.shiftr_div_pow2, <- Z.pow_2_r, <- Z.pow_mul_r by (try apply Z.div_pos; lia).
    rewrite (Z.div_mod y 2) at 1 by lia. change (2 ^ 1) with 2.
    rewrite Zmod_odd, Z.pow_add_r by (pose proof (Z.div_pos y 2); destruct (Z.odd y); lia).
    destruct (Z.odd y); rewrite ?Z.pow_1_r, ?Z.pow_0_r; lia. }
  assert (Hs : 0 ≤ Z.shiftr y 1 < 2 ^ (Z.of_nat fuel - 1)).
  { rewrite Z.shiftr_div_pow2 by lia. split; [apply Z.div_pos; lia|]. apply Z.div_lt_upper_bound; [lia|].
    rewrite <- Z.pow_add_r by lia. replace (1 + (Z.of_nat fuel - 1)) with (Z.of_nat (S fuel) - 1) by lia. lia. }
  set (s := Z.shiftr y 1) in *. set (q := (x * x) ^ s) in *. rewrite Hsplit in *.
  assert (1 ≤ q) by (pose proof (Z.pow_pos_nonneg (x * x) s); nia).
  assert (Hret : (if Z.odd y then int_of (ret * x) else Some ret) = Some (ret * if Z.odd y then x else 1)).
  { destruct (Z.odd y); [apply int_of_Some; nia|f_equal; lia]. }
  rewrite Hret. cbn [mbind option_bind]. clear Hret.
  set (r := ret * if Z.odd y then x else 1) in *.
  assert (1 ≤ r) by (unfold r; destruct (Z.odd y); nia).
  assert (r * q < 2 ^ 31) by (unfold r; lia).
  destruct (Z.eqb_spec s 0) as [Es|Es].
  - f_equal. unfold r, q. rewrite Es, Z.pow_0_r. lia.
  - assert (x * x ≤ q).
    { unfold q. rewrite <- (Z.pow_1_r (x * x)) at 1. apply Z.pow_le_mono_r; nia. }
    rewrite int_of_Some by nia. cbn [mbind option_bind]. rewrite IH; [f_equal; unfold r, q; lia|nia|lia|lia|].
    unfold q in *. lia.
Qed.

Lemma test_disk_pow_spec x y : 1 ≤ x → 0 ≤ y < 2 ^ 32 → x ^ y < 2 ^ 31 → test_disk_pow x y = Some (x ^ y).
Proof. intros. unfold test_disk_pow. rewrite pow_loop_spec; [f_equal; lia|lia..]. Qed.

(** ** What a rendered quantity is worth *)

Definition prefix_offs (base : Z) : Z := if base =? 2 then BP_EXP_OFFS else SI_EXP_OFFS.

(** |x| * base^-d in units of 10^-prec, rounded half up. *)
Definition scaled_quantity (base x d prec : Z) : Z :=
  let num := Z.abs x * base ^ Z.max 0 (- d) in
  let den := base ^ Z.max 0 d in
  (2 * 10 ^ prec * num + den) / (2 * den).

(** The prefix of base^(offs * e), if it has one. *)
Definition prefix_of (base e : Z) : option (list Z) :=
  let '(t, o) := if base =? 2 then (bp, BP_OFFS) else (si, SI_OFFS) in
  if (e + o <? 0) || (Z.of_nat (length t) <=? e + o) then None else t !! Z.to_nat (e + o).

Lemma fp_spec base exp : base = 2 ∨ base = 10 → - 2 ^ 30 - 100 ≤ exp ≤ 2 ^ 30 + 100 →
  (if base =? 2 then test_disk_bp else test_disk_si) exp = Some (prefix_of base (exp / prefix_offs base)).
Proof.
  intros [-> | ->] He; cbn [Z.eqb Pos.eqb];
    [unfold test_disk_bp, prefix_of, prefix_offs, BP_EXP_OFFS|unfold test_disk_si, prefix_of, prefix_offs, SI_EXP_OFFS];
    cbn [Z.eqb Pos.eqb]; rewrite test_disk_div_spec by lia; cbn [mbind option_bind].
  - pose proof (Z.div_mod exp 10). pose proof (Z.mod_pos_bound exp 10). unfold BP_OFFS. by int_step.
  - pose proof (Z.div_mod exp 3). pose proof (Z.mod_pos_bound exp 3). unfold SI_OFFS. by int_step.
Qed.

Lemma strip_loop_spec fuel f p : 0 ≤ f < 10 ^ p → 0 ≤ p < Z.of_nat fuel →
  ∃ f' p', strip_loop fuel f p = Some (f', p') ∧ 0 ≤ p' ≤ p ∧ f = f' * 10 ^ (p - p') ∧
    0 ≤ f' < 10 ^ p' ∧ (f' mod 10 = 0 → f' = 0).
Proof.
  revert f p. induction fuel as [|fuel IH]; intros f p Hf Hp; [lia|]. cbn [strip_loop].
  destruct (Z.eqb_spec f 0) as [->|Hf0]; cbn [negb andb].
  { exists 0, p. split_and!; try done; lia. }
  destruct (Z.eqb_spec (f mod 10) 0) as [Hm|Hm].
  - pose proof (Z.div_mod f 10 ltac:(lia)) as E.
    assert (1 ≤ p) by (destruct (Z.eq_dec p 0) as [->|]; [rewrite Z.pow_0_r in Hf|]; lia).
    assert (E10 : 10 ^ p = 10 * 10 ^ (p - 1)) by (rewrite <- Z.pow_succ_r by lia; f_equal; lia).
    destruct (IH (f / 10) (p - 1)) as (f' & p' & Hs & Hp' & Hv & Hr & Hz); [lia..|].
    exists f', p'. split_and!; try done; try lia.
    rewrite E, Hm, Hv at 1. replace (p - p') with (Z.succ (p - 1 - p')) by lia. rewrite Z.pow_succ_r by lia. lia.
  - exists f, p. rewrite Z.sub_diag, Z.pow_0_r. split_and!; try done; lia.
Qed.

(** Rounding the last of prec + 1 digits is rounding the quotient half up. *)
Lemma round_last r d p : 0 ≤ r → 0 < d → 0 ≤ p →
  (10 ^ (p + 1) * r / d + 5) / 10 = (2 * 10 ^ p * r + d) / (2 * d).
Proof.
  intros Hr Hd Hp. rewrite Z.pow_add_r, Z.pow_1_r by lia.
  replace (10 ^ p * 10 * r / d + 5) with ((10 ^ p * 10 * r + 5 * d) / d) by (rewrite Z.div_add by lia; done).
  rewrite Z.div_div by lia. rewrite <- (Z.div_mul_cancel_r (2 * 10 ^ p * r + d) (2 * d) 5) by lia.
  f_equal; lia.
Qed.

Lemma prefix_round_spec base x div exp offs prec B :
  test_disk_pow base offs = Some B → 1 < B ≤ 1024 →
  Z.abs x < 2 ^ 31 → 0 < div < 2 ^ 31 → Z.abs x / div < B → 0 ≤ prec ≤ 8 → - 2 ^ 30 - 64 ≤ exp ≤ 2 ^ 30 + 64 → 0 ≤ offs ≤ 10 →
  ∃ i f p e, prefix_round base x div exp offs prec = Some (i, f, p, e) ∧
    0 ≤ p ≤ prec ∧ 0 ≤ f < 10 ^ p ∧ (f mod 10 = 0 → f = 0) ∧ 0 ≤ i < B ∧
    ((e = exp ∧ i * 10 ^ prec + f * 10 ^ (prec - p) = (2 * 10 ^ prec * Z.abs x + div) / (2 * div)) ∨
     (e = exp + offs ∧ i = 1 ∧ f = 0 ∧ B * 10 ^ prec = (2 * 10 ^ prec * Z.abs x + div) / (2 * div))).
Proof.
  intros HB HB' Hx Hd Hi Hp He Ho. unfold prefix_round, int_abs, int_quot, int_rem.
  set (ax := Z.abs x) in *. assert (0 ≤ ax) by lia.
  rewrite (proj2 (Z.eqb_neq div 0)) by lia.
  pose proof (Z.div_mod ax div ltac:(lia)) as Eq. pose proof (Z.mod_pos_bound ax div ltac:(lia)).
  rewrite (int_of_Some ax) by lia. cbn [mbind option_bind].
  rewrite Z.quot_div_nonneg, Z.rem_mod_nonneg by lia.
  assert (0 ≤ ax / div) by (apply Z.div_pos; lia).
  rewrite (int_of_Some (ax / div)) by lia. cbn [mbind option_bind].
  assert (H10 : 1 ≤ 10 ^ prec ≤ 10 ^ 8).
  { split; [pose proof (Z.pow_pos_nonneg 10 prec); lia|apply Z.pow_le_mono_r; lia]. }
  assert (E10 : 10 ^ (prec + 1) = 10 * 10 ^ prec) by (rewrite Z.pow_add_r, Z.pow_1_r by lia; lia).
  rewrite (test_disk_pow_spec 10 (prec + 1)), (test_disk_pow_spec 10 prec), HB by lia. cbn [mbind option_bind].
  rewrite (int_of_Some (ax mod div)) by lia. cbn [mbind option_bind].
  set (r := ax mod div) in *. set (T := 10 ^ prec) in *.
  set (U := 10 ^ (prec + 1)) in *. assert (HU : 10 ≤ U ≤ 10 ^ 9) by lia.
  assert (Hpr : 0 ≤ U * r ≤ 10 ^ 9 * 2 ^ 31).
  { split; [apply Z.mul_nonneg_nonneg; lia|apply Z.mul_le_mono_nonneg; lia]. }
  assert (Hlt : U * r < div * U) by (rewrite (Z.mul_comm div); apply Z.mul_lt_mono_pos_l; lia).
  unfold u64, i32. rewrite (uwrap_small 64 U), (uwrap_small 64 r), (uwrap_small 64 (U * r)) by lia.
  assert (Hq : 0 ≤ U * r / div < U).
  { split; [apply Z.div_pos; lia|apply Z.div_lt_upper_bound; lia]. }
  rewrite swrap_small by lia. rewrite (int_of_Some (U * r / div + 5)) by lia. cbn [mbind option_bind Z.eqb].
  rewrite Z.quot_div_nonneg by lia.
  set (F := (U * r / div + 5) / 10) in *.
  assert (HF : 0 ≤ F ≤ T) by (unfold F; split; [apply Z.div_pos; lia|apply Z.lt_succ_r, Z.div_lt_upper_bound; lia]).
  rewrite (int_of_Some F) by lia. cbn [mbind option_bind].
  assert (HR : (2 * T * ax + div) / (2 * div) = ax / div * T + F).
  { unfold F, U. rewrite round_last by lia. fold T. rewrite Eq at 1. fold r.
    replace (2 * T * (div * (ax / div) + r) + div) with (2 * T * r + div + (ax / div * T) * (2 * div)) by lia.
    rewrite Z.div_add by lia. lia. }
  rewrite HR. destruct (Z.eqb_spec F T) as [EF|EF].
  - rewrite (int_of_Some (ax / div + 1)) by lia. cbn [mbind option_bind].
    destruct (Z.eqb_spec (ax / div + 1) B) as [EB|EB].
    + rewrite (int_of_Some (exp + offs)) by lia. cbn [mbind option_bind strip_loop negb andb Z.eqb].
      exists 1, 0, prec, (exp + offs). fold T. split_and!; [done|lia..|right; split_and!; lia].
    + cbn [mbind option_bind strip_loop negb andb Z.eqb].
      exists (ax / div + 1), 0, prec, exp. fold T. split_and!; [done|lia..|left; split; lia].
  - cbn [mbind option_bind].
    destruct (strip_loop_spec 12 F prec) as (f & p & -> & Hpp & Hv & Hf & Hz); [fold T; lia|lia|].
    cbn [mbind option_bind]. exists (ax / div), f, p, exp. split_and!; [done|lia..|done|lia|lia|left; split; [done|lia]].
Qed.

Definition rounds (n d prec : Z) : Z := (2 * 10 ^ prec * n + d) / (2 * d).

(** Rounding depends on the ratio alone ... *)
Lemma rounds_scale n d c prec : 0 < d → 0 < c → rounds (n * c) (d * c) prec = rounds n d prec.
Proof.
  intros Hd Hc. unfold rounds.
  replace (2 * 10 ^ prec * (n * c) + d * c) with ((2 * 10 ^ prec * n + d) * c) by lia.
  replace (2 * (d * c)) with (2 * d * c) by lia. apply Z.div_mul_cancel_r; lia.
Qed.

(** ... and a value that rounds up to B units rounds to one unit of B. *)
Lemma rounds_carry n d B prec : 0 < d → 1 ≤ B → 0 ≤ prec → 0 ≤ n < d * B →
  rounds n d prec = B * 10 ^ prec → rounds n (d * B) prec = 10 ^ prec.
Proof.
  unfold rounds. intros Hd HB Hp Hn E. pose proof (Z.pow_pos_nonneg 10 prec ltac:(lia) Hp). set (T := 10 ^ prec) in *.
  pose proof (Z.mul_div_le (2 * T * n + d) (2 * d) ltac:(lia)) as Hlo. rewrite E in Hlo.
  symmetry. apply (Z.div_unique_pos _ _ _ (2 * T * n + d * B - 2 * (d * B) * T)); [|lia].
  assert (T * n ≤ T * (d * B)) by (apply Z.mul_le_mono_nonneg_l; lia). nia.
Qed.

Lemma rounds_ge n d prec : 0 < d → d ≤ n → 0 ≤ prec → 10 ^ prec ≤ rounds n d prec.
Proof.
  intros Hd Hn Hp. pose proof (Z.pow_pos_nonneg 10 prec ltac:(lia) Hp). apply Z.div_le_lower_bound; [lia|].
  assert (10 ^ prec * d ≤ 10 ^ prec * n) by (apply Z.mul_le_mono_nonneg_l; lia). lia.
Qed.

Lemma scaled_quantity_rounds base x d prec :
  scaled_quantity base x d prec = rounds (Z.abs x * base ^ Z.max 0 (- d)) (base ^ Z.max 0 d) prec.
Proof. done. Qed.

(** Raising the exponent of the unit from d to d + o divides by base^o. *)
Lemma scaled_quantity_up base x d o prec : 1 ≤ base → 0 ≤ o → 0 ≤ d + o →
  scaled_quantity base x (d + o) prec =
  rounds (Z.abs x * base ^ Z.max 0 (- d)) (base ^ Z.max 0 d * base ^ o) prec.
Proof.
  intros Hb Ho Hdo. rewrite scaled_quantity_rounds, (Z.max_l 0 (- (d + o))), (Z.max_r 0 (d + o)), Z.pow_0_r by lia.
  destruct (Z.le_gt_cases 0 d).
  - rewrite (Z.max_l 0 (- d)), (Z.max_r 0 d), Z.pow_0_r, <- Z.pow_add_r by lia. done.
  - rewrite (Z.max_r 0 (- d)), (Z.max_l 0 d), Z.pow_0_r, Z.mul_1_l, Z.mul_1_r by lia.
    replace (base ^ o) with (base ^ (d + o) * base ^ (- d)) by (rewrite <- Z.pow_add_r by lia; f_equal; lia).
    rewrite rounds_scale by (apply Z.pow_pos_nonneg; lia). done.
Qed.

(** The text for the parts of a quantity. *)
Definition notation (x ipart fpart prec : Z) (prefix : list Z) : list Z * nat :=
  let sign := if x <? 0 then [45] else [] in
  (sign ++ decimal ipart ++ (if fpart =? 0 then [] else 46 :: zero_padded prec fpart) ++ prefix, length sign).

(** The scaled number, its divisor and the unit: what the first half of the
    function computes. *)
Lemma prefix_scale base x y l o d s v : (base = 2 ∨ base = 10) → Z.abs x < 2 ^ 31 → 0 ≤ l < 32 →
  base ^ l ≤ Z.max (Z.abs x) 1 → Z.abs x < base ^ (l + 1) → - 2 ^ 30 ≤ y ≤ 2 ^ 30 →
  o = prefix_offs base → d = l - (l + y) mod o → s = base ^ Z.max 0 (- d) → v = base ^ Z.max 0 d →
  d = o * ((l + y) / o) - y ∧ - o < d ∧ 0 ≤ Z.abs x * s < 2 ^ 31 ∧ 0 < v < 2 ^ 31 ∧ 0 < s < 2 ^ 31 ∧
  Z.abs x * s < v * base ^ o ∧ (x ≠ 0 → v ≤ Z.abs x * s) ∧ 1 < base ^ o ≤ 1024.
Proof.
  intros Hb Hx Hl Hlo Hhi Hy Eo Ed Es Ev.
  assert (Hbase : 2 ≤ base) by lia.
  assert (Ho : 0 < o ≤ 10 ∧ 1 < base ^ o ≤ 1024) by (subst o; destruct Hb as [-> | ->]; by vm_compute).
  pose proof (Z.div_mod (l + y) o ltac:(lia)). pose proof (Z.mod_pos_bound (l + y) o ltac:(lia)).
  assert (Hpos : ∀ k, 0 ≤ k → 0 < base ^ k) by (intros; apply Z.pow_pos_nonneg; lia).
  assert (Hmul : ∀ a b, 0 ≤ a → 0 ≤ b → base ^ (a + b) = base ^ a * base ^ b) by (intros; apply Z.pow_add_r; lia).
  assert (Hmono : ∀ a b, a ≤ b → base ^ a ≤ base ^ b) by (intros; apply Z.pow_le_mono_r; lia).
  assert (Hm : s * base ^ (l + 1) ≤ v * base ^ o) by (rewrite Es, Ev, <- !Hmul by lia; apply Hmono; lia).
  assert (Hm' : v ≤ base ^ l * s) by (rewrite Es, Ev, <- Hmul by lia; apply Hmono; lia).
  assert (Hs0 : 0 < s) by (rewrite Es; apply Hpos; lia). assert (Hv0 : 0 < v) by (rewrite Ev; apply Hpos; lia).
  assert (Hsb : s ≤ base ^ o) by (rewrite Es; apply Hmono; lia).
  assert (Hcase : (v = 1 ∨ s = 1) ∧ v ≤ base ^ l).
  { destruct (Z.le_gt_cases 0 d).
    - rewrite Es, Ev, (Z.max_l 0 (- d)), Z.pow_0_r by lia. split; [by right|apply Hmono; lia].
    - rewrite Es, Ev, (Z.max_l 0 d), Z.pow_0_r by lia. split; [by left|pose proof (Hpos l); lia]. }
  clear Es Ev Hpos Hmul Hmono Hb.
  assert (Hlt : Z.abs x * s < v * base ^ o) by nia.
  split_and!; nia.
Qed.

(** How the code gets at the scaled number and its divisor, and what rounding
    their quotient means. *)
Lemma prefix_scale_run base x d o s v prec :
  2 ≤ base → Z.abs x < 2 ^ 31 → 0 ≤ o → - o < d < 2 ^ 31 → o < 2 ^ 31 →
  Z.abs x * s < 2 ^ 31 → 0 < v < 2 ^ 31 → 0 < s < 2 ^ 31 → s = base ^ Z.max 0 (- d) → v = base ^ Z.max 0 d →
  (if d <? 0 then k ← int_of (- d); p ← test_disk_pow base k; x ← int_of (x * p); Some (x, 0) else Some (x, d))
    = Some (x * s, Z.max 0 d) ∧
  test_disk_pow base (Z.max 0 d) = Some v ∧
  scaled_quantity base x d prec = rounds (Z.abs x * s) v prec ∧
  scaled_quantity base x (d + o) prec = rounds (Z.abs x * s) (v * base ^ o) prec ∧
  Z.abs (x * s) = Z.abs x * s ∧ (x * s <? 0) = (x <? 0).
Proof.
  intros Hb Hx Ho Hd Ho' Hxs Hv Hs Es Ev.
  assert (Habs : Z.abs (x * s) = Z.abs x * s) by (rewrite Z.abs_mul, (Z.abs_eq s) by apply Z.lt_le_incl, Hs; done).
  split_and!.
  - destruct (Z.ltb_spec d 0).
    + rewrite (int_of_Some (- d)) by lia. cbn [mbind option_bind].
      assert (Es' : base ^ (- d) = s) by (rewrite Es; f_equal; lia). clear Es Ev.
      rewrite test_disk_pow_spec by (rewrite ?Es'; lia). cbn [mbind option_bind]. rewrite Es'.
      rewrite (int_of_Some (x * s)) by lia. cbn [mbind option_bind]. by rewrite Z.max_l by lia.
    + assert (Hs1 : s = 1) by (rewrite Es, Z.max_l by lia; apply Z.pow_0_r).
      by rewrite Hs1, Z.mul_1_r, Z.max_r by lia.
  - rewrite Ev. apply test_disk_pow_spec; [lia..|]. rewrite <- Ev. apply Hv.
  - rewrite Es, Ev. apply scaled_quantity_rounds.
  - rewrite Es, Ev. apply scaled_quantity_up; lia.
  - done.
  - clear - Hs. apply eq_true_iff_eq. rewrite !Z.ltb_lt. nia.
Qed.

Lemma prefix_offs_range base : 0 < prefix_offs base ≤ 10.
Proof. unfold prefix_offs, BP_EXP_OFFS, SI_EXP_OFFS. destruct (base =? 2); lia. Qed.

(** A number at least as big as the unit has an integer part. *)
Lemma int_part_pos i f p prec n d : 0 < d → d ≤ n → 0 ≤ p ≤ prec → 0 ≤ f < 10 ^ p → 0 ≤ i →
  i * 10 ^ prec + f * 10 ^ (prec - p) = rounds n d prec → 1 ≤ i.
Proof.
  intros Hd Hn Hp Hf Hi E. pose proof (rounds_ge n d prec Hd Hn ltac:(lia)).
  destruct (Z.eq_dec i 0) as [->|]; [|lia].
  assert (f * 10 ^ (prec - p) < 10 ^ p * 10 ^ (prec - p)).
  { apply Z.mul_lt_mono_pos_r; [apply Z.pow_pos_nonneg|]; lia. }
  rewrite <- Z.pow_add_r in * by lia. replace (p + (prec - p)) with prec in * by lia. lia.
Qed.

Lemma pow_le_one base l : 2 ≤ base → 0 ≤ l → base ^ l ≤ Z.max (Z.abs 0) 1 → l = 0.
Proof.
  intros Hb Hl H. destruct (Z.eq_dec l 0); [done|]. pose proof (Z.pow_le_mono_r base 1 l). change (Z.max (Z.abs 0) 1) with 1 in H. lia.
Qed.

(** Everything up to the choice of the prefix. *)
Lemma prefix_parts base x y prec : (base = 2 ∨ base = 10) → Z.abs x < 2 ^ 31 → - 2 ^ 30 ≤ y ≤ 2 ^ 30 → 0 ≤ prec ≤ 8 →
  ∃ e i f p, test_disk_prefix base x y prec =
      Some (match prefix_of base e with None => None | Some s => Some (notation x i f p s) end) ∧
    i * 10 ^ prec + f * 10 ^ (prec - p) = scaled_quantity base x (prefix_offs base * e - y) prec ∧
    0 ≤ i < base ^ prefix_offs base ∧ (x ≠ 0 → 1 ≤ i) ∧
    0 ≤ p ≤ prec ∧ 0 ≤ f < 10 ^ p ∧ (f mod 10 = 0 → f = 0).
Proof.
  intros Hb Hx Hy Hp. unfold test_disk_prefix, int_abs.
  rewrite (int_of_Some (Z.abs x)) by lia. cbn [mbind option_bind].
  destruct (test_disk_log_spec base (Z.abs x)) as (l & Hl & -> & Hlo & Hhi); [lia..|].
  cbn [mbind option_bind]. rewrite (int_of_Some (l + y)) by lia. cbn [mbind option_bind].
  rewrite (proj2 (Z.ltb_ge 8 prec)) by lia.
  assert (Hbase : (base =? 2) || (base =? 10) = true) by (apply orb_true_iff; rewrite !Z.eqb_eq; exact Hb).
  rewrite Hbase. cbn [negb]. fold (prefix_offs base).
  pose proof (prefix_offs_range base) as Ho. set (o := prefix_offs base) in *.
  rewrite test_disk_mod_spec by lia. cbn [mbind option_bind].
  pose proof (Z.mod_pos_bound (l + y) o ltac:(lia)). set (d := l - (l + y) mod o) in *.
  rewrite (int_of_Some d) by lia. cbn [mbind option_bind].
  assert (Hb2 : 2 ≤ base) by lia. assert (Hod : 0 ≤ o ∧ o < 2 ^ 31 ∧ d < 2 ^ 31) by lia.
  remember (base ^ Z.max 0 (- d)) as s eqn:Es. remember (base ^ Z.max 0 d) as v eqn:Ev.
  destruct (prefix_scale base x y l o d s v Hb Hx Hl Hlo Hhi Hy eq_refl eq_refl Es Ev)
    as (Hd & Hdo & Hn & Hden & Hs0 & Hlt & Hge & HB).
  destruct (prefix_scale_run base x d o s v prec Hb2 Hx (proj1 Hod) (conj Hdo (proj2 (proj2 Hod)))
    (proj1 (proj2 Hod)) (proj2 Hn) Hden Hs0 Es Ev) as (-> & Hpow & Hr & Hr' & Habs & Hsign).
  cbn [mbind option_bind]. rewrite Hpow. cbn [mbind option_bind]. clear Es Ev Hpow.
  destruct (prefix_round_spec base (x * s) v (l + y) o prec (base ^ o)) as (i & f & p & e & -> & Hpp & Hf & Hz & Hi & Hv);
    try lia; [apply test_disk_pow_spec; lia|apply Z.div_lt_upper_bound; lia|].
  rewrite Habs in Hv. cbn [mbind option_bind]. fold (rounds (Z.abs x * s) v prec) in Hv.
  assert (HT : 0 < 10 ^ prec) by (apply Z.pow_pos_nonneg; lia).
  destruct Hv as [[-> Hv]|(-> & -> & -> & Hv)].
  - assert (Hzero : x ≠ 0 → 1 ≤ i).
    { intros Hx0. apply (int_part_pos i f p prec (Z.abs x * s) v); auto; lia. }
    assert (Hexp : (if (i =? 0) && (f =? 0) then y else l + y) / o = (l + y) / o).
    { destruct (Z.eqb_spec i 0); [|done]. destruct (f =? 0); [|done]. cbn [andb].
      assert (x = 0) as -> by lia. assert (l = 0) as -> by (apply (pow_le_one base); lia || done). done. }
    rewrite fp_spec by (try done; case_match; lia). cbn [mbind option_bind]. change (prefix_offs base) with o. rewrite Hexp.
    exists ((l + y) / o), i, f, p. split_and!; try done; try lia.
    + rewrite Hsign. unfold notation. destruct (prefix_of base ((l + y) / o)); [|done].
      destruct (f =? 0); cbn [negb]; rewrite ?app_nil_l, <- ?app_assoc; done.
    + by rewrite Hv, <- Hd.
  - cbn [Z.eqb andb negb]. rewrite fp_spec by (try done; lia). cbn [mbind option_bind]. change (prefix_offs base) with o.
    replace (l + y + o) with (l + y + 1 * o) by lia. rewrite Z.div_add by lia.
    exists ((l + y) / o + 1), 1, 0, p. split_and!; try done; try lia.
    + rewrite Hsign. unfold notation. by destruct (prefix_of base ((l + y) / o + 1)).
    + replace (o * ((l + y) / o + 1) - y) with (d + o) by lia.
      rewrite Hr', rounds_carry by lia. lia.
Qed.

(** C37: Test_disk_prefix writes x * base^y, for base 2 or 10 and up to eight decimal places, in the
    notation its comment promises: an integer part of at least one for a quantity that is not
    zero and below one unit of the next prefix, a fraction without trailing zeros, and a value that
    is the quantity in units of the prefix, rounded half up to the places asked for. It returns
    NULL exactly when the unit has no prefix, and none of its int computations overflows. For x above
    INT_MIN and y between -2^30 and 2^30. *)
Theorem test_disk_prefix_rounds base x y prec :
  (base = 2 ∨ base = 10) → Z.abs x < 2 ^ 31 → - 2 ^ 30 ≤ y ≤ 2 ^ 30 → 0 ≤ prec ≤ 8 →
  ∃ e i f p, test_disk_prefix base x y prec =
      Some (match prefix_of base e with None => None | Some s => Some (notation x i f p s) end) ∧
    i * 10 ^ prec + f * 10 ^ (prec - p) = scaled_quantity base x (prefix_offs base * e - y) prec ∧
    0 ≤ i < base ^ prefix_offs base ∧ (x ≠ 0 → 1 ≤ i) ∧
    0 ≤ p ≤ prec ∧ 0 ≤ f < 10 ^ p ∧ (f mod 10 = 0 → f = 0).
Proof. apply prefix_parts. Qed.

Lemma test_disk_prefix_rounds_witness :
  ∃ e i f p, test_disk_prefix 10 12345 (-6) 1 =
      Some (match prefix_of 10 e with None => None | Some s => Some (notation 12345 i f p s) end) ∧
    i * 10 + f * 10 ^ (1 - p) = scaled_quantity 10 12345 (3 * e + 6) 1 ∧ 1 ≤ i < 1000.
Proof.
  destruct (test_disk_prefix_rounds 10 12345 (-6) 1) as (e & i & f & p & H1 & H2 & H3 & H4 & _);
    [by right|lia..|].
  exists e, i, f, p. change (prefix_offs 10) with 3 in *. change (10 ^ 3) with 1000 in H3.
  replace (3 * e + 6) with (3 * e - -6) by lia. split; [exact H1|]. split; [exact H2|]. lia.
Defined.

Lemma decimal_short n : 0 ≤ n < 1024 → (length (decimal n) ≤ 4)%nat.
Proof.
  intros Hn. assert (Hall : forallb (λ k, (length (decimal (Z.of_nat k)) <=? 4)%nat) (seq 0 1024) = true) by by vm_compute.
  rewrite forallb_forall in Hall. specialize (Hall (Z.to_nat n)). rewrite in_seq, Nat.leb_le, Z2Nat.id in Hall by lia.
  apply Hall. lia.
Qed.

Lemma decimal_digit n : 0 ≤ n < 10 → length (decimal n) = 1%nat.
Proof.
  intros Hn. assert (Hall : forallb (λ k, (length (decimal (Z.of_nat k)) =? 1)%nat) (seq 0 10) = true) by by vm_compute.
  rewrite forallb_forall in Hall. specialize (Hall (Z.to_nat n)). rewrite in_seq, Nat.eqb_eq, Z2Nat.id in Hall by lia.
  apply Hall. lia.
Qed.

Lemma prefix_of_short base e s : prefix_of base e = Some s → (length s ≤ 1)%nat.
Proof.
  unfold prefix_of. intros H.
  assert (Hin : s ∈ bp ++ si).
  { apply elem_of_app. destruct (base =? 2); case_match; try done; apply list_elem_of_lookup_2 in H; auto. }
  clear H. revert s Hin. apply Forall_forall. by apply (bool_decide_unpack _).
Qed.

(** Every quantity that is not negative fits the char[8] its callers give to test_disk_prefix, the
    terminating null byte included, at the precisions they ask for. A negative one need not: a
    rate above 2 GiB/s wraps to a negative int, and one such rate takes eight characters, one byte
    more than the buffer has room for, and is returned without its sign. *)
Theorem test_disk_prefix_fits base x y prec text off :
  (base = 2 ∨ base = 10) → 0 ≤ x < 2 ^ 31 → - 2 ^ 30 ≤ y ≤ 2 ^ 30 → 0 ≤ prec ≤ 1 →
  test_disk_prefix base x y prec = Some (Some (text, off)) →
  (length text < 8)%nat ∧ off = O ∧
  test_disk_prefix 2 (i32 3221330330) 0 1 = Some (Some (str "-1023.9M", 1%nat)).
Proof.
  intros Hb Hx Hy Hp E. cut ((length text < 8)%nat ∧ off = O); [intros [? ?]; split_and!; [done..|by vm_compute]|].
  destruct (prefix_parts base x y prec) as (e & i & f & p & Hr & _ & Hi & _ & Hpp & Hf & _); try lia.
  rewrite E in Hr. destruct (prefix_of base e) as [s|] eqn:Hs; [|done]. unfold notation in Hr.
  rewrite (proj2 (Z.ltb_ge x 0)) in Hr by lia. simplify_eq. split; [|done].
  apply prefix_of_short in Hs. assert (base ^ prefix_offs base ≤ 1024) by (destruct Hb as [-> | ->]; by vm_compute).
  pose proof (decimal_short i ltac:(lia)).
  assert (Hlen : (length (if (f =? 0)%Z then [] else 46%Z :: zero_padded p f) ≤ 2)%nat).
  { destruct (f =? 0); cbn [length]; [lia|]. unfold zero_padded.
    assert (10 ^ p ≤ 10) by (destruct (Z.eq_dec p 0) as [->|]; [|replace p with 1 by lia]; by vm_compute).
    rewrite length_app, length_replicate, decimal_digit by lia. lia. }
  cbn [app]. rewrite !length_app. lia.
Qed.

Lemma test_disk_prefix_fits_witness : (length (str "1.5K") < 8)%nat.
Proof. apply (test_disk_prefix_fits 2 1536 0 1 (str "1.5K") O); [by left|lia..|reflexivity]. Defined.

(** The clock difference is the time elapsed, or 0 when the clock was set back. *)
Lemma test_disk_time_elapsed s u s' u' : 0 ≤ u < 1000000 → 0 ≤ u' < 1000000 →
  s' * 1000000 + u' - (s * 1000000 + u) < 2 ^ 64 →
  test_disk_time (s, u) (s', u') = Z.max 0 (s' * 1000000 + u' - (s * 1000000 + u)).
Proof.
  intros Hu Hu' Hb. unfold test_disk_time. cbn [fst snd].
  destruct (Z.ltb_spec (u' - u) 0), (Z.ltb_spec 0 (s' - s)), (Z.ltb_spec s' s); cbn [andb orb]; try lia;
    repeat (case_match; simplify_eq); rewrite ?orb_true_iff, ?orb_false_iff, ?Z.ltb_lt, ?Z.ltb_ge in *;
    unfold u64; rewrite uwrap_small; lia.
Qed.
