(* ===== verification/DiskBench.v ===== *)
(** * The disk benchmark, disk/test_disk.c

    Sizing a disk, the seek and zone measurements, the destructive pattern
    test and the throughput table, over a device that is a parameter. A step
    is a function from the device and the messages so far to a result and
    their new values; [None] is undefined behaviour (a division by zero, an
    int overflow) or a loop that did not end within its bound. *)

From S2P Require Import Prelude CMachine DiskPrefix.

(** ** The system *)

(** What the program uses of the device, the clock, the allocator and
    rand(). A read returns its result and the bytes it stored. *)
Class Disk := {
  dev : Type;
  (** lseek(fd, off, SEEK_SET) and lseek(fd, off, SEEK_CUR) *)
  dev_lseek_set : Z → dev → Z * dev;
  dev_lseek_cur : Z → dev → Z * dev;
  dev_read : Z → dev → (Z * list Z) * dev;
  dev_write : list Z → dev → Z * dev;
  dev_time : dev → (Z * Z) * dev;
  dev_rand : dev → Z * dev;
  (** malloc: the bytes the block happens to hold, or nothing for NULL *)
  dev_malloc : Z → dev → option (list Z) * dev;
  (** does the anonymous mmap of that many bytes succeed? *)
  dev_mmap : Z → dev → bool * dev;
  dev_page_size : Z;
}.

Definition BLOCK_SIZE : Z := 512.
Definition SEEK_POINTS : Z := 2000.
Definition SEEK_MIN_STRIDE : Z := 512.
Definition SEEK_MIN_TIME : Z := 1000.
Definition SEEK_MAX_TIME : Z := 1000000.
Definition ZONE_POINTS : Z := 150.
Definition ZONE_MIN_STRIDE : Z := 512.
Definition PATTERN_POINTS : nat := 10.
Definition PATTERN_MAX_BLOCKS : Z := 512.
Definition PERF_BLOCKS : Z := 32768.

Definition EIO : Z := 5.
Definition ENOMEM : Z := 12.
Definition EFAULT : Z := 14.
Definition EINVAL : Z := 22.

(** What is printed, with the values shown; a prefix text is what the pointer
    returned by test_disk_prefix shows. *)
Inductive disk_msg :=
  | Bad_lseek (offs : Z) | Io_error (offs : Z) | Bad_pattern (offs expected got : Z)
  | Seek_average (t : option (list Z)) | No_seeks
  | Zone_average (t : option (list Z)) | No_zones | No_memory
  | Testing_pattern (p : Z) | Pattern_success
  | Perf_header | Perf_row (block : option (list Z)) (iops : Z) (rd wr : option (list Z))
  | Usage | Starting | Open_failed | Too_small | Capacity (mb : Z)
  | Starting_seek | Starting_zone | Starting_pattern | Starting_perf.

Section bench.
Context `{Disk}.

Record bench := mkBench { b_dev : dev; b_log : list disk_msg }.
Definition B (A : Type) : Type := bench → option (A * bench).

#[global] Instance B_ret : MRet B := λ A a b, Some (a, b).
#[global] Instance B_bind : MBind B := λ A C f m b, '(a, b) ← m b; f a b.

Definition undef {A} : B A := λ _, None.
Definition say (m : disk_msg) : B unit := λ b, Some ((), mkBench (b_dev b) (m :: b_log b)).
Definition sys {A} (f : dev → A * dev) : B A := λ b,
  let '(a, d) := f (b_dev b) in Some (a, mkBench d (b_log b)).
Definition pure {A} (o : option A) : B A := λ b, a ← o; Some (a, b).

(** ** Seeking and sizing *)

(** [for (i = 0; offs - i > step; i += step)] in steps of 1 GiB; returns i. *)
Fixpoint lseek_loop (fuel : nat) (offs i : Z) : B Z :=
  match fuel with
  | O => undef
  | S fuel =>
      if 2 ^ 30 <? u64 (offs - i) then
        r ← sys (dev_lseek_cur (2 ^ 30));
        if r <? 0 then mret i else lseek_loop fuel offs (u64 (i + 2 ^ 30))
      else mret i
  end.

(** The result is an int: an offset of 2 GiB does not fit. *)
Definition test_disk_lseek (offs : Z) : B Z :=
  _ ← sys (dev_lseek_set 0);
  i ← lseek_loop (S (Z.to_nat (offs / 2 ^ 30))) offs 0;
  r ← sys (dev_lseek_cur (i64 (offs - i)));
  mret (i32 r).

(** [!((test_disk_lseek(fd, offs) < 0) || (read(fd, buff, sizeof(buff)) != sizeof(buff)))] *)
Definition size_probe (offs : Z) : B bool :=
  r ← test_disk_lseek offs;
  if r <? 0 then mret false
  else '(n, _) ← sys (dev_read BLOCK_SIZE); mret (n =? BLOCK_SIZE).

(** [for (offs += step; probe; offs += step); offs -= step;] *)
Fixpoint size_loop (fuel : nat) (step offs : Z) : B Z :=
  match fuel with
  | O => undef
  | S fuel =>
      let next := u64 (offs + step) in
      ok ← size_probe next;
      if ok : bool then size_loop fuel step next else mret (u64 (next - step))
  end.

Definition test_disk_size (fuel : nat) : B Z :=
  offs ← size_loop fuel (2 ^ 30) 0;
  offs ← size_loop fuel (2 ^ 25) offs;
  size_loop fuel (2 ^ 20) offs.

(** ** Measurements *)

(** The results are of type ssize_t. *)
Definition test_disk_seektime (offs : Z) : B Z :=
  start ← sys dev_time;
  r ← test_disk_lseek offs;
  if r <? 0 then _ ← say (Bad_lseek offs); mret (- EINVAL)
  else
    '(n, _) ← sys (dev_read BLOCK_SIZE);
    if negb (n =? BLOCK_SIZE) then _ ← say (Io_error offs); mret (- EIO)
    else
      stop ← sys dev_time;
      mret (i64 (test_disk_time start stop)).

(** [while (l > 0)]: false after a read error. A read of 0 bytes, at the end
    of the disk, goes round again. *)
Fixpoint zone_read (fuel : nat) (offs len l : Z) : B bool :=
  match fuel with
  | O => undef
  | S fuel =>
      if 0 <? l then
        '(ret, _) ← sys (dev_read l);
        if ret <? 0 then _ ← say (Io_error (u64 (offs + (len - l) + 1024))); mret false
        else zone_read fuel offs len (u64 (l - ret))
      else mret true
  end.

Definition test_disk_zonetime (fuel : nat) (offs len : Z) : B Z :=
  r ← test_disk_lseek offs;
  if r <? 0 then _ ← say (Bad_lseek offs); mret (- EINVAL)
  else
    '(n, _) ← sys (dev_read 1024);
    if negb (n =? 1024) then _ ← say (Io_error offs); mret (- EIO)
    else
      start ← sys dev_time;
      ok ← zone_read fuel offs len len;
      if negb ok then mret (- EIO)
      else
        stop ← sys dev_time;
        mret (i64 (test_disk_time start stop)).

(** The buffer after a read that stored [data] at its start. *)
Definition stored (data buff : list Z) : list Z := data ++ drop (length data) buff.

(** The loop over j: the first byte of the block that is not the pattern's. *)
Fixpoint pattern_mismatch (n : nat) (gen : Z → Z) (base j : Z) (buff : list Z) : option (Z * Z * Z) :=
  match n, buff with
  | S n, c :: buff =>
      let e := gen (u64 (base + j)) in
      if negb (c =? e) then Some (j, e, c) else pattern_mismatch n gen base (j + 1) buff
  | _, _ => None
  end.

(** The loop over the blocks, [i] being the next one, [n] the number left. *)
Fixpoint pattern_read (n : nat) (offs : Z) (buff : list Z) (len : Z) (gen : option (Z → Z)) (i time : Z) : B Z :=
  match n with
  | O => mret (i64 time)
  | S n =>
      start ← sys dev_time;
      '(r, data) ← sys (dev_read len);
      if negb (r =? len) then _ ← say (Io_error (u64 (offs + i * len))); mret (- EIO)
      else
        stop ← sys dev_time;
        let buff := stored data buff in
        let time := u64 (time + test_disk_time start stop) in
        match gen with
        | None => pattern_read n offs buff len gen (i + 1) time
        | Some g =>
            match pattern_mismatch (Z.to_nat len) g (i * len) 0 buff with
            | Some (j, e, c) => _ ← say (Bad_pattern (u64 (offs + i * len + j)) e c); mret (- EFAULT)
            | None => pattern_read n offs buff len gen (i + 1) time
            end
        end
  end.
Definition test_disk_patternrtime (offs : Z) (buff : list Z) (len n : Z) (gen : option (Z → Z)) : B Z :=
  pattern_read (Z.to_nat n) offs buff len gen 0 0.

(** [for (j = 0; j < len; j++) buff[j] = gen(i * len + j)] *)
Definition pattern_block (gen : Z → Z) (len base : Z) : list Z :=
  map (λ j, gen (u64 (base + Z.of_nat j))) (seq 0 (Z.to_nat len)).

Fixpoint pattern_write (n : nat) (offs : Z) (buff : list Z) (len : Z) (gen : option (Z → Z)) (i time : Z) : B Z :=
  match n with
  | O => mret (i64 time)
  | S n =>
      let buff := match gen with Some g => pattern_block g len (i * len) | None => buff end in
      start ← sys dev_time;
      r ← sys (dev_write buff);
      if negb (r =? len) then _ ← say (Io_error (u64 (offs + i * len))); mret (- EIO)
      else
        stop ← sys dev_time;
        pattern_write n offs buff len gen (i + 1) (u64 (time + test_disk_time start stop))
  end.
Definition test_disk_patternwtime (offs : Z) (buff : list Z) (len n : Z) (gen : option (Z → Z)) : B Z :=
  pattern_write (Z.to_nat n) offs buff len gen 0 0.

Definition test_disk_patterntime (offs blocksz n : Z) (gen : option (Z → Z)) : B Z :=
  buff ← sys (dev_malloc blocksz);
  match buff with
  | None => mret (- ENOMEM)
  | Some buff =>
      r ← test_disk_lseek offs;
      if r <? 0 then _ ← say (Bad_lseek offs); mret (- EINVAL)
      else
        wret ← test_disk_patternwtime offs buff blocksz n gen;
        if wret <? 0 then mret wret
        else
          r ← test_disk_lseek offs;
          if r <? 0 then _ ← say (Bad_lseek offs); mret (- EINVAL)
          else
            rret ← test_disk_patternrtime offs buff blocksz n gen;
            if rret <? 0 then mret rret else mret (i64 (u64 (u64 wret + u64 rret)))
  end.

(** ** The tests *)

(** The text printf shows for the pointer test_disk_prefix returned. *)
Definition shown (r : option (list Z * nat)) : option (list Z) := '(text, off) ← r; Some (drop off text).

(** One measured seek: [t] is unsigned, so an error code is not below zero
    but far above SEEK_MAX_TIME. *)
Definition seek_point (offs : Z) (acc : Z * Z) : B (Z * Z) :=
  t ← test_disk_seektime offs;
  let t := u64 t in
  mret (if (SEEK_MIN_TIME <? t) && (t <? SEEK_MAX_TIME) then (u64 (acc.1 + t), u32 (acc.2 + 1)) else acc).

Fixpoint seek_loop (fuel : nat) (stride i j : Z) (acc : Z * Z) : B (Z * Z) :=
  match fuel with
  | O => undef
  | S fuel =>
      if i <? j then
        acc ← seek_point i acc;
        acc ← seek_point j acc;
        seek_loop fuel stride (u64 (i + stride)) (u64 (j - stride)) acc
      else mret acc
  end.

Definition seek_stride (disksz : Z) : Z := (disksz / SEEK_POINTS / SEEK_MIN_STRIDE + 1) * SEEK_MIN_STRIDE.

Definition test_disk_seek (disksz : Z) : B Z :=
  let stride := seek_stride disksz in
  '(time, nseeks) ← seek_loop 2000 stride 0 (if stride <? disksz then disksz - stride else 0) (0, 0);
  if negb (nseeks =? 0) then
    p ← pure (test_disk_prefix 10 (i32 (time / nseeks)) (-6) 1);
    _ ← say (Seek_average (shown p)); mret 0
  else _ ← say No_seeks; mret 0.

Fixpoint zone_loop (fuel : nat) (bound stride len offs : Z) (acc : Z * Z) : B (Z * Z) :=
  match fuel with
  | O => undef
  | S fuel' =>
      if offs <? bound then
        t ← test_disk_zonetime fuel offs len;
        zone_loop fuel' bound stride len (u64 (offs + stride)) (u64 (acc.1 + u64 t), u32 (acc.2 + 1))
      else mret acc
  end.

Definition zone_stride (disksz : Z) : Z := (disksz / ZONE_POINTS / ZONE_MIN_STRIDE + 1) * ZONE_MIN_STRIDE.

Definition test_disk_zone (fuel : nat) (disksz blocksz : Z) : B Z :=
  let stride := zone_stride disksz in
  let len := blocksz / dev_page_size * dev_page_size in
  ok ← sys (dev_mmap len);
  if negb ok then _ ← say No_memory; mret (- ENOMEM)
  else
    r ← test_disk_lseek 0;
    if r <? 0 then _ ← say (Bad_lseek 0); mret (- EINVAL)
    else
      '(n, _) ← sys (dev_read 512);
      if negb (n =? 512) then _ ← say (Io_error 0); mret (- EIO)
      else
        '(time, nzones) ← zone_loop fuel (u64 (disksz - len - 1024)) stride len 0 (0, 0);
        if negb (nzones =? 0) then
          p ← pure (test_disk_prefix 10 (i32 (time / nzones)) (-6) 1);
          _ ← say (Zone_average (shown p)); mret 0
        else _ ← say No_zones; mret 0.

Definition test_disk_pattern00 (idx : Z) : Z := 0.
Definition test_disk_patternFF (idx : Z) : Z := 255.
Definition test_disk_pattern55 (idx : Z) : Z := 85.
Definition test_disk_patternAA (idx : Z) : Z := 170.

Fixpoint patternone_loop (k : nat) (blocks : Z) (gen : Z → Z) : B Z :=
  match k with
  | O => mret 0
  | S k =>
      r1 ← sys dev_rand;
      if blocks =? 0 then undef
      else
        let offs := u64 r1 mod blocks in
        r2 ← sys dev_rand;
        let n := u64 (Z.rem r2 PATTERN_MAX_BLOCKS + 1) in
        let n := if blocks <? u64 (offs + n) then blocks - offs else n in
        r ← test_disk_patterntime (offs * BLOCK_SIZE) BLOCK_SIZE n (Some gen);
        if r <? 0 then mret (- EFAULT) else patternone_loop k blocks gen
  end.

Definition test_disk_patternone (disksz : Z) (gen : Z → Z) : B Z :=
  patternone_loop PATTERN_POINTS (disksz / BLOCK_SIZE) gen.

(** One row of the table. A time of 0 microseconds divides by zero. *)
Definition test_disk_perfone (offs blocksz n : Z) : B Z :=
  buff ← sys (dev_malloc blocksz);
  match buff with
  | None => mret (- ENOMEM)
  | Some buff =>
      r ← test_disk_lseek offs;
      if r <? 0 then _ ← say (Bad_lseek offs); mret (- EFAULT)
      else
        swtime ← test_disk_patternwtime offs buff blocksz n None;
        if swtime <? 0 then mret swtime
        else
          r ← test_disk_lseek offs;
          if r <? 0 then _ ← say (Bad_lseek offs); mret (- EFAULT)
          else
            srtime ← test_disk_patternrtime offs buff blocksz n None;
            if srtime <? 0 then mret srtime
            else if (srtime =? 0) || (swtime =? 0) then undef
            else
              let bytes := u64 (u64 (1000000 * n) * blocksz) in
              pb ← pure (test_disk_prefix 2 (i32 blocksz) 0 0);
              pr ← pure (test_disk_prefix 2 (i32 (bytes / srtime)) 0 1);
              pw ← pure (test_disk_prefix 2 (i32 (bytes / swtime)) 0 1);
              _ ← say (Perf_row (shown pb) (u64 (2000000 * n) / u64 (srtime + swtime)) (shown pr) (shown pw));
              mret 0
  end.

(** The four patterns in turn. *)
Fixpoint pattern_tests (disksz : Z) (gens : list (Z * (Z → Z))) : B Z :=
  match gens with
  | [] => _ ← say Pattern_success; mret 0
  | (name, g) :: gens =>
      _ ← say (Testing_pattern name);
      err ← test_disk_patternone disksz g;
      if err <? 0 then mret err else pattern_tests disksz gens
  end.
Definition test_disk_pattern (disksz : Z) : B Z :=
  pattern_tests disksz [(0, test_disk_pattern00); (255, test_disk_patternFF);
                        (85, test_disk_pattern55); (170, test_disk_patternAA)].

(** [for (i = BLOCK_SIZE; i <= len / 4; i <<= 1)] *)
Fixpoint perf_loop (fuel : nat) (len i : Z) : B Z :=
  match fuel with
  | O => undef
  | S fuel =>
      if i <=? len / 4 then
        err ← test_disk_perfone 0 i (len / i);
        if err <? 0 then mret err else perf_loop fuel len (u64 (Z.shiftl i 1))
      else mret 0
  end.
Definition test_disk_perf (disksz : Z) : B Z :=
  let len := if disksz <? PERF_BLOCKS * BLOCK_SIZE then disksz else PERF_BLOCKS * BLOCK_SIZE in
  _ ← say Perf_header;
  perf_loop 64 len BLOCK_SIZE.

(** main: [args] is the number of arguments after the program's name,
    [open_ok] whether the device opens. *)
Definition test_disk_main (fuel : nat) (args : nat) (open_ok : bool) : B Z :=
  if negb (args =? 1)%nat then _ ← say Usage; mret 0
  else
    _ ← say Starting;
    if negb open_ok then _ ← say Open_failed; mret (- EINVAL)
    else
      size ← test_disk_size fuel;
      if size =? 0 then _ ← say Too_small; mret 0
      else
        _ ← say (Capacity (size / 2 ^ 20));
        _ ← say Starting_seek; _ ← test_disk_seek size;
        _ ← say Starting_zone; _ ← test_disk_zone fuel size (2 ^ 20);
        _ ← say Starting_pattern; _ ← test_disk_pattern size;
        _ ← say Starting_perf; _ ← test_disk_perf size;
        mret 0.
End bench.
