(* ===== verification/DiskBenchProps.v ===== *)
(** * Properties of the disk benchmark

    What the benchmark does on a device that behaves as lseek, read and write
    are documented to: the size it finds, the offsets it visits, that the
    pattern test never raises a false alarm and sees every wrong byte, and
    where its unsigned arithmetic goes wrong. *)

From S2P Require Import Prelude CMachine DiskPrefix DiskBench.

(** ** A working disk *)

(** [capacity] bytes, a position and contents. Seeking past the end succeeds;
    reads and writes stop at the end. *)
Class DiskLaws `{Disk} := {
  capacity : Z;
  pos : dev → Z;
  byte : dev → Z → Z;
  capacity_range : 0 ≤ capacity < 2 ^ 62;
  law_set d r d' : dev_lseek_set 0 d = (r, d') → pos d' = 0 ∧ ∀ a, byte d' a = byte d a;
  law_cur off d r d' : dev_lseek_cur off d = (r, d') → 0 ≤ off → 0 ≤ pos d → pos d + off < 2 ^ 62 →
    r = pos d + off ∧ pos d' = r ∧ ∀ a, byte d' a = byte d a;
  law_read n d r data d' : dev_read n d = ((r, data), d') → 0 ≤ n → 0 ≤ pos d →
    r = Z.max 0 (Z.min n (capacity - pos d)) ∧ pos d' = pos d + r ∧ (∀ a, byte d' a = byte d a) ∧
    data = map (λ k, byte d (pos d + Z.of_nat k)) (seq 0 (Z.to_nat r));
  law_write bs d r d' : dev_write bs d = (r, d') → 0 ≤ pos d →
    r = Z.max 0 (Z.min (Z.of_nat (length bs)) (capacity - pos d)) ∧ pos d' = pos d + r ∧
    ∀ a, byte d' a = if (pos d <=? a) && (a <? pos d + r) then nth (Z.to_nat (a - pos d)) bs 0 else byte d a;
  law_time d t d' : dev_time d = (t, d') → 0 ≤ t.1 < 2 ^ 32 ∧ 0 ≤ t.2 < 1000000 ∧
    pos d' = pos d ∧ ∀ a, byte d' a = byte d a;
  law_rand d r d' : dev_rand d = (r, d') → 0 ≤ r < 2 ^ 31 ∧ pos d' = pos d ∧ ∀ a, byte d' a = byte d a;
  law_malloc n d r d' : dev_malloc n d = (r, d') → pos d' = pos d ∧ (∀ a, byte d' a = byte d a) ∧
    ∃ bs, r = Some bs ∧ length bs = Z.to_nat n;
}.

(** ** Total correctness *)

(** [m] ends from [b], with a result and a state in [Q]. *)
Definition runs `{Disk} {A} (m : B A) (b : bench) (Q : A → bench → Prop) : Prop :=
  ∃ a b', m b = Some (a, b') ∧ Q a b'.

Section logic.
Context `{Disk}.

Lemma runs_ret {A} (a : A) b (Q : A → bench → Prop) : Q a b → runs (mret a) b Q.
Proof. intros HQ. by exists a, b. Qed.

Lemma runs_bind {A C} (m : B A) (f : A → B C) b (Q : C → bench → Prop) :
  runs m b (λ a b', runs (f a) b' Q) → runs (m ≫= f) b Q.
Proof.
  intros (a & b' & E & c & b'' & E' & HQ). exists c, b''. split; [|done].
  unfold mbind, B_bind. by rewrite E.
Qed.

Lemma runs_weaken {A} (m : B A) b (Q R : A → bench → Prop) :
  runs m b Q → (∀ a b', Q a b' → R a b') → runs m b R.
Proof. intros (a & b' & ? & ?) HR. exists a, b'. auto. Qed.

Lemma runs_sys {A} (f : dev → A * dev) b (Q : A → bench → Prop) :
  (∀ a d', f (b_dev b) = (a, d') → Q a (mkBench d' (b_log b))) → runs (sys f) b Q.
Proof. intros HQ. unfold sys, runs. destruct (f (b_dev b)) as [a d'] eqn:E. eauto. Qed.

Lemma runs_say m b (Q : unit → bench → Prop) : Q () (mkBench (b_dev b) (m :: b_log b)) → runs (say m) b Q.
Proof. intros HQ. unfold say, runs. eauto. Qed.

Lemma runs_pure {A} (a : A) b (Q : A → bench → Prop) : Q a b → runs (pure (Some a)) b Q.
Proof. intros HQ. unfold pure, runs. cbn [mbind option_bind]. eauto. Qed.
End logic.

Section disk.
Context `{DiskLaws}.

(** The device is at [p] with contents [c], and [l] was printed. *)
Definition holds (p : Z) (c : Z → Z) (l : list disk_msg) (b : bench) : Prop :=
  pos (b_dev b) = p ∧ (∀ a, byte (b_dev b) a = c a) ∧ b_log b = l.

(** Rules for the calls, from the laws. *)
Lemma holds_set p c l b (Q : Z → bench → Prop) : holds p c l b →
  (∀ r b', holds 0 c l b' → Q r b') → runs (sys (dev_lseek_set 0)) b Q.
Proof.
  intros (Hp & Hc & Hl) HQ. apply runs_sys. intros r d' E. apply law_set in E as [E1 E2].
  apply HQ. split_and!; [done|intros; cbn; by rewrite E2|done].
Qed.

Lemma holds_cur off p c l b (Q : Z → bench → Prop) : holds p c l b → 0 ≤ off → 0 ≤ p → p + off < 2 ^ 62 →
  (∀ b', holds (p + off) c l b' → Q (p + off) b') → runs (sys (dev_lseek_cur off)) b Q.
Proof.
  intros (<- & Hc & Hl) Ho Hp Hb HQ. apply runs_sys. intros r d' E. apply law_cur in E as (E1 & E2 & E3); [|done..].
  rewrite E1. apply HQ. split_and!; [cbn; lia|intros; cbn; by rewrite E3|done].
Qed.

Lemma holds_read n p c l b (Q : Z * list Z → bench → Prop) : holds p c l b → 0 ≤ n → 0 ≤ p →
  (∀ b', let r := Z.max 0 (Z.min n (capacity - p)) in
     holds (p + r) c l b' → Q (r, map (λ k, c (p + Z.of_nat k)) (seq 0 (Z.to_nat r))) b') →
  runs (sys (dev_read n)) b Q.
Proof.
  intros (<- & Hc & Hl) Hn Hp HQ. apply runs_sys. intros [r data] d' E. apply law_read in E as (-> & E2 & E3 & ->); [|done..].
  erewrite map_ext; [apply HQ|]; [|intros; apply Hc].
  split_and!; [done|intros; cbn; by rewrite E3|done].
Qed.

Lemma holds_time p c l b (Q : Z * Z → bench → Prop) : holds p c l b →
  (∀ t b', 0 ≤ t.1 < 2 ^ 32 → 0 ≤ t.2 < 1000000 → holds p c l b' → Q t b') → runs (sys dev_time) b Q.
Proof.
  intros (Hp & Hc & Hl) HQ. apply runs_sys. intros t d' E. apply law_time in E as (E1 & E2 & E3 & E4).
  apply HQ; [done..|]. split_and!; [cbn; by rewrite E3|intros; cbn; by rewrite E4|done].
Qed.

Lemma holds_rand p c l b (Q : Z → bench → Prop) : holds p c l b →
  (∀ r b', 0 ≤ r < 2 ^ 31 → holds p c l b' → Q r b') → runs (sys dev_rand) b Q.
Proof.
  intros (Hp & Hc & Hl) HQ. apply runs_sys. intros t d' E. apply law_rand in E as (E1 & E3 & E4).
  apply HQ; [done..|]. split_and!; [cbn; by rewrite E3|intros; cbn; by rewrite E4|done].
Qed.

Lemma holds_malloc n p c l b (Q : option (list Z) → bench → Prop) : holds p c l b →
  (∀ bs b', length bs = Z.to_nat n → holds p c l b' → Q (Some bs) b') → runs (sys (dev_malloc n)) b Q.
Proof.
  intros (Hp & Hc & Hl) HQ. apply runs_sys. intros t d' E. apply law_malloc in E as (E3 & E4 & bs & -> & Hb).
  apply HQ; [done..|]. split_and!; [cbn; by rewrite E3|intros; cbn; by rewrite E4|done].
Qed.

(** [bs] written over [c] at [p]. *)
Definition over (p : Z) (bs : list Z) (c : Z → Z) (a : Z) : Z :=
  if (p <=? a) && (a <? p + Z.of_nat (length bs)) then nth (Z.to_nat (a - p)) bs 0 else c a.

Lemma holds_write bs p c l b (Q : Z → bench → Prop) : holds p c l b → 0 ≤ p → p + Z.of_nat (length bs) ≤ capacity →
  (∀ b', holds (p + Z.of_nat (length bs)) (over p bs c) l b' → Q (Z.of_nat (length bs)) b') →
  runs (sys (dev_write bs)) b Q.
Proof.
  intros (<- & Hc & Hl) Hp Hb HQ. apply runs_sys. intros r d' E. apply law_write in E as (-> & E2 & E3); [|done..].
  rewrite Z.min_l, Z.max_r in * by lia. apply HQ. split_and!; [done| |done].
  intros a. cbn. rewrite E3. unfold over. by rewrite Hc.
Qed.

(** ** Seeking *)

Lemma lseek_loop_runs fuel offs i c l b : 0 ≤ i ≤ offs → offs < 2 ^ 62 → offs - i < Z.of_nat fuel * 2 ^ 30 →
  holds i c l b →
  runs (lseek_loop fuel offs i) b (λ j b', 0 ≤ j ≤ offs ∧ holds j c l b').
Proof.
  revert i b. induction fuel as [|fuel IH]; intros i b Hi Ho Hf Hh; [lia|]. cbn [lseek_loop].
  unfold u64. rewrite uwrap_small by lia.
  destruct (Z.ltb_spec (2 ^ 30) (offs - i)); [|apply runs_ret; split; [lia|done]].
  apply runs_bind, (holds_cur _ _ _ _ _ _ Hh); [lia..|]. intros b' Hh'.
  rewrite (proj2 (Z.ltb_ge _ _)) by lia. rewrite uwrap_small by lia.
  apply IH; [lia..|done].
Qed.

Lemma test_disk_lseek_runs offs p c l b : 0 ≤ offs < 2 ^ 62 → holds p c l b →
  runs (test_disk_lseek offs) b (λ r b', r = i32 offs ∧ holds offs c l b').
Proof.
  intros Ho Hh. unfold test_disk_lseek. apply runs_bind, (holds_set _ _ _ _ _ Hh). intros _ b1 Hh1.
  apply runs_bind. eapply runs_weaken.
  - apply (lseek_loop_runs _ offs 0 c l b1); [lia..| |done].
    pose proof (Z.div_mod offs (2 ^ 30)). pose proof (Z.mod_pos_bound offs (2 ^ 30)).
    assert (0 ≤ offs / 2 ^ 30) by (apply Z.div_pos; lia). lia.
  - intros i b2 [Hi Hh2]. cbn beta. unfold i64. rewrite swrap_small by lia.
    apply runs_bind, (holds_cur _ _ _ _ _ _ Hh2); [lia..|]. intros b3 Hh3.
    apply runs_ret. replace (i + (offs - i)) with offs in * by lia. done.
Qed.

(** ** Sizing *)

(** The offsets a probe accepts: a whole block of the disk, reachable by an
    int. *)
Definition good (offs : Z) : bool := (offs <? 2 ^ 31) && (offs + BLOCK_SIZE <=? capacity).

Lemma size_probe_runs offs p c l b : 0 ≤ offs < 2 ^ 32 → holds p c l b →
  runs (size_probe offs) b (λ ok b', ok = good offs ∧ ∃ q, holds q c l b').
Proof.
  intros Ho Hh. unfold size_probe. apply runs_bind. eapply runs_weaken; [by apply (test_disk_lseek_runs _ p); [lia|]|].
  intros r b1 [-> Hh1]. unfold good, i32. destruct (Z.ltb_spec offs (2 ^ 31)); cbn [andb].
  - rewrite swrap_small, (proj2 (Z.ltb_ge offs 0)) by lia.
    apply runs_bind, (holds_read _ _ _ _ _ _ Hh1); [done|lia|]. intros b2 r Hh2.
    apply runs_ret. split; [|by eexists]. unfold r, BLOCK_SIZE. apply eq_true_iff_eq.
    rewrite Z.eqb_eq, Z.leb_le. lia.
  - assert (Hneg : swrap 32 offs < 0).
    { replace offs with (offs - 2 ^ 32 + 1 * 2 ^ 32) by lia. rewrite <- swrap_uwrap, uwrap_add_mul, swrap_uwrap by lia.
      rewrite swrap_small; lia. }
    rewrite (proj2 (Z.ltb_lt _ 0) Hneg). apply runs_ret. eauto.
Qed.

Lemma size_loop_runs fuel step offs p c l b :
  0 < step ≤ 2 ^ 30 → 0 ≤ offs < 2 ^ 31 → 2 ^ 31 - offs < Z.of_nat fuel * step → holds p c l b →
  runs (size_loop fuel step offs) b (λ r b', (∃ k, 0 ≤ k ∧ r = offs + k * step) ∧ (r = offs ∨ good r = true) ∧
    good (r + step) = false ∧ r < 2 ^ 31 ∧ ∃ q, holds q c l b').
Proof.
  revert offs p b. induction fuel as [|fuel IH]; intros offs p b Hs Ho Hf Hh; [lia|]. cbn [size_loop].
  unfold u64. rewrite uwrap_small by lia. apply runs_bind. eapply runs_weaken; [by apply (size_probe_runs _ p); [lia|]|].
  intros ok b1 [-> [q Hh1]]. cbn beta. destruct (good (offs + step)) eqn:Hg.
  - unfold good in Hg. apply andb_true_iff in Hg as [Hg1%Z.ltb_lt Hg2%Z.leb_le].
    eapply runs_weaken; [apply (IH _ q); [done|lia|lia|done]|].
    intros r b2 ((k & Hk & ->) & Hr & Hn & Hlt & Hh4). split_and!; try done.
    + exists (k + 1). lia.
    + destruct Hr as [Hr| ->]; [|by right]. right. unfold good. rewrite Hr, (proj2 (Z.ltb_lt _ _)), (proj2 (Z.leb_le _ _)) by lia. done.
  - apply runs_ret. rewrite uwrap_small by lia. replace (offs + step - step) with offs by lia.
    split_and!; [by exists 0; lia|by left|done|lia|eauto].
Qed.

(** The number of whole MiB whose first block the benchmark reaches. *)
Definition found_mib : Z := Z.max 0 (Z.min ((capacity - BLOCK_SIZE) / 2 ^ 20) 2047).

Lemma test_disk_size_runs fuel p c l b : (2049 ≤ fuel)%nat → holds p c l b →
  runs (test_disk_size fuel) b (λ r b', r = 2 ^ 20 * found_mib ∧ ∃ q, holds q c l b').
Proof.
  intros Hf Hh. unfold test_disk_size.
  apply runs_bind. eapply runs_weaken; [apply (size_loop_runs fuel (2 ^ 30) 0 p); [lia..|done]|].
  intros r1 b1 ((k1 & Hk1 & E1) & G1 & _ & L1 & q1 & Hh1).
  apply runs_bind. eapply runs_weaken; [apply (size_loop_runs fuel (2 ^ 25) r1 q1); [lia..|done]|].
  intros r2 b2 ((k2 & Hk2 & E2) & G2 & _ & L2 & q2 & Hh2).
  eapply runs_weaken; [apply (size_loop_runs fuel (2 ^ 20) r2 q2); [lia..|done]|].
  intros r3 b3 ((k3 & Hk3 & E3) & G3 & N3 & L3 & q3 & Hh3). split; [|eauto].
  assert (Hr : r3 = 0 ∨ good r3 = true).
  { destruct G3 as [-> |]; [|by right]. destruct G2 as [-> |]; [|by right]. destruct G1 as [-> |]; [by left|by right]. }
  unfold found_mib, good, BLOCK_SIZE in *. rewrite andb_true_iff, Z.ltb_lt, Z.leb_le in Hr.
  rewrite andb_false_iff, Z.ltb_ge, Z.leb_gt in N3.
  pose proof (Z.div_mod (capacity - 512) (2 ^ 20)). pose proof (Z.mod_pos_bound (capacity - 512) (2 ^ 20)). lia.
Qed.

(** ** Seek times *)

Lemma test_disk_time_range t t' : 0 ≤ t.1 < 2 ^ 32 → 0 ≤ t.2 < 1000000 → 0 ≤ t'.1 < 2 ^ 32 → 0 ≤ t'.2 < 1000000 →
  0 ≤ test_disk_time t t' < 2 ^ 52.
Proof. destruct t, t'. cbn [fst snd]. intros. rewrite test_disk_time_elapsed by lia. lia. Qed.

Lemma test_disk_seektime_runs offs p c l b : 0 ≤ offs < 2 ^ 31 → offs + BLOCK_SIZE ≤ capacity → holds p c l b →
  runs (test_disk_seektime offs) b (λ t b', 0 ≤ t < 2 ^ 52 ∧ ∃ q, holds q c l b').
Proof.
  intros Ho Hc Hh. unfold test_disk_seektime. apply runs_bind, (holds_time _ _ _ _ _ Hh). intros t b1 Ht Ht' Hh1.
  apply runs_bind. eapply runs_weaken; [by apply (test_disk_lseek_runs _ p); [lia|]|].
  intros r b2 [-> Hh2]. unfold i32. rewrite swrap_small, (proj2 (Z.ltb_ge offs 0)) by lia.
  apply runs_bind, (holds_read _ _ _ _ _ _ Hh2); [done|lia|]. intros b3 r Hh3.
  unfold BLOCK_SIZE in *. assert (r = 512) as -> by lia. cbn [Z.eqb negb].
  apply runs_bind, (holds_time _ _ _ _ _ Hh3). intros t' b4 Ht1 Ht1' Hh4.
  apply runs_ret. pose proof (test_disk_time_range t t' Ht Ht' Ht1 Ht1').
  unfold i64. rewrite swrap_small by lia. eauto.
Qed.

(** Accumulated times, at most a second each. *)
Definition acc_ok (k : Z) (acc : Z * Z) : Prop := 0 ≤ acc.2 ≤ k ∧ 0 ≤ acc.1 ≤ acc.2 * SEEK_MAX_TIME.

Lemma seek_point_runs offs k acc p c l b : 0 ≤ offs < 2 ^ 31 → offs + BLOCK_SIZE ≤ capacity → 0 ≤ k ≤ 4000 →
  acc_ok k acc → holds p c l b →
  runs (seek_point offs acc) b (λ acc' b', acc_ok (k + 1) acc' ∧ ∃ q, holds q c l b').
Proof.
  intros Ho Hc Hk [Ha Ha'] Hh. unfold seek_point. apply runs_bind.
  eapply runs_weaken; [by apply (test_disk_seektime_runs _ p)|]. intros t b1 [Ht Hh1]. cbn beta.
  apply runs_ret. split; [|done]. unfold u64, u32, acc_ok, SEEK_MAX_TIME, SEEK_MIN_TIME in *.
  rewrite (uwrap_small 64 t) by lia.
  destruct (Z.ltb_spec 1000 t), (Z.ltb_spec t 1000000); cbn [andb fst snd]; [|lia..].
  rewrite !uwrap_small by lia. lia.
Qed.

Lemma seek_loop_runs fuel stride D i k acc p c l b :
  512 ≤ stride → 2 * stride ≤ D → D ≤ capacity → D ≤ 2 ^ 31 → 0 ≤ i → 0 ≤ D - stride - i →
  D - stride - 2 * i ≤ 2 * stride * (Z.of_nat fuel - 1) → (0 < fuel)%nat →
  0 ≤ k → k + 2 * Z.of_nat fuel ≤ 4000 → acc_ok k acc → (i = 0 ∨ stride ≤ i) → holds p c l b →
  runs (seek_loop fuel stride i (D - stride - i) acc) b (λ acc' b', acc_ok 4000 acc' ∧ ∃ q, holds q c l b').
Proof.
  revert i k acc p b. induction fuel as [|fuel IH]; intros i k acc p b Hs HD Hc H31 Hi Hj Hm Hf Hk Hk' Ha Hi' Hh; [lia|].
  cbn [seek_loop]. destruct (Z.ltb_spec i (D - stride - i)).
  - apply runs_bind. eapply runs_weaken; [by apply (seek_point_runs _ k _ p); unfold BLOCK_SIZE; [lia..| |]|].
    intros acc1 b1 [Ha1 [q1 Hh1]]. apply runs_bind.
    eapply runs_weaken; [by apply (seek_point_runs _ (k + 1) _ q1); unfold BLOCK_SIZE; [lia..| |]|].
    intros acc2 b2 [Ha2 [q2 Hh2]]. cbn beta.
    assert (D < 2 ^ 31 + 1) by lia. unfold u64. rewrite !uwrap_small by lia.
    replace (D - stride - i - stride) with (D - stride - (i + stride)) by lia.
    destruct fuel as [|fuel]; [lia|].
    apply (IH (i + stride) (k + 2) acc2 q2); try done; try lia. by replace (k + 2) with (k + 1 + 1) by lia.
  - apply runs_ret. split; [|eauto]. destruct Ha. split; lia.
Qed.

Lemma seek_stride_bounds D : 2 ^ 20 ≤ D ≤ 2 ^ 31 →
  512 ≤ seek_stride D ∧ 2 * seek_stride D ≤ D ∧ D < 2000 * seek_stride D.
Proof.
  intros HD. unfold seek_stride, SEEK_POINTS, SEEK_MIN_STRIDE. rewrite Z.div_div by lia.
  pose proof (Z.div_mod D (2000 * 512)). pose proof (Z.mod_pos_bound D (2000 * 512)). lia.
Qed.

Lemma test_disk_seek_runs D p c l b : 2 ^ 20 ≤ D ≤ 2 ^ 31 → D ≤ capacity → holds p c l b →
  runs (test_disk_seek D) b (λ r b', r = 0 ∧ ∃ q m, (m = No_seeks ∨ ∃ t, m = Seek_average t) ∧ holds q c (m :: l) b').
Proof.
  intros HD Hc Hh. unfold test_disk_seek. destruct (seek_stride_bounds D HD) as (Hs1 & Hs2 & Hs3).
  rewrite (proj2 (Z.ltb_lt _ _)) by lia. apply runs_bind. eapply runs_weaken.
  - replace (D - seek_stride D) with (D - seek_stride D - 0) by lia.
    apply (seek_loop_runs 2000 (seek_stride D) D 0 0 (0, 0) p c l); try lia; [split; cbn; lia|done].
  - intros [time n] b1 [[Hn Ht] (q & Hq & Hcc & Hl)]. cbn [fst snd] in Hn, Ht.
    destruct (Z.eqb_spec n 0) as [->|Hn0]; cbn [negb].
    + apply runs_bind, runs_say, runs_ret. split; [done|]. exists q, No_seeks. split; [by left|].
      split_and!; [done..|cbn; by rewrite Hl].
    + assert (Havg : 0 ≤ time / n ≤ 1000000).
      { split; [apply Z.div_pos; lia|]. apply Z.div_le_upper_bound; unfold SEEK_MAX_TIME in *; lia. }
      unfold i32. rewrite swrap_small by lia.
      destruct (prefix_parts 10 (time / n) (-6) 1) as (e & i & f & pr & -> & _); [by right|lia..|].
      apply runs_bind, runs_pure, runs_bind, runs_say, runs_ret. split; [done|].
      eexists q, _. split; [right; eexists; reflexivity|]. split_and!; [done..|cbn; by rewrite Hl].
Qed.

(** ** Patterns *)

Lemma holds_ext p c c' l b : (∀ a, c a = c' a) → holds p c l b → holds p c' l b.
Proof. intros E (? & Hc & ?). split_and!; [done|intros; by rewrite Hc|done]. Qed.

(** The first [m] bytes at [offs] hold the pattern. *)
Definition painted (offs m : Z) (g : Z → Z) (c : Z → Z) (a : Z) : Z :=
  if (offs <=? a) && (a <? offs + m) then g (a - offs) else c a.

Lemma painted_0 offs g c a : painted offs 0 g c a = c a.
Proof. unfold painted. destruct (Z.leb_spec offs a), (Z.ltb_spec a (offs + 0)); done || lia. Qed.

Lemma length_pattern_block g len base : length (pattern_block g len base) = Z.to_nat len.
Proof. unfold pattern_block. by rewrite length_map, length_seq. Qed.

Lemma over_pattern offs i len g c a : 0 ≤ i → 0 < len → i * len + len < 2 ^ 64 →
  over (offs + i * len) (pattern_block g len (i * len)) (painted offs (i * len) g c) a = painted offs ((i + 1) * len) g c a.
Proof.
  intros Hi Hl Hb. unfold over. rewrite length_pattern_block, Z2Nat.id by lia. unfold painted.
  destruct (Z.leb_spec (offs + i * len) a), (Z.ltb_spec a (offs + i * len + len)); cbn [andb].
  - rewrite (proj2 (Z.leb_le offs a)), (proj2 (Z.ltb_lt _ _)) by nia. cbn [andb].
    assert (Hj : (Z.to_nat (a - (offs + i * len)) < Z.to_nat len)%nat) by lia.
    unfold pattern_block. rewrite (nth_indep _ 0 (g (u64 (i * len + Z.of_nat 0)))) by (rewrite length_map, length_seq; lia).
    rewrite (map_nth (λ j, g (u64 (i * len + Z.of_nat j)))), seq_nth, Nat.add_0_l, Z2Nat.id by lia.
    unfold u64. rewrite uwrap_small by nia. f_equal. lia.
  - rewrite !(proj2 (Z.ltb_ge _ _)) by nia. by rewrite !andb_false_r.
  - destruct (Z.leb_spec offs a); cbn [andb]; [|done]. rewrite !(proj2 (Z.ltb_lt _ _)) by nia. done.
  - lia.
Qed.

Lemma pattern_write_runs n offs buff len g i time c l b :
  0 < len ≤ 2 ^ 20 → 0 ≤ offs → 0 ≤ i → i + Z.of_nat n ≤ 512 → offs + (i + Z.of_nat n) * len ≤ capacity →
  0 ≤ time ≤ i * 2 ^ 52 → holds (offs + i * len) (painted offs (i * len) g c) l b →
  runs (pattern_write n offs buff len (Some g) i time) b
    (λ r b', 0 ≤ r < 2 ^ 62 ∧ ∃ q, holds q (painted offs ((i + Z.of_nat n) * len) g c) l b').
Proof.
  revert i time buff b. induction n as [|n IH]; intros i time buff b Hl Ho Hi Hn Hc Ht Hh; cbn [pattern_write].
  - apply runs_ret. unfold i64. rewrite swrap_small by lia. rewrite Z.add_0_r. split; [lia|eauto].
  - apply runs_bind, (holds_time _ _ _ _ _ Hh). intros t b1 Ht1 Ht2 Hh1.
    pose proof capacity_range.
    apply runs_bind, (holds_write _ _ _ _ _ _ Hh1); rewrite ?length_pattern_block, ?Z2Nat.id by lia; [nia..|].
    intros b2 Hh2. rewrite Z.eqb_refl. cbn [negb].
    apply runs_bind, (holds_time _ _ _ _ _ Hh2). intros t' b3 Ht1' Ht2' Hh3.
    pose proof (test_disk_time_range t t' Ht1 Ht2 Ht1' Ht2'). unfold u64. rewrite uwrap_small by lia.
    eapply runs_weaken; [apply (IH (i + 1)); [done|done|lia|lia|by replace (i + 1 + Z.of_nat n) with (i + Z.of_nat (S n)) by lia|lia|]|].
    + replace (offs + (i + 1) * len) with (offs + i * len + len) by lia.
      eapply holds_ext; [|done]. intros a. apply over_pattern; [done|lia|nia].
    + intros r b4. by replace (i + 1 + Z.of_nat n) with (i + Z.of_nat (S n)) by lia.
Qed.

(** The comparison of a block: nothing when it holds the pattern, or its first
    wrong byte. *)
Lemma pattern_mismatch_spec n g base s q c rest :
  match pattern_mismatch n g base (Z.of_nat s) (map (λ k, c (q + Z.of_nat k)) (seq s n) ++ rest) with
  | None => ∀ k, (s ≤ k < s + n)%nat → c (q + Z.of_nat k) = g (u64 (base + Z.of_nat k))
  | Some (j, e, x) => ∃ k, (s ≤ k < s + n)%nat ∧ j = Z.of_nat k ∧ e = g (u64 (base + j)) ∧ x = c (q + j) ∧ x ≠ e ∧
      ∀ k', (s ≤ k' < k)%nat → c (q + Z.of_nat k') = g (u64 (base + Z.of_nat k'))
  end.
Proof.
  revert s. induction n as [|n IH]; intros s; cbn [pattern_mismatch seq map app]; [lia|].
  destruct (Z.eqb_spec (c (q + Z.of_nat s)) (g (u64 (base + Z.of_nat s)))) as [E|E]; cbn [negb].
  - specialize (IH (S s)). replace (Z.of_nat s + 1) with (Z.of_nat (S s)) by lia.
    destruct (pattern_mismatch n g base _ _) as [[[j e] x]|].
    + destruct IH as (k & Hk & -> & -> & -> & Hx & Hlt). exists k. split_and!; try done; try lia.
      intros k' Hk'. destruct (decide (k' = s)) as [-> |]; [done|apply Hlt; lia].
    + intros k Hk. destruct (decide (k = s)) as [-> |]; [done|apply IH; lia].
  - exists s. split_and!; try done; lia.
Qed.

(** Reading back: the pattern is there, or the first wrong byte is reported. *)
Lemma pattern_read_runs n offs buff len g i time c l b :
  0 < len ≤ 2 ^ 20 → 0 ≤ offs → 0 ≤ i → i + Z.of_nat n ≤ 512 → offs + (i + Z.of_nat n) * len ≤ capacity →
  0 ≤ time ≤ i * 2 ^ 52 → holds (offs + i * len) c l b →
  runs (pattern_read n offs buff len (Some g) i time) b (λ r b',
    (0 ≤ r < 2 ^ 62 ∧ (∀ k, i * len ≤ k < (i + Z.of_nat n) * len → c (offs + k) = g k) ∧ ∃ q, holds q c l b') ∨
    (r = - EFAULT ∧ ∃ q k, i * len ≤ k < (i + Z.of_nat n) * len ∧ c (offs + k) ≠ g k ∧
      (∀ k', i * len ≤ k' < k → c (offs + k') = g k') ∧
      holds q c (Bad_pattern (offs + k) (g k) (c (offs + k)) :: l) b')).
Proof.
  revert i time buff b. induction n as [|n IH]; intros i time buff b Hl Ho Hi Hn Hc Ht Hh; cbn [pattern_read].
  { apply runs_ret. left. unfold i64. rewrite swrap_small by lia. split_and!; [lia..|eauto]. }
  pose proof capacity_range.
  assert (Hend : 0 ≤ i * len ∧ i * len + len ≤ (i + Z.of_nat (S n)) * len) by nia.
  apply runs_bind, (holds_time _ _ _ _ _ Hh). intros t b1 Ht1 Ht2 Hh1.
  apply runs_bind, (holds_read _ _ _ _ _ _ Hh1); [lia..|]. intros b2 r Hh2.
  assert (r = len) as -> by lia. rewrite Z.eqb_refl. cbn [negb].
  apply runs_bind, (holds_time _ _ _ _ _ Hh2). intros t' b3 Ht1' Ht2' Hh3. cbv zeta.
  pose proof (test_disk_time_range t t' Ht1 Ht2 Ht1' Ht2'). 
  assert (Et : u64 (time + test_disk_time t t') = time + test_disk_time t t') by (apply uwrap_small; lia). rewrite !Et.
  unfold stored at 1. pose proof (pattern_mismatch_spec (Z.to_nat len) g (i * len) 0 (offs + i * len) c
    (drop (length (map (λ k, c (offs + i * len + Z.of_nat k)) (seq 0 (Z.to_nat len)))) buff)) as Hm.
  change (Z.of_nat 0) with 0 in Hm.
  assert (Hidx : ∀ k : nat, (k < Z.to_nat len)%nat → c (offs + i * len + Z.of_nat k) = c (offs + (i * len + Z.of_nat k)) ∧
    u64 (i * len + Z.of_nat k) = i * len + Z.of_nat k).
  { intros k Hk. split; [f_equal; lia|]. unfold u64. apply uwrap_small. lia. }
  destruct (pattern_mismatch _ _ _ _ _) as [[[j e] x]|].
  - destruct Hm as (k & Hk & -> & -> & -> & Hx & Hlt). destruct (Hidx k ltac:(lia)) as [E1 E2].
    apply runs_bind, runs_say, runs_ret. right. split; [done|].
    exists (offs + i * len + len), (i * len + Z.of_nat k). rewrite E1, E2 in *. split_and!; [lia..|done| |].
    + intros k' Hk'. specialize (Hlt (Z.to_nat (k' - i * len))). destruct (Hidx (Z.to_nat (k' - i * len)) ltac:(lia)) as [E1' E2'].
      rewrite E1', E2' in Hlt. replace (i * len + Z.of_nat (Z.to_nat (k' - i * len))) with k' in Hlt by lia. apply Hlt. lia.
    + destruct Hh3 as (? & ? & Hlog). split_and!; [done..|]. cbn. rewrite Hlog. do 2 f_equal.
      unfold u64. rewrite uwrap_small by lia. lia.
  - eapply runs_weaken; [apply (IH (i + 1)); [done|done|lia|lia|nia|lia|]|].
    + by replace (offs + (i + 1) * len) with (offs + i * len + len) by lia.
    + replace (i + 1 + Z.of_nat n) with (i + Z.of_nat (S n)) by lia.
      assert (Hblock : ∀ k, i * len ≤ k < (i + 1) * len → c (offs + k) = g k).
      { intros k Hk. specialize (Hm (Z.to_nat (k - i * len)) ltac:(lia)).
        destruct (Hidx (Z.to_nat (k - i * len)) ltac:(lia)) as [E1' E2']. rewrite E1', E2' in Hm.
        by replace (i * len + Z.of_nat (Z.to_nat (k - i * len))) with k in Hm by lia. }
      intros r b4 [(Hr & Hall & Hq)|(-> & q & k & Hk & Hne & Hlt & Hq)]; [left|right].
      * split_and!; [lia..| |done]. intros k Hk. destruct (Z.lt_ge_cases k ((i + 1) * len)); [apply Hblock|apply Hall]; lia.
      * split; [done|]. exists q, k. split_and!; [lia..|done| |done].
        intros k' Hk'. destruct (Z.lt_ge_cases k' ((i + 1) * len)); [apply Hblock|apply Hlt]; lia.
Qed.

Lemma painted_in offs m g c k : 0 ≤ k < m → painted offs m g c (offs + k) = g k.
Proof.
  intros Hk. unfold painted. rewrite (proj2 (Z.leb_le _ _)), (proj2 (Z.ltb_lt _ _)) by lia. cbn [andb]. f_equal. lia.
Qed.

Lemma painted_out offs m g c a : a < offs ∨ offs + m ≤ a → painted offs m g c a = c a.
Proof.
  intros Ha. unfold painted. destruct (Z.leb_spec offs a), (Z.ltb_spec a (offs + m)); done || lia.
Qed.

Lemma test_disk_patterntime_runs offs n g p c l b :
  0 ≤ offs < 2 ^ 31 → 0 ≤ n ≤ 512 → offs + n * 512 ≤ capacity → holds p c l b →
  runs (test_disk_patterntime offs 512 n (Some g)) b
    (λ r b', 0 ≤ r ∧ ∃ q, holds q (painted offs (n * 512) g c) l b').
Proof.
  intros Ho Hn Hc Hh. unfold test_disk_patterntime. apply runs_bind, (holds_malloc _ _ _ _ _ _ Hh). intros bs b1 _ Hh1.
  assert (Hi : (i32 offs <? 0) = false) by (unfold i32; rewrite swrap_small by lia; lia).
  apply runs_bind. eapply runs_weaken; [by apply (test_disk_lseek_runs _ p); [lia|]|]. intros r b2 [-> Hh2]. rewrite Hi.
  apply runs_bind. unfold test_disk_patternwtime. eapply runs_weaken.
  { apply (pattern_write_runs (Z.to_nat n) offs bs 512 g 0 0 c l b2); try lia.
    replace (offs + 0 * 512) with offs by lia. eapply holds_ext; [|done]. intros a. by rewrite painted_0. }
  intros wret b3 [Hw [q3 Hh3]]. cbn beta. rewrite (proj2 (Z.ltb_ge wret 0)), Z2Nat.id, Z.add_0_l in * by lia.
  apply runs_bind. eapply runs_weaken; [by apply (test_disk_lseek_runs _ q3); [lia|]|]. intros r b4 [-> Hh4]. rewrite Hi.
  apply runs_bind. unfold test_disk_patternrtime. eapply runs_weaken.
  { apply (pattern_read_runs (Z.to_nat n) offs bs 512 g 0 0 (painted offs (n * 512) g c) l b4); try lia.
    by replace (offs + 0 * 512) with offs by lia. }
  intros rret b5 [(Hr & _ & q5 & Hh5)|(_ & q5 & k & Hk & Hne & _)]; cbn beta.
  - rewrite (proj2 (Z.ltb_ge rret 0)) by lia. apply runs_ret. split; [|eauto].
    unfold i64, u64. rewrite !uwrap_small, swrap_small by (rewrite ?uwrap_small by lia; lia). lia.
  - rewrite Z2Nat.id in Hk by lia. rewrite painted_in in Hne by lia. done.
Qed.

Lemma patternone_loop_runs k blocks g p c l b :
  0 < blocks → blocks * 512 ≤ capacity → blocks * 512 ≤ 2 ^ 31 → holds p c l b →
  runs (patternone_loop k blocks g) b (λ r b', r = 0 ∧
    ∃ q c', (∀ a, a < 0 ∨ blocks * 512 ≤ a → c' a = c a) ∧ holds q c' l b').
Proof.
  revert p c b. induction k as [|k IH]; intros p c b Hb Hc H31 Hh; cbn [patternone_loop].
  { apply runs_ret. split; [done|]. by exists p, c. }
  apply runs_bind, (holds_rand _ _ _ _ _ Hh). intros r1 b1 Hr1 Hh1. rewrite (proj2 (Z.eqb_neq blocks 0)) by lia.
  apply runs_bind, (holds_rand _ _ _ _ _ Hh1). intros r2 b2 Hr2 Hh2.
  unfold u64. rewrite (uwrap_small 64 r1) by lia. unfold PATTERN_MAX_BLOCKS, BLOCK_SIZE.
  pose proof (Z.mod_pos_bound r1 blocks ltac:(lia)). pose proof (Z.mod_pos_bound r2 512 ltac:(lia)).
  rewrite Z.rem_mod_nonneg, (uwrap_small 64 (r2 mod 512 + 1)), (uwrap_small 64 (_ + _)) by lia.
  set (offs := r1 mod blocks) in *. set (n := if blocks <? offs + (r2 mod 512 + 1) then blocks - offs else r2 mod 512 + 1).
  assert (Hn : 0 ≤ n ≤ 512 ∧ offs + n ≤ blocks) by (unfold n; destruct (Z.ltb_spec blocks (offs + (r2 mod 512 + 1))); lia).
  clearbody n. apply runs_bind. eapply runs_weaken; [by apply (test_disk_patterntime_runs _ _ _ p c l b2); [lia..|]|].
  intros r b3 [Hr [q Hh3]]. rewrite (proj2 (Z.ltb_ge r 0)) by lia.
  eapply runs_weaken; [by apply (IH q (painted (offs * 512) (n * 512) g c))|].
  intros r' b4 (-> & q' & c' & Hc' & Hh4). split; [done|]. exists q', c'. split; [|done].
  intros a Ha. rewrite Hc', painted_out by lia. done.
Qed.

Lemma pattern_tests_runs gens D p c l b : 512 ≤ D ≤ 2 ^ 31 → D ≤ capacity → holds p c l b →
  runs (pattern_tests D gens) b (λ r b', r = 0 ∧
    ∃ q c', (∀ a, a < 0 ∨ D ≤ a → c' a = c a) ∧ holds q c' (Pattern_success :: rev_append (map (Testing_pattern ∘ fst) gens) l) b').
Proof.
  revert p c l b. induction gens as [|[name g] gens IH]; intros p c l b HD Hc (Hp & Hcc & Hl); cbn [pattern_tests].
  - apply runs_bind, runs_say, runs_ret. split; [done|]. exists p, c. split; [done|].
    split_and!; [done..|]. cbn. by rewrite Hl.
  - apply runs_bind, runs_say. cbn beta. apply runs_bind. unfold test_disk_patternone, BLOCK_SIZE.
    pose proof (Z.div_mod D 512). pose proof (Z.mod_pos_bound D 512).
    eapply runs_weaken; [apply (patternone_loop_runs _ (D / 512) g p c (Testing_pattern name :: l)); [lia..|]|].
    { split_and!; [done..|]. cbn. by rewrite Hl. }
    intros r b1 (-> & q & c1 & Hc1 & Hh1). cbn beta. rewrite (proj2 (Z.ltb_ge 0 0)) by lia.
    eapply runs_weaken; [by apply (IH q c1 (Testing_pattern name :: l) b1)|].
    intros r (d & lg) (-> & q' & c' & Hc' & Hh'). split; [done|]. exists q', c'. split; [|done].
    intros a Ha. rewrite Hc', Hc1 by lia. done.
Qed.

(** C38: On a disk that behaves as documented, test_disk_size ends within 2049 probes a stage and finds a
    multiple of 1 MiB: the largest whose first block is on the disk when the disk is smaller than
    2 GiB, as the comment promises. From 2 GiB on it always finds 2047 MiB, because
    test_disk_lseek returns the offset as an int and 2 GiB reads as an error. *)
Theorem test_disk_size_correct fuel b :
  (2049 ≤ fuel)%nat →
  runs (test_disk_size fuel) b (λ r b', b_log b' = b_log b ∧ (∀ a, byte (b_dev b') a = byte (b_dev b) a) ∧
    0 ≤ r ∧ r mod 2 ^ 20 = 0 ∧
    (capacity < 2 ^ 31 → (r = 0 ∨ r + BLOCK_SIZE ≤ capacity) ∧ capacity < r + 2 ^ 20 + BLOCK_SIZE) ∧
    (2 ^ 31 ≤ capacity → r = 2 ^ 31 - 2 ^ 20)).
Proof.
  intros Hf. eapply runs_weaken; [apply (test_disk_size_runs fuel (pos (b_dev b)) (byte (b_dev b)) (b_log b)); [done|done]|].
  intros r b' (-> & q & _ & Hc & Hl). unfold found_mib, BLOCK_SIZE.
  pose proof (Z.div_mod (capacity - 512) (2 ^ 20)). pose proof (Z.mod_pos_bound (capacity - 512) (2 ^ 20)).
  split_and!; [done..|lia| |lia|lia]. rewrite Z.mul_comm. apply Z_mod_mult.
Qed.

(** The seek test of a disk of 1 MiB to 2 GiB only visits blocks of the disk: on a disk that behaves as
    documented it ends without an error message, prints one line, and changes nothing. *)
Theorem test_disk_seek_stays_inside D b :
  2 ^ 20 ≤ D ≤ 2 ^ 31 → D ≤ capacity →
  runs (test_disk_seek D) b (λ r b', r = 0 ∧ (∀ a, byte (b_dev b') a = byte (b_dev b) a) ∧
    (b_log b' = No_seeks :: b_log b ∨ ∃ t, b_log b' = Seek_average t :: b_log b)).
Proof.
  intros HD Hc. eapply runs_weaken; [by apply (test_disk_seek_runs D (pos (b_dev b)) (byte (b_dev b)) (b_log b))|].
  intros r b' (-> & q & m & Hm & _ & Hb & Hl). split_and!; [done..|]. rewrite Hl. destruct Hm as [-> | [t ->]]; eauto.
Qed.

(** C39: The pattern test never blames a good disk: whatever blocks are drawn at random, every pattern
    written is read back, the test ends with its success message after the four patterns, and no
    byte outside the disk size it was given is touched. For a size of at least one block and at most
    2 GiB, not above the capacity of the disk. *)
Theorem test_disk_pattern_passes D b :
  512 ≤ D ≤ 2 ^ 31 → D ≤ capacity →
  runs (test_disk_pattern D) b (λ r b', r = 0 ∧
    b_log b' = [Pattern_success; Testing_pattern 170; Testing_pattern 85; Testing_pattern 255; Testing_pattern 0] ++ b_log b ∧
    ∀ a, a < 0 ∨ D ≤ a → byte (b_dev b') a = byte (b_dev b) a).
Proof.
  intros HD Hc. eapply runs_weaken.
  - apply (pattern_tests_runs _ D (pos (b_dev b)) (byte (b_dev b)) (b_log b)); done.
  - intros r b' (-> & q & c' & Hc' & _ & Hb & Hl). split_and!; [done|by rewrite Hl|].
    intros a Ha. by rewrite Hb, Hc'.
Qed.

(** Reading a pattern back sees every wrong byte: test_disk_patternrtime returns a time exactly when all n
    blocks hold the pattern, and otherwise -EFAULT after one message with the offset, the expected
    and the actual value of the first byte that differs. *)
Theorem test_disk_patternrtime_verifies n offs buff len g b :
  0 < len ≤ 2 ^ 20 → 0 ≤ offs → 0 ≤ n ≤ 512 → offs + n * len ≤ capacity → pos (b_dev b) = offs →
  let wrong k := 0 ≤ k < n * len ∧ byte (b_dev b) (offs + k) ≠ g k in
  runs (test_disk_patternrtime offs buff len n (Some g)) b (λ r b',
    (0 ≤ r ∧ (∀ k, ¬ wrong k) ∧ b_log b' = b_log b) ∨
    (r = - EFAULT ∧ ∃ k, wrong k ∧ (∀ k', k' < k → ¬ wrong k') ∧
      b_log b' = Bad_pattern (offs + k) (g k) (byte (b_dev b) (offs + k)) :: b_log b)).
Proof.
  intros Hl Ho Hn Hc Hp wrong. unfold test_disk_patternrtime. eapply runs_weaken.
  - apply (pattern_read_runs (Z.to_nat n) offs buff len g 0 0 (byte (b_dev b)) (b_log b) b); try lia.
    split_and!; [lia|done..].
  - rewrite Z2Nat.id by lia. intros r b' [(Hr & Hall & q & _ & _ & Hlog)|(-> & q & k & Hk & Hne & Hlt & _ & _ & Hlog)].
    + left. split_and!; [lia| |done]. intros k [Hk Hne]. apply Hne, Hall. lia.
    + right. split; [done|]. exists k. split_and!; [by split; [lia|]| |done].
      intros k' Hk' [Hk1 Hk2]. apply Hk2, Hlt. lia.
Qed.
End disk.

(** ** Any device *)

Section any.
Context `{Disk}.

Lemma bind_inv {A C} (m : B A) (f : A → B C) b c b' : (m ≫= f) b = Some (c, b') →
  ∃ a b1, m b = Some (a, b1) ∧ f a b1 = Some (c, b').
Proof. unfold mbind, B_bind. intros E. destruct (m b) as [[a b1]|]; [|done]. eauto. Qed.

Lemma zone_loop_endless fuel bound stride len offs acc b : 0 ≤ stride → 0 ≤ offs → bound < 2 ^ 64 →
  offs + Z.of_nat fuel * stride < bound → zone_loop fuel bound stride len offs acc b = None.
Proof.
  intros Hs. revert offs acc b. induction fuel as [|fuel IH]; intros offs acc b Ho Hb Hlt; [done|].
  cbn [zone_loop]. rewrite (proj2 (Z.ltb_lt offs bound)) by lia.
  unfold mbind, B_bind. destruct (test_disk_zonetime _ _ _ b) as [[t b1]|]; [|done]. cbn [mbind option_bind].
  unfold u64 at 1. rewrite uwrap_small by nia. apply IH; lia.
Qed.

(** On a disk for which 1 MiB was found, the bound of the zone test, disksz - len - 1024, wraps around to
    just below 2^64: whatever the device does, the test either stops before its loop with an error or is
    still running after 2^40 zones. *)
Theorem test_disk_zone_endless_at_1MiB fuel b r b' :
  dev_page_size = 4096 → Z.of_nat fuel ≤ 2 ^ 40 →
  test_disk_zone fuel (2 ^ 20) (2 ^ 20) b = Some (r, b') → r = - ENOMEM ∨ r = - EINVAL ∨ r = - EIO.
Proof.
  intros Hp Hf. unfold test_disk_zone. rewrite Hp.
  intros (ok & b1 & _ & E)%bind_inv. destruct ok; cbn [negb] in E.
  2: { apply bind_inv in E as (? & ? & _ & E). injection E as <- _. by left. }
  apply bind_inv in E as (r1 & b2 & _ & E). destruct (r1 <? 0).
  { apply bind_inv in E as (? & ? & _ & E). injection E as <- _. by right; left. }
  apply bind_inv in E as ([n data] & b3 & _ & E). destruct (n =? 512); cbn [negb] in E.
  2: { apply bind_inv in E as (? & ? & _ & E). injection E as <- _. by right; right. }
  apply bind_inv in E as ([time nz] & b4 & E & _).
  rewrite zone_loop_endless in E; [done|done|done|done|].
  change (zone_stride (2 ^ 20)) with 7168. change (u64 _) with (2 ^ 64 - 1024). lia.
Qed.

(** Errors of the seek test are lost: its result is always 0. *)
Lemma test_disk_seek_ignores_errors D b r b' : test_disk_seek D b = Some (r, b') → r = 0.
Proof.
  unfold test_disk_seek. intros ([time n] & b1 & _ & E)%bind_inv. destruct (n =? 0); cbn [negb] in E.
  - apply bind_inv in E as (? & ? & _ & E). by injection E.
  - apply bind_inv in E as (? & ? & _ & E). apply bind_inv in E as (? & ? & _ & E). by injection E.
Qed.
End any.

(** ** A disk in memory *)

(** [cap] bytes, a position and contents; the clock stands still. *)
#[local] Instance ram (cap : Z) : Disk := {|
  dev := Z * (Z → Z);
  dev_lseek_set off d := (off, (off, d.2));
  dev_lseek_cur off d := (d.1 + off, (d.1 + off, d.2));
  dev_read n d := let r := Z.max 0 (Z.min n (cap - d.1)) in
    ((r, map (λ k, d.2 (d.1 + Z.of_nat k)) (seq 0 (Z.to_nat r))), (d.1 + r, d.2));
  dev_write bs d := let r := Z.max 0 (Z.min (Z.of_nat (length bs)) (cap - d.1)) in
    (r, (d.1 + r, λ a, if (d.1 <=? a) && (a <? d.1 + r) then nth (Z.to_nat (a - d.1)) bs 0 else d.2 a));
  dev_time d := ((0, 0), d);
  dev_rand d := (12345, d);
  dev_malloc n d := (Some (replicate (Z.to_nat n) 0), d);
  dev_mmap n d := (true, d);
  dev_page_size := 4096;
|}.

Lemma ram_laws cap : 0 ≤ cap < 2 ^ 62 → @DiskLaws (ram cap).
Proof.
  intros Hc. refine (@Build_DiskLaws (ram cap) cap (λ d : Z * (Z → Z), d.1) (λ d : Z * (Z → Z), d.2) Hc _ _ _ _ _ _ _);
    cbn [ram dev dev_lseek_set dev_lseek_cur dev_read dev_write dev_time dev_rand dev_malloc];
    intros; simplify_eq; cbn [fst snd]; try done.
  eauto using length_replicate.
Defined.

Definition ram_bench (cap : Z) : @bench (ram cap) := @mkBench (ram cap) (0, λ _, 0) [].

Lemma test_disk_size_correct_witness :
  @runs (ram (3 * 2 ^ 20)) Z (@test_disk_size (ram (3 * 2 ^ 20)) 2049) (ram_bench (3 * 2 ^ 20)) (λ r _, 0 ≤ r ∧ r mod 2 ^ 20 = 0).
Proof.
  eapply runs_weaken; [apply (@test_disk_size_correct (ram (3 * 2 ^ 20)) (ram_laws (3 * 2 ^ 20) ltac:(lia)) 2049); lia|].
  cbn beta. intros r b' (_ & _ & ? & ? & _). done.
Defined.

Lemma test_disk_seek_stays_inside_witness :
  @runs (ram (3 * 2 ^ 20)) Z (@test_disk_seek (ram (3 * 2 ^ 20)) (2 ^ 21)) (ram_bench (3 * 2 ^ 20)) (λ r _, r = 0).
Proof.
  eapply runs_weaken; [apply (@test_disk_seek_stays_inside (ram (3 * 2 ^ 20)) (ram_laws (3 * 2 ^ 20) ltac:(lia)) (2 ^ 21)); cbn; lia|].
  cbn beta. intros r b' (? & _). done.
Defined.

Lemma test_disk_pattern_passes_witness :
  @runs (ram (3 * 2 ^ 20)) Z (@test_disk_pattern (ram (3 * 2 ^ 20)) (2 ^ 21)) (ram_bench (3 * 2 ^ 20)) (λ r _, r = 0).
Proof.
  eapply runs_weaken; [apply (@test_disk_pattern_passes (ram (3 * 2 ^ 20)) (ram_laws (3 * 2 ^ 20) ltac:(lia)) (2 ^ 21)); cbn; lia|].
  cbn beta. intros r b' (? & _). done.
Defined.

Lemma test_disk_patternrtime_verifies_witness :
  @runs (ram 4096) Z (@test_disk_patternrtime (ram 4096) 0 [] 512 2 (Some test_disk_patternFF)) (ram_bench 4096)
    (λ r _, 0 ≤ r ∨ r = - EFAULT).
Proof.
  eapply runs_weaken; [apply (@test_disk_patternrtime_verifies (ram 4096) (ram_laws 4096 ltac:(lia)) 2 0 [] 512 test_disk_patternFF (ram_bench 4096)); cbn; lia|].
  cbn beta. intros r b' [(? & _)|(? & _)]; [by left|by right].
Defined.

Lemma test_disk_zone_endless_at_1MiB_witness :
  ∃ r b', @test_disk_zone (ram 0) 5 (2 ^ 20) (2 ^ 20) (ram_bench 0) = Some (r, b') ∧
    (r = - ENOMEM ∨ r = - EINVAL ∨ r = - EIO).
Proof.
  eexists _, _. split; [reflexivity|].
  apply (@test_disk_zone_endless_at_1MiB (ram 0) 5 (ram_bench 0) _ (@mkBench (ram 0) (0, λ _, 0) [Io_error 0])); [reflexivity|lia|reflexivity].
Defined.
