(* ===== verification/MemFrag.v ===== *)
(** * Physically contiguous memory after a big process, mem/test_frag.c

    The arithmetic of the test (how much the big process takes, how much is
    asked for afterwards), the walk over the kernel's page map, the loop of
    the big process with its handshake with the pinner, and the verdict on
    the contiguous blocks. The page map, mmap() and the pipes are parameters. *)

From S2P Require Import Prelude CMachine UnityOutput UnityAssert UnityAssertSpec.
From S2P Require Import UnityMacros TestVerdict.

Definition MIB : Z := 1024 * 1024.
Definition CHUNK : Z := 64 * MIB.
Definition SLOT : Z := 2 * MIB.
Definition MARGIN_MIN : Z := 256 * MIB.
Definition BIG_BLOCK : Z := 16 * MIB.
Definition BLOCK : Z := 4 * MIB.
Definition BLOCKS_MAX : Z := 1024 * MIB.
Definition BLOCKS_SLOT : Z := 512.

(** ** The page map *)

(** An entry of the kernel's page map: [count] pages from [addr] on; marker
    '.' says they are free. *)
Record pageinfo_t := mkPage { count : Z; addr : Z; marker : Z }.

Definition is_free (e : pageinfo_t) : bool := marker e =? 46.
Definition page_bytes (pagesz : Z) (e : pageinfo_t) : Z := u64 (count e * pagesz).

(** One round of the loop over the entries. *)
Definition run_step (pagesz : Z) (s : Z * Z * Z) (e : pageinfo_t) : Z * Z * Z :=
  let '(run, best, next) := s in
  let run :=
    if is_free e && negb (run =? 0) && (addr e =? next) then u64 (run + page_bytes pagesz e)
    else if is_free e then page_bytes pagesz e else 0 in
  (run, if best <? run then run else best, u64 (addr e + page_bytes pagesz e)).

Definition MAP_SIZE : Z := 65536.

(** [mapsz] is the number of entries the kernel has, [map] what it stored. *)
Definition largestFreeRun (pagesz mapsz : Z) (map : list pageinfo_t) : Z :=
  let n := if mapsz <? MAP_SIZE then mapsz else MAP_SIZE in
  (foldl (run_step pagesz) (0, 0, 0) (take (Z.to_nat n) map)).1.2.

(** ** How much memory *)

Definition margin (freesz : Z) : Z :=
  let m := freesz / 10 in if m <? MARGIN_MIN then MARGIN_MIN else m.

(** The bytes the big process takes and the bytes asked for afterwards. *)
Definition run_target (before pagesz : Z) : Z :=
  Z.land (u64 (before - margin before)) (u64 (Z.lnot (u64 (pagesz - 1)))).
Definition run_want (target : Z) : Z :=
  let want := target / 2 in
  Z.land (if want <? BLOCKS_MAX then want else BLOCKS_MAX) (u64 (Z.lnot (u64 (BLOCK - 1)))).

(** Free memory once it has been stable for a second, at most 30 s: the
    samples of free memory and of the clock at the three calls of a round. *)
Fixpoint settle_loop (start f stable : Z) (samples : list (Z * (Z * Z * Z))) : option Z :=
  match samples with
  | [] => None
  | (f', (t1, t2, t3)) :: samples =>
      let stable := if negb (f' =? f) then t1 else stable in
      if (1000 <=? u64 (t2 - stable)) || (30000 <=? u64 (t3 - start)) then Some f'
      else settle_loop start f' stable samples
  end.
Definition freeSettled (start f : Z) (samples : list (Z * (Z * Z * Z))) : option Z :=
  settle_loop start f start samples.

(** ** The big process and the pinner *)

(** A page written, at its offset in the memory of the process, and a
    handshake with the pinner. *)
Inductive big_event := Touch (offs value : Z) | Handshake.

(** [for (i = 0; i < chunk; i += pagesz)]: [None] when the handshake failed
    (exit code 4). [shakes] is the number of handshakes the pinner answers. *)
Fixpoint touch_loop (fuel : nat) (pagesz : Z) (pin : bool) (done chunk i : Z) (shakes : Z) :
    list big_event * option Z :=
  match fuel with
  | O => ([], Some shakes)
  | S fuel =>
      if i <? chunk then
        let t := Touch (done + i) (u8 ((done + i) / pagesz)) in
        if pin && ((done + i + pagesz) mod SLOT =? 0) then
          if shakes =? 0 then ([t], None)
          else
            let '(es, r) := touch_loop fuel pagesz pin done chunk (i + pagesz) (shakes - 1) in
            (t :: Handshake :: es, r)
        else
          let '(es, r) := touch_loop fuel pagesz pin done chunk (i + pagesz) shakes in
          (t :: es, r)
      else ([], Some shakes)
  end.

(** [for (done = 0; done < len; done += chunk)]: what the child does and its
    exit code. [maps] is the number of mmap() calls that succeed. *)
Fixpoint big_loop (fuel : nat) (pagesz len : Z) (pin : bool) (done shakes maps : Z) : list big_event * Z :=
  match fuel with
  | O => ([], 0)
  | S fuel =>
      if done <? len then
        let chunk := if len - done <? CHUNK then len - done else CHUNK in
        if maps =? 0 then ([], 2)
        else
          let '(es, r) := touch_loop (S (Z.to_nat (chunk / pagesz))) pagesz pin done chunk 0 shakes in
          match r with
          | None => (es, 4)
          | Some shakes =>
              let '(es', code) := big_loop fuel pagesz len pin (done + chunk) shakes (maps - 1) in
              (es ++ es', code)
          end
      else ([], 0)
  end.
Definition bigProcess (pagesz len : Z) (pin : bool) (shakes maps : Z) : list big_event * Z :=
  big_loop (S (Z.to_nat (len / CHUNK + 1))) pagesz len pin 0 shakes maps.

(** The pinner after [k] commands: the slots it has mapped. *)
Fixpoint pinner_slots (k : nat) (slots n : Z) : Z :=
  match k with
  | O => n
  | S k => pinner_slots k slots (if n <? slots then n + 1 else n)
  end.

(** ** The contiguous blocks *)

(** [while ((n < max) && (n < BLOCKS_SLOT))] up to the first mmap() that
    fails; [got] says which succeed. *)
Fixpoint take_blocks (fuel : nat) (max n : Z) (got : Z → bool) : Z :=
  match fuel with
  | O => n
  | S fuel => if (n <? max) && (n <? BLOCKS_SLOT) then if got n then take_blocks fuel max (n + 1) got else n else n
  end.

Section tests.
Context `{Target}.

Definition contiguousAfter (want : Z) (big : bool) (got : Z → bool) : M unit :=
  let max := want / BLOCK in
  let n := take_blocks (Z.to_nat BLOCKS_SLOT) max 0 got in
  TEST_ASSERT_bool_MESSAGE (B_TRUE big) 288 (Some (str "no 16 MiB contiguous block after the big process"));;
  TEST_ASSERT_EQUAL_MESSAGE UINT max n 289 (Some (str "not enough 4 MiB contiguous blocks after the big process")).

(** [exited] and [code] are WIFEXITED and WEXITSTATUS of the big process. *)
Definition frag_run (before pagesz : Z) (exited : bool) (code : Z) (big : bool) (got : Z → bool) : M unit :=
  let target := run_target before pagesz in
  let want := run_want target in
  TEST_ASSERT_bool_MESSAGE (B_TRUE (BLOCK <=? want)) 304 (Some (str "not enough free memory for the test"));;
  TEST_ASSERT_bool_MESSAGE (B_FALSE (exited && (code =? 4))) 328
    (Some (str "the pinner could not map its pages (MAP_FIXED file mapping)"));;
  TEST_ASSERT_bool_MESSAGE (B_TRUE (exited && (code =? 0))) 329
    (Some (str "the big process could not get its memory"));;
  contiguousAfter want big got.
End tests.
