(* ===== verification/MemFragProps.v ===== *)
(** * Properties of the fragmentation test

    The walk over the page map finds the longest free run, the big process
    touches every page and keeps in step with the pinner, the amounts of
    memory are what the test's header promises where they are, and the
    verdict asks for every block. *)

From S2P Require Import Prelude CMachine UnityOutput UnityAssert UnityAssertSpec.
From S2P Require Import UnityMacros TestVerdict MemFrag.

(** ** The longest free run *)

Section free_runs.
Context (pagesz : Z) (Hpage : 0 < pagesz).

Definition span (e : pageinfo_t) : Z := count e * pagesz.
Definition total (es : list pageinfo_t) : Z := foldr (λ e n, span e + n) 0 es.

(** A page map: no entry is empty, none reaches past the address space. *)
Definition entry_ok (e : pageinfo_t) : Prop := 0 < count e ∧ 0 ≤ addr e ∧ addr e + span e < 2 ^ 64.

(** Entries of the map that are all free, each starting where the one before
    it ends. *)
Inductive free_run : list pageinfo_t → Prop :=
  | free_one e : is_free e = true → free_run [e]
  | free_snoc c e0 e : free_run (c ++ [e0]) → is_free e = true → addr e = addr e0 + span e0 →
      free_run (c ++ [e0; e]).

Lemma total_cons e es : total (e :: es) = span e + total es.
Proof. done. Qed.

Lemma total_app a b : total (a ++ b) = total a + total b.
Proof. induction a as [|e a IH]; cbn [app]; rewrite ?total_cons; [done|lia]. Qed.

Lemma span_pos e : entry_ok e → 0 < span e.
Proof. intros [? _]. unfold span. nia. Qed.

Lemma total_nonneg es : Forall entry_ok es → 0 ≤ total es.
Proof. induction 1 as [|e es He%span_pos _ IH]; rewrite ?total_cons; [done|lia]. Qed.

Lemma free_run_pos c : free_run c → Forall entry_ok c → 0 < total c.
Proof.
  intros [e He|c' e0 e Hc He Ha] Hok.
  - apply Forall_singleton, span_pos in Hok. rewrite total_cons. cbn. lia.
  - apply Forall_app in Hok as [H1%total_nonneg H2]. rewrite total_app.
    apply Forall_cons in H2 as [?%span_pos [?%span_pos _]%Forall_cons]. rewrite !total_cons. cbn. lia.
Qed.

(** A run that ends a longer map either is its last entry or continues a run
    that ended before. *)
Lemma free_run_last l c pre e : pre ++ [e] = l ++ c → free_run c →
  is_free e = true ∧ (c = [e] ∨ ∃ c' e0, c = c' ++ [e0; e] ∧ pre = l ++ c' ++ [e0] ∧ free_run (c' ++ [e0]) ∧
    addr e = addr e0 + span e0).
Proof.
  intros E Hc. destruct Hc as [e' He|c' e0 e' Hc He Ha].
  - apply app_inj_tail in E as [-> ->]. auto.
  - change [e0; e'] with ([e0] ++ [e']) in E. rewrite !app_assoc in E. apply app_inj_tail in E as [-> ->].
    split; [done|]. right. exists c', e0. rewrite <- app_assoc. done.
Qed.

(** What the loop knows of the entries seen so far. *)
Definition longest (pre : list pageinfo_t) (s : Z * Z * Z) : Prop :=
  let '(run, best, next) := s in
  (∀ c e, pre = c ++ [e] → next = addr e + span e) ∧
  (∀ l c, pre = l ++ c → free_run c → total c ≤ run) ∧
  (0 ≤ run ∧ (0 < run → ∃ l c, pre = l ++ c ∧ free_run c ∧ total c = run)) ∧
  (∀ l c r, pre = l ++ c ++ r → free_run c → total c ≤ best) ∧
  (0 ≤ best ∧ (0 < best → ∃ l c r, pre = l ++ c ++ r ∧ free_run c ∧ total c = best)).

(** The run of the next entry. *)
Lemma run_next pre e run best next run' best' next' : Forall entry_ok (pre ++ [e]) → total (pre ++ [e]) < 2 ^ 64 →
  longest pre (run, best, next) → run_step pagesz (run, best, next) e = (run', best', next') →
  next' = addr e + span e ∧ best' = Z.max best run' ∧
  (∀ l c, pre ++ [e] = l ++ c → free_run c → total c ≤ run') ∧
  0 ≤ run' ∧ (0 < run' → ∃ l c, pre ++ [e] = l ++ c ∧ free_run c ∧ total c = run').
Proof.
  intros Hok Htot (Hnext & Hsuf & [Hr0 Hrun] & _) E. pose proof Hok as Hok'.
  apply Forall_app in Hok as [Hpre [Hc [Ha Hend]]%Forall_singleton].
  assert (Hspan : page_bytes pagesz e = span e) by (apply uwrap_small; unfold span in *; nia).
  unfold run_step in E. rewrite Hspan in E.
  assert (Hle : run ≤ total pre).
  { destruct (Z.eq_dec run 0) as [->|]; [by apply total_nonneg|]. destruct Hrun as (l & c & -> & _ & <-); [lia|].
    rewrite total_app. apply Forall_app in Hpre as [?%total_nonneg _]. lia. }
  rewrite total_app in Htot. cbn [total foldr] in Htot.
  assert (Hpos : 0 < span e) by (unfold span; nia).
  unfold u64 in E. rewrite !(uwrap_small 64) in E by lia.
  injection E as E1 E2 E3. split; [done|]. split; [rewrite E1 in E2; destruct (Z.ltb_spec best run'); lia|]. clear E2 E3.
  assert (Hlast : ∀ l c, pre ++ [e] = l ++ c → free_run c → is_free e = true ∧
    (total c = span e ∨ (total c ≤ run + span e ∧ run ≠ 0 ∧ addr e = next))).
  { intros l c Eq Hf. destruct (free_run_last l c pre e Eq Hf) as [He [-> |(c' & e0 & -> & Ep & Hf' & Haddr)]]; split; [done|left; cbn; lia|done|right].
    specialize (Hsuf _ _ Ep Hf'). assert (0 < total (c' ++ [e0])).
    { apply free_run_pos; [done|]. rewrite Ep in Hpre. by apply Forall_app in Hpre as []. }
    rewrite total_app in *. cbn [total foldr] in *. split_and!; [lia..|].
    rewrite Haddr. symmetry. apply (Hnext (l ++ c')). by rewrite <- app_assoc. }
  rewrite <- E1. clear E1. destruct (is_free e) eqn:Hfree; cbn [andb].
  2: { split; [intros l c Eq Hf; by destruct (Hlast l c Eq Hf)|]. split; [lia|lia]. }
  destruct (Z.eqb_spec run 0) as [Ez|Ez]; cbn [negb andb]; [|destruct (Z.eqb_spec (addr e) next) as [En|En]].
  2: { split; [intros l c Eq Hf; destruct (Hlast l c Eq Hf) as [_ [?|?]]; lia|]. split; [lia|]. intros _.
       destruct Hrun as (l & c & Ep & Hf & Et); [lia|]. exists l, (c ++ [e]). split; [by rewrite Ep, <- app_assoc|].
       split; [|rewrite total_app; cbn; lia].
       destruct (exists_last (l := c)) as (c' & e0 & ->); [by intros ->; inversion Hf as [| ? ? ? ? ? ? Hnil]; destruct c|].
       rewrite <- app_assoc. apply free_snoc; [done..|]. rewrite En. apply (Hnext (l ++ c')). by rewrite Ep, <- app_assoc. }
  all: split; [intros l c Eq Hf; destruct (Hlast l c Eq Hf) as [_ [?|?]]; lia|]; split; [lia|]; intros _;
    exists pre, [e]; split_and!; [done|by constructor|cbn; lia].
Qed.

Lemma longest_step pre e s : Forall entry_ok (pre ++ [e]) → total (pre ++ [e]) < 2 ^ 64 →
  longest pre s → longest (pre ++ [e]) (run_step pagesz s e).
Proof.
  destruct s as [[run best] next]. intros Hok Htot Hl.
  destruct (run_step pagesz (run, best, next) e) as [[run' best'] next'] eqn:E.
  destruct (run_next pre e run best next run' best' next' Hok Htot Hl E) as (-> & -> & Hsuf & Hr0 & Hrun).
  destruct Hl as (_ & _ & _ & Hinf & Hb0 & Hbest). split_and!; [|done|done|done| |lia|].
  - intros c e' Eq. apply app_inj_tail in Eq as [_ ->]. done.
  - intros l c r Eq Hf. destruct (decide (r = [])) as [-> |Hr].
    + rewrite app_nil_r in Eq. specialize (Hsuf l c Eq Hf). lia.
    + destruct (exists_last Hr) as (r' & x & ->). rewrite !app_assoc in Eq. apply app_inj_tail in Eq as [Eq _].
      rewrite <- app_assoc in Eq. specialize (Hinf l c r' Eq Hf). lia.
  - intros Hpos. destruct (Z.le_gt_cases run' best).
    + destruct Hbest as (l & c & r & -> & ? & ?); [lia|]. exists l, c, (r ++ [e]). rewrite <- !app_assoc. split_and!; [done..|lia].
    + destruct Hrun as (l & c & -> & ? & ?); [lia|]. exists l, c, []. rewrite app_nil_r. split_and!; [done..|lia].
Qed.

Lemma longest_foldl es : Forall entry_ok es → total es < 2 ^ 64 → longest es (foldl (run_step pagesz) (0, 0, 0) es).
Proof.
  induction es as [|e es IH] using rev_ind; intros Hok Htot.
  - cbn [foldl]. assert (Hnil : ∀ c, free_run c → c ≠ []) by (intros c [|c0 ? ?]; [done|by destruct c0]).
    split_and!; try lia.
    + intros c e Eq. by destruct c.
    + intros l c Eq Hf. symmetry in Eq. apply app_nil in Eq as [_ ->]. by destruct (Hnil _ Hf).
    + intros l c r Eq Hf. symmetry in Eq. apply app_nil in Eq as [_ [-> _]%app_nil]. by destruct (Hnil _ Hf).
  - rewrite foldl_snoc. apply longest_step; [done..|]. apply IH.
    + by apply Forall_app in Hok as [? _].
    + rewrite total_app in Htot. apply Forall_app in Hok as [_ ?%total_nonneg]. lia.
Qed.
End free_runs.

(** C40: LargestFreeRun returns the size of the longest stretch of physical memory that is free according
    to the kernel's page map: some run of adjacent free entries has it, or it is 0, and no run of
    adjacent free entries among those the map has room for is longer. *)
Theorem largestFreeRun_is_longest pagesz mapsz map : 0 < pagesz →
  let es := take (Z.to_nat (Z.min mapsz MAP_SIZE)) map in
  Forall (entry_ok pagesz) es → total pagesz es < 2 ^ 64 →
  (largestFreeRun pagesz mapsz map = 0 ∨
   ∃ l c r, es = l ++ c ++ r ∧ free_run pagesz c ∧ total pagesz c = largestFreeRun pagesz mapsz map) ∧
  (∀ l c r, es = l ++ c ++ r → free_run pagesz c → total pagesz c ≤ largestFreeRun pagesz mapsz map).
Proof.
  intros Hp es Hok Htot. unfold largestFreeRun.
  replace (if mapsz <? MAP_SIZE then mapsz else MAP_SIZE) with (Z.min mapsz MAP_SIZE)
    by (destruct (Z.ltb_spec mapsz MAP_SIZE); lia).
  fold es. pose proof (longest_foldl pagesz Hp es Hok Htot) as Hl.
  destruct (foldl (run_step pagesz) (0, 0, 0) es) as [[run best] next].
  destruct Hl as (_ & _ & _ & Hinf & Hb0 & Hbest). cbn [fst snd]. split; [|done].
  destruct (Z.eq_dec best 0); [by left|right; apply Hbest; lia].
Qed.

Definition sample_map : list pageinfo_t := [mkPage 2 0 46; mkPage 1 8192 75; mkPage 3 12288 46; mkPage 4 24576 46].

Lemma largestFreeRun_is_longest_witness :
  total 4096 [mkPage 3 12288 46; mkPage 4 24576 46] ≤ largestFreeRun 4096 4 sample_map.
Proof.
  refine (proj2 (largestFreeRun_is_longest 4096 4 sample_map _ _ _) [mkPage 2 0 46; mkPage 1 8192 75] _ [] _ _).
  - lia.
  - repeat constructor; vm_compute; congruence.
  - vm_compute. reflexivity.
  - reflexivity.
  - apply (free_snoc 4096 []); [apply free_one|..]; reflexivity.
Defined.

(** ** The big process *)

(** Page k is written, and the pinner is told after every slot. *)
Definition page_events (pagesz : Z) (pin : bool) (k : Z) : list big_event :=
  Touch (k * pagesz) (u8 k) :: (if pin && ((k + 1) * pagesz mod SLOT =? 0) then [Handshake] else []).
Definition pages_events (pagesz : Z) (pin : bool) (from : Z) (n : nat) : list big_event :=
  flat_map (λ j, page_events pagesz pin (from + Z.of_nat j)) (seq 0 n).

Definition is_handshake (e : big_event) : bool := match e with Handshake => true | Touch _ _ => false end.
Definition handshakes (es : list big_event) : Z := Z.of_nat (length (filter (λ e, is_handshake e = true) es)).

Lemma handshakes_app a b : handshakes (a ++ b) = handshakes a + handshakes b.
Proof. unfold handshakes. rewrite filter_app, length_app. lia. Qed.

Lemma pages_events_S pagesz pin from n :
  pages_events pagesz pin from (S n) = page_events pagesz pin from ++ pages_events pagesz pin (from + 1) n.
Proof.
  unfold pages_events. cbn [seq flat_map]. rewrite Z.add_0_r. f_equal. rewrite <- seq_shift, flat_map_concat_map, map_map, <- flat_map_concat_map.
  apply flat_map_ext. intros j. f_equal. lia.
Qed.

Lemma pages_events_app pagesz pin from a b :
  pages_events pagesz pin from (a + b) = pages_events pagesz pin from a ++ pages_events pagesz pin (from + Z.of_nat a) b.
Proof.
  revert from. induction a as [|a IH]; intros from; [cbn [Nat.add]; by rewrite Z.add_0_r|].
  cbn [Nat.add]. rewrite !pages_events_S, IH, <- app_assoc. do 3 f_equal. lia.
Qed.

(** The handshakes among the pages of [[from, from + n)]: one per slot boundary. *)
Lemma handshakes_pages pagesz from n : 0 < pagesz → (pagesz | SLOT) → 0 ≤ from →
  handshakes (pages_events pagesz true from n) = (from + Z.of_nat n) * pagesz / SLOT - from * pagesz / SLOT.
Proof.
  intros Hp [q Hq] Hf. assert (0 < q) by (unfold SLOT, MIB in Hq; nia).
  assert (Hdiv : ∀ k, k * pagesz / SLOT = k / q).
  { intros k. rewrite Hq, Z.div_mul_cancel_r by lia. done. }
  revert from Hf. induction n as [|n IH]; intros from Hf.
  { rewrite Z.add_0_r, Z.sub_diag. done. }
  rewrite pages_events_S, handshakes_app, IH by lia. rewrite !Hdiv.
  replace (from + 1 + Z.of_nat n) with (from + Z.of_nat (S n)) by lia.
  unfold page_events. cbn [andb].
  assert (Hm : (from + 1) * pagesz mod SLOT = (from + 1) mod q * pagesz) by (rewrite Hq; apply Z.mul_mod_distr_r; lia).
  rewrite Hm. pose proof (Z.mod_pos_bound (from + 1) q ltac:(lia)). pose proof (Z.div_mod (from + 1) q ltac:(lia)).
  pose proof (Z.mod_pos_bound from q ltac:(lia)). pose proof (Z.div_mod from q ltac:(lia)).
  destruct (Z.eqb_spec ((from + 1) mod q * pagesz) 0); cbn.
  - change (handshakes [Touch _ _; Handshake]) with 1. assert ((from + 1) mod q = 0) by nia.
    assert ((from + 1) / q - 1 = from / q) by (apply (Z.div_unique_pos _ _ _ (q - 1)); lia). lia.
  - change (handshakes [Touch _ _]) with 0. assert ((from + 1) mod q ≠ 0) by nia.
    assert ((from + 1) / q = from / q) by (apply (Z.div_unique_pos _ _ _ ((from + 1) mod q - 1)); lia). lia.
Qed.

Lemma touch_loop_S fuel pagesz pin first chunk i shakes :
  touch_loop (S fuel) pagesz pin first chunk i shakes =
  if i <? chunk then
    let t := Touch (first + i) (u8 ((first + i) / pagesz)) in
    if pin && ((first + i + pagesz) mod SLOT =? 0) then
      if shakes =? 0 then ([t], None)
      else let '(es, r) := touch_loop fuel pagesz pin first chunk (i + pagesz) (shakes - 1) in (t :: Handshake :: es, r)
    else let '(es, r) := touch_loop fuel pagesz pin first chunk (i + pagesz) shakes in (t :: es, r)
  else ([], Some shakes).
Proof. done. Qed.

Lemma touch_loop_runs n pagesz pin first chunk i shakes : 0 < pagesz → (pagesz | SLOT) →
  (pagesz | first) → (pagesz | i) → (pagesz | chunk) → 0 ≤ i ≤ chunk → 0 ≤ first →
  Z.of_nat n = (chunk - i) / pagesz →
  handshakes (pages_events pagesz pin ((first + i) / pagesz) n) ≤ shakes →
  touch_loop (S n) pagesz pin first chunk i shakes =
    (pages_events pagesz pin ((first + i) / pagesz) n,
     Some (shakes - handshakes (pages_events pagesz pin ((first + i) / pagesz) n))).
Proof.
  intros Hp Hs [f ->] [j ->] [m ->]. revert j shakes.
  assert (Hk : ∀ j, (f * pagesz + j * pagesz) / pagesz = f + j) by (intros; rewrite <- Z.mul_add_distr_r; apply Z.div_mul; lia).
  induction n as [|n IH]; intros j shakes Hi Hf Hn Hsh; rewrite <- Z.mul_sub_distr_r, Z.div_mul in Hn by lia;
    rewrite touch_loop_S; rewrite ?Hk in Hsh |- *.
  - rewrite (proj2 (Z.ltb_ge _ _)) by nia. cbn. f_equal. f_equal. change (handshakes []) with 0. lia.
  - rewrite (proj2 (Z.ltb_lt _ _)) by nia.
    rewrite pages_events_S, handshakes_app in Hsh |- *. unfold page_events in Hsh |- *.
    rewrite <- Z.mul_add_distr_r. replace ((f + j) * pagesz + pagesz) with ((f + j + 1) * pagesz) by lia.
    specialize (IH (j + 1)). rewrite Hk in IH. replace ((j + 1) * pagesz) with (j * pagesz + pagesz) in IH by lia.
    replace (f + (j + 1)) with (f + j + 1) in IH by lia.
    assert (Hge : 0 ≤ handshakes (pages_events pagesz pin (f + j + 1) n)) by (unfold handshakes; lia).
    assert (HIH : ∀ sh, handshakes (pages_events pagesz pin (f + j + 1) n) ≤ sh →
      touch_loop (S n) pagesz pin (f * pagesz) (m * pagesz) (j * pagesz + pagesz) sh =
      (pages_events pagesz pin (f + j + 1) n, Some (sh - handshakes (pages_events pagesz pin (f + j + 1) n)))).
    { intros sh Hle. apply IH; [nia|done| |done].
      replace (m * pagesz - (j * pagesz + pagesz)) with ((m - j - 1) * pagesz) by lia. rewrite Z.div_mul by lia. lia. }
    destruct (pin && ((f + j + 1) * pagesz mod SLOT =? 0)).
    + change (handshakes [Touch _ _; Handshake]) with 1 in *. rewrite (proj2 (Z.eqb_neq shakes 0)) by lia.
      rewrite HIH by lia. cbn [app]. f_equal. f_equal. lia.
    + change (handshakes [Touch _ _]) with 0 in *. rewrite HIH by lia. cbn [app]. f_equal.
Qed.

Lemma big_loop_runs fuel pagesz m pin d shakes maps : 0 < pagesz → (pagesz | SLOT) → 0 ≤ d ≤ m →
  (pagesz | CHUNK) → m * pagesz - d * pagesz ≤ Z.of_nat fuel * CHUNK → Z.of_nat fuel ≤ maps →
  handshakes (pages_events pagesz pin d (Z.to_nat (m - d))) ≤ shakes →
  big_loop (S fuel) pagesz (m * pagesz) pin (d * pagesz) shakes maps = (pages_events pagesz pin d (Z.to_nat (m - d)), 0).
Proof.
  intros Hp Hs Hd [q Hq]. revert d shakes maps Hd.
  induction fuel as [|fuel IH]; intros d shakes maps Hd Hf Hm Hsh; rewrite <- Z.mul_sub_distr_r in Hf.
  { assert (d = m) as -> by nia. cbn [big_loop]. rewrite Z.ltb_irrefl, Z.sub_diag. done. }
  cbn [big_loop]. destruct (Z.eq_dec d m) as [-> |Hne]; [rewrite Z.ltb_irrefl, Z.sub_diag; done|].
  rewrite (proj2 (Z.ltb_lt (d * pagesz) (m * pagesz))) by nia. rewrite (proj2 (Z.eqb_neq maps 0)) by lia.
  set (c := Z.min (m - d) q). assert (0 < q) by (unfold CHUNK, MIB in Hq; nia).
  assert (Hc : (if m * pagesz - d * pagesz <? CHUNK then m * pagesz - d * pagesz else CHUNK) = c * pagesz).
  { unfold c. destruct (Z.ltb_spec (m * pagesz - d * pagesz) CHUNK); [rewrite Z.min_l by nia|rewrite Z.min_r by nia]; lia. }
  assert (Hc0 : 0 < c ∧ c ≤ m - d ∧ (c = m - d ∨ c = q)) by (unfold c; lia). clearbody c.
  rewrite Hc, Z.div_mul by lia.
  assert (Hsplit : pages_events pagesz pin d (Z.to_nat (m - d)) =
    pages_events pagesz pin d (Z.to_nat c) ++ pages_events pagesz pin (d + c) (Z.to_nat (m - (d + c)))).
  { replace (Z.to_nat (m - d)) with (Z.to_nat c + Z.to_nat (m - (d + c)))%nat by lia. rewrite pages_events_app. do 3 f_equal. lia. }
  rewrite Hsplit in Hsh |- *. rewrite handshakes_app in Hsh.
  assert (0 ≤ handshakes (pages_events pagesz pin (d + c) (Z.to_nat (m - (d + c))))) by (unfold handshakes; lia).
  rewrite (touch_loop_runs (Z.to_nat c) pagesz pin (d * pagesz) (c * pagesz) 0 shakes); try done.
  2-4: apply Z.divide_factor_r || apply Z.divide_0_r.
  2-3: nia.
  2: rewrite Z.sub_0_r, Z.div_mul by lia; lia.
  2: rewrite Z.add_0_r, Z.div_mul by lia; lia.
  rewrite Z.add_0_r, Z.div_mul by lia. rewrite <- Z.mul_add_distr_r.
  specialize (IH (d + c) (shakes - handshakes (pages_events pagesz pin d (Z.to_nat c))) (maps - 1)).
  cbn [big_loop] in IH |- *. rewrite IH; [done|lia| |lia|lia]. nia.
Qed.

(** With its memory and an answering pinner, the big process writes every page of its memory once, in
    order, and exits with 0; beside the pinner it hands over once per 2 MiB, target / SLOT times in all,
    so the pinner, started with target / SLOT + 1 slots, maps a new page table for every handshake. *)
Theorem bigProcess_touches_all pagesz m pin shakes maps :
  0 < pagesz → (pagesz | SLOT) → 0 ≤ m → m * pagesz / CHUNK + 1 ≤ maps → m * pagesz / SLOT ≤ shakes →
  let len := m * pagesz in
  bigProcess pagesz len pin shakes maps = (pages_events pagesz pin 0 (Z.to_nat m), 0) ∧
  handshakes (pages_events pagesz true 0 (Z.to_nat m)) = len / SLOT ∧
  pinner_slots (Z.to_nat (len / SLOT)) (len / SLOT + 1) 0 = len / SLOT.
Proof.
  intros Hp Hs Hm Hmaps Hsh len. assert (Hlen : 0 ≤ len) by (unfold len; nia).
  assert (Hh : handshakes (pages_events pagesz true 0 (Z.to_nat m)) = len / SLOT).
  { rewrite handshakes_pages, Z2Nat.id by (done || lia). rewrite Z.mul_0_l, Z.div_0_l, Z.add_0_l by done. unfold len. lia. }
  pose proof (Z.div_mod len CHUNK). pose proof (Z.mod_pos_bound len CHUNK). assert (0 < CHUNK) by done.
  assert (0 ≤ len / CHUNK) by (apply Z.div_pos; lia). assert (0 ≤ len / SLOT) by (apply Z.div_pos; done || lia).
  split_and!; [|done|].
  - unfold bigProcess. pose proof (big_loop_runs (Z.to_nat (len / CHUNK + 1)) pagesz m pin 0 shakes maps) as Hrun.
    rewrite Z.mul_0_l, !Z.sub_0_r, Z2Nat.id in Hrun by lia. apply Hrun; try done; try lia; fold len; try lia.
    + by transitivity SLOT; [|exists 32].
    + destruct pin; [rewrite Hh; exact Hsh|]. transitivity 0; [|fold len in Hsh; lia].
      clear. generalize 0 at 1. induction (Z.to_nat m) as [|n IH]; intros k; [done|].
      rewrite pages_events_S, handshakes_app. specialize (IH (k + 1)). unfold page_events. cbn [andb].
      change (handshakes [Touch _ _]) with 0. lia.
  - assert (Hpin : ∀ k slots n, n + Z.of_nat k ≤ slots → pinner_slots k slots n = n + Z.of_nat k).
    { induction k as [|k IH]; intros slots n Hle; cbn [pinner_slots]; [lia|].
      rewrite (proj2 (Z.ltb_lt n slots)), IH by lia. lia. }
    rewrite Hpin; lia.
Qed.

Lemma bigProcess_touches_all_witness :
  (bigProcess 4096 (1024 * 4096) true 2 1).2 = 0.
Proof.
  rewrite (proj1 (bigProcess_touches_all 4096 1024 true 2 1 ltac:(lia) ltac:(by exists 512) ltac:(lia) ltac:(by vm_compute) ltac:(by vm_compute))).
  reflexivity.
Defined.

(** ** The amounts *)

Lemma land_align x k : 0 ≤ k < 64 → 0 ≤ x < 2 ^ 64 → Z.land x (u64 (Z.lnot (u64 (2 ^ k - 1)))) = x - x mod 2 ^ k.
Proof.
  intros Hk Hx. assert (2 ^ k < 2 ^ 64) by (apply Z.pow_lt_mono_r; lia).
  assert (0 < 2 ^ k) by (apply Z.pow_pos_nonneg; lia).
  unfold u64. rewrite (uwrap_small 64 (2 ^ k - 1)) by lia.
  unfold uwrap. rewrite <- Z.land_ones, Z.land_assoc, (Z.land_comm x), <- Z.land_assoc, Z.land_ones by lia.
  rewrite (Z.mod_small x) by lia. rewrite Z.land_comm, <- Z.ldiff_land.
  replace (2 ^ k - 1) with (Z.ones k) by (rewrite Z.ones_equiv; lia).
  rewrite Z.ldiff_ones_r, Z.shiftl_mul_pow2, Z.shiftr_div_pow2 by lia.
  pose proof (Z.div_mod x (2 ^ k)). lia.
Qed.

Lemma run_want_spec t : 0 ≤ t < 2 ^ 64 → let w := Z.min (t / 2) BLOCKS_MAX in run_want t = w - w mod BLOCK.
Proof.
  intros Ht w. unfold run_want. replace (if t / 2 <? BLOCKS_MAX then t / 2 else BLOCKS_MAX) with w
    by (unfold w; destruct (Z.ltb_spec (t / 2) BLOCKS_MAX); lia).
  assert (0 ≤ t / 2) by (apply Z.div_pos; lia). unfold w, BLOCKS_MAX, MIB in *. apply (land_align _ 22); lia.
Qed.

(** With at least 256 MiB free, the big process takes whole pages and leaves the promised margin (256 MiB or
    a tenth) and less than a page more; what is asked for afterwards is a whole number of 4 MiB
    blocks, at most 256 of them, so the table of 512 has room, and at most half of what the process
    took. From 800 MiB up to 10000 MiB it is more than what the process left free, as the header of
    the test claims; with 700 MiB or 16 GiB free it is not, and below 256 MiB the difference wraps
    around and a full GiB is asked for. *)
Theorem frag_amounts before k : 0 ≤ k ≤ 20 → MARGIN_MIN ≤ before < 2 ^ 63 →
  let pagesz := 2 ^ k in
  let target := run_target before pagesz in
  let want := run_want target in
  target mod pagesz = 0 ∧ margin before ≤ before - target < margin before + pagesz ∧
  want mod BLOCK = 0 ∧ 0 ≤ want ≤ target / 2 ∧ want / BLOCK ≤ 256 ∧
  (800 * MIB ≤ before < 10000 * MIB → before - target < want) ∧
  run_want (run_target (700 * MIB) 4096) < 700 * MIB - run_target (700 * MIB) 4096 ∧
  run_want (run_target (16384 * MIB) 4096) < 16384 * MIB - run_target (16384 * MIB) 4096 ∧
  run_want (run_target (200 * MIB) 4096) = 1024 * MIB.
Proof.
  intros Hk Hb pagesz target want.
  assert (Hpz : 0 < pagesz ≤ 2 ^ 20) by (split; [apply Z.pow_pos_nonneg; lia|apply Z.pow_le_mono_r; lia]).
  pose proof (Z.div_mod before 10 ltac:(lia)). pose proof (Z.mod_pos_bound before 10 ltac:(lia)).
  assert (Hm : margin before = Z.max MARGIN_MIN (before / 10)) by (unfold margin; destruct (Z.ltb_spec (before / 10) MARGIN_MIN); lia).
  assert (Ht : target = (before - margin before) - (before - margin before) mod pagesz).
  { unfold target, run_target, u64 at 1. rewrite uwrap_small by (unfold MARGIN_MIN, MIB in *; lia).
    apply land_align; unfold MARGIN_MIN, MIB in *; lia. }
  pose proof (Z.mod_pos_bound (before - margin before) pagesz ltac:(lia)).
  assert (Htr : 0 ≤ target < 2 ^ 64).
  { rewrite Ht. pose proof (Z.mod_le (before - margin before) pagesz). unfold MARGIN_MIN, MIB in *. lia. }
  pose proof (run_want_spec target Htr) as Hw. cbv zeta in Hw. fold want in Hw.
  set (w := Z.min (target / 2) BLOCKS_MAX) in *. pose proof (Z.mod_pos_bound w BLOCK ltac:(done)).
  pose proof (Z.div_mod w BLOCK ltac:(done)). pose proof (Z.div_mod target 2 ltac:(lia)). pose proof (Z.mod_pos_bound target 2 ltac:(lia)).
  assert (Hq : want = w / BLOCK * BLOCK) by lia.
  assert (0 ≤ w / BLOCK) by (apply Z.div_pos; [unfold w, BLOCKS_MAX, MIB; lia|done]).
  split_and!; [| | | | | | | |by vm_compute..].
  - assert (Et : target = pagesz * ((before - margin before) / pagesz)).
    { pose proof (Z.div_mod (before - margin before) pagesz ltac:(lia)). lia. }
    rewrite Et, Z.mul_comm. apply Z_mod_mult.
  - lia.
  - lia.
  - rewrite Hq. apply Z_mod_mult.
  - rewrite Hq. by apply Z.mul_nonneg_nonneg.
  - unfold w in *. lia.
  - rewrite Hq, Z.div_mul by done. apply Z.div_le_upper_bound; [done|]. unfold w, BLOCKS_MAX, BLOCK, MIB. lia.
  - intros Hr. unfold w, BLOCKS_MAX, BLOCK, MARGIN_MIN, MIB in *. lia.
Qed.

Lemma frag_amounts_witness : run_target (1024 * MIB) (2 ^ 12) mod 2 ^ 12 = 0.
Proof. apply (frag_amounts (1024 * MIB) 12); unfold MARGIN_MIN, MIB; lia. Defined.

(** ** The verdict *)

Lemma take_blocks_all fuel max n got : 0 ≤ n ≤ max → max ≤ BLOCKS_SLOT → max - n ≤ Z.of_nat fuel →
  (take_blocks fuel max n got =? max) = forallb (λ k, got (n + Z.of_nat k)) (seq 0 (Z.to_nat (max - n))).
Proof.
  revert n. induction fuel as [|fuel IH]; intros n Hn Hmax Hf; cbn [take_blocks].
  { assert (n = max) as -> by lia. by rewrite Z.eqb_refl, Z.sub_diag. }
  destruct (Z.eq_dec n max) as [-> |Hne]; [by rewrite Z.ltb_irrefl, Z.eqb_refl, Z.sub_diag|].
  rewrite !(proj2 (Z.ltb_lt _ _)) by lia. cbn [andb].
  replace (Z.to_nat (max - n)) with (S (Z.to_nat (max - (n + 1)))) by lia. cbn [seq forallb]. rewrite Z.add_0_r.
  destruct (got n); cbn [andb].
  - rewrite IH by lia. rewrite <- seq_shift. generalize (seq 0 (Z.to_nat (max - (n + 1)))) as l. clear.
    induction l as [|k l IH]; cbn [map forallb]; [done|]. rewrite IH. do 2 f_equal. lia.
  - apply Z.eqb_neq. lia.
Qed.

Lemma take_blocks_range fuel max n got : n ≤ take_blocks fuel max n got ≤ Z.max n max.
Proof.
  revert n. induction fuel as [|fuel IH]; intros n; cbn [take_blocks]; [lia|].
  destruct (Z.ltb_spec n max); cbn [andb]; [|lia]. destruct (n <? BLOCKS_SLOT), (got n); try lia.
  specialize (IH (n + 1)). lia.
Qed.

Section verdicts.
Context `{Target}.

(** The test passes exactly when there was memory for it, the big process
    got its memory, and one block of 16 MiB and all the blocks of 4 MiB were
    had. *)
Lemma frag_run_judges before pagesz exited code big got :
  let want := run_want (run_target before pagesz) in
  0 ≤ want / BLOCK ≤ BLOCKS_SLOT →
  verdict (frag_run before pagesz exited code big got)
    ((BLOCK <=? want) && (exited && (code =? 0)) && (big && forallb (λ j, got (Z.of_nat j)) (seq 0 (Z.to_nat (want / BLOCK))))).
Proof.
  intros want Hn. unfold frag_run, contiguousAfter. fold want. verdict_tac.
  pose proof (take_blocks_all (Z.to_nat BLOCKS_SLOT) (want / BLOCK) 0 got) as Ht. rewrite Z.sub_0_r in Ht.
  change (λ k, got (0 + Z.of_nat k)) with (λ k, got (Z.of_nat k)) in Ht.
  rewrite <- Ht by (unfold BLOCKS_SLOT in *; lia). clear Ht.
  pose proof (take_blocks_range (Z.to_nat BLOCKS_SLOT) (want / BLOCK) 0 got) as Hr.
  change (width UINT) with 64. unfold BLOCKS_SLOT in *. rewrite !uwrap_small by lia. rewrite (Z.eqb_sym (want / BLOCK)).
  destruct (BLOCK <=? want), exited, (Z.eqb_spec code 0), (Z.eqb_spec code 4); done || lia.
Qed.
End verdicts.

(** ** Waiting *)

(** Waiting for the free memory to settle ends once 30 s are over, whatever
    the memory does; the value returned is the last one sampled. *)
Lemma freeSettled_ends start f samples :
  Exists (λ s, 30000 ≤ u64 (s.2.2 - start)) samples →
  ∃ r, freeSettled start f samples = Some r ∧ r ∈ samples.*1.
Proof.
  unfold freeSettled. generalize start at 3 as stable. intros stable Hex. revert f stable.
  induction Hex as [[f' [[t1 t2] t3]] samples H30|[f' [[t1 t2] t3]] samples _ IH]; intros f stable; cbn [settle_loop fmap list_fmap fst].
  - cbn [fst snd] in H30. rewrite (proj2 (Z.leb_le 30000 (u64 (t3 - start))) H30), orb_true_r. exists f'. split; [done|]. by left.
  - case_match; [exists f'; split; [done|by left]|]. destruct (IH f' (if negb (f' =? f) then t1 else stable)) as (r & -> & Hr).
    exists r. split; [done|by right].
Qed.
