(* ===== verification/PollWake.v ===== *)
(** * The poll() wake-up tests on AF_UNIX sockets, libc/unix-poll-wake

    The test sends numbered messages, some with a descriptor, over a socket
    and judges poll() by what the receiver counted: lost, duplicated and
    malformed messages, descriptors and wake-up latencies. Modelled are the
    sender (upw_sendOne, upw_sendThread), the receiver (upw_takeFds,
    upw_account, upw_drainSocket, upw_drainPipe, upw_receive, upw_finish), the
    percentile and the verdict of a case. What the system calls return comes
    from lists of results, in the order of the calls. *)

From stdpp Require Import sorting.
From S2P Require Import Prelude CMachine UnityOutput UnityAssert UnityAssertSpec.
From S2P Require Import UnityMacros.

Definition UPW_MSG_SIZE : nat := 64.
Definition UPW_MAGIC : Z := 1431328513.
Definition UPW_QUIT : Z := 1431328514.
Definition UPW_FAIL_US : Z := 1000000.
Definition UPW_SLOW_US : Z := 100000.
Definition UPW_LATE_US : Z := 10000.
Definition UPW_STRICT_US : Z := 15000.
Definition UPW_SETTLE_MS : Z := 5000.
Definition UPW_PIPE_EVERY : Z := 50.

(** The members of a message that carry information: pad is zero and body is
    filled with 0xa5. *)
Record upw_msg_t := mkMsg { magic : Z; writer : Z; hasFd : Z; seq_no : Z; sendNs : Z }.

Record upw_stats_t := mkStats {
  expected : Z; recv : Z; lost : Z; dup : Z; bad : Z; fdsRecv : Z; fdMismatch : Z;
  wakes : Z; emptyWakes : Z; rxErrs : Z; hup : Z;
  complete : Z; ge10ms : Z; ge15ms : Z; gt100ms : Z; gt1s : Z;
  p50Us : Z; p99Us : Z; maxUs : Z; pipeN : Z; pipeP50Us : Z; pipeMaxUs : Z }.

(** [lat] and [pipeLat] are the arrays of [latCap] and [pipeCap] elements;
    [sbuf] is the part of the stream buffer in use, [shave] its length. *)
Record upw_rx_t := mkRx {
  perWriter0 : Z; perWriter1 : Z; next0 : Z; next1 : Z;
  latCap : Z; lat : list Z; pipeCap : Z; pipeLat : list Z;
  quit : bool; sbuf : list Z; st : upw_stats_t }.

Definition with_st (s : upw_stats_t) (rx : upw_rx_t) : upw_rx_t :=
  mkRx (perWriter0 rx) (perWriter1 rx) (next0 rx) (next1 rx) (latCap rx) (lat rx) (pipeCap rx) (pipeLat rx)
    (quit rx) (sbuf rx) s.
Definition with_quit (rx : upw_rx_t) : upw_rx_t :=
  mkRx (perWriter0 rx) (perWriter1 rx) (next0 rx) (next1 rx) (latCap rx) (lat rx) (pipeCap rx) (pipeLat rx)
    true (sbuf rx) (st rx).
Definition with_sbuf (b : list Z) (rx : upw_rx_t) : upw_rx_t :=
  mkRx (perWriter0 rx) (perWriter1 rx) (next0 rx) (next1 rx) (latCap rx) (lat rx) (pipeCap rx) (pipeLat rx)
    (quit rx) b (st rx).
Definition with_arrays (l pl : list Z) (rx : upw_rx_t) : upw_rx_t :=
  mkRx (perWriter0 rx) (perWriter1 rx) (next0 rx) (next1 rx) (latCap rx) l (pipeCap rx) pl
    (quit rx) (sbuf rx) (st rx).

(** The counters, each changed at its own places in the code. *)
Definition inc_bad (s : upw_stats_t) : upw_stats_t :=
  mkStats (expected s) (recv s) (lost s) (dup s) (u32 (bad s + 1)) (fdsRecv s) (fdMismatch s) (wakes s)
    (emptyWakes s) (rxErrs s) (hup s) (complete s) (ge10ms s) (ge15ms s) (gt100ms s) (gt1s s) (p50Us s)
    (p99Us s) (maxUs s) (pipeN s) (pipeP50Us s) (pipeMaxUs s).
Definition add_fdsRecv (n : Z) (s : upw_stats_t) : upw_stats_t :=
  mkStats (expected s) (recv s) (lost s) (dup s) (bad s) (u32 (fdsRecv s + n)) (fdMismatch s) (wakes s)
    (emptyWakes s) (rxErrs s) (hup s) (complete s) (ge10ms s) (ge15ms s) (gt100ms s) (gt1s s) (p50Us s)
    (p99Us s) (maxUs s) (pipeN s) (pipeP50Us s) (pipeMaxUs s).
Definition inc_wakes (s : upw_stats_t) : upw_stats_t :=
  mkStats (expected s) (recv s) (lost s) (dup s) (bad s) (fdsRecv s) (fdMismatch s) (u32 (wakes s + 1))
    (emptyWakes s) (rxErrs s) (hup s) (complete s) (ge10ms s) (ge15ms s) (gt100ms s) (gt1s s) (p50Us s)
    (p99Us s) (maxUs s) (pipeN s) (pipeP50Us s) (pipeMaxUs s).
Definition inc_emptyWakes (s : upw_stats_t) : upw_stats_t :=
  mkStats (expected s) (recv s) (lost s) (dup s) (bad s) (fdsRecv s) (fdMismatch s) (wakes s)
    (u32 (emptyWakes s + 1)) (rxErrs s) (hup s) (complete s) (ge10ms s) (ge15ms s) (gt100ms s) (gt1s s)
    (p50Us s) (p99Us s) (maxUs s) (pipeN s) (pipeP50Us s) (pipeMaxUs s).
Definition inc_rxErrs (s : upw_stats_t) : upw_stats_t :=
  mkStats (expected s) (recv s) (lost s) (dup s) (bad s) (fdsRecv s) (fdMismatch s) (wakes s) (emptyWakes s)
    (u32 (rxErrs s + 1)) (hup s) (complete s) (ge10ms s) (ge15ms s) (gt100ms s) (gt1s s) (p50Us s) (p99Us s)
    (maxUs s) (pipeN s) (pipeP50Us s) (pipeMaxUs s).
Definition set_hup (s : upw_stats_t) : upw_stats_t :=
  mkStats (expected s) (recv s) (lost s) (dup s) (bad s) (fdsRecv s) (fdMismatch s) (wakes s) (emptyWakes s)
    (rxErrs s) 1 (complete s) (ge10ms s) (ge15ms s) (gt100ms s) (gt1s s) (p50Us s) (p99Us s) (maxUs s)
    (pipeN s) (pipeP50Us s) (pipeMaxUs s).
Definition inc_pipeN (s : upw_stats_t) : upw_stats_t :=
  mkStats (expected s) (recv s) (lost s) (dup s) (bad s) (fdsRecv s) (fdMismatch s) (wakes s) (emptyWakes s)
    (rxErrs s) (hup s) (complete s) (ge10ms s) (ge15ms s) (gt100ms s) (gt1s s) (p50Us s) (p99Us s) (maxUs s)
    (u32 (pipeN s + 1)) (pipeP50Us s) (pipeMaxUs s).
Definition set_order (l d : Z) (s : upw_stats_t) : upw_stats_t :=
  mkStats (expected s) (recv s) l d (bad s) (fdsRecv s) (fdMismatch s) (wakes s) (emptyWakes s) (rxErrs s)
    (hup s) (complete s) (ge10ms s) (ge15ms s) (gt100ms s) (gt1s s) (p50Us s) (p99Us s) (maxUs s) (pipeN s)
    (pipeP50Us s) (pipeMaxUs s).
Definition inc_recv (s : upw_stats_t) : upw_stats_t :=
  mkStats (expected s) (u32 (recv s + 1)) (lost s) (dup s) (bad s) (fdsRecv s) (fdMismatch s) (wakes s)
    (emptyWakes s) (rxErrs s) (hup s) (complete s) (ge10ms s) (ge15ms s) (gt100ms s) (gt1s s) (p50Us s)
    (p99Us s) (maxUs s) (pipeN s) (pipeP50Us s) (pipeMaxUs s).
Definition inc_fdMismatch (s : upw_stats_t) : upw_stats_t :=
  mkStats (expected s) (recv s) (lost s) (dup s) (bad s) (fdsRecv s) (u32 (fdMismatch s + 1)) (wakes s)
    (emptyWakes s) (rxErrs s) (hup s) (complete s) (ge10ms s) (ge15ms s) (gt100ms s) (gt1s s) (p50Us s)
    (p99Us s) (maxUs s) (pipeN s) (pipeP50Us s) (pipeMaxUs s).
Definition set_summary (c g10 g15 g100 g1 p50 p99 mx pp50 pmx : Z) (s : upw_stats_t) : upw_stats_t :=
  mkStats (expected s) (recv s) (lost s) (dup s) (bad s) (fdsRecv s) (fdMismatch s) (wakes s) (emptyWakes s)
    (rxErrs s) (hup s) c g10 g15 g100 g1 p50 p99 mx (pipeN s) pp50 pmx.

(** ** Latencies *)

Definition upw_latUs (wakeNs sentNs : Z) : Z :=
  let us := Z.quot (wakeNs - sentNs) 1000 in
  if us <? 0 then 0 else if 2 ^ 32 - 1 <? us then 2 ^ 32 - 1 else us.

(** [None] is a read outside of [v]. *)
Definition upw_pct (v : list Z) (n p : Z) : option Z :=
  if n =? 0 then Some 0
  else
    let idx := u32 (u64 (u64 (n * p) + 99) / 100) in
    v !! Z.to_nat (if idx =? 0 then 0 else idx - 1).

(** qsort() of the first [n] elements with upw_cmpU32. *)
Definition sort_first (n : Z) (v : list Z) : list Z :=
  merge_sort Z.le (take (Z.to_nat n) v) ++ drop (Z.to_nat n) v.

(** The elements, and those among the first [n], that [f] counts. *)
Definition count (f : Z → bool) (v : list Z) : Z := Z.of_nat (length (filter (λ x, f x = true) v)).
Definition count_first (f : Z → bool) (n : Z) (v : list Z) : Z := count f (take (Z.to_nat n) v).

(** A write to an array element. *)
Definition store_lat (v : list Z) (i l : Z) : list Z := <[Z.to_nat i := l]> v.

(** ** Control messages *)

(** A control message as the CMSG macros show it: [rights] for one of
    SOL_SOCKET and SCM_RIGHTS, and the descriptors in its data. *)
Record cmsg_t := mkCmsg { rights : bool; cmsg_len : Z; cmsg_fds : list Z }.

Section receiver.
Context `{Target}.

(** CMSG_LEN(0), from the system's headers. *)
Context (CMSG_LEN0 : Z).

(** The number of descriptors and the descriptors it closes. *)
Fixpoint upw_takeFds (cs : list cmsg_t) : Z * list Z :=
  match cs with
  | [] => (0, [])
  | c :: cs =>
      let '(n, closed) := upw_takeFds cs in
      if negb (rights c) || (cmsg_len c <? CMSG_LEN0) then (n, closed)
      else
        let cnt := u32 ((cmsg_len c - CMSG_LEN0) / 4) in
        (u32 (cnt + n), take (Z.to_nat cnt) (cmsg_fds c) ++ closed)
  end.

(** ** Messages *)

(** The 64 bytes of a message, and memcpy() of them into an upw_msg_t. *)
Definition upw_encode (m : upw_msg_t) : list Z :=
  to_bytes 4 (magic m) ++ to_bytes 2 (writer m) ++ to_bytes 2 (hasFd m) ++ to_bytes 4 (seq_no m) ++
  to_bytes 4 0 ++ to_bytes 8 (u64 (sendNs m)) ++ replicate 40 165.

Definition upw_decode (bs : list Z) : upw_msg_t :=
  let field k n := of_bytes (take n (drop k bs)) in
  mkMsg (field 0 4)%nat (field 4 2)%nat (field 6 2)%nat (field 8 4)%nat (i64 (field 16 8)%nat).

(** [fdGot] is negative for a stream socket. *)
Definition upw_account (wakeNs fdGot : Z) (rx : upw_rx_t) (m : upw_msg_t) : upw_rx_t :=
  let s := st rx in
  if magic m =? UPW_QUIT then with_quit rx
  else if negb (magic m =? UPW_MAGIC) || (2 <=? writer m) then with_st (inc_bad s) rx
  else
    let next := if writer m =? 0 then next0 rx else next1 rx in
    let '(next', s) :=
      if seq_no m =? next then (u32 (next + 1), s)
      else if next <? seq_no m then (u32 (seq_no m + 1), set_order (u32 (lost s + (seq_no m - next))) (dup s) s)
      else (next, set_order (lost s) (u32 (dup s + 1)) s) in
    let l := upw_latUs wakeNs (sendNs m) in
    let lat' := if recv s <? latCap rx then store_lat (lat rx) (recv s) l else lat rx in
    let s := inc_recv s in
    let s := if (0 <=? fdGot) && negb (eqb (negb (fdGot =? 0)) (negb (hasFd m =? 0))) then inc_fdMismatch s else s in
    mkRx (perWriter0 rx) (perWriter1 rx)
      (if writer m =? 0 then next' else next0 rx) (if writer m =? 0 then next1 rx else next')
      (latCap rx) lat' (pipeCap rx) (pipeLat rx) (quit rx) (sbuf rx) s.

Definition upw_isComplete (rx : upw_rx_t) : bool :=
  (perWriter0 rx <=? next0 rx) && (perWriter1 rx <=? next1 rx).

(** ** Draining *)

(** A result of recvmsg(): bytes with their control messages, the end of the
    connection, or an error. *)
Inductive recv_result := Data (bytes : list Z) (cs : list cmsg_t) | Closed | Eintr | Eagain | Failed.

(** [while (rx->shave >= UPW_MSG_SIZE)], with the number of messages. *)
Fixpoint stream_loop (fuel : nat) (wakeNs got : Z) (rx : upw_rx_t) : option (Z * upw_rx_t) :=
  match fuel with
  | O => None
  | S fuel =>
      if (UPW_MSG_SIZE <=? length (sbuf rx))%nat then
        let rx' := upw_account wakeNs (-1) rx (upw_decode (take UPW_MSG_SIZE (sbuf rx))) in
        stream_loop fuel wakeNs (got + 1) (with_sbuf (drop UPW_MSG_SIZE (sbuf rx)) rx')
      else Some (got, rx)
  end.

(** Every round takes bytes out of the buffer. *)
Definition drain_stream (wakeNs got : Z) (rx : upw_rx_t) : option (Z * upw_rx_t) :=
  stream_loop (S (length (sbuf rx))) wakeNs got rx.

(** A whole message of a framed socket. *)
Definition take_frame (wakeNs fds : Z) (rx : upw_rx_t) (bytes : list Z) : upw_rx_t :=
  if (length bytes =? UPW_MSG_SIZE)%nat then upw_account wakeNs fds rx (upw_decode bytes)
  else with_st (inc_bad (st rx)) rx.

(** The bytes recvmsg() may store: in a buffer of two messages, or in what is
    left of sbuf, which has room for 64 messages. *)
Definition recv_room (framed : bool) (rx : upw_rx_t) : nat :=
  (if framed then UPW_MSG_SIZE * 2 else UPW_MSG_SIZE * 64 - length (sbuf rx))%nat.

(** The result (-1 after an error) and the results left for later calls.
    [None]: no bytes at all or more than recvmsg() was asked for, or no result
    left. *)
Fixpoint upw_drainSocket (framed : bool) (wakeNs got : Z) (rx : upw_rx_t) (rs : list recv_result) :
    option (Z * upw_rx_t * list recv_result) :=
  match rs with
  | [] => None
  | Eintr :: rs => upw_drainSocket framed wakeNs got rx rs
  | Eagain :: rs => Some (got, rx, rs)
  | Failed :: rs => Some (-1, with_st (inc_rxErrs (st rx)) rx, rs)
  | Closed :: rs => Some (got, with_st (set_hup (st rx)) rx, rs)
  | Data bytes cs :: rs =>
      if ((length bytes =? 0) || (recv_room framed rx <? length bytes))%nat then None
      else
        let fds := (upw_takeFds cs).1 in
        let rx := with_st (add_fdsRecv fds (st rx)) rx in
        '(got, rx) ←
          (if framed then Some (got + 1, take_frame wakeNs (i32 fds) rx bytes)
           else drain_stream wakeNs got (with_sbuf (sbuf rx ++ bytes) rx));
        if quit rx || upw_isComplete rx then Some (got, rx, rs)
        else upw_drainSocket framed wakeNs got rx rs
  end.

(** The tokens the non-blocking read end gives before it runs dry. *)
Fixpoint upw_drainPipe (wakeNs got : Z) (rx : upw_rx_t) (tokens : list Z) : Z * upw_rx_t :=
  match tokens with
  | [] => (got, rx)
  | t :: tokens =>
      let n := pipeN (st rx) in
      let pl := if n <? pipeCap rx then store_lat (pipeLat rx) n (upw_latUs wakeNs t) else pipeLat rx in
      upw_drainPipe wakeNs (got + 1) (with_arrays (lat rx) pl (with_st (inc_pipeN (st rx)) rx)) tokens
  end.

(** ** The receiver *)

Definition upw_finish (rx : upw_rx_t) : option upw_rx_t :=
  let s := st rx in
  let n := if recv s <? latCap rx then recv s else latCap rx in
  let pn := if pipeN s <? pipeCap rx then pipeN s else pipeCap rx in
  let v := sort_first n (lat rx) in
  let pv := sort_first pn (pipeLat rx) in
  p50 ← upw_pct v n 50; p99 ← upw_pct v n 99;
  max ← (if 0 <? n then v !! Z.to_nat (n - 1) else Some 0);
  pp50 ← upw_pct pv pn 50;
  pmax ← (if 0 <? pn then pv !! Z.to_nat (pn - 1) else Some 0);
  Some (with_arrays v pv (with_st (set_summary (if upw_isComplete rx then 1 else 0)
    (u32 (ge10ms s + count_first (λ x, UPW_LATE_US <=? x) n (lat rx)))
    (u32 (ge15ms s + count_first (λ x, UPW_STRICT_US <=? x) n (lat rx)))
    (u32 (gt100ms s + count_first (λ x, UPW_SLOW_US <? x) n (lat rx)))
    (u32 (gt1s s + count_first (λ x, UPW_FAIL_US <? x) n (lat rx)))
    p50 p99 max pp50 pmax s) rx)).

(** A return of poll(): an error, or a wake with the time, the tokens that a
    readable pipe gives, and whether the socket has POLLNVAL or any event. *)
Inductive poll_result :=
  | Poll_eintr | Poll_error
  | Woken (wakeNs : Z) (pipeIn : option (list Z)) (nval events : bool).

(** The loop of upw_receive, with the results recvmsg() has left; [None] when
    it still sleeps in poll(). *)
Fixpoint receive_loop (framed : bool) (rx : upw_rx_t) (ps : list poll_result) (rs : list recv_result) :
    option (upw_rx_t * list recv_result) :=
  if negb (upw_isComplete rx) && negb (quit rx) && (hup (st rx) =? 0) then
    match ps with
    | [] => None
    | Poll_eintr :: ps => receive_loop framed rx ps rs
    | Poll_error :: _ => Some (with_st (inc_rxErrs (st rx)) rx, rs)
    | Woken t pipeIn nval events :: ps =>
        let rx := with_st (inc_wakes (st rx)) rx in
        let '(got, rx) := upw_drainPipe t 0 rx (default [] pipeIn) in
        if nval then Some (with_st (inc_rxErrs (st rx)) rx, rs)
        else
          '(r, rx, rs) ← (if events then upw_drainSocket framed t 0 rx rs else Some (0, rx, rs));
          if r <? 0 then Some (rx, rs)
          else receive_loop framed (if got + r =? 0 then with_st (inc_emptyWakes (st rx)) rx else rx) ps rs
    end
  else Some (rx, rs).

Definition upw_receive (framed : bool) (rx : upw_rx_t) (ps : list poll_result) (rs : list recv_result) :
    option (upw_rx_t * list recv_result) :=
  '(rx, rs) ← receive_loop framed rx ps rs; rx ← upw_finish rx; Some (rx, rs).

(** The receiver upw_run sets up for a total of [total] messages; a forked
    receiver has no room for pipe tokens. *)
Definition rx_init (total writers : Z) (forked : bool) : upw_rx_t :=
  let per := total / writers in
  let pipeCap := if forked then 0 else u32 (total / UPW_PIPE_EVERY + 1) in
  mkRx per (if writers =? 2 then per else 0) 0 0
    total (replicate (Z.to_nat total) 0) pipeCap (replicate (Z.to_nat pipeCap) 0) false []
    (mkStats (u32 (per * writers)) 0 0 0 0 0 0 0 0 0 0 0 0 0 0 0 0 0 0 0 0 0).

(** ** The verdict *)

(** [strict] is upw_common.strict and the case's readinessWoken together. *)
Definition upw_ok (txErr rxTimedOut fdsSent : Z) (strict : bool) (s : upw_stats_t) : bool :=
  (txErr =? 0) && (rxTimedOut =? 0) && negb (complete s =? 0) && (recv s =? expected s) &&
  (lost s =? 0) && (dup s =? 0) && (bad s =? 0) && (rxErrs s =? 0) && (fdMismatch s =? 0) &&
  (fdsRecv s =? fdsSent) && (gt1s s =? 0) && (pipeMaxUs s <=? UPW_FAIL_US) && (negb strict || (ge15ms s =? 0)).

(** The assertions of upw_check. *)
Definition upw_check (txErr rxTimedOut fdsSent : Z) (strict : bool) (s : upw_stats_t) : M unit :=
  TEST_ASSERT_EQUAL_MESSAGE INT 0 txErr 1005 (Some (str "sendmsg() failed (errno)"));;
  TEST_ASSERT_EQUAL_MESSAGE INT 0 rxTimedOut 1006 (Some (str "a message was not seen within 5 s of the last send"));;
  TEST_ASSERT_EQUAL_MESSAGE UINT 0 (lost s) 1007 (Some (str "messages lost (sequence gap)"));;
  TEST_ASSERT_EQUAL_MESSAGE UINT 0 (dup s) 1008 (Some (str "messages duplicated or reordered"));;
  TEST_ASSERT_EQUAL_MESSAGE UINT 0 (bad s) 1009 (Some (str "malformed messages"));;
  TEST_ASSERT_EQUAL_MESSAGE UINT 0 (rxErrs s) 1010 (Some (str "poll()/recvmsg() failed"));;
  TEST_ASSERT_EQUAL_MESSAGE UINT (expected s) (recv s) 1011 (Some (str "not every message arrived"));;
  TEST_ASSERT_bool_MESSAGE (B_TRUE (negb (complete s =? 0))) 1012 (Some (str "receiver did not complete"));;
  TEST_ASSERT_EQUAL_MESSAGE UINT 0 (fdMismatch s) 1013 (Some (str "an fd did not travel with its message"));;
  TEST_ASSERT_EQUAL_MESSAGE UINT fdsSent (fdsRecv s) 1014 (Some (str "fds sent != fds received"));;
  TEST_ASSERT_EQUAL_MESSAGE UINT 0 (gt1s s) 1015 (Some (str "a poll() wake took more than 1 s"));;
  TEST_ASSERT_bool_MESSAGE (B_TRUE (pipeMaxUs s <=? UPW_FAIL_US)) 1016 (Some (str "a pipe wake took more than 1 s"));;
  when strict (
    TEST_ASSERT_EQUAL_MESSAGE UINT 0 (ge15ms s) 1018
      (Some (str "--strict: a wake >= 15 ms came from the fallback timer (lost notify)"))).

(** ** The sender *)

Inductive errno_t := E_MSGSIZE | E_TIMEDOUT | E_other (e : Z).

(** The members of upw_tx_t the sender changes; no error is [None]. *)
Record upw_tx_t := mkTx { sent : Z; fdsSent : Z; eagain : Z; err : option errno_t }.

Definition with_err (e : errno_t) (tx : upw_tx_t) : upw_tx_t := mkTx (sent tx) (fdsSent tx) (eagain tx) (Some e).
Definition inc_eagain (tx : upw_tx_t) : upw_tx_t := mkTx (sent tx) (fdsSent tx) (u32 (eagain tx + 1)) (err tx).

(** A result of sendmsg(); EAGAIN comes with the clock read after it. *)
Inductive send_result := Sent (r : Z) | S_eintr | S_eagain (now : Z) | S_failed (e : Z).

(** What went out: pieces of bytes, each with a descriptor or without. *)
Definition wire_t : Type := list (list Z * bool).

(** The loop of upw_sendOne: [left] bytes of [m] are not sent yet and [ctl]
    says whether the control message is still attached. *)
Fixpoint sendOne_loop (stream : bool) (m : list Z) (left : nat) (ctl : bool) (stuckSince : Z) (tx : upw_tx_t)
    (wire : wire_t) (rs : list send_result) : option (Z * upw_tx_t * wire_t * list send_result) :=
  match rs with
  | [] => None
  | Sent r :: rs =>
      let wire := wire ++ [(take (Z.to_nat r) (drop (UPW_MSG_SIZE - left) m), ctl)] in
      if r =? Z.of_nat left then Some (0, tx, wire, rs)
      else if (0 <? r) && stream && (r <? Z.of_nat left) then
        sendOne_loop stream m (left - Z.to_nat r) false stuckSince tx wire rs
      else Some (-1, with_err E_MSGSIZE tx, wire, rs)
  | S_eintr :: rs => sendOne_loop stream m left ctl stuckSince tx wire rs
  | S_eagain now :: rs =>
      let tx := inc_eagain tx in
      if stuckSince =? 0 then sendOne_loop stream m left ctl now tx wire rs
      else if UPW_SETTLE_MS * 1000000 <? now - stuckSince then Some (-1, with_err E_TIMEDOUT tx, wire, rs)
      else sendOne_loop stream m left ctl stuckSince tx wire rs
  | S_failed e :: rs => Some (-1, with_err (E_other e) tx, wire, rs)
  end.

Definition upw_sendOne (stream : bool) (m : list Z) (withFd : bool) (tx : upw_tx_t) (rs : list send_result) :=
  sendOne_loop stream m UPW_MSG_SIZE withFd 0 tx [] rs.

(** A case as the sender sees it: [sendWriter] and [sendCount] are the
    writer and count of its upw_tx_t. *)
Record send_case := mkSend {
  is_stream : bool; fdEvery : Z; wakePipe : bool; sendWriter : Z; sendCount : Z }.

Definition send_withFd (c : send_case) (i : Z) : bool :=
  (0 <? fdEvery c) && (i mod fdEvery c =? fdEvery c - 1).

Definition send_msg (c : send_case) (now i : Z) : upw_msg_t :=
  mkMsg UPW_MAGIC (sendWriter c) (if send_withFd c i then 1 else 0) i now.

(** The loop of upw_sendThread: [k] messages from [i] on are left, [now] is
    the clock read for each message and [token] the error, if any, of the
    write to the pipe after it. *)
Fixpoint send_loop (c : send_case) (now : Z → Z) (token : Z → option Z) (k : nat) (i : Z) (tx : upw_tx_t)
    (wire : wire_t) (rs : list send_result) : option (upw_tx_t * wire_t * list send_result) :=
  match k with
  | O => Some (tx, wire, rs)
  | S k =>
      let withFd := send_withFd c i in
      '(r, tx, pieces, rs) ← upw_sendOne (is_stream c) (upw_encode (send_msg c (now i) i)) withFd tx rs;
      let wire := wire ++ pieces in
      if r <? 0 then Some (tx, wire, rs)
      else
        let tx := mkTx (u32 (sent tx + 1)) (u32 (fdsSent tx + if withFd then 1 else 0)) (eagain tx) (err tx) in
        if wakePipe c && (i mod UPW_PIPE_EVERY =? UPW_PIPE_EVERY / 2) && (i + 1 <? sendCount c) then
          match token i with
          | Some e => Some (with_err (E_other e) tx, wire, rs)
          | None => send_loop c now token k (i + 1) tx wire rs
          end
        else send_loop c now token k (i + 1) tx wire rs
  end.

Definition upw_sendThread (c : send_case) (now : Z → Z) (token : Z → option Z) (rs : list send_result) :
    option (upw_tx_t * wire_t * list send_result) :=
  send_loop c now token (Z.to_nat (sendCount c)) 0 (mkTx 0 0 0 None) [] rs.
End receiver.
