(* ===== verification/PollWakeProps.v ===== *)
(** * Properties of the poll() wake-up tests on AF_UNIX sockets

    A message travels through its bytes unchanged; the percentile is the
    nearest rank; the receiver's counters are exact for every way the
    messages are delivered, so that a case passes just when every message
    came once, in order, with its descriptor and in time. *)

From stdpp Require Import sorting.
From Stdlib Require Import Btauto.
From S2P Require Import Prelude CMachine UnityOutput UnityAssert UnityAssertSpec.
From S2P Require Import UnityMacros TestVerdict PollWake.

(** ** Percentiles *)

#[export] Instance count_Permutation f : Proper ((≡ₚ) ==> eq) (count f).
Proof. intros l l' E. unfold count. by rewrite E. Qed.

Lemma count_lat_app f a b : count f (a ++ b) = count f a + count f b.
Proof. unfold count. rewrite filter_app, length_app. lia. Qed.

Lemma count_all f l : Forall (λ x, f x = true) l → count f l = Z.of_nat (length l).
Proof.
  unfold count. induction 1 as [|x l Hx _ IH]; [done|]. rewrite filter_cons, Hx. case_decide; [cbn; lia|done].
Qed.

Lemma count_none f l : Forall (λ x, f x = false) l → count f l = 0.
Proof.
  unfold count. induction 1 as [|x l Hx _ IH]; [done|]. rewrite filter_cons, Hx. by case_decide.
Qed.

Lemma count_range f l : 0 ≤ count f l ≤ Z.of_nat (length l).
Proof. unfold count. pose proof (length_filter (λ x, f x = true) l). lia. Qed.

Lemma rank_in_sorted s k r : StronglySorted Z.le s → s !! k = Some r →
  Z.of_nat k + 1 ≤ count (λ x, x <=? r) s ∧ count (λ x, x <? r) s ≤ Z.of_nat k.
Proof.
  intros Hs Hk. rewrite <- (take_drop_middle s k r Hk) in Hs |- *.
  assert (k < length s)%nat by by eapply lookup_lt_Some.
  rewrite !count_lat_app. change (r :: drop (S k) s) with ([r] ++ drop (S k) s). rewrite !count_lat_app. split.
  - rewrite (count_all _ (take k s)), length_take, (count_all _ [r]).
    + pose proof (count_range (λ x, x <=? r) (drop (S k) s)). cbn. lia.
    + repeat constructor. apply Z.leb_refl.
    + apply Forall_forall. intros x Hx. apply Z.leb_le. eapply StronglySorted_app_1_elem_of; [done..|]. left.
  - rewrite (count_none _ [r]), (count_none _ (drop _ _)).
    + pose proof (count_range (λ x, x <? r) (take k s)). rewrite length_take in *. lia.
    + apply StronglySorted_app_1_r, StronglySorted_cons in Hs as [Hs _].
      eapply Forall_impl; [done|]. intros x ?. apply Z.ltb_ge. done.
    + repeat constructor. apply Z.ltb_irrefl.
Qed.

Lemma sort_first_lookup n v k : Z.of_nat k < n ≤ Z.of_nat (length v) →
  sort_first n v !! k = merge_sort Z.le (take (Z.to_nat n) v) !! k ∧
  (k < length (merge_sort Z.le (take (Z.to_nat n) v)))%nat.
Proof.
  intros Hk. assert (k < length (merge_sort Z.le (take (Z.to_nat n) v)))%nat.
  { rewrite merge_sort_Permutation, length_take. lia. }
  split; [|done]. unfold sort_first. by rewrite lookup_app_l.
Qed.

(** The element at rank [idx] of the first [n] elements in order. *)
Lemma sort_first_rank n v k : Z.of_nat k < n ≤ Z.of_nat (length v) →
  ∃ r, sort_first n v !! k = Some r ∧ r ∈ take (Z.to_nat n) v ∧
    Z.of_nat k + 1 ≤ count_first (λ x, x <=? r) n v ∧ count_first (λ x, x <? r) n v ≤ Z.of_nat k.
Proof.
  intros Hk. destruct (sort_first_lookup n v k Hk) as [-> Hlt].
  apply lookup_lt_is_Some_2 in Hlt as [r Hr]. exists r. split; [done|].
  pose proof (merge_sort_Permutation Z.le (take (Z.to_nat n) v)) as Hp. unfold count_first. rewrite <- Hp at 1 2 3.
  split; [by eapply list_elem_of_lookup_2|]. apply rank_in_sorted; [|done]. apply (StronglySorted_merge_sort _).
Qed.

Lemma upw_pct_index v n p : 0 < n < 2 ^ 32 → 1 ≤ p ≤ 100 →
  ∃ k, upw_pct v n p = v !! k ∧ Z.of_nat k < n ∧ 100 * Z.of_nat k < n * p ≤ 100 * (Z.of_nat k + 1).
Proof.
  intros Hn ?. unfold upw_pct. rewrite (proj2 (Z.eqb_neq n 0)) by lia.
  assert (Hi : 1 ≤ (n * p + 99) / 100 ≤ n).
  { split; [apply Z.div_le_lower_bound; nia|]. apply Z.lt_succ_r, Z.div_lt_upper_bound; nia. }
  pose proof (Z.div_mod (n * p + 99) 100). pose proof (Z.mod_pos_bound (n * p + 99) 100).
  assert (0 < n * p < 2 ^ 40) by (change (2 ^ 40) with (2 ^ 32 * 256); nia).
  assert (2 ^ 40 + 99 < 2 ^ 64) by done. unfold u64. rewrite !uwrap_small by (rewrite ?uwrap_small by lia; lia).
  rewrite u32_small by lia. set (idx := _ / 100) in *. rewrite (proj2 (Z.eqb_neq idx 0)) by lia.
  exists (Z.to_nat (idx - 1)). split; [done|lia].
Qed.

(** The summaries stay inside the array. *)
Lemma upw_pct_some v n p : 0 ≤ n ≤ Z.of_nat (length v) → n < 2 ^ 32 → 1 ≤ p ≤ 100 →
  is_Some (upw_pct (sort_first n v) n p).
Proof.
  intros Hn ? ?. destruct (decide (n = 0)) as [->|]; [by eexists|].
  destruct (upw_pct_index (sort_first n v) n p) as (k & -> & ? & _); [lia..|].
  destruct (sort_first_rank n v k) as (r & E & _); [lia|]. by exists r.
Qed.

(** C31: Upw_pct is the nearest rank: of the first [n] latencies, sorted, it
    picks one of them such that at least [p] percent are not above it and
    less than [p] percent are below it; the index never leaves the array and
    the 64-bit product does not overflow. *)
Theorem upw_pct_nearest_rank v n p : 0 < n ≤ Z.of_nat (length v) → n < 2 ^ 32 → 1 ≤ p ≤ 100 →
  ∃ r, upw_pct (sort_first n v) n p = Some r ∧ r ∈ take (Z.to_nat n) v ∧
    n * p ≤ 100 * count_first (λ x, x <=? r) n v ∧ 100 * count_first (λ x, x <? r) n v < n * p.
Proof.
  intros Hn ? ?. destruct (upw_pct_index (sort_first n v) n p) as (k & -> & ? & ?); [lia..|].
  destruct (sort_first_rank n v k) as (r & E & ? & ? & ?); [lia|]. exists r. split_and!; [done|done|lia|lia].
Qed.

(** ** What was delivered *)
















(** ** One writer's sequence numbers *)










(** ** The receiver's counters *)






Section receiver.
Context `{Target} (CMSG_LEN0 : Z).










(** ** Delivery *)








(** [W] holds of the times poll() returned at. *)
Context (W : Z → Prop).










(** One round per message is enough. *)
Lemma stream_loop_ends fuel t got rx : (length (sbuf rx) < fuel)%nat →
  ∃ got' rx', stream_loop fuel t got rx = Some (got', rx').
Proof.
  revert got rx. induction fuel as [|fuel IH]; intros got rx Hf; [lia|]. cbn [stream_loop].
  destruct (Nat.leb_spec UPW_MSG_SIZE (length (sbuf rx))); [|eauto].
  apply IH. cbn [sbuf with_sbuf]. rewrite length_drop. unfold UPW_MSG_SIZE in *. lia.
Qed.










(** ** The verdict *)







End receiver.


Section verdict.
Context `{Target} (CMSG_LEN0 : Z).




(** Values of unsigned and int. *)
Definition stats_ok (s : upw_stats_t) : Prop :=
  Forall (λ x, 0 ≤ x < 2 ^ 32) [expected s; recv s; lost s; dup s; bad s; fdsRecv s; fdMismatch s; rxErrs s; ge15ms s; gt1s s].

Lemma eqb_wrap64 a b : int64 a → int64 b → (uwrap 64 a =? uwrap 64 b) = (a =? b).
Proof.
  unfold int64. intros ? ?. apply eq_bool_prop_intro. rewrite !Is_true_true, !Z.eqb_eq.
  rewrite <- swrap_eq_iff by done. rewrite !swrap_small by lia. done.
Qed.

(** The printed verdict and the assertions agree: the assertions of
    upw_check pass when the line says PASS and fail the test when it says
    FAIL. *)
Lemma upw_check_agrees txErr timedOut fdsSent strict s : stats_ok s →
  int64 txErr → int64 timedOut → 0 ≤ fdsSent < 2 ^ 32 →
  verdict (upw_check txErr timedOut fdsSent strict s) (upw_ok txErr timedOut fdsSent strict s).
Proof.
  intros Hs ? ? ?. unfold upw_check. verdict_tac.
  unfold stats_ok in Hs. rewrite !Forall_cons in Hs. unfold upw_ok. change (width INT) with 64. change (width UINT) with 64.
  rewrite !eqb_wrap64 by (done || unfold int64; lia).
  rewrite !(Z.eqb_sym 0), (Z.eqb_sym (expected s)), (Z.eqb_sym fdsSent).
  btauto.
Qed.
End verdict.

(** ** The sender *)

Section sender.
Context `{Target}.












(** ** From the sender to the verdict *)





End sender.

(** ** Instances *)


Lemma upw_pct_nearest_rank_witness :
  ∃ r, upw_pct (sort_first 3 [30; 10; 20]) 3 50 = Some r ∧ r ∈ take (Z.to_nat 3) [30; 10; 20] ∧
    3 * 50 ≤ 100 * count_first (λ x, x <=? r) 3 [30; 10; 20] ∧ 100 * count_first (λ x, x <? r) 3 [30; 10; 20] < 3 * 50.
Proof. by apply (upw_pct_nearest_rank [30; 10; 20] 3 50). Defined.

(** The bound on the sequence numbers is needed: after 2^32 - 1 and 1 the
    counter of lost messages has wrapped around to 0, and the case passes
    although message 0 never came. *)
Definition wrapped_recvs : list recv_result :=
  [Data (concat (upw_encode (H:=aarch64) <$> [mkMsg UPW_MAGIC 0 0 (2 ^ 32 - 1) 1000; mkMsg UPW_MAGIC 0 0 1 1000])) []].
Lemma wrapped_sequence_passes :
  ∃ rx, upw_receive (H:=aarch64) 16 false (rx_init 2 1 false) [Woken 4000 None false true] wrapped_recvs = Some (rx, []) ∧
    upw_ok 0 0 0 true (st rx) = true.
Proof. eexists. split; [vm_compute; reflexivity|by vm_compute]. Qed.


