(* ===== verification/PipeWake.v ===== *)
(** * The poll() wake-up tests on pipes and ptys, libc/unix-poll-wake

    The second half of the test: time tokens through a pipe (upw_pipeDrain,
    upw_pipeReceive, upw_pipeCheck), readiness changes one at a time
    (upw_pipeTransition, upw_ptyTransition), and the two threads that move
    bytes through a non-blocking pipe (upw_nbWriter, upw_nbReader) as a step
    relation over their atomic operations. What the system calls return comes
    from lists of results, in the order of the calls. *)

From S2P Require Import Prelude CMachine UnityOutput UnityAssert UnityAssertSpec.
From S2P Require Import UnityMacros PollWake.

Definition UPW_PIPE_P99_US : Z := 5000.
Definition UPW_PIPE_REPS : Z := 50.
Definition UPW_NB_INFLIGHT : Z := 256.

(** An unsigned counter's increment. *)
Definition inc (x : Z) : Z := u32 (x + 1).

(** ** Tokens through a pipe *)

(** [pbuf] is the part of the caller's buffer in use. *)
Record upw_pipeRx_t := mkPipeRx {
  precv : Z; pbad : Z; pwakes : Z; pemptyWakes : Z; prxErrs : Z; punixWakes : Z;
  eof : bool; timedOut : bool; platCap : Z; plat : list Z; pbuf : list Z }.

Definition upw_pipeCount (count : Z) : Z := let n := count / 5 in if n <? 2 then 2 else n.

Definition pipeRx_init (expected : Z) : upw_pipeRx_t :=
  mkPipeRx 0 0 0 0 0 0 false false expected (replicate (Z.to_nat expected) 0) [].

Definition with_pbuf (b : list Z) (rx : upw_pipeRx_t) : upw_pipeRx_t :=
  mkPipeRx (precv rx) (pbad rx) (pwakes rx) (pemptyWakes rx) (prxErrs rx) (punixWakes rx)
    (eof rx) (timedOut rx) (platCap rx) (plat rx) b.
Definition bad_token (rx : upw_pipeRx_t) : upw_pipeRx_t :=
  mkPipeRx (precv rx) (inc (pbad rx)) (pwakes rx) (pemptyWakes rx) (prxErrs rx) (punixWakes rx)
    (eof rx) (timedOut rx) (platCap rx) (plat rx) (pbuf rx).
Definition good_token (wakeNs token : Z) (rx : upw_pipeRx_t) : upw_pipeRx_t :=
  mkPipeRx (inc (precv rx)) (pbad rx) (pwakes rx) (pemptyWakes rx) (prxErrs rx) (punixWakes rx)
    (eof rx) (timedOut rx) (platCap rx)
    (if precv rx <? platCap rx then store_lat (plat rx) (precv rx) (upw_latUs wakeNs token) else plat rx) (pbuf rx).
Definition pipe_error (rx : upw_pipeRx_t) : upw_pipeRx_t :=
  mkPipeRx (precv rx) (pbad rx) (pwakes rx) (pemptyWakes rx) (inc (prxErrs rx)) (punixWakes rx)
    (eof rx) (timedOut rx) (platCap rx) (plat rx) (pbuf rx).
Definition pipe_eof (rx : upw_pipeRx_t) : upw_pipeRx_t :=
  mkPipeRx (precv rx) (pbad rx) (pwakes rx) (pemptyWakes rx) (prxErrs rx) (punixWakes rx)
    true (timedOut rx) (platCap rx) (plat rx) (pbuf rx).
Definition pipe_timedOut (rx : upw_pipeRx_t) : upw_pipeRx_t :=
  mkPipeRx (precv rx) (pbad rx) (pwakes rx) (pemptyWakes rx) (prxErrs rx) (punixWakes rx)
    (eof rx) true (platCap rx) (plat rx) (pbuf rx).
Definition pipe_woken (w e u : Z) (rx : upw_pipeRx_t) : upw_pipeRx_t :=
  mkPipeRx (precv rx) (pbad rx) w e (prxErrs rx) u (eof rx) (timedOut rx) (platCap rx) (plat rx) (pbuf rx).

Section pipe.
Context `{Target}.

(** The loop over whole tokens of 8 bytes; [nows] are the clock readings of
    the tokens that are positive, in order. *)
Fixpoint token_loop (fuel : nat) (wakeNs : Z) (nows : list Z) (got : Z) (rx : upw_pipeRx_t) :
    option (Z * upw_pipeRx_t) :=
  match fuel with
  | O => None
  | S fuel =>
      if (8 <=? length (pbuf rx))%nat then
        let token := i64 (of_bytes (take 8 (pbuf rx))) in
        let rx' := with_pbuf (drop 8 (pbuf rx)) rx in
        if token <=? 0 then token_loop fuel wakeNs nows (got + 1) (bad_token rx')
        else
          match nows with
          | [] => None
          | now :: nows =>
              token_loop fuel wakeNs nows (got + 1) (if now <? token then bad_token rx' else good_token wakeNs token rx')
          end
      else Some (got, rx)
  end.

(** A result of read() on the non-blocking end. *)
Inductive read_result := RData (bytes : list Z) (nows : list Z) | REof | REintr | REagain | RError.

Definition PIPE_BUF_SIZE : nat := 64 * 8.

Fixpoint upw_pipeDrain (wakeNs got : Z) (rx : upw_pipeRx_t) (rs : list read_result) :
    option (Z * upw_pipeRx_t * list read_result) :=
  match rs with
  | [] => None
  | REintr :: rs => upw_pipeDrain wakeNs got rx rs
  | REagain :: rs => Some (got, rx, rs)
  | RError :: rs => Some (got, pipe_error rx, rs)
  | REof :: rs => Some (got, pipe_eof rx, rs)
  | RData bytes nows :: rs =>
      if ((length bytes =? 0) || (PIPE_BUF_SIZE - length (pbuf rx) <? length bytes))%nat then None
      else
        let b := pbuf rx ++ bytes in
        '(got, rx) ← token_loop (S (length b)) wakeNs nows got (with_pbuf b rx);
        upw_pipeDrain wakeNs got rx rs
  end.

(** A return of poll(): an error, a timeout, or a wake with the time, whether
    the idle socket has an event and whether the pipe has POLLERR or POLLNVAL. *)
Inductive pipe_poll := P_eintr | P_error | P_timeout | P_woken (wakeNs : Z) (sockEvents errEvents : bool).

Fixpoint upw_pipeReceive (expected : Z) (rx : upw_pipeRx_t) (ps : list pipe_poll) (rs : list read_result) :
    option upw_pipeRx_t :=
  if (u32 (precv rx + pbad rx) <? expected) && negb (eof rx) then
    match ps with
    | [] => None
    | P_eintr :: ps => upw_pipeReceive expected rx ps rs
    | P_error :: _ => Some (pipe_error rx)
    | P_timeout :: _ => Some (pipe_timedOut rx)
    | P_woken t sock errEvents :: ps =>
        let rx := pipe_woken (inc (pwakes rx)) (pemptyWakes rx) (punixWakes rx) rx in
        if sock then Some (pipe_woken (pwakes rx) (pemptyWakes rx) (inc (punixWakes rx)) rx)
        else if errEvents then Some (pipe_error rx)
        else
          '(got, rx, rs) ← upw_pipeDrain t 0 rx rs;
          upw_pipeReceive expected
            (if got =? 0 then pipe_woken (pwakes rx) (inc (pemptyWakes rx)) (punixWakes rx) rx else rx) ps rs
    end
  else Some rx.

(** What upw_pipeCheck computes of the latencies: gt1s and p99. *)
Definition pipe_summary (rx : upw_pipeRx_t) : option (Z * Z) :=
  let n := if precv rx <? platCap rx then precv rx else platCap rx in
  p99 ← upw_pct (sort_first n (plat rx)) n 99;
  Some (u32 (count_first (λ x, UPW_FAIL_US <? x) n (plat rx)), p99).

Definition pipe_ok (expected txErr : Z) (rx : upw_pipeRx_t) (gt1s p99 : Z) : bool :=
  (precv rx =? expected) && (txErr =? 0) && (pbad rx =? 0) && (prxErrs rx =? 0) && (punixWakes rx =? 0) &&
  (gt1s =? 0) && (p99 <? UPW_PIPE_P99_US).

(** The assertions of upw_pipeCheck. *)
Definition upw_pipeCheck (expected txErr : Z) (rx : upw_pipeRx_t) (gt1s p99 : Z) : M unit :=
  TEST_ASSERT_EQUAL_MESSAGE INT 0 txErr 1506 (Some (str "write() to the pipe failed (errno)"));;
  TEST_ASSERT_EQUAL_MESSAGE INT 0 (if timedOut rx then 1 else 0) 1507 (Some (str "no token for 5 s"));;
  TEST_ASSERT_EQUAL_MESSAGE UINT 0 (pbad rx) 1508 (Some (str "malformed tokens"));;
  TEST_ASSERT_EQUAL_MESSAGE UINT 0 (prxErrs rx) 1509 (Some (str "poll()/read() failed"));;
  TEST_ASSERT_EQUAL_MESSAGE UINT 0 (punixWakes rx) 1510 (Some (str "poll() reported the idle AF_UNIX socket"));;
  TEST_ASSERT_EQUAL_MESSAGE UINT expected (precv rx) 1511 (Some (str "not every token arrived"));;
  TEST_ASSERT_EQUAL_MESSAGE UINT 0 gt1s 1512 (Some (str "a pipe wake took more than 1 s"));;
  TEST_ASSERT_bool_MESSAGE (B_TRUE (p99 <? UPW_PIPE_P99_US)) 1513
    (Some (str "pipe p99 wake >= 5 ms: pipe readiness does not wake poll()")).

(** ** One readiness change at a time *)

Inductive change_kind := upw_pipePollout | upw_pipeHup | upw_pipeHupWriter.
#[export] Instance change_kind_eq : EqDecision change_kind.
Proof. solve_decision. Defined.

(** What one repetition meets: whether pipe(), the set-up of the write end,
    pthread_create() and the read of 4096 bytes did as they should, what the
    poll() of the waiting thread returned, at what times, and whether the end
    then behaved as reported. *)
Record change_env := mkChange {
  pipe_made : bool; filled : bool; started : bool; drained : bool;
  rc : Z; wanted : bool; wokeNs : Z; changeNs : Z; after_ok : bool }.

Record change_t := mkCounts { clat : list Z; timeouts : Z; badEvents : Z; badAfter : Z; setupErrs : Z }.

Definition setup_failed (c : change_t) : change_t :=
  mkCounts (clat c) (timeouts c) (badEvents c) (badAfter c) (inc (setupErrs c)).

(** From the change to the end of the repetition. *)
Definition change_round (kind : change_kind) (e : change_env) (c : change_t) : change_t :=
  let c := if bool_decide (kind = upw_pipePollout) && negb (drained e) then setup_failed c else c in
  let c :=
    if rc e =? 0 then mkCounts (clat c) (inc (timeouts c)) (badEvents c) (badAfter c) (setupErrs c)
    else if negb (rc e =? 1) then mkCounts (clat c) (timeouts c) (inc (badEvents c)) (badAfter c) (setupErrs c)
    else mkCounts (clat c ++ [upw_latUs (wokeNs e) (changeNs e)]) (timeouts c)
      (if wanted e then badEvents c else inc (badEvents c)) (badAfter c) (setupErrs c) in
  if negb (bool_decide (kind = upw_pipePollout)) && negb (after_ok e) then
    mkCounts (clat c) (timeouts c) (badEvents c) (inc (badAfter c)) (setupErrs c)
  else c.

(** The loop with [reps] repetitions left. *)
Fixpoint change_loop (kind : change_kind) (reps : nat) (envs : list change_env) (c : change_t) : option change_t :=
  match reps with
  | O => Some c
  | S reps =>
      match envs with
      | [] => None
      | e :: envs =>
          if negb (pipe_made e) then Some (setup_failed c)
          else if negb (bool_decide (kind = upw_pipeHup)) && negb (filled e) then
            change_loop kind reps envs (setup_failed c)
          else if negb (started e) then Some (setup_failed c)
          else
            let c := change_round kind e c in
            if 2 <=? timeouts c then Some c else change_loop kind reps envs c
      end
  end.

(** The counts, p99 and maxUs; [n] is the length of lat. *)
Definition change_ok (c : change_t) (p99 maxUs : Z) : bool :=
  (Z.of_nat (length (clat c)) =? UPW_PIPE_REPS) && (timeouts c =? 0) && (badEvents c =? 0) && (badAfter c =? 0) &&
  (setupErrs c =? 0) && (maxUs <=? UPW_FAIL_US) && (p99 <? UPW_PIPE_P99_US).

Definition lat_summary (l : list Z) : option (Z * Z) :=
  let n := Z.of_nat (length l) in
  let v := sort_first n l in
  p99 ← upw_pct v n 99;
  maxUs ← (if 0 <? n then v !! Z.to_nat (n - 1) else Some 0);
  Some (p99, maxUs).

(** The assertions of upw_pipeTransition. *)
Definition upw_pipeTransition (c : change_t) (p99 maxUs : Z) : M unit :=
  TEST_ASSERT_EQUAL_MESSAGE UINT 0 (setupErrs c) 1670 (Some (str "could not set the pipe up (pipe/fcntl/fill/read)"));;
  TEST_ASSERT_EQUAL_MESSAGE UINT 0 (timeouts c) 1671 (Some (str "the change never woke poll() (3 s)"));;
  TEST_ASSERT_EQUAL_MESSAGE UINT 0 (badEvents c) 1672 (Some (str "poll() failed or reported the wrong events"));;
  TEST_ASSERT_EQUAL_MESSAGE UINT 0 (badAfter c) 1673 (Some (str "the end did not behave as reported (EOF / EPIPE)"));;
  TEST_ASSERT_bool_MESSAGE (B_TRUE (maxUs <=? UPW_FAIL_US)) 1674 (Some (str "a pipe wake took more than 1 s"));;
  TEST_ASSERT_bool_MESSAGE (B_TRUE (p99 <? UPW_PIPE_P99_US)) 1675
    (Some (str "pipe p99 wake >= 5 ms: pipe readiness does not wake poll()")).

(** A repetition of upw_ptyTransition: pthread_create(), the write of one
    byte, the waiter's poll(), and the read of the byte. *)
Record pty_env := mkPty {
  pty_started : bool; pty_written : bool; pty_rc : Z; pty_in : bool; pty_wokeNs : Z; pty_changeNs : Z; pty_read : bool }.

Definition pty_round (e : pty_env) (c : change_t) : change_t :=
  let c := if pty_written e then c else setup_failed c in
  if pty_rc e =? 0 then mkCounts (clat c) (inc (timeouts c)) (badEvents c) (badAfter c) (setupErrs c)
  else if negb (pty_rc e =? 1) || negb (pty_in e) then
    mkCounts (clat c) (timeouts c) (inc (badEvents c)) (badAfter c) (setupErrs c)
  else mkCounts (clat c ++ [upw_latUs (pty_wokeNs e) (pty_changeNs e)]) (timeouts c) (badEvents c)
    (if pty_read e then badAfter c else inc (badAfter c)) (setupErrs c).

Fixpoint pty_loop (reps : nat) (envs : list pty_env) (c : change_t) : option change_t :=
  match reps with
  | O => Some c
  | S reps =>
      if timeouts c <? 2 then
        match envs with
        | [] => None
        | e :: envs => if negb (pty_started e) then Some (setup_failed c) else pty_loop reps envs (pty_round e c)
        end
      else Some c
  end.

(** The assertions of upw_ptyTransition. *)
Definition upw_ptyTransition (c : change_t) (p99 maxUs : Z) : M unit :=
  TEST_ASSERT_EQUAL_MESSAGE UINT 0 (setupErrs c) 1763 (Some (str "could not write to the pty"));;
  TEST_ASSERT_EQUAL_MESSAGE UINT 0 (timeouts c) 1764 (Some (str "the byte never woke poll() (3 s)"));;
  TEST_ASSERT_EQUAL_MESSAGE UINT 0 (badEvents c) 1765 (Some (str "poll() failed or did not report POLLIN"));;
  TEST_ASSERT_EQUAL_MESSAGE UINT 0 (badAfter c) 1766 (Some (str "the byte could not be read back"));;
  TEST_ASSERT_bool_MESSAGE (B_TRUE (maxUs <=? UPW_FAIL_US)) 1767 (Some (str "a pty wake took more than 1 s"));;
  TEST_ASSERT_bool_MESSAGE (B_TRUE (p99 <? UPW_PIPE_P99_US)) 1768
    (Some (str "pty p99 wake >= 5 ms: pty readiness does not wake poll()")).
End pipe.

(** ** Two threads on a non-blocking pipe *)

(** Where each thread is between two atomic operations. The writer has loaded
    [w] from written, may try to write, or has written and not yet published
    it; the reader has loaded [n] from readn, may try to read, or has read and
    not yet published it, or found nothing and is about to load stop. *)
Inductive writer_at := WHead | WLoaded (w : Z) | WTry (w : Z) | WWrote (w : Z) | WDone.
Inductive reader_at := RHead | RLoaded (n : Z) | RTry (n : Z) | RTook (n : Z) | REmpty | RDone.

(** [queue] holds the bytes in the pipe. *)
Record upw_nb_t := mkNb {
  stop : bool; written : Z; readn : Z; wrEagain : Z; rdEagain : Z; nbBad : Z; errs : Z;
  queue : list Z; wpc : writer_at; rpc : reader_at }.

Definition nb_init : upw_nb_t := mkNb false 0 0 0 0 0 0 [] WHead RHead.

Definition set_wpc (pc : writer_at) (s : upw_nb_t) : upw_nb_t :=
  mkNb (stop s) (written s) (readn s) (wrEagain s) (rdEagain s) (nbBad s) (errs s) (queue s) pc (rpc s).
Definition set_rpc (pc : reader_at) (s : upw_nb_t) : upw_nb_t :=
  mkNb (stop s) (written s) (readn s) (wrEagain s) (rdEagain s) (nbBad s) (errs s) (queue s) (wpc s) pc.

(** The steps, on a pipe that holds [cap] bytes and does what POSIX asks: a
    write of one byte fails with EAGAIN only if the pipe is full, a read only
    if it is empty, and besides EINTR there is no other failure. The polling
    thread changes nothing here. *)
Inductive nb_step (cap : Z) : upw_nb_t → upw_nb_t → Prop :=
  | nb_stop s : nb_step cap s (mkNb true (written s) (readn s) (wrEagain s) (rdEagain s) (nbBad s) (errs s) (queue s) (wpc s) (rpc s))
  (** upw_nbWriter *)
  | w_end s : wpc s = WHead → stop s = true → nb_step cap s (set_wpc WDone s)
  | w_load s : wpc s = WHead → stop s = false → nb_step cap s (set_wpc (WLoaded (written s)) s)
  | w_full s w : wpc s = WLoaded w → UPW_NB_INFLIGHT ≤ u32 (w - readn s) → nb_step cap s (set_wpc WHead s)
  | w_room s w : wpc s = WLoaded w → u32 (w - readn s) < UPW_NB_INFLIGHT → nb_step cap s (set_wpc (WTry w) s)
  | w_eintr s w : wpc s = WTry w → nb_step cap s (set_wpc WHead s)
  | w_eagain s w : wpc s = WTry w → cap ≤ Z.of_nat (length (queue s)) →
      nb_step cap s (mkNb (stop s) (written s) (readn s) (inc (wrEagain s)) (rdEagain s) (nbBad s) (errs s) (queue s) WHead (rpc s))
  | w_write s w : wpc s = WTry w → Z.of_nat (length (queue s)) < cap →
      nb_step cap s (mkNb (stop s) (written s) (readn s) (wrEagain s) (rdEagain s) (nbBad s) (errs s)
        (queue s ++ [u8 w]) (WWrote w) (rpc s))
  | w_publish s w : wpc s = WWrote w →
      nb_step cap s (mkNb (stop s) (inc w) (readn s) (wrEagain s) (rdEagain s) (nbBad s) (errs s) (queue s) WHead (rpc s))
  (** upw_nbReader *)
  | r_load s : rpc s = RHead → nb_step cap s (set_rpc (RLoaded (readn s)) s)
  | r_empty s n : rpc s = RLoaded n → u32 (written s - n) = 0 → nb_step cap s (set_rpc REmpty s)
  | r_some s n : rpc s = RLoaded n → u32 (written s - n) ≠ 0 → nb_step cap s (set_rpc (RTry n) s)
  | r_end s : rpc s = REmpty → stop s = true → nb_step cap s (set_rpc RDone s)
  | r_sleep s : rpc s = REmpty → stop s = false → nb_step cap s (set_rpc RHead s)
  | r_eintr s n : rpc s = RTry n → nb_step cap s (set_rpc RHead s)
  | r_eagain s n : rpc s = RTry n → queue s = [] →
      nb_step cap s (mkNb (stop s) (written s) (readn s) (wrEagain s) (inc (rdEagain s)) (nbBad s) (errs s) (queue s) (wpc s) RHead)
  | r_read s n b q : rpc s = RTry n → queue s = b :: q →
      nb_step cap s (mkNb (stop s) (written s) (readn s) (wrEagain s) (rdEagain s)
        (if b =? u8 n then nbBad s else inc (nbBad s)) (errs s) q (wpc s) (RTook n))
  | r_publish s n : rpc s = RTook n →
      nb_step cap s (mkNb (stop s) (written s) (inc n) (wrEagain s) (rdEagain s) (nbBad s) (errs s) (queue s) (wpc s) RHead).

(** The verdict of pipe_nonblock_contention once the threads have ended. *)
Definition nb_ok (s : upw_nb_t) : bool :=
  (wrEagain s =? 0) && (rdEagain s =? 0) && (nbBad s =? 0) && (errs s =? 0) && (written s =? readn s) && (0 <? written s).
