(* ===== verification/PipeWakeProps.v ===== *)
(** * Properties of the poll() wake-up tests on pipes and ptys

    The printed verdicts agree with the assertions although they do not test
    the same conditions; every repetition is accounted for. On a pipe that
    works, no interleaving of the non-blocking writer and reader counts an
    EAGAIN or a wrong byte; an interleaving in which the reader ends before
    the writer fails the case all the same. *)

From Stdlib Require Import Btauto.
From S2P Require Import Prelude CMachine UnityOutput UnityAssert UnityAssertSpec.
From S2P Require Import UnityMacros TestVerdict PollWake PollWakeProps PipeWake.

(** ** Two threads on a non-blocking pipe *)

(** The bytes numbered [a], ..., [b - 1]. *)
Definition bytes_between (a b : Z) : list Z := u8 <$> seqZ a (b - a).

(** [W] bytes were accepted and [R] taken; the writer has published [P] of
    them and the reader [Q]. *)
Record nb_inv (W P R Q : Z) (s : upw_nb_t) : Prop := mkNbInv {
  inv_order : 0 ≤ Q ≤ R ∧ R ≤ P ≤ W;
  inv_room : W - R ≤ UPW_NB_INFLIGHT;
  inv_queue : queue s = bytes_between R W;
  inv_written : written s = u32 P;
  inv_readn : readn s = u32 Q;
  inv_quiet : wrEagain s = 0 ∧ rdEagain s = 0 ∧ nbBad s = 0 ∧ errs s = 0;
  inv_writer : match wpc s with
    | WHead | WDone => P = W
    | WLoaded w => P = W ∧ w = u32 W
    | WTry w => P = W ∧ w = u32 W ∧ W - R < UPW_NB_INFLIGHT
    | WWrote w => P = W - 1 ∧ w = u32 P
    end;
  inv_reader : match rpc s with
    | RHead | REmpty | RDone => Q = R
    | RLoaded n => Q = R ∧ n = u32 R
    | RTry n => Q = R ∧ n = u32 R ∧ R < P
    | RTook n => Q = R - 1 ∧ n = u32 Q
    end }.

Lemma inc_u32 a : inc (u32 a) = u32 (a + 1).
Proof. unfold inc, u32, uwrap. by rewrite Zplus_mod_idemp_l. Qed.

Lemma u8_u32 a : u8 (u32 a) = u8 a.
Proof. unfold u8, u32, uwrap. apply Z.mod_mod_divide. by exists (2 ^ 24). Qed.

Lemma bytes_snoc a b : a ≤ b → bytes_between a b ++ [u8 b] = bytes_between a (b + 1).
Proof.
  intros. unfold bytes_between. replace (b + 1 - a) with (b - a + 1) by lia. rewrite seqZ_app by lia.
  rewrite fmap_app. f_equal. replace (a + (b - a)) with b by lia. done.
Qed.

Lemma bytes_cons a b : a < b → bytes_between a b = u8 a :: bytes_between (a + 1) b.
Proof. intros. unfold bytes_between. rewrite seqZ_cons by lia. cbn [fmap list_fmap]. do 2 f_equal. f_equal; lia. Qed.

Lemma length_bytes a b : a ≤ b → Z.of_nat (length (bytes_between a b)) = b - a.
Proof. intros. unfold bytes_between. rewrite length_fmap, length_seqZ. lia. Qed.

Lemma nb_step_inv cap s s' W P R Q : UPW_NB_INFLIGHT ≤ cap → nb_inv W P R Q s → nb_step cap s s' →
  ∃ W' P' R' Q', nb_inv W' P' R' Q' s'.
Proof.
  intros Hcap [Ho Hr Hq Hw Hn Hz HW HR] Hs. unfold UPW_NB_INFLIGHT in *.
  assert (R - 1 ≤ Q) by (destruct (rpc s); lia).
  destruct Hs as [s|s E _|s E _|s w E _|s w E Hi|s w E|s w E Hfull|s w E _|s w E
    |s E|s n E _|s n E Hne|s E _|s E _|s n E|s n E He|s n b q E He|s n E]; rewrite ?E in HW; rewrite ?E in HR.
  all: try (exists W, P, R, Q; constructor; unfold UPW_NB_INFLIGHT; cbn; rewrite ?E; done || tauto || (split; congruence)).
  - (* w_room *)
    destruct HW as [-> ->]. rewrite Hn, u32_sub, u32_small in Hi by lia. exists W, W, R, Q. constructor; try done; cbn.
    split_and!; [done..|lia].
  - (* w_eagain *)
    rewrite Hq, length_bytes in Hfull by lia. lia.
  - (* w_write *)
    destruct HW as (-> & -> & ?). exists (W + 1), W, R, Q. constructor; try done; unfold UPW_NB_INFLIGHT; cbn; try lia.
    rewrite u8_u32, Hq. apply bytes_snoc. lia.
  - (* w_publish *)
    destruct HW as [-> ->]. exists W, W, R, Q. constructor; try done; unfold UPW_NB_INFLIGHT; cbn; try lia.
    + rewrite inc_u32. f_equal. lia.
    + destruct (rpc s); lia.
  - (* r_some *)
    destruct HR as [-> ->]. rewrite Hw, u32_sub in Hne. exists W, P, R, R. constructor; try done; cbn.
    split_and!; [done..|]. destruct (decide (P = R)) as [->|]; [|lia]. by rewrite Z.sub_diag in Hne.
  - (* r_eagain *)
    destruct HR as (_ & _ & ?). rewrite Hq, bytes_cons in He by lia. done.
  - (* r_read *)
    destruct HR as (-> & -> & ?). rewrite Hq, bytes_cons in He by lia. injection He as <- <-.
    exists W, P, (R + 1), R. constructor; try done; unfold UPW_NB_INFLIGHT; cbn; try lia.
    + rewrite u8_u32, Z.eqb_refl. done.
    + destruct (wpc s); unfold UPW_NB_INFLIGHT in *; lia.
  - (* r_publish *)
    destruct HR as [-> ->]. exists W, P, R, R. constructor; try done; unfold UPW_NB_INFLIGHT; cbn; try lia.
    rewrite inc_u32. f_equal. lia.
Qed.

(** C8: On a pipe that works and holds at least 256 bytes, no interleaving of
    the writer and the reader makes the test count an EAGAIN as spurious or a
    byte as wrong, the counters wrap around or not; the bytes written and not
    read are in the pipe, and never more than 256 of them. *)
Theorem nb_no_false_alarm cap s : UPW_NB_INFLIGHT ≤ cap → rtc (nb_step cap) nb_init s →
  wrEagain s = 0 ∧ rdEagain s = 0 ∧ nbBad s = 0 ∧ errs s = 0 ∧ Z.of_nat (length (queue s)) ≤ UPW_NB_INFLIGHT ∧
  (wpc s = WDone → rpc s = RDone → Z.of_nat (length (queue s)) = u32 (written s - readn s)).
Proof.
  intros Hcap Hr. assert (∃ W P R Q, nb_inv W P R Q s) as (W & P & R & Q & [Ho Hm Hq Hw Hn Hz HW HR]).
  { revert s Hr. apply (rtc_ind_r (λ s, ∃ W P R Q, nb_inv W P R Q s)); [by exists 0, 0, 0, 0|].
    intros s1 s2 _ Hs (W & P & R & Q & Hi). by eapply nb_step_inv. }
  destruct Hz as (? & ? & ? & ?). unfold UPW_NB_INFLIGHT in *. rewrite Hq, length_bytes by lia. split_and!; try done.
  intros E1 E2. rewrite E1 in HW. rewrite E2 in HR. subst. rewrite Hw, Hn, u32_sub, u32_small; lia.
Qed.

(** The reader may end before the writer: it finds nothing to read, the
    test sets stop, and the writer completes the write it was about to make.
    The pipe did all that was asked of it, one byte is still in it, and the
    case fails because written and readn differ. *)
Theorem nb_reader_ends_first cap : 0 < cap → ∃ s, rtc (nb_step cap) nb_init s ∧
  wpc s = WDone ∧ rpc s = RDone ∧ written s = 1 ∧ readn s = 0 ∧ queue s = [0] ∧ nb_ok s = false.
Proof.
  intros Hcap. eexists. split.
  - eapply rtc_l; [by apply r_load|]. eapply rtc_l; [by eapply r_empty|].
    eapply rtc_l; [by apply w_load|]. eapply rtc_l; [by eapply w_room|].
    eapply rtc_l; [by apply nb_stop|]. eapply rtc_l; [by apply r_end|].
    eapply rtc_l; [by eapply w_write|]. eapply rtc_l; [by eapply w_publish|].
    eapply rtc_l; [by apply w_end|]. apply rtc_refl.
  - done.
Qed.

(** ** Tokens *)

(** The counters are unsigned and the array has its size. *)
Record pipe_wf (expected : Z) (rx : upw_pipeRx_t) : Prop := mkPipeWf {
  wf_recv : 0 ≤ precv rx < 2 ^ 32; wf_bad : 0 ≤ pbad rx < 2 ^ 32;
  wf_errs : 0 ≤ prxErrs rx < 2 ^ 32; wf_unix : 0 ≤ punixWakes rx < 2 ^ 32;
  wf_cap : platCap rx = expected; wf_lat : Z.of_nat (length (plat rx)) = expected }.

Lemma inc_range x : 0 ≤ inc x < 2 ^ 32.
Proof. by apply (uwrap_range 32). Qed.

Lemma store_lat_length v i l : length (store_lat v i l) = length v.
Proof. apply length_insert. Qed.

Create HintDb pipewf discriminated.

Lemma wf_with_pbuf ex b rx : pipe_wf ex rx → pipe_wf ex (with_pbuf b rx).
Proof. by intros []. Qed.
Lemma wf_bad_token ex rx : pipe_wf ex rx → pipe_wf ex (bad_token rx).
Proof. intros []. constructor; try done. apply inc_range. Qed.
Lemma wf_good_token ex t k rx : pipe_wf ex rx → pipe_wf ex (good_token t k rx).
Proof.
  intros []. constructor; try done; [apply inc_range|]. cbn. destruct (_ <? _); [|done]. by rewrite store_lat_length.
Qed.
Lemma wf_pipe_error ex rx : pipe_wf ex rx → pipe_wf ex (pipe_error rx).
Proof. intros []. constructor; try done. apply inc_range. Qed.
Lemma wf_pipe_eof ex rx : pipe_wf ex rx → pipe_wf ex (pipe_eof rx).
Proof. by intros []. Qed.
Lemma wf_pipe_timedOut ex rx : pipe_wf ex rx → pipe_wf ex (pipe_timedOut rx).
Proof. by intros []. Qed.
Lemma wf_pipe_woken ex w e u rx : pipe_wf ex rx → 0 ≤ u < 2 ^ 32 → pipe_wf ex (pipe_woken w e u rx).
Proof. by intros []. Qed.
#[export] Hint Resolve wf_with_pbuf wf_bad_token wf_good_token wf_pipe_error wf_pipe_eof wf_pipe_timedOut
  wf_pipe_woken wf_unix inc_range : pipewf.

Section pipe.
Context `{Target}.

Lemma token_loop_keeps ex fuel t nows got rx got' rx' : token_loop fuel t nows got rx = Some (got', rx') →
  pipe_wf ex rx → pipe_wf ex rx' ∧ timedOut rx' = timedOut rx.
Proof.
  revert nows got rx. induction fuel as [|fuel IH]; intros nows got rx E Hw; [done|]. cbn [token_loop] in E.
  destruct (8 <=? _)%nat; [|by injection E as <- <-]. destruct (_ <=? 0).
  - apply IH in E as [? ->]; auto with pipewf.
  - destruct nows as [|now nows]; [done|]. apply IH in E as [? ->]; destruct (_ <? _); auto with pipewf.
Qed.

Lemma pipeDrain_keeps ex t rs got rx got' rx' rs' : upw_pipeDrain t got rx rs = Some (got', rx', rs') →
  pipe_wf ex rx → pipe_wf ex rx' ∧ timedOut rx' = timedOut rx.
Proof.
  revert got rx. induction rs as [|[bytes nows| | | |] rs IH]; intros got rx E Hw; cbn [upw_pipeDrain] in E; [done|..].
  - destruct (_ || _)%nat; [done|]. apply bind_Some in E as ([got1 rx1] & E1 & E).
    apply (token_loop_keeps ex) in E1 as [? E1]; [|auto with pipewf]. apply IH in E as [? ->]; [|done]. by rewrite E1.
  - injection E as <- <- <-. auto with pipewf.
  - by eapply IH.
  - by injection E as <- <- <-.
  - injection E as <- <- <-. auto with pipewf.
Qed.

Lemma pipeReceive_keeps ex ps rs rx rx' : upw_pipeReceive ex rx ps rs = Some rx' → pipe_wf ex rx → timedOut rx = false →
  pipe_wf ex rx' ∧ (timedOut rx' = true → u32 (precv rx' + pbad rx') < ex).
Proof.
  revert rs rx. induction ps as [|[| | |t sock bad_ev] ps IH]; intros rs rx E Hw Ht; cbn [upw_pipeReceive] in E;
    (destruct (_ && _) eqn:Ec; [|injection E as <-; by rewrite Ht]); [done|..].
  - by eapply IH.
  - injection E as <-. split; [auto with pipewf|]. cbn. by rewrite Ht.
  - injection E as <-. split; [auto with pipewf|]. intros _. cbn. by apply andb_prop in Ec as [?%Z.ltb_lt _].
  - destruct sock; [injection E as <-; split; [eauto with pipewf|cbn; by rewrite Ht]|].
    destruct bad_ev; [injection E as <-; split; [eauto with pipewf|cbn; by rewrite Ht]|].
    apply bind_Some in E as ([[got rx1] rs1] & E1 & E).
    apply (pipeDrain_keeps ex) in E1 as [? E1]; [|eauto with pipewf]. cbn in E1.
    eapply IH; [exact E|destruct (_ =? _); eauto with pipewf|destruct (_ =? _); cbn; congruence].
Qed.

(** A pipe case's printed verdict, which does not mention the timeout,
    agrees with its assertions, which do: a receiver that timed out has not
    got every token. The summary of the latencies is always defined. *)
Theorem upw_pipeCheck_agrees expected txErr ps rs rx : 0 ≤ expected < 2 ^ 32 → int64 txErr →
  upw_pipeReceive expected (pipeRx_init expected) ps rs = Some rx →
  ∃ gt1s p99, pipe_summary rx = Some (gt1s, p99) ∧
    verdict (upw_pipeCheck expected txErr rx gt1s p99) (pipe_ok expected txErr rx gt1s p99).
Proof.
  intros He Hx E. apply pipeReceive_keeps in E as [[Wr Wb We Wu Wc Wl] Hto]; [| |done].
  2: { constructor; try done. cbn. rewrite length_replicate. lia. }
  unfold pipe_summary. set (n := if _ <? _ then _ else _).
  assert (0 ≤ n ≤ Z.of_nat (length (plat rx))) by (subst n; destruct (Z.ltb_spec (precv rx) (platCap rx)); lia).
  destruct (upw_pct_some (plat rx) n 99) as [p99 ->]; [lia..|]. eexists _, p99. split; [done|].
  set (g := u32 _). assert (0 ≤ g < 2 ^ 32) by by apply (uwrap_range 32).
  unfold upw_pipeCheck. verdict_tac. unfold pipe_ok. change (width INT) with 64. change (width UINT) with 64.
  rewrite !eqb_wrap64 by (try destruct (timedOut rx); done || unfold int64; lia).
  rewrite !(Z.eqb_sym 0), (Z.eqb_sym expected). destruct (timedOut rx); [|change (0 =? 0) with true; btauto].
  specialize (Hto eq_refl). transitivity false; [|change (1 =? 0) with false; btauto].
  destruct (Z.eqb_spec (precv rx) expected); [|done]. destruct (Z.eqb_spec (pbad rx) 0) as [E0|]; [|by rewrite !andb_false_r].
  rewrite E0, Z.add_0_r, u32_small in Hto by lia. lia.
Qed.
End pipe.

(** ** One readiness change at a time *)

(** No failure was counted. *)
Definition clean (c : change_t) : Prop := timeouts c = 0 ∧ badEvents c = 0 ∧ setupErrs c = 0.

Definition counters (c : change_t) : list Z := [timeouts c; badEvents c; badAfter c; setupErrs c].

(** One repetition from [c] to [c']: no counter goes back or grows by more
    than two, at most one latency is stored, and if nothing failed, one is. *)
Record advance (c c' : change_t) : Prop := mkAdvance {
  adv_counts : Forall2 (λ x y, x ≤ y ≤ x + 2) (counters c) (counters c');
  adv_lat : (length (clat c') ≤ length (clat c) + 1)%nat;
  adv_clean : clean c' → clean c ∧ length (clat c') = S (length (clat c)) }.

(** Counters after at most [b / 2] repetitions. *)
Definition bounded (b : Z) (c : change_t) : Prop := Forall (λ x, 0 ≤ x ≤ b) (counters c).

Lemma bounded_advance b c c' : bounded b c → advance c c' → bounded (b + 2) c'.
Proof.
  intros Hb [Ha _ _]. unfold bounded, counters in *. rewrite !Forall_cons in *.
  repeat (apply Forall2_cons in Ha as [? Ha]). split_and!; try lia. constructor.
Qed.

Lemma inc_small b x : 0 ≤ x ≤ b → b < 2 ^ 31 → inc x = x + 1.
Proof. intros. apply u32_small. lia. Qed.

(** Splits the tests of a repetition and evaluates the increments. *)
Ltac solve_advance Hb :=
  unfold bounded, counters in Hb; rewrite !Forall_cons in Hb; cbn in *;
  constructor; unfold clean, counters; cbn;
  rewrite ?length_app; cbn; rewrite ?(inc_small _ _ (proj1 Hb)), ?(inc_small _ _ (proj1 (proj2 Hb))),
    ?(inc_small _ _ (proj1 (proj2 (proj2 Hb)))), ?(inc_small _ _ (proj1 (proj2 (proj2 (proj2 Hb))))) by lia;
  repeat (constructor; [lia|]); try constructor; try lia.

Lemma setup_failed_advance b c : bounded b c → b < 2 ^ 31 → advance c (setup_failed c).
Proof. intros Hb ?. unfold setup_failed. solve_advance Hb. Qed.

Lemma change_round_advance b kind e c : bounded b c → b < 2 ^ 31 → advance c (change_round kind e c).
Proof.
  intros Hb ?. unfold change_round, setup_failed.
  destruct (drained e), (rc e =? 0), (rc e =? 1), (wanted e), (after_ok e),
    (bool_decide (kind = upw_pipePollout)); cbn; solve_advance Hb.
Qed.

Lemma pty_round_advance b e c : bounded b c → b < 2 ^ 31 → advance c (pty_round e c).
Proof.
  intros Hb ?. unfold pty_round, setup_failed.
  destruct (pty_written e), (pty_rc e =? 0), (pty_rc e =? 1), (pty_in e), (pty_read e); cbn; solve_advance Hb.
Qed.

(** What a whole loop of [reps] repetitions does. *)
Definition loop_result (reps : nat) (b : Z) (c c' : change_t) : Prop :=
  bounded (b + 2 * Z.of_nat reps) c' ∧ (length (clat c') ≤ length (clat c) + reps)%nat ∧
  (clean c' → clean c ∧ length (clat c') = (length (clat c) + reps)%nat).

Lemma bounded_mono b b' c : bounded b c → b ≤ b' → bounded b' c.
Proof. intros Hb ?. eapply Forall_impl; [done|]. cbn. lia. Qed.

Lemma loop_result_break reps b c c' : bounded b c → advance c c' → ¬ clean c' → loop_result (S reps) b c c'.
Proof.
  intros Hb Ha Hn. split_and!; [|destruct Ha; lia|done].
  eapply bounded_mono; [by eapply bounded_advance|lia].
Qed.

Lemma loop_result_step reps b c c1 c' : advance c c1 → loop_result reps (b + 2) c1 c' → loop_result (S reps) b c c'.
Proof.
  intros [_ Hl Hc] (Hb & Hl' & Hc'). split_and!; [eapply bounded_mono; [done|lia]|lia|].
  intros [[? ?]%Hc ?]%Hc'. split; [done|lia].
Qed.

Lemma setup_failed_dirty b c : bounded b c → b < 2 ^ 31 → ¬ clean (setup_failed c).
Proof.
  unfold bounded, counters. rewrite !Forall_cons. intros (_ & _ & _ & ? & _) ? (_ & _ & E). cbn in E.
  erewrite inc_small in E by done. lia.
Qed.

Lemma change_loop_result kind reps envs b c c' : change_loop kind reps envs c = Some c' → bounded b c →
  b + 2 * Z.of_nat reps < 2 ^ 31 → loop_result reps b c c'.
Proof.
  revert envs b c. induction reps as [|reps IH]; intros envs b c E Hb Hlt; cbn [change_loop] in E.
  { injection E as <-. split_and!; [eapply bounded_mono; [done|lia]|lia|intros; split; [done|lia]]. }
  destruct envs as [|e envs]; [done|].
  assert (Ha : advance c (setup_failed c)) by (eapply setup_failed_advance; [done|lia]).
  assert (Hd : ¬ clean (setup_failed c)) by (eapply setup_failed_dirty; [done|lia]).
  assert (Hr : advance c (change_round kind e c)) by (eapply change_round_advance; [done|lia]).
  destruct (pipe_made e); [|injection E as <-; by apply loop_result_break]. cbn [negb] in E.
  destruct (_ && _).
  { eapply loop_result_step; [exact Ha|]. eapply IH; [done|by eapply bounded_advance|lia]. }
  destruct (started e); [|injection E as <-; by apply loop_result_break]. cbn [negb] in E.
  destruct (Z.leb_spec 2 (timeouts (change_round kind e c))).
  - injection E as <-. apply loop_result_break; [done..|]. intros (? & _). lia.
  - eapply loop_result_step; [exact Hr|]. eapply IH; [done|by eapply bounded_advance|lia].
Qed.

Lemma pty_loop_result reps envs b c c' : pty_loop reps envs c = Some c' → bounded b c →
  b + 2 * Z.of_nat reps < 2 ^ 31 → loop_result reps b c c'.
Proof.
  revert envs b c. induction reps as [|reps IH]; intros envs b c E Hb Hlt; cbn [pty_loop] in E.
  { injection E as <-. split_and!; [eapply bounded_mono; [done|lia]|lia|intros; split; [done|lia]]. }
  destruct (Z.ltb_spec (timeouts c) 2).
  - destruct envs as [|e envs]; [done|].
    assert (Ha : advance c (pty_round e c)) by (eapply pty_round_advance; [done|lia]).
    destruct (pty_started e); cbn [negb] in E.
    + eapply loop_result_step; [done|]. eapply IH; [done|by eapply bounded_advance|lia].
    + injection E as <-. apply loop_result_break; [done| |].
      * eapply setup_failed_advance; [done|lia].
      * eapply setup_failed_dirty; [done|lia].
  - injection E as <-. split_and!; [eapply bounded_mono; [done|lia]|lia|]. intros (? & _). lia.
Qed.

Definition counts_init : change_t := mkCounts [] 0 0 0 0.

Lemma lat_summary_some l : Z.of_nat (length l) < 2 ^ 32 → ∃ p99 mx, lat_summary l = Some (p99, mx).
Proof.
  intros Hl. unfold lat_summary. destruct (upw_pct_some l (Z.of_nat (length l)) 99) as [p99 ->]; [lia..|]. cbn.
  destruct (Z.ltb_spec 0 (Z.of_nat (length l))); [|by eexists _, _].
  destruct (sort_first_rank (Z.of_nat (length l)) l (Z.to_nat (Z.of_nat (length l) - 1))) as (r & -> & _); [lia|].
  by eexists _, _.
Qed.

Section transitions.
Context `{Target}.

(** With no repetition lost, the count of latencies adds nothing to the
    other tests. *)
Lemma change_ok_counts reps c p99 mx : reps = Z.to_nat UPW_PIPE_REPS → loop_result reps 0 counts_init c →
  change_ok c p99 mx = (setupErrs c =? 0) && ((timeouts c =? 0) && ((badEvents c =? 0) && ((badAfter c =? 0) &&
    ((mx <=? UPW_FAIL_US) && (p99 <? UPW_PIPE_P99_US))))).
Proof.
  intros -> (_ & _ & Hc). unfold change_ok.
  destruct (Z.eqb_spec (timeouts c) 0), (Z.eqb_spec (badEvents c) 0), (Z.eqb_spec (setupErrs c) 0);
    rewrite ?andb_false_r, ?andb_false_l; try done.
  destruct (Hc (conj e (conj e0 e1))) as [_ ->].
  change (Z.of_nat _ =? UPW_PIPE_REPS) with true. cbn. btauto.
Qed.

(** The assertions on counters that are far from overflow. *)
Ltac counts_tac Hb :=
  unfold bounded, counters in Hb; rewrite !Forall_cons in Hb; change (width UINT) with 64;
  rewrite !eqb_wrap64 by (done || unfold int64, UPW_PIPE_REPS in *; lia); rewrite !(Z.eqb_sym 0); reflexivity || btauto.

(** Every repetition of a transition case is accounted for: lat never
    gets more than its 50 elements, and although the assertions do not look
    at the number of wake-ups, they pass exactly when the printed verdict,
    which does, is PASS; for pipes and for ptys. *)
Theorem transitions_agree kind envs ptys c1 c2 :
  change_loop kind (Z.to_nat UPW_PIPE_REPS) envs counts_init = Some c1 →
  pty_loop (Z.to_nat UPW_PIPE_REPS) ptys counts_init = Some c2 →
  (∃ p99 mx, lat_summary (clat c1) = Some (p99, mx) ∧ (length (clat c1) ≤ 50)%nat ∧
    verdict (upw_pipeTransition c1 p99 mx) (change_ok c1 p99 mx)) ∧
  (∃ p99 mx, lat_summary (clat c2) = Some (p99, mx) ∧ (length (clat c2) ≤ 50)%nat ∧
    verdict (upw_ptyTransition c2 p99 mx) (change_ok c2 p99 mx)).
Proof.
  assert (Hi : bounded 0 counts_init) by (by repeat constructor).
  intros H1 H2. apply (change_loop_result _ _ _ 0) in H1; [|done|done]. apply (pty_loop_result _ _ 0) in H2; [|done|done].
  split; [pose proof H1 as (Hb & Hl & _)|pose proof H2 as (Hb & Hl & _)];
    change (length (clat counts_init) + Z.to_nat UPW_PIPE_REPS)%nat with 50%nat in Hl.
  - destruct (lat_summary_some (clat c1)) as (p99 & mx & E); [lia|]. exists p99, mx.
    split_and!; [done|exact Hl|]. erewrite change_ok_counts by done. unfold upw_pipeTransition. verdict_tac.
    counts_tac Hb.
  - destruct (lat_summary_some (clat c2)) as (p99 & mx & E); [lia|]. exists p99, mx.
    split_and!; [done|exact Hl|]. erewrite change_ok_counts by done. unfold upw_ptyTransition. verdict_tac.
    counts_tac Hb.
Qed.
End transitions.

(** ** Instances *)

Lemma nb_no_false_alarm_witness : ∃ s, rtc (nb_step 4096) nb_init s ∧ queue s = [0] ∧ wrEagain s = 0 ∧ rdEagain s = 0.
Proof.
  set (s := mkNb false 0 0 0 0 0 0 [0] (WWrote 0) RHead).
  assert (Hs : rtc (nb_step 4096) nb_init s).
  { eapply rtc_l; [by apply w_load|]. eapply rtc_l; [by eapply w_room|]. eapply rtc_l; [by eapply w_write|].
    apply rtc_refl. }
  exists s. split; [exact Hs|]. split; [reflexivity|].
  destruct (nb_no_false_alarm 4096 s ltac:(done) Hs) as (E1 & E2 & _). exact (conj E1 E2).
Defined.

Lemma nb_reader_ends_first_witness : ∃ s, rtc (nb_step 4096) nb_init s ∧ queue s = [0] ∧ nb_ok s = false.
Proof.
  destruct (nb_reader_ends_first 4096 ltac:(done)) as (s & Hs & _ & _ & _ & _ & Hq & Ho). exists s. done.
Defined.

(** Two tokens, one cut in half by the pipe. *)
Definition demo_tokens : list Z := to_bytes (H:=aarch64) 8 1000 ++ to_bytes (H:=aarch64) 8 3000.
Definition demo_reads : list read_result :=
  [RData (take 11 demo_tokens) [4000]; REagain; RData (drop 11 demo_tokens) [5000]; REagain].
Definition demo_pipe_polls : list pipe_poll := [P_woken 2000 false false; P_woken 9000 false false].
Definition demo_pipe_rx : upw_pipeRx_t :=
  default (pipeRx_init 2) (upw_pipeReceive (H:=aarch64) 2 (pipeRx_init 2) demo_pipe_polls demo_reads).

Lemma upw_pipeCheck_agrees_witness : precv demo_pipe_rx = 2 ∧ ∃ gt1s p99,
  verdict (upw_pipeCheck (H:=aarch64) 2 0 demo_pipe_rx gt1s p99) (pipe_ok 2 0 demo_pipe_rx gt1s p99).
Proof.
  split; [vm_compute; reflexivity|].
  destruct (upw_pipeCheck_agrees (H:=aarch64) 2 0 demo_pipe_polls demo_reads demo_pipe_rx) as (g & p & _ & Hv).
  - done.
  - done.
  - vm_compute. reflexivity.
  - exists g, p. exact Hv.
Defined.

Definition demo_change : change_env := mkChange true true true true 1 true 5000 1000 true.
Definition demo_pty : pty_env := mkPty true true 1 true 5000 1000 true.
Definition demo_counts : change_t := mkCounts (replicate 50 4) 0 0 0 0.

Lemma transitions_agree_witness : ∃ p99 mx, lat_summary (clat demo_counts) = Some (p99, mx) ∧
  verdict (upw_pipeTransition (H:=aarch64) demo_counts p99 mx) (change_ok demo_counts p99 mx).
Proof.
  destruct (transitions_agree (H:=aarch64) upw_pipePollout (replicate 50 demo_change) (replicate 50 demo_pty)
    demo_counts demo_counts) as [(p99 & mx & E & _ & Hv) _].
  - vm_compute. reflexivity.
  - vm_compute. reflexivity.
  - exists p99, mx. exact (conj E Hv).
Defined.
