(* ===== verification/IrqUnclaimed.v ===== *)
(** * irq-unclaimed: does the kernel mask an interrupt nobody claims?

    The program irqunclaimed/irq_unclaimed.c pends an interrupt no device
    drives and watches, through the registers of the interrupt distributor,
    whether the kernel masks it when it should and only then. The test runs
    while interrupts are delivered on another core: every look at a register
    or a counter may be preceded by any number of steps of the delivery, given
    by a schedule. The distributor and the kernel's dispatcher are parameters.
    Options come parsed; console texts other than the verdict are left out. *)

From S2P Require Import Prelude CMachine.

Definition UNCLAIMED_LIMIT : Z := 100000.
Definition GICD_TYPER : Z := 4.
Definition GICD_ISENABLER : Z := 256.
Definition GICD_ISPENDR : Z := 512.
Definition GICD_ICPENDR : Z := 640.
Definition GICD_ISACTIVER : Z := 768.
Definition WAIT_MS : Z := 2000.
Definition WAIT_STORM_MS : Z := 20000.

Inductive mode_t := mode_decline | mode_claim | mode_decline_held.
#[export] Instance mode_t_eq : EqDecision mode_t.
Proof. solve_decision. Defined.

(** The two handlers of the program. *)
Inductive handler := H1 | H2.

(** ** The interrupt controller and the kernel *)

(** Words of the distributor; what acknowledging an interrupt and ending it do
    to it, the latter told whether a handler claimed it; interrupt() with the
    handlers already registered ([None]: it failed) and resourceDestroy() with
    those that stay; the order in which registered handlers are called. *)
Class Gic := {
  hw : Type;
  gicd_read : hw → Z → Z;
  gicd_write : hw → Z → Z → hw;
  irq_ack : hw → hw;
  irq_eoi : bool → hw → hw;
  irq_register : list handler → hw → option hw;
  irq_remove : list handler → hw → hw;
  call_order : list handler → list handler;
}.

Section program.
Context `{Gic}.

(** [irq] is the interrupt tested, [LIMIT] the kernel's limit as the program
    knows it, UNCLAIMED_LIMIT. *)
Context (irq LIMIT : Z).

(** How far the delivery under way is: the handlers still to call, and
    whether one has claimed the interrupt. *)
Inductive delivery := Idle | Handling (left : list handler) (claimed : bool).

(** [looks] counts the looks of the test. [prompt], which the program never
    reads, records that every wait got what it waited for in time: it is false
    once wait_idle has given up, or wait_masked_or_stalled has found the
    handler stalled while a delivery was still due. *)
Record world := mkWorld {
  gic : hw; mode : mode_t; fired : Z; fired2 : Z; budget : Z;
  handlers : list handler; under_way : delivery; looks : nat; prompt : bool }.

Definition gicd_bit (reg : Z) (h : hw) : Z :=
  Z.land (Z.shiftr (gicd_read h (reg / 4 + irq / 32)) (irq mod 32)) 1.
Definition gicd_setBit (reg : Z) (h : hw) : hw :=
  gicd_write h (reg / 4 + irq / 32) (u32 (Z.shiftl 1 (irq mod 32))).

Definition set_gic (h : hw) (w : world) : world :=
  mkWorld h (mode w) (fired w) (fired2 w) (budget w) (handlers w) (under_way w) (looks w) (prompt w).
Definition set_under_way (d : delivery) (w : world) : world :=
  mkWorld (gic w) (mode w) (fired w) (fired2 w) (budget w) (handlers w) d (looks w) (prompt w).
Definition set_mode (m : mode_t) (w : world) : world :=
  mkWorld (gic w) m (fired w) (fired2 w) (budget w) (handlers w) (under_way w) (looks w) (prompt w).
Definition set_budget (b : Z) (w : world) : world :=
  mkWorld (gic w) (mode w) (fired w) (fired2 w) b (handlers w) (under_way w) (looks w) (prompt w).
Definition set_handlers (l : list handler) (w : world) : world :=
  mkWorld (gic w) (mode w) (fired w) (fired2 w) (budget w) l (under_way w) (looks w) (prompt w).
Definition gave_up (w : world) : world :=
  mkWorld (gic w) (mode w) (fired w) (fired2 w) (budget w) (handlers w) (under_way w) (looks w) false.

(** ** The handlers *)

(** The result is whether the handler claims the interrupt. *)
Definition irq_handler (w : world) : bool * world :=
  let w := mkWorld (gic w) (mode w) (u32 (fired w + 1)) (fired2 w) (budget w) (handlers w) (under_way w) (looks w) (prompt w) in
  let w := if negb (bool_decide (mode w = mode_decline)) && negb (budget w =? 0) then
      set_gic (gicd_setBit GICD_ISPENDR (gic w)) (set_budget (budget w - 1) w)
    else w in
  (bool_decide (mode w = mode_claim), w).

Definition irq_handler2 (w : world) : bool * world :=
  (true, mkWorld (gic w) (mode w) (fired w) (u32 (fired2 w + 1)) (budget w) (handlers w) (under_way w) (looks w) (prompt w)).

Definition call (h : handler) (w : world) : bool * world :=
  match h with H1 => irq_handler w | H2 => irq_handler2 w end.

(** One step of the other core: it takes an interrupt that is pending and
    enabled, calls the handlers one after the other, and ends it. *)
Definition env_step (w : world) : world :=
  match under_way w with
  | Idle =>
      if (gicd_bit GICD_ISENABLER (gic w) =? 1) && (gicd_bit GICD_ISPENDR (gic w) =? 1) then
        set_under_way (Handling (call_order (handlers w)) false) (set_gic (irq_ack (gic w)) w)
      else w
  | Handling [] claimed => set_under_way Idle (set_gic (irq_eoi claimed (gic w)) w)
  | Handling (h :: l) claimed =>
      let '(r, w) := call h w in set_under_way (Handling l (claimed || r)) w
  end.

(** ** Waiting *)

(** [sched k] steps of the other core precede the [k]-th look, which happens
    at [clock k] milliseconds. *)
Context (sched : nat → nat) (clock : nat → Z).

Definition look (w : world) : world :=
  let w' := Nat.iter (sched (looks w)) env_step w in
  mkWorld (gic w') (mode w') (fired w') (fired2 w') (budget w') (handlers w') (under_way w') (S (looks w)) (prompt w').

Definition look_bit (reg : Z) (w : world) : Z * world :=
  let w := look w in (gicd_bit reg (gic w), w).

(** The condition of wait_idle, its reads in the order of the code. *)
Definition idle_now (counter : world → Z) (target : Z) (w : world) : bool * world :=
  let w := look w in
  if counter w =? target then
    let '(active, w) := look_bit GICD_ISACTIVER w in
    if active =? 0 then
      let '(pending, w) := look_bit GICD_ISPENDR w in
      if pending =? 0 then (true, w)
      else let '(enabled, w) := look_bit GICD_ISENABLER w in (enabled =? 0, w)
    else (false, w)
  else (false, w).

(** [fuel] bounds the rounds; the result is whether it returned 0. *)
Fixpoint wait_loop (fuel : nat) (counter : world → Z) (target ms spins deadline : Z) (w : world) : option (bool * world) :=
  match fuel with
  | O => None
  | S fuel =>
      let '(ok, w) := idle_now counter target w in
      if ok then Some (true, w)
      else if spins mod 1024 =? 0 then
        let w := look w in
        let now := clock (looks w) in
        if deadline =? 0 then wait_loop fuel counter target ms (u32 (spins + 1)) (now + ms) w
        else if deadline <? now then Some (false, gave_up w)
        else wait_loop fuel counter target ms (u32 (spins + 1)) deadline w
      else wait_loop fuel counter target ms (u32 (spins + 1)) deadline w
  end.
Definition wait_idle (fuel : nat) (counter : world → Z) (target ms : Z) (w : world) : option (bool * world) :=
  wait_loop fuel counter target ms 0 0 w.

Definition after {A B} (m : option (A * world)) (k : A → world → option B) : option B :=
  match m with Some (a, w) => k a w | None => None end.

(** Nothing is left to deliver. *)
Definition quiet (w : world) : bool :=
  match under_way w with
  | Idle => negb ((gicd_bit GICD_ISENABLER (gic w) =? 1) && (gicd_bit GICD_ISPENDR (gic w) =? 1))
  | Handling _ _ => false
  end.

(** The do-while loop of wait_masked_or_stalled; usleep() is the time between
    two looks. *)
Fixpoint masked_loop (fuel : nat) (w : world) : option world :=
  match fuel with
  | O => None
  | S fuel =>
      let w := look w in
      let last := fired w in
      let '(enabled, w) := look_bit GICD_ISENABLER w in
      if enabled =? 0 then Some w
      else
        let w := look w in
        if fired w =? last then Some (if quiet w then w else gave_up w) else masked_loop fuel w
  end.
Definition wait_masked_or_stalled (fuel : nat) (w : world) : option world :=
  masked_loop fuel w ≫= λ w, Some (look w).

(** ** The program *)

Inductive failure :=
  | Fail_A | Fail_B | Fail_C_not_masked | Fail_C_wrong_number | Fail_D_register | Fail_D | Fail_cleanup.
Inductive verdict_t := SKIP | PASS | FAIL (f : failure).

Definition exit_code (v : verdict_t) : Z := match v with PASS => 0 | FAIL _ => 1 | SKIP => 2 end.

Definition pend (w : world) : world := let w := look w in set_gic (gicd_setBit GICD_ISPENDR (gic w)) w.

(** [for (i = 0; i < 2u * UNCLAIMED_LIMIT; i++)], [n] rounds left. *)
Fixpoint phaseA_loop (fuel n : nat) (i : Z) (w : world) : option world :=
  match n with
  | O => Some w
  | S n =>
      after (wait_idle fuel fired (i + 1) WAIT_MS (pend w)) (λ ok w,
        if ok then phaseA_loop fuel n (i + 1) w else Some w)
  end.

(** A phase ends with a failure or with the program going on. *)
Definition phase : Type := option (option failure * world).

Definition phaseA (fuel : nat) (w : world) : phase :=
  match phaseA_loop fuel (Z.to_nat (2 * LIMIT)) 0 w with
  | None => None
  | Some w =>
      let w := look w in
      if negb (fired w =? 2 * LIMIT) then Some (Some Fail_A, w)
      else let '(en, w) := look_bit GICD_ISENABLER w in Some (if en =? 0 then Some Fail_A else None, w)
  end.

Definition phaseB (fuel : nat) (w : world) : phase :=
  let w := look w in
  let f := fired w in
  let w := set_mode mode_claim (look (set_budget (2 * LIMIT - 1) (look w))) in
  after (wait_idle fuel fired (u32 (f + 2 * LIMIT)) WAIT_STORM_MS (pend w)) (λ _ w,
    let w := look w in
    if negb (u32 (fired w - f) =? 2 * LIMIT) then Some (Some Fail_B, w)
    else let '(en, w) := look_bit GICD_ISENABLER w in Some (if en =? 0 then Some Fail_B else None, w)).

Definition phaseC (fuel : nat) (w : world) : phase :=
  let w := look w in
  let f := fired w in
  let w := set_mode mode_decline_held (look (set_budget (3 * LIMIT) (look w))) in
  match wait_masked_or_stalled fuel (pend w) with
  | None => None
  | Some w =>
      let '(en, w) := look_bit GICD_ISENABLER w in
      if negb (en =? 0) then Some (Some Fail_C_not_masked, w)
      else
        let w := look w in
        Some (if u32 (fired w - f) =? LIMIT then None else Some Fail_C_wrong_number, w)
  end.

Definition phaseD (fuel : nat) (w : world) : phase :=
  let w := look w in
  let f := fired w in
  let w := look (set_mode mode_claim (look (set_budget 0 (look w)))) in
  match irq_register (handlers w) (gic w) with
  | None => Some (Some Fail_D_register, w)
  | Some h =>
      let w := set_handlers (handlers w ++ [H2]) (set_gic h w) in
      after (wait_idle fuel fired2 1 WAIT_MS w) (λ _ w,
      after (wait_idle fuel fired2 2 WAIT_MS (pend w)) (λ _ w,
        let w := look w in
        if negb (fired2 w =? 2) then Some (Some Fail_D, w)
        else
          let w := look w in
          if negb (u32 (fired w - f) =? 2) then Some (Some Fail_D, w)
          else let '(en, w) := look_bit GICD_ISENABLER w in Some (if en =? 0 then Some Fail_D else None, w)))
  end.

Definition and_then (m : phase) (k : world → phase) : phase :=
  after m (λ f w, match f with Some f => Some (Some f, w) | None => k w end).

(** The do { } while (0) of main. *)
Definition phases (fuel : nat) (w : world) : phase :=
  and_then (and_then (and_then (phaseA fuel w) (phaseB fuel)) (phaseC fuel)) (phaseD fuel).

(** Removes the handlers, the second one first. *)
Definition cleanup (w : world) : Z * world :=
  let w := look (set_mode mode_decline (look (set_budget 0 (look w)))) in
  let w := match handlers w with
    | [_; _] => look (set_handlers [H1] (set_gic (irq_remove [H1] (gic w)) w))
    | _ => w
    end in
  let w := look (set_handlers [] (set_gic (irq_remove [] (gic w)) w)) in
  let w := set_gic (gicd_setBit GICD_ICPENDR (gic w)) w in
  look_bit GICD_ISENABLER w.

(** main, from the mapped distributor on. *)
Definition irq_main (fuel : nat) (h : hw) : option (verdict_t * bool) :=
  let nirqs := 32 * (Z.land (gicd_read h (GICD_TYPER / 4)) 31 + 1) in
  if (irq <? 32) || (nirqs <=? irq) then Some (SKIP, true)
  else if negb (gicd_bit GICD_ISENABLER h =? 0) || negb (gicd_bit GICD_ISPENDR h =? 0) || negb (gicd_bit GICD_ISACTIVER h =? 0)
  then Some (SKIP, true)
  else
    match irq_register [] h with
    | None => Some (SKIP, true)
    | Some h =>
        after (phases fuel (mkWorld h mode_decline 0 0 0 [H1] Idle 0 true)) (λ f w,
          let '(en, w) := cleanup w in
          Some (match f with
            | Some f => FAIL f
            | None => if en =? 0 then PASS else FAIL Fail_cleanup
            end, prompt w))
    end.
End program.
