(* ===== verification/IrqUnclaimedProps.v ===== *)
(** * What the irq-unclaimed test decides

    The kernel is specified by an automaton of one interrupt line; a kernel
    and a distributor satisfy the laws when their registers show the state of
    that automaton. Against any such kernel, whatever the interleaving of the
    deliveries with the test, a run in which no wait came up short passes
    exactly when the kernel's limit is the one the test was built with; a
    kernel without the guard never passes; and when the deliveries make
    progress the run does end, in time. *)

From S2P Require Import Prelude CMachine IrqUnclaimed.

(** ** The line *)

(** [streak] counts the deliveries in a row that nobody claimed and that left
    the line pending. *)
Record line := mkLine { enabled : bool; pending : bool; active : bool; streak : Z }.

Definition line_pend (b : bool) (l : line) : line := mkLine (enabled l) b (active l) (streak l).
Definition line_ack (l : line) : line := mkLine (enabled l) false true (streak l).
Definition line_enable (b : bool) (s : Z) (l : line) : line := mkLine b (pending l) (active l) s.

(** The end of a delivery under a kernel that masks the line after [limit]
    unclaimed deliveries; [None] is a kernel that never does. *)
Definition reached (limit : option Z) (s : Z) : bool :=
  match limit with Some k => k <=? s | None => false end.
Definition line_eoi (limit : option Z) (claimed : bool) (l : line) : line :=
  if claimed || negb (pending l) then mkLine (enabled l) (pending l) false 0
  else mkLine (enabled l && negb (reached limit (streak l + 1))) (pending l) false (streak l + 1).

(** What the kernel and the distributor promise: the registers of the
    distributor show a line, and every operation acts on it as above. A
    registration that succeeds enables the line; removing the last handler
    disables it. Both handlers are called, in either order. *)
Class KernelLaws `{Gic} (irq : Z) (limit : option Z) := {
  view : hw → line;
  view_enabled h : gicd_bit irq GICD_ISENABLER h = Z.b2z (enabled (view h));
  view_pending h : gicd_bit irq GICD_ISPENDR h = Z.b2z (pending (view h));
  view_active h : gicd_bit irq GICD_ISACTIVER h = Z.b2z (active (view h));
  view_pend h : view (gicd_setBit irq GICD_ISPENDR h) = line_pend true (view h);
  view_unpend h : view (gicd_setBit irq GICD_ICPENDR h) = line_pend false (view h);
  view_ack h : view (irq_ack h) = line_ack (view h);
  view_eoi c h : view (irq_eoi c h) = line_eoi limit c (view h);
  view_register l h h' : irq_register l h = Some h' → ∃ s, view h' = line_enable true s (view h);
  view_remove h : view (irq_remove [H1] h) = view h;
  view_remove_last h : view (irq_remove [] h) = line_enable false (streak (view h)) (view h);
  call_order_one : call_order [H1] = [H1];
  call_order_two : call_order [H1; H2] = [H1; H2] ∨ call_order [H1; H2] = [H2; H1];
}.

Section kernel.
Context `{Gic} (irq LIMIT : Z) (limit : option Z) `{!KernelLaws irq limit}.
Context (sched : nat → nat) (clock : nat → Z).

Implicit Types (w : world) (fuel : nat).

Local Abbreviation env_step := (env_step irq).
Local Abbreviation look := (look irq sched).
Local Abbreviation pend := (pend irq sched).
Local Abbreviation look_bit := (look_bit irq sched).

(** ** The delivery, seen from the line *)

Record abs := mkAbs {
  a_line : line; a_mode : mode_t; a_fired : Z; a_fired2 : Z; a_budget : Z;
  a_handlers : list handler; a_under_way : delivery }.

Definition abs_of w : abs :=
  mkAbs (view (gic w)) (mode w) (fired w) (fired2 w) (budget w) (handlers w) (under_way w).

Definition abs_call (h : handler) (a : abs) : bool * abs :=
  let '(mkAbs l m f1 f2 b hs d) := a in
  match h with
  | H1 =>
      let more := negb (bool_decide (m = mode_decline)) && negb (b =? 0) in
      (bool_decide (m = mode_claim),
       mkAbs (if more then line_pend true l else l) m (u32 (f1 + 1)) f2 (if more then b - 1 else b) hs d)
  | H2 => (true, mkAbs l m f1 (u32 (f2 + 1)) b hs d)
  end.

Definition abs_set (d : delivery) (l : line) (a : abs) : abs :=
  mkAbs l (a_mode a) (a_fired a) (a_fired2 a) (a_budget a) (a_handlers a) d.

Definition abs_step (a : abs) : abs :=
  match a_under_way a with
  | Idle =>
      if enabled (a_line a) && pending (a_line a) then
        abs_set (Handling (call_order (a_handlers a)) false) (line_ack (a_line a)) a
      else a
  | Handling [] claimed => abs_set Idle (line_eoi limit claimed (a_line a)) a
  | Handling (h :: l) claimed =>
      let '(r, a') := abs_call h a in abs_set (Handling l (claimed || r)) (a_line a') a'
  end.

Lemma b2z_eq1 b : (Z.b2z b =? 1) = b.
Proof. by destruct b. Qed.
Lemma b2z_eq0 b : (Z.b2z b =? 0) = negb b.
Proof. by destruct b. Qed.

Lemma abs_env_step w : abs_of (env_step w) = abs_step (abs_of w).
Proof.
  destruct w as [h m f1 f2 b hs d n p].
  destruct d as [|[|[] l] c]; unfold IrqUnclaimed.env_step, abs_step, abs_of; cbn.
  - rewrite view_enabled, view_pending, !b2z_eq1.
    destruct (_ && _); cbn; [by rewrite view_ack|done].
  - by rewrite view_eoi.
  - unfold irq_handler; cbn. destruct (_ && _); cbn; [by rewrite view_pend|done].
  - done.
Qed.

Lemma env_prompt w : prompt (env_step w) = prompt w.
Proof.
  destruct w as [h m f1 f2 b hs d k p], d as [|[|[] l] c];
    unfold IrqUnclaimed.env_step, irq_handler; cbn; repeat (case_match; cbn); done.
Qed.

Lemma look_fields w :
  abs_of (look w) = Nat.iter (sched (looks w)) abs_step (abs_of w) ∧
  prompt (look w) = prompt w ∧ looks (look w) = S (looks w).
Proof.
  assert (prompt (look w) = prompt w) as Hp.
  { unfold IrqUnclaimed.look; cbn. induction (sched (looks w)) as [|n IH]; cbn; [done|].
    by rewrite env_prompt. }
  split; [|done]. unfold IrqUnclaimed.look. change (abs_of _) with (abs_of (Nat.iter (sched (looks w)) env_step w)) at 1.
  clear Hp. induction (sched (looks w)) as [|n IH]; [done|cbn].
  rewrite abs_env_step. by f_equal.
Qed.

Lemma look_prompt w : prompt (look w) = prompt w.
Proof. apply look_fields. Qed.
Lemma look_looks w : looks (look w) = S (looks w).
Proof. apply look_fields. Qed.

Definition stable (P : abs → Prop) : Prop := ∀ a, P a → P (abs_step a).

Lemma iter_stable P n a : stable P → P a → P (Nat.iter n abs_step a).
Proof. intros HP Ha. induction n; cbn; auto. Qed.
Lemma look_stable P w : stable P → P (abs_of w) → P (abs_of (look w)).
Proof. intros HP Ha. rewrite (proj1 (look_fields w)). by apply iter_stable. Qed.
Lemma still_look w a : abs_step a = a → abs_of w = a → abs_of (look w) = a.
Proof. intros Ha Hw. apply (look_stable (λ b, b = a)); [|done]. by intros ? ->. Qed.

(** ** Outcomes *)

(** [live] is what makes every wait end in time: three steps of the delivery
    before every look, a clock that is slow against the looks, and fuel. *)
Definition slow (n : Z) (ms : Z) : Prop :=
  ∀ j k, (j ≤ k)%nat → Z.of_nat k ≤ Z.of_nat j + n → clock k ≤ clock j + ms.
Definition live fuel : Prop :=
  (∀ k, (3 ≤ sched k)%nat) ∧ slow 100 WAIT_MS ∧ slow (40 * LIMIT) WAIT_STORM_MS ∧
  9 * LIMIT + 10 ≤ Z.of_nat fuel.

(** A part of the program that starts with [prompt] ends with it and with
    [Post], unless the schedule is not live. *)
Definition outcome {A} fuel (o : option (A * world)) (Post : A → world → Prop) : Prop :=
  match o with
  | None => ¬ live fuel
  | Some (x, w) => if prompt w then Post x w else ¬ live fuel
  end.
(** Once [prompt] is lost it stays so. *)
Definition lost {A} (o : option (A * world)) : Prop :=
  match o with None => True | Some (_, w) => prompt w = false end.

Lemma outcome_after {A B} fuel (o : option (A * world)) (k : A → world → option (B * world)) Post Post' :
  outcome fuel o Post → (∀ x w, prompt w = true → Post x w → outcome fuel (k x w) Post') →
  (∀ x w, prompt w = false → lost (k x w)) → outcome fuel (after o k) Post'.
Proof.
  intros Ho Hk Hl. destruct o as [[x w]|]; cbn in *; [|done].
  destruct (prompt w) eqn:Hp; [by apply Hk|].
  specialize (Hl x w Hp). unfold outcome, lost in *. destruct (k x w) as [[y w']|]; [|done].
  by rewrite Hl.
Qed.
Lemma lost_after {A B} (o : option (A * world)) (k : A → world → option (B * world)) :
  lost o → (∀ x w, prompt w = false → lost (k x w)) → lost (after o k).
Proof. destruct o as [[x w]|]; cbn; auto. Qed.

(** ** Waiting *)

(** A stretch of deliveries the test waits for: [P] holds of its states, [Q]
    of those in which the counter has its final value, [E] is the last one and
    [rank] bounds the steps to it. *)
Record stretch (P Q : abs → Prop) (E : abs) (rank : abs → nat) (count : abs → Z) (target : Z) := {
  stretch_stable : stable P;
  stretch_late_stable : stable Q;
  stretch_late a : P a → count a = target → Q a;
  stretch_end a : Q a → active (a_line a) = false → a = E;
  stretch_rank a : P a → a = E ∨ (rank (abs_step a) < rank a)%nat;
  stretch_still : abs_step E = E;
  stretch_test : count E = target ∧ active (a_line E) = false ∧ (pending (a_line E) = false ∨ enabled (a_line E) = false);
}.

Section waiting.
Context (P Q : abs → Prop) (E : abs) (rank : abs → nat) (count : abs → Z) (target : Z).
Context (ST : stretch P Q E rank count target).
Context (counter : world → Z) (Hcounter : ∀ w, counter w = count (abs_of w)).

Local Abbreviation idle_now := (idle_now irq sched counter target).

Lemma iter_rank n a :
  P a → (rank (Nat.iter n abs_step a) ≤ rank a)%nat ∧
  ((1 ≤ n)%nat → a = E ∨ (rank (Nat.iter n abs_step a) < rank a)%nat).
Proof.
  intros HP. destruct (stretch_rank _ _ _ _ _ _ ST a HP) as [He|Hr].
  - assert (Nat.iter n abs_step a = a) as ->; [|split; [lia|by left]].
    rewrite He. clear a HP He. induction n as [|n IH]; [done|]. rewrite Nat.iter_succ.
    transitivity (abs_step E); [by f_equal|exact (stretch_still _ _ _ _ _ _ ST)].
  - enough (n = 0%nat ∨ (rank (Nat.iter n abs_step a) < rank a)%nat) as [->|?]; [split; [done|lia]|lia|].
    induction n as [|n IH]; [auto|right]. rewrite Nat.iter_succ. destruct IH as [->|IH]; [done|].
    destruct (stretch_rank _ _ _ _ _ _ ST (Nat.iter n abs_step a)) as [He|Hlt];
      [apply iter_stable; [apply ST|done]| |lia].
    rewrite He, (stretch_still _ _ _ _ _ _ ST), <- He. done.
Qed.

Lemma iter_rank_n n a :
  P a → Nat.iter n abs_step a = E ∨ (rank (Nat.iter n abs_step a) + n ≤ rank a)%nat.
Proof.
  intros HP. induction n as [|n IH]; [right; cbn; lia|]. rewrite Nat.iter_succ.
  destruct IH as [->|IH]; [left; exact (stretch_still _ _ _ _ _ _ ST)|].
  destruct (stretch_rank _ _ _ _ _ _ ST (Nat.iter n abs_step a)) as [He|Hlt];
    [apply iter_stable; [apply ST|done]| |right; lia].
  left. rewrite He. exact (stretch_still _ _ _ _ _ _ ST).
Qed.

(** A look keeps the stretch, and counts. *)
Lemma look_in w :
  P (abs_of w) → P (abs_of (look w)) ∧ (rank (abs_of (look w)) ≤ rank (abs_of w))%nat ∧
  ((1 ≤ sched (looks w))%nat → abs_of w = E ∨ (rank (abs_of (look w)) < rank (abs_of w))%nat).
Proof.
  intros HP. split; [by apply look_stable; [apply ST|]|].
  rewrite (proj1 (look_fields w)). by apply iter_rank.
Qed.

Lemma look_end w : abs_of w = E → abs_of (look w) = E.
Proof. apply still_look. exact (stretch_still _ _ _ _ _ _ ST). Qed.

Lemma idle_now_spec w ok w' :
  P (abs_of w) → idle_now w = (ok, w') →
  P (abs_of w') ∧ prompt w' = prompt w ∧ (looks w < looks w' ≤ looks w + 4)%nat ∧
  (ok = true → abs_of w' = E) ∧
  ((1 ≤ sched (looks w))%nat → ok = false → (rank (abs_of w') < rank (abs_of w))%nat).
Proof.
  intros HP. unfold IrqUnclaimed.idle_now, IrqUnclaimed.look_bit.
  destruct (look_in w HP) as (HP1 & _ & Hr1). pose proof (look_prompt w) as Hp1. pose proof (look_looks w) as Hl1.
  set (w1 := look w) in *.
  destruct (look_in w1 HP1) as (HP2 & Hr2 & _). pose proof (look_prompt w1) as Hp2. pose proof (look_looks w1) as Hl2.
  set (w2 := look w1) in *.
  destruct (look_in w2 HP2) as (HP3 & Hr3 & _). pose proof (look_prompt w2) as Hp3. pose proof (look_looks w2) as Hl3.
  set (w3 := look w2) in *.
  destruct (look_in w3 HP3) as (HP4 & Hr4 & _). pose proof (look_prompt w3) as Hp4. pose proof (look_looks w3) as Hl4.
  set (w4 := look w3) in *.
  assert (abs_of w1 = E → abs_of w2 = E) as Hs2 by apply look_end.
  assert (abs_of w2 = E → abs_of w3 = E) as Hs3 by apply look_end.
  assert (abs_of w3 = E → abs_of w4 = E) as Hs4 by apply look_end.
  assert (abs_of w = E → abs_of w1 = E) as Hs1 by apply look_end.
  rewrite !Hcounter, !view_active, !view_pending, !view_enabled, !b2z_eq0.
  assert (abs_of w = E → abs_of w1 = E ∧ abs_of w2 = E ∧ abs_of w3 = E ∧ abs_of w4 = E) as Hstill.
  { tauto. }
  assert (count (abs_of w1) = target → active (a_line (abs_of w2)) = false →
    abs_of w2 = E ∧ abs_of w3 = E ∧ abs_of w4 = E) as Hend.
  { intros Hc Ha.
    assert (abs_of w2 = E) as He2.
    { apply (stretch_end _ _ _ _ _ _ ST); [|done].
      apply look_stable; [exact (stretch_late_stable _ _ _ _ _ _ ST)|]. by apply (stretch_late _ _ _ _ _ _ ST). }
    auto. }
  destruct (stretch_test _ _ _ _ _ _ ST) as (Hte1 & Hte2 & Hte3).
  change (view (gic w2)) with (a_line (abs_of w2)). change (view (gic w3)) with (a_line (abs_of w3)).
  change (view (gic w4)) with (a_line (abs_of w4)).
  destruct (Z.eqb_spec (count (abs_of w1)) target) as [Hc|Hc].
  2:{ intros [= <- <-]. split_and!; try done; try lia. intros Hs _. destruct (Hr1 Hs) as [He|]; [|done].
      destruct (Hstill He) as (He1 & _). by rewrite He1 in Hc. }
  destruct (active (a_line (abs_of w2))) eqn:Ha; cbn [negb].
  { intros [= <- <-]. split_and!; try done; try lia; try congruence. intros Hs _.
    destruct (Hr1 Hs) as [He|]; [|lia]. destruct (Hstill He) as (_ & He2 & _). rewrite He2 in Ha. congruence. }
  destruct (Hend Hc eq_refl) as (He2 & He3 & He4).
  rewrite He3. destruct (pending (a_line E)) eqn:Hpe; cbn [negb].
  - rewrite He4. destruct (enabled (a_line E)) eqn:Hen; cbn [negb]; [by destruct Hte3|].
    intros [= <- <-]. split_and!; try done; try lia; congruence.
  - intros [= <- <-]. split_and!; try done; try lia; congruence.
Qed.

Local Abbreviation wait_loop fuel := (wait_loop irq sched clock fuel counter target).

Lemma wait_loop_sound fuel ms spins deadline w r w' :
  P (abs_of w) → wait_loop fuel ms spins deadline w = Some (r, w') →
  if r then abs_of w' = E ∧ prompt w' = prompt w else prompt w' = false.
Proof.
  revert spins deadline w. induction fuel as [|fuel IH]; intros spins deadline w HP; cbn; [done|].
  destruct (idle_now w) as [ok w1] eqn:Hi.
  destruct (idle_now_spec w ok w1 HP Hi) as (HP1 & Hp1 & _ & He & _).
  destruct ok; [intros [= <- <-]; auto|]. rewrite <- Hp1.
  destruct (_ =? 0); [|by apply IH]. rewrite <- (look_prompt w1). destruct (look_in w1 HP1) as (HP2 & _).
  destruct (_ =? 0); [by apply IH|]. destruct (_ <? _); [by intros [= <- <-]|by apply IH].
Qed.

Lemma wait_loop_live fuel ms n spins deadline w :
  P (abs_of w) → (∀ k, (1 ≤ sched k)%nat) → slow n ms → (rank (abs_of w) < fuel)%nat →
  (5 * (Z.of_nat (rank (abs_of w)) + 1) ≤ n) →
  (deadline = 0 ∨ ∃ j, deadline = clock j + ms ∧ (j ≤ looks w)%nat ∧
    Z.of_nat (looks w) + 5 * (Z.of_nat (rank (abs_of w)) + 1) ≤ Z.of_nat j + n) →
  ∃ w', wait_loop fuel ms spins deadline w = Some (true, w').
Proof.
  intros HP Hs Hslow Hf Hn. revert spins deadline w HP Hf Hn.
  induction fuel as [|fuel IH]; intros spins deadline w HP Hf Hn Hd; [lia|cbn].
  destruct (idle_now w) as [ok w1] eqn:Hi.
  destruct (idle_now_spec w ok w1 HP Hi) as (HP1 & _ & Hl1 & _ & Hr1).
  destruct ok; [eauto|]. specialize (Hr1 (Hs _) eq_refl).
  destruct (look_in w1 HP1) as (HP2 & Hr2 & _). pose proof (look_looks w1) as Hl2.
  case_match.
  2:{ apply IH; [done|lia..|]. destruct Hd as [|(j & ? & ? & ?)]; [by left|right]. exists j. lia. }
  case_match.
  { apply IH; [done|lia..|]. right. exists (Datatypes.S (looks w1)). rewrite Hl2. lia. }
  destruct Hd as [|(j & -> & ? & ?)]; [lia|].
  pose proof (Hslow j (Datatypes.S (looks w1)) ltac:(lia) ltac:(lia)).
  case_match; [lia|]. apply IH; [done|lia..|]. right. exists j. lia.
Qed.

(** The wait ends with the stretch, or the schedule is not live. *)
Lemma wait_idle_outcome fuel ms n w :
  P (abs_of w) → prompt w = true →
  (live fuel → slow n ms) → 5 * (Z.of_nat (rank (abs_of w)) + 1) ≤ n →
  Z.of_nat (rank (abs_of w)) < 9 * LIMIT + 10 →
  outcome fuel (wait_idle irq sched clock fuel counter target ms w) (λ ok w', ok = true ∧ abs_of w' = E).
Proof.
  intros HP Hp Hn H5 Hr. unfold outcome, wait_idle.
  assert (live fuel → ∃ w', wait_loop fuel ms 0 0 w = Some (true, w')) as Hlive.
  { intros Hl. pose proof (Hn Hl). destruct Hl as (Hs & _ & _ & Hf).
    apply (wait_loop_live fuel ms n); [done| |done|lia|done|by left]. intros k. specialize (Hs k). lia. }
  destruct (wait_loop fuel ms 0 0 w) as [[r w']|] eqn:Hw.
  - pose proof (wait_loop_sound _ _ _ _ _ _ _ HP Hw) as Hsound. destruct r.
    + destruct Hsound as (He & Hp'). rewrite Hp', Hp. auto.
    + rewrite Hsound. intros Hl. by destruct (Hlive Hl) as (? & [=]).
  - intros Hl. by destruct (Hlive Hl) as (? & [=]).
Qed.
End waiting.

(** A wait never restores [prompt]. *)
Lemma idle_now_prompt counter target w : prompt (idle_now irq sched counter target w).2 = prompt w.
Proof.
  unfold idle_now, IrqUnclaimed.look_bit.
  destruct (_ =? target); [|apply look_prompt].
  destruct (_ =? 0); [|by cbn [snd]; rewrite !look_prompt].
  destruct (_ =? 0); by cbn [snd]; rewrite !look_prompt.
Qed.
Lemma wait_idle_lost fuel counter target ms w :
  prompt w = false → lost (wait_idle irq sched clock fuel counter target ms w).
Proof.
  unfold wait_idle. generalize 0 at 1 as spins, 0 at 1 as deadline. revert w.
  induction fuel as [|fuel IH]; intros w spins deadline Hp; cbn; [done|].
  pose proof (idle_now_prompt counter target w) as Hi. destruct (idle_now _ _ _ _ w) as [ok w1]; cbn in Hi.
  rewrite Hp in Hi. pose proof (look_prompt w1) as Hl. rewrite Hi in Hl.
  repeat case_match; cbn; auto.
Qed.

Lemma wait_masked_lost fuel w :
  prompt w = false → lost ((λ w, (tt, w)) <$> wait_masked_or_stalled irq sched fuel w).
Proof.
  unfold wait_masked_or_stalled. revert w. induction fuel as [|fuel IH]; intros w Hp; [done|].
  cbn [masked_loop]. unfold IrqUnclaimed.look_bit at 1.
  destruct (_ =? 0); [cbn [mbind option_bind fmap option_fmap option_map lost]; by rewrite !look_prompt|].
  destruct (_ =? _); [|apply IH; by rewrite !look_prompt].
  cbn [mbind option_bind fmap option_fmap option_map lost]. destruct (quiet _ _); cbn [gave_up]; by rewrite ?look_prompt.
Qed.

(** ** A burst of deliveries to the first handler *)

Section burst.
(** The mode, the counters and the budget when the burst starts, the length
    of the streak then, and the number of deliveries of the burst. *)
Context (m : mode_t) (f f2 b0 s0 M : Z).

Definition claims : bool := bool_decide (m = mode_claim).
(** The handler pends the line again in delivery [d], and the kernel masks the
    line at its end. *)
Definition more (d : Z) : bool := negb (bool_decide (m = mode_decline)) && (0 <? b0 - d).
Definition masks (d : Z) : bool := negb claims && more d && reached limit (s0 + d + 1).

Definition sk (d : Z) : Z := if claims then (if d =? 0 then s0 else 0) else s0 + d.
Definition burst_pended d : abs := mkAbs (mkLine true true false (sk d)) m (f + d) f2 (b0 - d) [H1] Idle.
Definition burst_taken d : abs :=
  mkAbs (mkLine true false true (sk d)) m (f + d) f2 (b0 - d) [H1] (Handling [H1] false).
Definition burst_called d : abs :=
  mkAbs (mkLine true (more d) true (sk d)) m (f + d + 1) f2 (b0 - d - Z.b2z (more d)) [H1] (Handling [] claims).
Definition burst_over : abs :=
  let masked := masks (M - 1) in
  mkAbs (mkLine (negb masked) masked false (if masked then s0 + M else 0))
    m (f + M) f2 (b0 - (M - 1) - Z.b2z masked) [H1] Idle.

Inductive burst : abs → Prop :=
  | in_pended d : 0 ≤ d < M → burst (burst_pended d)
  | in_taken d : 0 ≤ d < M → burst (burst_taken d)
  | in_called d : 0 ≤ d < M → burst (burst_called d)
  | in_over : burst burst_over.
Definition burst_late (a : abs) : Prop := a = burst_called (M - 1) ∨ a = burst_over.

Definition burst_rank (a : abs) : nat :=
  match a_under_way a with
  | Idle => if enabled (a_line a) && pending (a_line a) then Z.to_nat (3 * (f + M - a_fired a)) else 0
  | Handling [] _ => Z.to_nat (3 * (f + M - a_fired a) + 1)
  | Handling _ _ => Z.to_nat (3 * (f + M - a_fired a) - 1)
  end.

(** The burst has [M] deliveries: every one but the last pends the line again
    and leaves it unmasked, the last does not. *)
Record burst_ok : Prop := {
  burst_len : 0 < M;
  burst_budget : 0 ≤ b0;
  burst_range : 0 ≤ f ∧ f + M < 2 ^ 32;
  burst_more d : 0 ≤ d < M - 1 → more d = true ∧ masks d = false;
  burst_last : more (M - 1) = masks (M - 1);
}.
Context (Hok : burst_ok).

Lemma burst_budget_left d : 0 ≤ d < M → 0 ≤ b0 - d.
Proof.
  intros Hd. destruct (decide (d = 0)) as [->|]; [pose proof (burst_budget Hok); lia|].
  destruct (burst_more Hok (d - 1)) as [Hm _]; [lia|]. unfold more in Hm. lia.
Qed.

Lemma burst_step_taken d : 0 ≤ d < M → abs_step (burst_taken d) = burst_called d.
Proof.
  intros Hd. pose proof (burst_budget_left d Hd). pose proof (burst_range Hok).
  unfold abs_step, burst_taken, burst_called, abs_set, abs_call; cbn. fold claims.
  assert (negb (bool_decide (m = mode_decline)) && negb (b0 - d =? 0) = more d) as ->.
  { unfold more. f_equal. destruct (Z.eqb_spec (b0 - d) 0), (Z.ltb_spec 0 (b0 - d)); cbn; lia. }
  rewrite u32_small by lia. destruct (more d); cbn; f_equal; lia.
Qed.

Lemma burst_step_called d :
  0 ≤ d < M → abs_step (burst_called d) = if d <? M - 1 then burst_pended (d + 1) else burst_over.
Proof.
  intros Hd. unfold abs_step, burst_called, abs_set, line_eoi; cbn.
  assert (sk (d + 1) = (if claims || negb (more d) then 0 else sk d + 1) ∨ d = M - 1) as Hsk.
  { destruct (decide (d = M - 1)); [by right|left]. destruct (burst_more Hok d) as [-> _]; [lia|].
    rewrite orb_false_r. unfold sk. destruct claims; [by rewrite (proj2 (Z.eqb_neq (d + 1) 0)) by lia|lia]. }
  destruct (Z.ltb_spec d (M - 1)) as [Hlt|Hge].
  - destruct (burst_more Hok d) as [Hm Hk]; [lia|]. destruct Hsk as [Hsk|]; [|lia].
    unfold masks in Hk. rewrite Hm in *. unfold burst_pended. rewrite orb_false_r in *. rewrite Hsk.
    destruct claims eqn:Hc; cbn in *; [f_equal; lia|].
    unfold sk. rewrite Hc, Hk. cbn. f_equal; lia.
  - assert (d = M - 1) as -> by lia. pose proof (burst_last Hok) as Hl. unfold burst_over. rewrite <- Hl.
    unfold masks in Hl. destruct claims eqn:Hc; cbn in *.
    { rewrite Hl. cbn. f_equal; lia. }
    destruct (more (M - 1)); cbn in *; [|f_equal; lia]. unfold sk. rewrite Hc, <- Hl. cbn.
    f_equal; [f_equal|]; lia.
Qed.

Lemma burst_step_over : abs_step burst_over = burst_over.
Proof. unfold abs_step, burst_over; cbn. by destruct (masks _). Qed.

(** The test can wait for the end of a burst. *)
Lemma burst_stretch : stretch burst burst_late burst_over burst_rank a_fired (f + M).
Proof.
  pose proof (burst_len Hok).
  assert (∀ d, abs_step (burst_pended d) = burst_taken d) as Hp.
  { intros d. unfold abs_step; cbn. by rewrite call_order_one. }
  split.
  - intros a Ha. destruct Ha as [d Hd|d Hd|d Hd|].
    + rewrite Hp. by constructor.
    + rewrite burst_step_taken by done. by constructor.
    + rewrite burst_step_called by done. case_match; constructor; lia.
    + rewrite burst_step_over. constructor.
  - intros a [->| ->]; [|rewrite burst_step_over; by right]. rewrite burst_step_called by lia.
    rewrite Z.ltb_irrefl. by right.
  - intros a Ha Hc. destruct Ha as [d Hd|d Hd|d Hd|]; cbn in Hc; [lia..| |by right].
    left. by replace d with (M - 1) by lia.
  - intros a [->| ->]; [done|done].
  - intros a Ha. destruct Ha as [d Hd|d Hd|d Hd|]; [right..|by left].
    + rewrite Hp. unfold burst_rank; cbn. lia.
    + rewrite burst_step_taken by done. unfold burst_rank; cbn. lia.
    + rewrite burst_step_called by done. destruct (Z.ltb_spec d (M - 1)).
      { unfold burst_rank; cbn. lia. }
      unfold burst_rank; cbn. destruct (masks _); cbn; lia.
  - apply burst_step_over.
  - unfold burst_over; cbn. split_and!; [done..|]. destruct (masks _); auto.
Qed.

Lemma burst_pended_0 : burst_pended 0 = mkAbs (mkLine true true false s0) m f f2 b0 [H1] Idle.
Proof. unfold burst_pended, sk; cbn. destruct claims; f_equal; try f_equal; lia. Qed.
Lemma burst_rank_pended : burst_rank (burst_pended 0) = Z.to_nat (3 * M).
Proof. unfold burst_rank; cbn. f_equal. lia. Qed.

Lemma burst_rank_fired a :
  burst a → a = burst_over ∨
  (3 * (f + M - a_fired a) - 1 ≤ Z.of_nat (burst_rank a) ≤ 3 * (f + M - a_fired a) + 1).
Proof.
  intros Ha. destruct Ha as [d Hd|d Hd|d Hd|]; [right..|by left]; unfold burst_rank; cbn; lia.
Qed.

Lemma burst_idle a : burst a →
  (enabled (a_line a) = false → a = burst_over) ∧
  (a_under_way a = Idle → enabled (a_line a) && pending (a_line a) = false → a = burst_over).
Proof. intros Ha. by destruct Ha. Qed.

Local Abbreviation masked_loop := (masked_loop irq sched).

Lemma quiet_abs w :
  quiet irq w = match a_under_way (abs_of w) with
    | Idle => negb (enabled (a_line (abs_of w)) && pending (a_line (abs_of w))) | _ => false end.
Proof. unfold quiet; cbn. by rewrite view_enabled, view_pending, !b2z_eq1. Qed.

Lemma masked_loop_S fuel w :
  masked_loop (S fuel) w =
    if negb (enabled (a_line (abs_of (look (look w))))) then Some (look (look w))
    else if fired (look (look (look w))) =? fired (look w) then
      let v := look (look (look w)) in Some (if quiet irq v then v else gave_up v)
    else masked_loop fuel (look (look (look w))).
Proof.
  cbn [IrqUnclaimed.masked_loop]. unfold IrqUnclaimed.look_bit at 1. by rewrite view_enabled, b2z_eq0.
Qed.

Lemma masked_loop_sound fuel w w' :
  burst (abs_of w) → prompt w = true → masked_loop fuel w = Some w' → prompt w' = true → abs_of w' = burst_over.
Proof.
  revert w. induction fuel as [|fuel IH]; intros w HP Hp; [done|]. rewrite masked_loop_S.
  destruct (look_in _ _ _ _ _ _ burst_stretch w HP) as (HP1 & _).
  destruct (look_in _ _ _ _ _ _ burst_stretch _ HP1) as (HP2 & _).
  destruct (look_in _ _ _ _ _ _ burst_stretch _ HP2) as (HP3 & _).
  destruct (enabled (a_line (abs_of (look (look w))))) eqn:He; cbn [negb].
  2:{ intros [= <-] _. by apply (proj1 (burst_idle _ HP2)). }
  assert (prompt (look (look (look w))) = true) as Hp3 by by rewrite !look_prompt.
  destruct (_ =? _); [|by apply IH]. cbv zeta. rewrite quiet_abs. revert Hp3 HP3.
  generalize (look (look (look w))). intros v Hv HP3 [= <-]. destruct (under_way v) eqn:Hu; [|by intros Hg; cbn in Hg].
  destruct (_ && _) eqn:Hb; [by intros Hg; cbn in Hg|]. intros _. by apply (proj2 (burst_idle _ HP3)).
Qed.

Lemma masked_loop_live fuel w :
  burst (abs_of w) → prompt w = true → (∀ k, (3 ≤ sched k)%nat) → (burst_rank (abs_of w) < fuel)%nat →
  ∃ w', masked_loop fuel w = Some w' ∧ prompt w' = true.
Proof.
  intros HP Hp Hs. revert w HP Hp. induction fuel as [|fuel IH]; intros w HP Hp Hf; [lia|]. rewrite masked_loop_S.
  destruct (look_in _ _ _ _ _ _ burst_stretch w HP) as (HP1 & Hr1 & _).
  destruct (look_in _ _ _ _ _ _ burst_stretch _ HP1) as (HP2 & _).
  destruct (look_in _ _ _ _ _ _ burst_stretch _ HP2) as (HP3 & Hr3 & _).
  pose proof (look_end _ _ _ _ _ _ burst_stretch (look (look w))) as He3.
  assert (abs_of (look (look w)) = burst_over ∨ (burst_rank (abs_of (look (look w))) + 3 ≤ burst_rank (abs_of (look w)))%nat) as Hr2.
  { rewrite (proj1 (look_fields (look w))).
    destruct (iter_rank_n _ _ _ _ _ _ burst_stretch (sched (looks (look w))) _ HP1); [by left|right].
    specialize (Hs (looks (look w))). lia. }
  assert (prompt (look (look (look w))) = true) as Hp3 by by rewrite !look_prompt.
  assert (prompt (look (look w)) = true) as Hp2 by by rewrite !look_prompt.
  destruct (negb _); [eauto|]. cbv zeta. revert Hp3 HP3 Hr3 He3. generalize (look (look (look w))) as v. intros v Hp3 HP3 Hr3 He3.
  destruct (Z.eqb_spec (fired v) (fired (look w))) as [Hfi|Hfi].
  - rewrite quiet_abs.
    assert (abs_of v = burst_over) as ->.
    { destruct Hr2 as [?|Hr2]; [by apply He3|].
      destruct (burst_rank_fired _ HP1) as [Ho|H1]; [by apply He3, (look_end _ _ _ _ _ _ burst_stretch)|].
      destruct (burst_rank_fired _ HP3) as [|H3]; [done|].
      change (a_fired (abs_of v)) with (fired v) in H3. change (a_fired (abs_of (look w))) with (fired (look w)) in H1. lia. }
    unfold burst_over; cbn. destruct (masks _); cbn; eauto.
  - apply IH; [done..|]. destruct Hr2 as [Ho|]; [|lia].
    destruct (stretch_rank _ _ _ _ _ _ burst_stretch _ HP1) as [Ho1|]; [|].
    { destruct Hfi. change (a_fired (abs_of v) = a_fired (abs_of (look w))). by rewrite (He3 Ho), Ho1. }
    rewrite (He3 Ho). unfold burst_rank at 1; cbn. destruct (masks _); cbn; lia.
Qed.

Lemma wait_masked_outcome fuel w :
  burst (abs_of w) → prompt w = true → Z.of_nat (burst_rank (abs_of w)) < 9 * LIMIT + 10 →
  outcome fuel ((λ w, (tt, w)) <$> wait_masked_or_stalled irq sched fuel w) (λ _ w', abs_of w' = burst_over).
Proof.
  intros HP Hp Hr. unfold wait_masked_or_stalled.
  destruct (masked_loop fuel w) as [w'|] eqn:Hw; cbn [mbind option_bind fmap option_fmap option_map outcome].
  - rewrite look_prompt. destruct (prompt w') eqn:Hp'.
    + apply (look_end _ _ _ _ _ _ burst_stretch). by apply (masked_loop_sound fuel w).
    + intros (Hs & _ & _ & Hf). destruct (masked_loop_live fuel w) as (v & Hv & Hpv); [done..|lia|]. congruence.
  - intros (Hs & _ & _ & Hf). destruct (masked_loop_live fuel w) as (v & Hv & Hpv); [done..|lia|]. congruence.
Qed.
End burst.

(** ** A delivery to both handlers *)

Section pair.
Context (f g s0 : Z).

Definition pair_at (p : bool) (ac : bool) (s f1 f2 : Z) (d : delivery) : abs :=
  mkAbs (mkLine true p ac s) mode_claim f1 f2 0 [H1; H2] d.
Definition pair_pended : abs := pair_at true false s0 f g Idle.
Definition pair_taken : abs := pair_at false true s0 f g (Handling (call_order [H1; H2]) false).
Definition pair_first : abs :=
  match call_order [H1; H2] with
  | H1 :: l => pair_at false true s0 (f + 1) g (Handling l true)
  | l => pair_at false true s0 f (g + 1) (Handling (tail l) true)
  end.
Definition pair_called : abs := pair_at false true s0 (f + 1) (g + 1) (Handling [] true).
Definition pair_over : abs := pair_at false false 0 (f + 1) (g + 1) Idle.

Definition pair_late (a : abs) : Prop := a = pair_first ∨ a = pair_called ∨ a = pair_over.
Definition pair (a : abs) : Prop := a = pair_pended ∨ a = pair_taken ∨ pair_late a.
Definition pair_rank (a : abs) : nat :=
  match a_under_way a with
  | Idle => if pending (a_line a) then 4 else 0
  | Handling l _ => S (length l)
  end.

Lemma pair_stretch :
  0 ≤ f < 2 ^ 32 - 1 → 0 ≤ g < 2 ^ 32 - 1 → stretch pair pair_late pair_over pair_rank a_fired2 (g + 1).
Proof.
  intros Hf Hg.
  assert (abs_step pair_pended = pair_taken) as S0 by done.
  assert (abs_step pair_taken = pair_first ∧ abs_step pair_first = pair_called ∧ (pair_rank pair_taken = 3)%nat ∧
    (pair_rank pair_first = 2)%nat ∧ active (a_line pair_first) = true) as (S1 & S2 & R1 & R2 & Ha).
  { unfold pair_taken, pair_first, abs_step, pair_at, pair_rank.
    destruct call_order_two as [-> | ->]; cbn; rewrite !u32_small by lia; auto. }
  assert (abs_step pair_called = pair_over) as S3 by done.
  assert (abs_step pair_over = pair_over) as S4 by done.
  unfold pair, pair_late. split.
  - intros a [->|[->|[->|[->| ->]]]]; rewrite ?S0, ?S1, ?S2, ?S3, ?S4; auto.
  - intros a [->|[->| ->]]; rewrite ?S2, ?S3, ?S4; auto.
  - intros a [->|[->|?]]; cbn; [lia..|done].
  - intros a [->|[->| ->]]; [congruence|done..].
  - intros a [->|[->|[->|[->| ->]]]]; rewrite ?S0, ?S1, ?S2, ?S3, ?S4, ?R1, ?R2; cbn; auto with lia.
  - done.
  - cbn. auto.
Qed.
End pair.

(** ** The phases *)

Context (Hlimit : ∀ k, limit = Some k → 0 < k) (HLIMIT : 0 < LIMIT < 2 ^ 28).

(** Nothing pends and nothing is delivered. *)
Definition rest (m : mode_t) (f f2 b : Z) (hs : list handler) (s : Z) : abs :=
  mkAbs (mkLine true false false s) m f f2 b hs Idle.

Lemma rest_look w m f f2 b hs s : abs_of w = rest m f f2 b hs s → abs_of (look w) = rest m f f2 b hs s.
Proof. intros Hw. by apply still_look. Qed.

Lemma abs_pend w m f f2 b hs s :
  abs_of w = rest m f f2 b hs s → abs_of (pend w) = mkAbs (mkLine true true false s) m f f2 b hs Idle.
Proof.
  intros Hw. apply rest_look in Hw. unfold IrqUnclaimed.pend. revert Hw. generalize (look w). intros [] Hw.
  unfold abs_of, rest in *; cbn in *. rewrite view_pend. injection Hw as -> -> -> -> -> -> ->. done.
Qed.
Lemma pend_prompt w : prompt (pend w) = prompt w.
Proof. apply look_prompt. Qed.

(** What the test reads. *)
Lemma abs_fired w a : abs_of w = a → fired w = a_fired a.
Proof. by intros <-. Qed.
Lemma look_bit_enabled w :
  look_bit GICD_ISENABLER w = (Z.b2z (enabled (a_line (abs_of (look w)))), look w).
Proof. unfold IrqUnclaimed.look_bit. by rewrite view_enabled. Qed.

Lemma live_slow n fuel : n ≤ 100 → live fuel → slow n WAIT_MS.
Proof. intros Hn (_ & Hs & _) j k Hj Hk. apply Hs; lia. Qed.

(** Pending a resting line and waiting for the burst that follows. *)
Lemma pend_wait_outcome fuel ms n m f f2 b0 s0 M w :
  abs_of w = rest m f f2 b0 [H1] s0 → prompt w = true → burst_ok m f b0 s0 M →
  (live fuel → slow n ms) → 5 * (3 * M + 1) ≤ n → M ≤ 3 * LIMIT + 1 →
  outcome fuel (wait_idle irq sched clock fuel fired (f + M) ms (pend w))
    (λ ok w', ok = true ∧ abs_of w' = burst_over m f f2 b0 s0 M).
Proof.
  intros Hw Hp Hok Hs Hn HM. pose proof (burst_len _ _ _ _ _ Hok).
  assert (abs_of (pend w) = burst_pended m f f2 b0 s0 0) as Hpe.
  { by rewrite (abs_pend _ _ _ _ _ _ _ Hw), burst_pended_0. }
  apply (wait_idle_outcome _ _ _ _ _ _ (burst_stretch _ _ f2 _ _ _ Hok) fired (λ _, eq_refl) fuel ms n);
    rewrite ?Hpe, ?pend_prompt, ?burst_rank_pended; try done; [|lia..]. constructor; lia.
Qed.

(** Phase A: one delivery per round. *)
Lemma released_ok i s : 0 ≤ i < 2 ^ 32 - 1 → burst_ok mode_decline i 0 s 1.
Proof. intros Hi. split; try done; cbn; lia. Qed.

Lemma phaseA_loop_lost fuel n i w :
  prompt w = false → lost ((λ w, (tt, w)) <$> phaseA_loop irq sched clock fuel n i w).
Proof.
  revert i w. induction n as [|n IH]; intros i w Hp; cbn [phaseA_loop]; [done|].
  pose proof (wait_idle_lost fuel fired (i + 1) WAIT_MS (pend w) ltac:(by rewrite pend_prompt)) as Hl.
  unfold lost in Hl. destruct (wait_idle _ _ _ _ _ _ _ _) as [[[] w']|]; cbn [after]; [by apply IH|done..].
Qed.

Lemma phaseA_loop_outcome fuel n i s w :
  abs_of w = rest mode_decline i 0 0 [H1] s → prompt w = true → 0 ≤ i → i + Z.of_nat n < 2 ^ 32 - 1 →
  outcome fuel ((λ w, (tt, w)) <$> phaseA_loop irq sched clock fuel n i w)
    (λ _ w', ∃ s', abs_of w' = rest mode_decline (i + Z.of_nat n) 0 0 [H1] s').
Proof.
  revert i s w. induction n as [|n IH]; intros i s w Hw Hp Hi Hn; cbn [phaseA_loop].
  { cbn. rewrite Hp. exists s. by rewrite Z.add_0_r. }
  pose proof (pend_wait_outcome fuel WAIT_MS 20 _ _ _ _ _ 1 w Hw Hp (released_ok i s ltac:(lia))
    (live_slow 20 fuel ltac:(lia)) ltac:(lia) ltac:(lia)) as Ho.
  unfold outcome in Ho. destruct (wait_idle _ _ _ _ _ _ _ _) as [[ok w']|]; cbn [after]; [|done].
  destruct (prompt w') eqn:Hp'.
  - destruct Ho as (-> & Ho). replace (i + Z.of_nat (S n)) with (i + 1 + Z.of_nat n) by lia.
    apply (IH (i + 1) 0); [|done|lia..]. done.
  - destruct ok; [|cbn; by rewrite Hp']. pose proof (phaseA_loop_lost fuel n (i + 1) w' Hp') as Hl.
    unfold lost, outcome in *. destruct (_ <$> _) as [[]|]; [by rewrite Hl|done].
Qed.

Lemma phaseA_outcome fuel s w :
  abs_of w = rest mode_decline 0 0 0 [H1] s → prompt w = true →
  outcome fuel (phaseA irq LIMIT sched clock fuel w)
    (λ r w', r = None ∧ ∃ s', abs_of w' = rest mode_decline (2 * LIMIT) 0 0 [H1] s').
Proof.
  intros Hw Hp. unfold phaseA.
  pose proof (phaseA_loop_outcome fuel (Z.to_nat (2 * LIMIT)) 0 s w Hw Hp ltac:(lia) ltac:(lia)) as Ho.
  destruct (phaseA_loop _ _ _ _ _ _ _) as [w'|]; [|done]. cbn [fmap option_fmap option_map outcome] in Ho.
  rewrite look_bit_enabled. unfold outcome.
  destruct (prompt w') eqn:Hp'.
  - destruct Ho as (s' & Ho). replace (0 + Z.of_nat (Z.to_nat (2 * LIMIT))) with (2 * LIMIT) in Ho by lia.
    pose proof (rest_look _ _ _ _ _ _ _ Ho) as Ho1. pose proof (rest_look _ _ _ _ _ _ _ Ho1) as Ho2.
    rewrite (abs_fired _ _ Ho1), Ho2. cbn [a_fired rest a_line enabled Z.b2z]. rewrite Z.eqb_refl. cbn [negb].
    rewrite !look_prompt, Hp'. eauto.
  - destruct (negb _); by rewrite !look_prompt, Hp'.
Qed.

(** What the test writes. *)
Lemma abs_set_budget b' w l m f f2 b hs d :
  abs_of w = mkAbs l m f f2 b hs d → abs_of (set_budget b' w) = mkAbs l m f f2 b' hs d.
Proof. destruct w. unfold abs_of; cbn. by intros [= -> -> -> -> -> -> ->]. Qed.
Lemma abs_set_mode m' w l m f f2 b hs d :
  abs_of w = mkAbs l m f f2 b hs d → abs_of (set_mode m' w) = mkAbs l m' f f2 b hs d.
Proof. destruct w. unfold abs_of; cbn. by intros [= -> -> -> -> -> -> ->]. Qed.
Lemma abs_set_handlers h hs' w l m f f2 b hs d :
  abs_of w = mkAbs l m f f2 b hs d → abs_of (set_handlers hs' (set_gic h w)) = mkAbs (view h) m f f2 b hs' d.
Proof. destruct w. unfold abs_of; cbn. by intros [= _ -> -> -> -> -> ->]. Qed.

Lemma held_claimed_ok s : burst_ok mode_claim (2 * LIMIT) (2 * LIMIT - 1) s (2 * LIMIT).
Proof.
  split; try lia.
  - intros d Hd. unfold masks, more; cbn. split; [|done]. apply Z.ltb_lt. lia.
  - unfold masks, more. cbn. apply Z.ltb_ge. lia.
Qed.

Lemma phaseB_outcome fuel s w :
  abs_of w = rest mode_decline (2 * LIMIT) 0 0 [H1] s → prompt w = true →
  outcome fuel (phaseB irq LIMIT sched clock fuel w)
    (λ r w', r = None ∧ abs_of w' = rest mode_claim (4 * LIMIT) 0 0 [H1] 0).
Proof.
  intros Hw Hp. unfold phaseB.
  pose proof (rest_look _ _ _ _ _ _ _ Hw) as Hf. rewrite (abs_fired _ _ Hf). cbn [a_fired rest].
  assert (u32 (2 * LIMIT + 2 * LIMIT) = 2 * LIMIT + 2 * LIMIT) as -> by (apply u32_small; lia).
  set (w1 := set_mode _ _).
  assert (abs_of w1 = rest mode_claim (2 * LIMIT) 0 (2 * LIMIT - 1) [H1] s) as Hw1.
  { eapply abs_set_mode, rest_look, abs_set_budget, rest_look, Hf. }
  assert (prompt w1 = true) as Hp1 by by cbn [w1 set_mode prompt]; rewrite look_prompt; cbn [set_budget prompt]; rewrite !look_prompt.
  eapply outcome_after.
  - apply (pend_wait_outcome fuel WAIT_STORM_MS (40 * LIMIT) _ _ _ _ _ _ _ Hw1 Hp1 (held_claimed_ok s)); [|lia..].
    by intros (_ & _ & Hs & _).
  - intros ok w2 Hp2 (-> & Hw2). assert (abs_of w2 = rest mode_claim (4 * LIMIT) 0 0 [H1] 0) as Hw2'.
    { rewrite Hw2. unfold burst_over, masks, rest. change (claims mode_claim) with true. cbn. f_equal; lia. }
    pose proof (rest_look _ _ _ _ _ _ _ Hw2') as Hw3. pose proof (rest_look _ _ _ _ _ _ _ Hw3) as Hw4.
    rewrite (abs_fired _ _ Hw3), look_bit_enabled, Hw4. cbn [a_fired rest a_line enabled Z.b2z].
    rewrite u32_small, (proj2 (Z.eqb_eq _ _)) by lia. cbn [negb outcome]. by rewrite !look_prompt, Hp2.
  - intros ok w2 Hp2. unfold IrqUnclaimed.look_bit, lost. destruct (negb _); by rewrite !look_prompt.
Qed.

Lemma held_more b d : more mode_decline_held b d = (0 <? b - d).
Proof. done. Qed.
Lemma held_masks b s d : masks mode_decline_held b s d = (0 <? b - d) && reached limit (s + d + 1).
Proof. done. Qed.

(** The deliveries of phase C under the kernel's limit. *)
Definition held_count : Z :=
  match limit with Some k => if k <=? 3 * LIMIT then k else 3 * LIMIT + 1 | None => 3 * LIMIT + 1 end.

Lemma held_count_range : 0 < held_count ≤ 3 * LIMIT + 1.
Proof.
  unfold held_count. destruct limit as [k|]; [|lia]. pose proof (Hlimit k eq_refl).
  destruct (Z.leb_spec k (3 * LIMIT)); lia.
Qed.

Lemma held_declined_ok : burst_ok mode_decline_held (4 * LIMIT) (3 * LIMIT) 0 held_count.
Proof.
  pose proof held_count_range. split; try lia; rewrite ?held_masks, ?held_more; unfold held_count, reached in *.
  - intros d Hd. rewrite held_masks, held_more.
    destruct limit as [k|]; [destruct (Z.leb_spec k (3 * LIMIT))|]; cbn [reached]; lia.
  - destruct limit as [k|]; [destruct (Z.leb_spec k (3 * LIMIT))|]; lia.
Qed.

Lemma held_masked : masks mode_decline_held (3 * LIMIT) 0 (held_count - 1) = (held_count <=? 3 * LIMIT).
Proof.
  rewrite held_masks. unfold held_count, reached.
  destruct limit as [k|]; [destruct (Z.leb_spec k (3 * LIMIT))|]; lia.
Qed.

(** The line after phase C under the right kernel. *)
Definition stuck : abs :=
  mkAbs (mkLine false true false LIMIT) mode_decline_held (5 * LIMIT) 0 (2 * LIMIT) [H1] Idle.

Definition right_limit : bool := bool_decide (limit = Some LIMIT).

Lemma right_limit_count : right_limit = (held_count =? LIMIT).
Proof.
  unfold right_limit, held_count. destruct limit as [k|].
  - rewrite (bool_decide_ext _ (k = LIMIT)) by naive_solver.
    destruct (Z.leb_spec k (3 * LIMIT)); case_bool_decide; lia.
  - rewrite bool_decide_false by done. lia.
Qed.

Lemma phaseC_outcome fuel w :
  abs_of w = rest mode_claim (4 * LIMIT) 0 0 [H1] 0 → prompt w = true →
  outcome fuel (phaseC irq LIMIT sched fuel w)
    (λ r w', if right_limit then r = None ∧ abs_of w' = stuck
             else r = Some (if held_count <=? 3 * LIMIT then Fail_C_wrong_number else Fail_C_not_masked)).
Proof.
  intros Hw Hp. pose proof held_count_range. unfold phaseC.
  pose proof (rest_look _ _ _ _ _ _ _ Hw) as Hf. rewrite (abs_fired _ _ Hf). cbn [a_fired rest].
  set (w1 := set_mode _ _).
  assert (abs_of w1 = rest mode_decline_held (4 * LIMIT) 0 (3 * LIMIT) [H1] 0) as Hw1.
  { eapply abs_set_mode, rest_look, abs_set_budget, rest_look, Hf. }
  assert (prompt w1 = true) as Hp1 by by cbn [w1 set_mode prompt]; rewrite look_prompt; cbn [set_budget prompt]; rewrite !look_prompt.
  assert (abs_of (pend w1) = burst_pended mode_decline_held (4 * LIMIT) 0 (3 * LIMIT) 0 0) as Hpe.
  { by rewrite (abs_pend _ _ _ _ _ _ _ Hw1), burst_pended_0. }
  pose proof (wait_masked_outcome _ _ 0 _ _ _ held_declined_ok fuel (pend w1)) as Ho.
  rewrite Hpe, burst_rank_pended, pend_prompt in Ho.
  specialize (Ho ltac:(constructor; lia) Hp1 ltac:(lia)).
  destruct (wait_masked_or_stalled _ _ _ _) as [w2|]; [|done]. cbn [fmap option_fmap option_map outcome] in Ho.
  rewrite look_bit_enabled. unfold outcome. destruct (prompt w2) eqn:Hp2.
  2:{ destruct (negb _); by rewrite !look_prompt, Hp2. }
  assert (∀ v, abs_of v = burst_over mode_decline_held (4 * LIMIT) 0 (3 * LIMIT) 0 held_count →
    abs_of (look v) = burst_over mode_decline_held (4 * LIMIT) 0 (3 * LIMIT) 0 held_count) as Hstill.
  { intros v. apply (look_end _ _ _ _ _ _ (burst_stretch _ _ _ _ _ _ held_declined_ok)). }
  pose proof (Hstill _ Ho) as Hw3. pose proof (Hstill _ Hw3) as Hw4.
  rewrite Hw3, (abs_fired _ _ Hw4), right_limit_count. unfold burst_over in *. rewrite held_masked in *.
  cbn [a_line enabled a_fired]. replace (4 * LIMIT + held_count - 4 * LIMIT) with held_count by lia.
  rewrite u32_small by lia. destruct (Z.eqb_spec held_count LIMIT) as [E|E].
  - rewrite E in *. rewrite (proj2 (Z.leb_le LIMIT (3 * LIMIT))) in * by lia. cbn [negb Z.b2z].
    change (0 =? 0) with true. cbn [negb]. rewrite !look_prompt, Hp2. split; [done|]. rewrite Hw4. unfold stuck; cbn. repeat f_equal; lia.
  - destruct (held_count <=? 3 * LIMIT); cbn [negb Z.b2z];
      [change (0 =? 0) with true|change (1 =? 0) with false]; cbn [negb]; by rewrite !look_prompt, Hp2.
Qed.

Lemma pair_wait_outcome fuel f g s w :
  abs_of w = pair_pended f g s → prompt w = true → 0 ≤ f < 2 ^ 32 - 1 → 0 ≤ g < 2 ^ 32 - 1 →
  outcome fuel (wait_idle irq sched clock fuel fired2 (g + 1) WAIT_MS w)
    (λ _ w', abs_of w' = rest mode_claim (f + 1) (g + 1) 0 [H1; H2] 0).
Proof.
  intros Hw Hp Hf Hg.
  pose proof (wait_idle_outcome _ _ _ _ _ _ (pair_stretch f g s Hf Hg) fired2 (λ _, eq_refl) fuel WAIT_MS 25 w) as Ho.
  rewrite Hw in Ho. specialize (Ho ltac:(by left) Hp (live_slow 25 fuel ltac:(lia)) ltac:(done) ltac:(cbn; lia)).
  unfold outcome in *. destruct (wait_idle _ _ _ _ _ _ _ _) as [[ok w']|]; [|done].
  destruct (prompt w'); [by destruct Ho|done].
Qed.

(** interrupt() accepts the second handler. *)
Context (Hsecond : ∀ h, is_Some (irq_register [H1] h)).

Lemma phaseD_outcome fuel w :
  abs_of w = stuck → prompt w = true →
  outcome fuel (phaseD irq sched clock fuel w)
    (λ r w', r = None ∧ abs_of w' = rest mode_claim (5 * LIMIT + 2) 2 0 [H1; H2] 0).
Proof.
  intros Hw Hp. unfold phaseD.
  assert (abs_of (look w) = stuck) as Hf by by apply still_look.
  rewrite (abs_fired _ _ Hf). cbn [a_fired stuck]. set (w1 := look (set_mode _ _)).
  assert (abs_of w1 = mkAbs (mkLine false true false LIMIT) mode_claim (5 * LIMIT) 0 0 [H1] Idle) as Hw1.
  { apply still_look; [done|]. eapply abs_set_mode, still_look, abs_set_budget, still_look, Hf; done. }
  assert (prompt w1 = true) as Hp1.
  { unfold w1. rewrite look_prompt; cbn [set_mode prompt]; rewrite look_prompt; cbn [set_budget prompt]; by rewrite !look_prompt. }
  assert (handlers w1 = [H1]) as -> by by injection Hw1. destruct (Hsecond (gic w1)) as [h Hreg].
  rewrite Hreg. apply view_register in Hreg as [s Hh].
  assert (view (gic w1) = mkLine false true false LIMIT) as Hg by by injection Hw1. rewrite Hg in Hh.
  set (w2 := set_handlers _ _).
  assert (abs_of w2 = pair_pended (5 * LIMIT) 0 s) as Hw2.
  { unfold w2. erewrite abs_set_handlers by exact Hw1. by rewrite Hh. }
  eapply outcome_after; [apply (pair_wait_outcome _ _ 0 s _ Hw2); [done|lia..]| |].
  - intros ? w3 Hp3 Hw3.
    eapply outcome_after; [apply (pair_wait_outcome _ (5 * LIMIT + 1) 1 0); [|by rewrite pend_prompt|lia..]| |].
    + by rewrite (abs_pend _ _ _ _ _ _ _ Hw3).
    + intros ? w4 Hp4 Hw4. change (1 + 1) with 2 in Hw4.
      pose proof (rest_look _ _ _ _ _ _ _ Hw4) as Hw5. pose proof (rest_look _ _ _ _ _ _ _ Hw5) as Hw6.
      pose proof (rest_look _ _ _ _ _ _ _ Hw6) as Hw7.
      assert (fired2 (look w4) = 2) as -> by by injection Hw5.
      rewrite (abs_fired _ _ Hw6), look_bit_enabled, Hw7. cbn [a_fired rest a_line enabled Z.b2z].
      replace (5 * LIMIT + 1 + 1 - 5 * LIMIT) with 2 by lia.
      change (u32 2 =? 2) with true. change (2 =? 2) with true. change (1 =? 0) with false. cbn [negb outcome].
      rewrite !look_prompt, Hp4. split; [done|]. rewrite Hw7. f_equal. lia.
    + intros ? w4 Hp4. unfold IrqUnclaimed.look_bit, lost. repeat destruct (negb _); by rewrite !look_prompt.
  - intros ? w3 Hp3. apply lost_after; [apply wait_idle_lost; by rewrite pend_prompt|].
    intros ? w4 Hp4. unfold IrqUnclaimed.look_bit, lost. repeat destruct (negb _); by rewrite !look_prompt.
Qed.

(** ** The program *)

Lemma phaseB_lost fuel w : prompt w = false → lost (phaseB irq LIMIT sched clock fuel w).
Proof.
  intros Hp. apply lost_after.
  - apply wait_idle_lost. rewrite pend_prompt; cbn [set_mode prompt]; rewrite look_prompt; cbn [set_budget prompt].
    by rewrite !look_prompt.
  - intros ? w' Hp'. unfold IrqUnclaimed.look_bit, lost. destruct (negb _); by rewrite !look_prompt.
Qed.
Lemma phaseC_lost fuel w : prompt w = false → lost (phaseC irq LIMIT sched fuel w).
Proof.
  intros Hp. unfold phaseC. set (w1 := pend _).
  assert (prompt w1 = false) as Hp1.
  { unfold w1. rewrite pend_prompt; cbn [set_mode prompt]; rewrite look_prompt; cbn [set_budget prompt]; by rewrite !look_prompt. }
  pose proof (wait_masked_lost fuel w1 Hp1) as Hl. destruct (wait_masked_or_stalled _ _ _ _) as [w2|]; [|done].
  cbn [fmap option_fmap option_map lost] in Hl. unfold IrqUnclaimed.look_bit, lost. destruct (negb _); by rewrite !look_prompt.
Qed.
Lemma phaseD_lost fuel w : prompt w = false → lost (phaseD irq sched clock fuel w).
Proof.
  intros Hp. unfold phaseD. set (w1 := look (set_mode _ _)).
  assert (prompt w1 = false) as Hp1.
  { unfold w1. rewrite look_prompt; cbn [set_mode prompt]; rewrite look_prompt; cbn [set_budget prompt]; by rewrite !look_prompt. }
  destruct (irq_register _ _); [|done]. apply lost_after; [by apply wait_idle_lost|]. intros ? w2 Hp2.
  apply lost_after; [apply wait_idle_lost; by rewrite pend_prompt|].
  intros ? w3 Hp3. unfold IrqUnclaimed.look_bit, lost. repeat destruct (negb _); by rewrite !look_prompt.
Qed.

Lemma outcome_and_then fuel (m : phase) (k : world → phase) Post Post' :
  outcome fuel m Post →
  (∀ w, prompt w = true → Post None w → outcome fuel (k w) Post') →
  (∀ f w, Post (Some f) w → Post' (Some f) w) →
  (∀ w, prompt w = false → lost (k w)) → outcome fuel (and_then m k) Post'.
Proof.
  intros Hm Hk Hf Hl. eapply outcome_after; [done| |].
  - intros [f|] w Hp Hw; [|auto]. cbn. rewrite Hp. auto.
  - intros [f|] w Hp; [done|auto].
Qed.

(** The verdict the kernel deserves. *)
Definition expected : option failure :=
  if right_limit then None
  else Some (if held_count <=? 3 * LIMIT then Fail_C_wrong_number else Fail_C_not_masked).

Lemma phases_outcome fuel s w :
  abs_of w = rest mode_decline 0 0 0 [H1] s → prompt w = true →
  outcome fuel (phases irq LIMIT sched clock fuel w) (λ r _, r = expected).
Proof.
  intros Hw Hp. unfold phases, expected.
  eapply outcome_and_then.
  - eapply outcome_and_then; [eapply outcome_and_then; [by eapply phaseA_outcome| | |apply phaseB_lost]| | |apply phaseC_lost].
    + intros w1 Hp1 (_ & s1 & Hw1). by eapply phaseB_outcome.
    + by intros f w1 [[=] _].
    + intros w2 Hp2 (_ & Hw2). by apply phaseC_outcome.
    + by intros f w2 [[=] _].
  - intros w3 Hp3 Hw3. destruct right_limit; [|done]. destruct Hw3 as (_ & Hw3).
    pose proof (phaseD_outcome fuel w3 Hw3 Hp3) as Ho. unfold outcome in *.
    destruct (phaseD _ _ _ _ _) as [[r w4]|]; [|done]. destruct (prompt w4); [by destruct Ho|done].
  - intros f w3. cbn. destruct right_limit; [by intros [[=] _]|done].
  - apply phaseD_lost.
Qed.

(** ** Cleaning up *)

Lemma disabled_stable : stable (λ a, enabled (a_line a) = false).
Proof.
  intros [[en pe ac st] m f f2 b hs [|[|[] l] c]] Ha; unfold abs_step; cbn in *; subst; cbn; [done| | |done].
  - unfold line_eoi; cbn. by destruct (c || negb pe).
  - by destruct (_ && _).
Qed.

Lemma abs_line w : view (gic w) = a_line (abs_of w).
Proof. done. Qed.

Lemma cleanup_spec w : (cleanup irq sched w).1 = 0 ∧ prompt (cleanup irq sched w).2 = prompt w.
Proof.
  unfold cleanup. set (w1 := look (set_mode _ _)). set (w2 := match handlers w1 with [_; _] => _ | _ => w1 end).
  assert (prompt w2 = prompt w) as Hp.
  { assert (prompt w1 = prompt w) as <-.
    { unfold w1. rewrite look_prompt; cbn [set_mode prompt]; rewrite look_prompt; cbn [set_budget prompt]; by rewrite look_prompt. }
    unfold w2. destruct (handlers w1) as [|? [|? []]]; [done..| |done]. by rewrite look_prompt. }
  rewrite look_bit_enabled. cbn [fst snd]. rewrite look_prompt. cbn [set_gic prompt]. rewrite look_prompt. split; [|exact Hp].
  set (w3 := look (set_handlers _ _)).
  assert (enabled (view (gic w3)) = false) as H3.
  { rewrite abs_line. apply (look_stable (λ a, enabled (a_line a) = false)); [apply disabled_stable|].
    rewrite <- abs_line. cbn [set_handlers set_gic gic]. by rewrite view_remove_last. }
  assert (enabled (a_line (abs_of (look (set_gic (gicd_setBit irq GICD_ICPENDR (gic w3)) w3)))) = false) as ->; [|done].
  apply (look_stable (λ a, enabled (a_line a) = false)); [apply disabled_stable|].
  rewrite <- abs_line. cbn [set_gic gic]. by rewrite view_unpend.
Qed.

Definition verdict_of (r : option failure) : verdict_t := match r with None => PASS | Some f => FAIL f end.

(** The interrupt is one the distributor has and nobody uses. *)
Definition usable (h : hw) : Prop :=
  32 ≤ irq < 32 * (Z.land (gicd_read h (GICD_TYPER / 4)) 31 + 1) ∧
  enabled (view h) = false ∧ pending (view h) = false ∧ active (view h) = false.

Lemma irq_main_cases fuel h :
  ((¬ usable h ∨ irq_register [] h = None) ∧ irq_main irq LIMIT sched clock fuel h = Some (SKIP, true)) ∨
  (usable h ∧ is_Some (irq_register [] h) ∧ ∃ h' s, view h' = mkLine true false false s ∧
   irq_main irq LIMIT sched clock fuel h =
     after (phases irq LIMIT sched clock fuel (mkWorld h' mode_decline 0 0 0 [H1] Idle 0 true))
       (λ r w, Some (verdict_of r, prompt w))).
Proof.
  unfold irq_main, usable. rewrite view_enabled, view_pending, view_active, !b2z_eq0, !negb_involutive.
  destruct (_ || _) eqn:Hr; [left; split; [left; lia|done]|].
  destruct (view h) as [en pe ac st] eqn:Hv; cbn [enabled pending active].
  destruct (en || pe || ac) eqn:Hb; [left; split; [left|done]; intros (_ & -> & -> & ->); done|].
  destruct (irq_register [] h) as [h'|] eqn:Hreg; [|left; split; [by right|done]].
  right. apply orb_false_elim in Hb as [[-> ->]%orb_false_elim ->]. split; [split; [lia|done]|]. split; [done|].
  apply view_register in Hreg as [s Hh']. exists h', s. rewrite Hv in Hh'. split; [done|].
  destruct (phases _ _ _ _ _ _) as [[r w]|]; [|done]. cbn [after].
  destruct (cleanup_spec w) as (He & Hp). destruct (cleanup irq sched w) as [en w']. cbn in He, Hp. subst en.
  cbn. by rewrite Hp.
Qed.

Lemma main_outcome fuel h :
  usable h → is_Some (irq_register [] h) →
  match irq_main irq LIMIT sched clock fuel h with
  | None => ¬ live fuel
  | Some (v, p) => if p then v = verdict_of expected else ¬ live fuel
  end.
Proof.
  intros Hu [h0 Hr]. destruct (irq_main_cases fuel h) as [[[?|?] _]|(_ & _ & h' & s & Hh' & ->)]; [done|congruence|].
  pose proof (phases_outcome fuel s (mkWorld h' mode_decline 0 0 0 [H1] Idle 0 true)) as Ho.
  unfold abs_of, rest in Ho; cbn in Ho. rewrite Hh' in Ho. specialize (Ho eq_refl eq_refl). unfold outcome in Ho.
  destruct (phases _ _ _ _ _ _) as [[r w]|]; cbn; [|done]. destruct (prompt w); [by subst|done].
Qed.

(** ** A kernel without the guard *)

Section no_guard.
Context (Hnone : limit = None).

Definition kept w : Prop := enabled (view (gic w)) = true.

Lemma enabled_stable : stable (λ a, enabled (a_line a) = true).
Proof.
  intros [[en pe ac st] m f f2 b hs [|[|[] l] c]] Ha; unfold abs_step; cbn in *; subst; cbn; [| | |done].
  - by destruct pe.
  - unfold line_eoi; cbn. by destruct (c || negb pe).
  - by destruct (_ && _).
Qed.
Lemma kept_look w : kept w → kept (look w).
Proof. exact (look_stable (λ a, enabled (a_line a) = true) w enabled_stable). Qed.
Lemma kept_pend w : kept w → kept (pend w).
Proof. intros Hw%kept_look. unfold kept, IrqUnclaimed.pend. cbn [set_gic gic]. by rewrite view_pend. Qed.
Lemma kept_wait fuel counter target ms w ok w' :
  kept w → wait_idle irq sched clock fuel counter target ms w = Some (ok, w') → kept w'.
Proof.
  unfold wait_idle. generalize 0 at 1 as spins, 0 at 1 as deadline. revert w.
  induction fuel as [|fuel IH]; intros w spins deadline Hw; cbn [wait_loop]; [done|].
  assert (kept (idle_now irq sched counter target w).2) as Hi.
  { unfold idle_now, IrqUnclaimed.look_bit. destruct (_ =? target); [|by apply kept_look].
    destruct (_ =? 0); [|by cbn [snd]; do 2 apply kept_look].
    destruct (_ =? 0); cbn [snd]; repeat apply kept_look; done. }
  destruct (idle_now _ _ _ _ w) as [r w1]; cbn [snd] in Hi. pose proof (kept_look _ Hi).
  destruct r; [by intros [= <- <-]|]. destruct (_ =? 0); [|by apply IH].
  destruct (_ =? 0); [by apply IH|]. destruct (_ <? _); [by intros [= <- <-]|by apply IH].
Qed.
Lemma kept_masked fuel w w' : kept w → wait_masked_or_stalled irq sched fuel w = Some w' → kept w'.
Proof.
  unfold wait_masked_or_stalled. revert w. induction fuel as [|fuel IH]; intros w Hw; [done|]. cbn [masked_loop].
  unfold IrqUnclaimed.look_bit at 1. pose proof (kept_look _ Hw) as H1. pose proof (kept_look _ H1) as H2.
  pose proof (kept_look _ H2) as H3. destruct (_ =? 0); [intros [= <-]; by apply kept_look|].
  destruct (_ =? _); [|by apply IH]. destruct (quiet _ _); intros [= <-]; by apply kept_look.
Qed.

Lemma kept_phaseA_loop fuel n i w w' :
  kept w → phaseA_loop irq sched clock fuel n i w = Some w' → kept w'.
Proof.
  revert i w. induction n as [|n IH]; intros i w Hw; cbn [phaseA_loop]; [by intros [= <-]|].
  destruct (wait_idle _ _ _ _ _ _ _ _) as [[ok w1]|] eqn:E; cbn [after]; [|done].
  apply kept_wait in E; [|by apply kept_pend]. destruct ok; [by apply IH|by intros [= <-]].
Qed.

(** Phases A and B leave the line enabled, so phase C finds it so. *)
Lemma no_guard_phases fuel w r w' :
  kept w → phases irq LIMIT sched clock fuel w = Some (r, w') → r ≠ None.
Proof.
  intros Hw. unfold phases, and_then.
  destruct (phaseA _ _ _ _ _ _) as [[rA wA]|] eqn:EA; [|done]. cbn [after].
  destruct rA as [f|]; [by intros [= <- _]|].
  assert (kept wA) as HA.
  { revert EA. unfold phaseA. destruct (phaseA_loop _ _ _ _ _ _ _) eqn:E; [|done]. apply kept_phaseA_loop in E; [|done].
    unfold IrqUnclaimed.look_bit. destruct (negb _); intros [= _ <-]. by do 2 apply kept_look. }
  destruct (phaseB _ _ _ _ _ _) as [[rB wB]|] eqn:EB; [|done]. cbn [after].
  destruct rB as [f|]; [by intros [= <- _]|].
  assert (kept wB) as HB.
  { revert EB. unfold phaseB. destruct (wait_idle _ _ _ _ _ _ _ _) as [[ok w2]|] eqn:E; [|done].
    apply kept_wait in E; [|by apply kept_pend; cbn; do 3 apply kept_look].
    unfold IrqUnclaimed.look_bit; cbn [after]. destruct (negb _); intros [= _ <-]. by do 2 apply kept_look. }
  destruct (phaseC _ _ _ _ _) as [[rC wC]|] eqn:EC; [|done]. cbn [after].
  enough (rC ≠ None) as HC by (destruct rC; [by intros [= <- _]|done]).
  revert EC. unfold phaseC. destruct (wait_masked_or_stalled _ _ _ _) as [w2|] eqn:E; [|done].
  apply kept_masked in E; [|by apply kept_pend; cbn; do 3 apply kept_look].
  rewrite look_bit_enabled, <- abs_line, (kept_look _ E). by intros [= <- _].
Qed.
End no_guard.
End kernel.

(** ** The verdict *)

(** What a run that no wait cut short says of a kernel with this limit. *)
Definition expected_verdict (limit : option Z) (LIMIT : Z) : verdict_t :=
  match limit with
  | Some k =>
      if k =? LIMIT then PASS
      else if k <=? 3 * LIMIT then FAIL Fail_C_wrong_number else FAIL Fail_C_not_masked
  | None => FAIL Fail_C_not_masked
  end.

Lemma expected_spec limit LIMIT :
  0 < LIMIT → verdict_of (expected LIMIT limit) = expected_verdict limit LIMIT.
Proof.
  intros HL. unfold expected, right_limit, expected_verdict, held_count. destruct limit as [k|]; cbn.
  - rewrite (bool_decide_ext _ (k = LIMIT)) by naive_solver.
    destruct (Z.eqb_spec k LIMIT); [by rewrite bool_decide_true|]. rewrite bool_decide_false by done.
    destruct (Z.leb_spec k (3 * LIMIT)); cbn; [by rewrite (proj2 (Z.leb_le _ _)) by lia|].
    by rewrite (proj2 (Z.leb_gt _ _)) by lia.
  - by rewrite (proj2 (Z.leb_gt _ _)) by lia.
Qed.

Section verdict.
Context `{Gic} (irq LIMIT : Z) (limit : option Z) `{!KernelLaws irq limit}.
Context (Hlimit : ∀ k, limit = Some k → 0 < k) (HLIMIT : 0 < LIMIT < 2 ^ 28).
Context (Hsecond : ∀ h, is_Some (irq_register [H1] h)).

(** C9: Whatever the interleaving of the deliveries with the test, a run in
    which no wait came up short ends with the verdict the interrupt and the
    kernel deserve, provided interrupt() accepts the second handler. An
    interrupt the distributor does not have or that is in use is skipped, as
    is one whose first handler is refused. Any other gets PASS if the kernel
    masks the line at the test's limit, the report of a wrong number if it
    does so at another number of deliveries up to three times the limit, and
    the report that it is not masked if later or never. *)
Theorem irq_main_verdict (sched : nat → nat) (clock : nat → Z) fuel h v :
  irq_main irq LIMIT sched clock fuel h = Some (v, true) →
  (¬ usable irq limit h ∨ irq_register [] h = None → v = SKIP) ∧
  (usable irq limit h → is_Some (irq_register [] h) → v = expected_verdict limit LIMIT).
Proof.
  intros Hm. split.
  - intros Hn. destruct (irq_main_cases irq LIMIT limit sched clock fuel h) as [[_ Hs]|(Hu & [h' Hr] & _)]; [congruence|].
    destruct Hn; [done|congruence].
  - intros Hu Hr. pose proof (main_outcome irq LIMIT limit sched clock Hlimit HLIMIT Hsecond fuel h Hu Hr) as Ho.
    rewrite Hm in Ho. by rewrite Ho, expected_spec by lia.
Qed.

(** C10: When the interrupt is free, interrupt() accepts both handlers, at
    least three steps of the delivery fall between two looks of the test and
    the clock does not run away, the whole test ends, without giving up
    anywhere, with the verdict the kernel deserves. *)
Theorem irq_main_ends (sched : nat → nat) (clock : nat → Z) fuel h :
  usable irq limit h → is_Some (irq_register [] h) → live LIMIT sched clock fuel →
  irq_main irq LIMIT sched clock fuel h = Some (expected_verdict limit LIMIT, true).
Proof.
  intros Hu Hr Hl. pose proof (main_outcome irq LIMIT limit sched clock Hlimit HLIMIT Hsecond fuel h Hu Hr) as Ho.
  rewrite <- expected_spec by lia. destruct (irq_main _ _ _ _ _ _) as [[v []]|]; [by subst|done..].
Qed.
End verdict.

(** A kernel that never masks an unclaimed interrupt does not pass, under
    any interleaving, with waits that give up included. *)
Theorem irq_main_catches `{Gic} (irq LIMIT : Z) `{!KernelLaws irq None} (sched : nat → nat) (clock : nat → Z)
    fuel h v p :
  irq_main irq LIMIT sched clock fuel h = Some (v, p) → v ≠ PASS.
Proof.
  intros Hm. destruct (irq_main_cases irq LIMIT None sched clock fuel h) as [[_ Hs]|(_ & _ & h' & s & Hh' & E)].
  { rewrite Hm in Hs. by injection Hs as ->. }
  rewrite Hm in E. destruct (phases _ _ _ _ _ _) as [[r w]|] eqn:Hp; [|done]. cbn in E. injection E as -> _.
  apply (no_guard_phases irq LIMIT None sched clock ltac:(done) eq_refl) in Hp; [by destruct r|].
  unfold kept; cbn. by rewrite Hh'.
Qed.

(** ** A kernel *)

(** The registers of IRQ 223, kept as a line. *)
Definition reg_bit (b : bool) : Z := Z.shiftl (Z.b2z b) 31.
#[export] Instance LineGic (limit : option Z) : Gic := {|
  hw := line;
  gicd_read l i :=
    if i =? 1 then 31 else if i =? 70 then reg_bit (enabled l) else if i =? 134 then reg_bit (pending l)
    else if i =? 198 then reg_bit (active l) else 0;
  gicd_write l i v :=
    if negb (Z.testbit v 31) then l
    else if i =? 134 then line_pend true l else if i =? 166 then line_pend false l else l;
  irq_ack := line_ack;
  irq_eoi := line_eoi limit;
  irq_register _ l := Some (line_enable true 0 l);
  irq_remove hs l := match hs with [] => line_enable false (streak l) l | _ => l end;
  call_order hs := reverse hs;
|}.

#[export] Instance LineGic_laws limit : @KernelLaws (LineGic limit) 223 limit.
Proof.
  refine {| view := (λ l : line, l) : @hw (LineGic limit) → line |}; try done.
  1-3: intros [[] [] [] s]; done.
  - intros l h h' [= <-]. by exists 0.
  - by right.
Defined.

Definition line_idle : line := mkLine false false false 0.
Definition run (limit : option Z) (LIMIT : Z) (sched : nat → nat) (fuel : nat) : option (verdict_t * bool) :=
  @irq_main (LineGic limit) 223 LIMIT sched (λ _, 0) fuel line_idle.

Lemma irq_main_verdict_witness :
  run (Some 2) 2 (λ k, k `mod` 5)%nat 100 = Some (PASS, true) ∧ PASS = expected_verdict (Some 2) 2.
Proof.
  split; [by vm_compute|].
  apply (@irq_main_verdict (LineGic (Some 2)) 223 2 (Some 2) (LineGic_laws _)) with (sched := (λ k, k `mod` 5)%nat)
    (clock := λ _, 0) (fuel := 100%nat) (h := line_idle); [by intros k [= <-]|lia|done|by vm_compute| |done].
  split; [|done]. by vm_compute.
Defined.

Lemma irq_main_ends_witness :
  run (Some 7) 2 (λ _, 3)%nat 100 = Some (FAIL Fail_C_not_masked, true) ∧ run (Some 3) 2 (λ _, 3)%nat 100 = Some (expected_verdict (Some 3) 2, true).
Proof.
  split; [by vm_compute|].
  apply (@irq_main_ends (LineGic (Some 3)) 223 2 (Some 3) (LineGic_laws _)).
  - by intros k [= <-].
  - lia.
  - done.
  - split; [|done]. by vm_compute.
  - done.
  - split_and!; [done|intros j k _ _; unfold WAIT_MS; lia|intros j k _ _; unfold WAIT_STORM_MS; lia|lia].
Defined.

Lemma irq_main_catches_witness : FAIL Fail_C_not_masked ≠ PASS ∧ FAIL Fail_A ≠ PASS.
Proof.
  split.
  - apply (@irq_main_catches (LineGic None) 223 2 (LineGic_laws _)
      (λ _, 2%nat) (λ _, 0) 100 line_idle (FAIL Fail_C_not_masked) true). by vm_compute.
  - apply (@irq_main_catches (LineGic None) 223 2 (LineGic_laws _)
      (λ _, 0%nat) (λ k, 1000 * Z.of_nat k) 2000 line_idle (FAIL Fail_A) false). by vm_compute.
Defined.
