(* ===== verification/FilePattern.v ===== *)
(** * The byte pattern of the file tests

    fs/test_bigwrite.c and mem/test_objcache.c fill files with a pattern that
    depends on the position and on a seed. Both hash a 64-bit word by
    multiplications with odd constants and xor-shifts; the lemmas here show
    that no two words get the same pattern, so data that belongs elsewhere in
    the file, or to an earlier version of it, is told apart. *)

From S2P Require Import Prelude.

Definition GOLDEN : Z := 11400714819323198485.
Definition MIX : Z := 13787848793156543929.

(** The three statements after the first of patternAt and of pattern. *)
Definition mix (x : Z) : Z :=
  let x := Z.lxor x (Z.shiftr x 29) in
  let x := u64 (x * MIX) in
  Z.lxor x (Z.shiftr x 32).

(** Byte [i] of the word [x]. *)
Definition word_byte (x i : Z) : Z := u8 (Z.shiftr x (i * 8)).

Lemma xorshift_inj k x y :
  0 < k → 0 ≤ x → 0 ≤ y → Z.lxor x (Z.shiftr x k) = Z.lxor y (Z.shiftr y k) → x = y.
Proof.
  intros Hk Hx Hy E. apply Z.lxor_eq_0_iff. set (z := Z.lxor x y).
  assert (0 ≤ z) as Hz by (apply Z.lxor_nonneg; lia).
  assert (z = Z.shiftr z k) as Hs.
  { unfold z. rewrite Z.shiftr_lxor. apply Z.lxor_eq_0_iff.
    rewrite <- Z.lxor_eq_0_iff in E. rewrite <- E.
    rewrite !Z.lxor_assoc. f_equal. rewrite <- !Z.lxor_assoc. f_equal. apply Z.lxor_comm. }
  rewrite Z.shiftr_div_pow2 in Hs by lia.
  destruct (decide (z = 0)) as [|Hnz]; [done|].
  assert (1 < 2 ^ k) by (apply Z.pow_gt_1; lia).
  pose proof (Z.div_lt z (2 ^ k)). lia.
Qed.

Lemma xorshift_range k x : 0 < k → uint64 x → uint64 (Z.lxor x (Z.shiftr x k)).
Proof.
  unfold uint64. intros Hk Hx. split; [apply Z.lxor_nonneg; rewrite Z.shiftr_nonneg; lia|].
  destruct (decide (Z.lxor x (Z.shiftr x k) = 0)) as [->|Hn]; [lia|].
  assert (0 ≤ Z.lxor x (Z.shiftr x k)) by (apply Z.lxor_nonneg; rewrite Z.shiftr_nonneg; lia).
  apply Z.log2_lt_pow2; [lia|]. eapply Z.le_lt_trans; [apply Z.log2_lxor; rewrite ?Z.shiftr_nonneg; lia|].
  assert (Z.log2 (Z.shiftr x k) ≤ Z.log2 x) as Hl.
  { apply Z.log2_le_mono. rewrite Z.shiftr_div_pow2 by lia. apply Z.div_le_upper_bound; nia. }
  apply Z.max_lub_lt; [|eapply Z.le_lt_trans; [apply Hl|]].
  all: destruct (decide (x = 0)) as [->|]; [by rewrite ?Z.shiftr_0_l; cbn|apply Z.log2_lt_pow2; lia].
Qed.

Lemma u64_add_cancel g x y : u64 (g + x) = u64 (g + y) → u64 x = u64 y.
Proof.
  intros E. apply (f_equal (λ z, u64 (u64 (- g) + z))) in E. rewrite !u64_add_r, !u64_add_l in E.
  by rewrite !Z.add_assoc, !Z.add_opp_diag_l in E.
Qed.

(** Multiplication by a constant that has an inverse modulo [2^64]. *)
Lemma mul_inj c inv x y :
  u64 (c * inv) = 1 → u64 (x * c) = u64 (y * c) → u64 x = u64 y.
Proof.
  unfold u64, uwrap. intros Hc E.
  assert (∀ z, z mod 2 ^ 64 = ((z * c) mod 2 ^ 64 * inv) mod 2 ^ 64) as Hz.
  { intros z. rewrite Z.mul_mod_idemp_l, <- Z.mul_assoc, <- Z.mul_mod_idemp_r, Hc by lia. by rewrite Z.mul_1_r. }
  by rewrite (Hz x), (Hz y), E.
Qed.

Lemma mix_inj x y : uint64 x → uint64 y → mix x = mix y → x = y.
Proof.
  intros Hx Hy E. unfold mix in E.
  pose proof (xorshift_range 29 x ltac:(lia) Hx) as Hx'. pose proof (xorshift_range 29 y ltac:(lia) Hy) as Hy'.
  apply xorshift_inj in E; [|lia|apply uint64_u64..].
  apply (mul_inj _ 10871156337175269513) in E; [|by vm_compute].
  unfold u64 in E. rewrite !uwrap_small in E by (unfold uint64 in *; lia).
  apply xorshift_inj in E; unfold uint64 in *; lia.
Qed.
Lemma mix_range x : uint64 (mix x).
Proof. unfold mix. apply xorshift_range; [lia|]. apply uint64_u64. Qed.

(** A word is its eight bytes. *)
Lemma word_bytes_inj x y :
  uint64 x → uint64 y → (∀ i, 0 ≤ i < 8 → word_byte x i = word_byte y i) → x = y.
Proof.
  intros Hx Hy Hb. apply Z.bits_inj'. intros n Hn.
  destruct (decide (n < 64)) as [Hlt|Hge].
  - specialize (Hb (n / 8)). assert (0 ≤ n / 8 < 8) as Hi by (split; [apply Z.div_pos|apply Z.div_lt_upper_bound]; lia).
    apply (f_equal (λ z, Z.testbit z (n mod 8))) in Hb; [|done].
    pose proof (Z.mod_pos_bound n 8 ltac:(lia)) as Hm.
    unfold word_byte, u8, uwrap in Hb. rewrite !Z.mod_pow2_bits_low, !Z.shiftr_spec in Hb by lia.
    by replace (n mod 8 + n / 8 * 8) with n in Hb by (pose proof (Z.div_mod n 8); lia).
  - rewrite !Z.bits_above_log2; try done; unfold uint64 in *; try lia.
    all: apply Z.lt_le_trans with 64; [|lia].
    all: match goal with |- Z.log2 ?z < _ => destruct (decide (z = 0)) as [->|]; [done|apply Z.log2_lt_pow2; lia] end.
Qed.

(** ** Filling and overwriting *)

(** The loop that stores the byte of every position of a range. *)
Definition filled (byte : Z → Z) (len pos : Z) : list Z := (λ i, byte (u64 (pos + i))) <$> seqZ 0 len.

Lemma filled_lookup byte len pos i :
  0 ≤ i < len → filled byte len pos !! Z.to_nat i = Some (byte (u64 (pos + i))).
Proof.
  intros Hi. unfold filled. rewrite list_lookup_fmap, lookup_seqZ_lt by lia.
  cbn. do 3 f_equal. lia.
Qed.
Lemma length_filled byte len pos : 0 ≤ len → Z.of_nat (length (filled byte len pos)) = len.
Proof. intros. unfold filled. rewrite length_fmap, length_seqZ. lia. Qed.

(** Filling two adjacent ranges. *)
Lemma filled_app byte a b pos :
  0 ≤ a → 0 ≤ b → filled byte (a + b) pos = filled byte a pos ++ filled byte b (pos + a).
Proof.
  intros Ha Hb. unfold filled. rewrite seqZ_app by lia. rewrite fmap_app. f_equal.
  rewrite Z.add_0_l. rewrite <- (Z.add_0_r a) at 1. rewrite <- fmap_add_seqZ.
  rewrite <- list_fmap_compose. apply list_fmap_ext. intros i x _. cbn.
  do 2 f_equal. lia.
Qed.
Lemma filled_u64 byte len pos : filled byte len (u64 pos) = filled byte len pos.
Proof.
  unfold filled. apply list_fmap_ext. intros i x _. f_equal. unfold u64, uwrap. apply Z.add_mod_idemp_l. lia.
Qed.

(** What a write at [at_] makes of the content of a file. *)
Definition overwrite (at_ : Z) (buf old : list Z) : list Z :=
  take (Z.to_nat at_) old ++ buf ++ drop (Z.to_nat at_ + length buf) old.

Lemma overwrite_lookup at_ buf old i :
  0 ≤ at_ ≤ Z.of_nat (length old) → 0 ≤ i →
  overwrite at_ buf old !! Z.to_nat i =
    if (at_ <=? i) && (i <? at_ + Z.of_nat (length buf)) then buf !! Z.to_nat (i - at_) else old !! Z.to_nat i.
Proof.
  intros Hat Hi. unfold overwrite.
  assert (length (take (Z.to_nat at_) old) = Z.to_nat at_) as Hl by (rewrite length_take; lia).
  destruct (Z.leb_spec at_ i) as [Hle|Hgt]; cbn [andb].
  - rewrite lookup_app_r by lia. rewrite Hl. replace (Z.to_nat i - Z.to_nat at_)%nat with (Z.to_nat (i - at_)) by lia.
    destruct (Z.ltb_spec i (at_ + Z.of_nat (length buf))).
    + by rewrite lookup_app_l by lia.
    + rewrite lookup_app_r, lookup_drop by lia. f_equal. lia.
  - rewrite lookup_app_l by lia. by rewrite lookup_take_lt by lia.
Qed.
Lemma length_overwrite at_ buf old :
  0 ≤ at_ ≤ Z.of_nat (length old) →
  Z.of_nat (length (overwrite at_ buf old)) = Z.max (Z.of_nat (length old)) (at_ + Z.of_nat (length buf)).
Proof. intros. unfold overwrite. rewrite !length_app, length_take, length_drop. lia. Qed.

Lemma overwrite_app at_ b1 b2 old :
  0 ≤ at_ ≤ Z.of_nat (length old) →
  overwrite (at_ + Z.of_nat (length b1)) b2 (overwrite at_ b1 old) = overwrite at_ (b1 ++ b2) old.
Proof.
  intros Hat. apply list_eq. intros i.
  pose proof (length_overwrite at_ b1 old Hat).
  rewrite <- (Nat2Z.id i), !overwrite_lookup, length_app by lia.
  destruct (Z.leb_spec (at_ + Z.of_nat (length b1)) (Z.of_nat i)), (Z.leb_spec at_ (Z.of_nat i)),
    (Z.ltb_spec (Z.of_nat i) (at_ + Z.of_nat (length b1) + Z.of_nat (length b2))),
    (Z.ltb_spec (Z.of_nat i) (at_ + Z.of_nat (length b1))),
    (Z.ltb_spec (Z.of_nat i) (at_ + Z.of_nat (length b1 + length b2))); cbn [andb]; try lia; try done.
  - rewrite lookup_app_r by lia. f_equal. lia.
  - by rewrite lookup_app_l by lia.
Qed.
Lemma overwrite_empty at_ old : overwrite at_ [] old = old.
Proof. unfold overwrite. cbn [length app]. by rewrite Nat.add_0_r, take_drop. Qed.
Lemma overwrite_nil buf : overwrite 0 buf [] = buf.
Proof. unfold overwrite. by rewrite take_nil, drop_nil, app_nil_r. Qed.
