(* ===== verification/BigWrite.v ===== *)
(** * test_bigwrite: one very large write() and read-back

    The program fs/test_bigwrite.c: it writes a pattern in one call, at the
    start of a file and again at an odd offset, and reads it back. The file
    system under test is a parameter. The arguments come parsed; the lines
    printed on the way are left out, the verdict line is kept. *)

From S2P Require Import Prelude UnityOutput FilePattern.

Definition READ_CHUNK : Z := 1024 * 1024.
Definition ODD_OFFSET : Z := 12345.
Definition ODD_LENGTH : Z := 3 * 1024 * 1024 + 7.

(** The calls of the program: each takes the state of the system. read() gives
    its result and what the buffer then starts with, fstat() the size or
    [None]. Buffers obtained with malloc() are values; only whether it
    succeeds matters. *)
Class Files := {
  fs : Type;
  fs_malloc : Z → fs → bool * fs;
  fs_unlink : list Z → fs → Z * fs;
  fs_open : list Z → fs → Z * fs;
  fs_write : Z → list Z → fs → Z * fs;
  fs_read : Z → Z → fs → Z * list Z * fs;
  fs_lseek : Z → Z → fs → Z * fs;
  fs_fstat : Z → fs → option Z;
  fs_close : Z → fs → fs;
}.

Definition patternAt (pos seed : Z) : Z :=
  let x := u64 (u64 (Z.shiftr pos 3 * GOLDEN) + seed) in
  word_byte (mix x) (Z.land pos 7).

Definition fillPattern (len pos seed : Z) : list Z := filled (λ pos, patternAt pos seed) len pos.

Section program.
Context `{Files}.

(** READ_CHUNK, ODD_OFFSET and ODD_LENGTH. *)
Context (chunk oddOffset oddLength : Z).

Record bw := mkBw { failures : Z; firstFailure : list Z; sys : fs }.

Definition check (what : list Z) (ok : bool) (s : bw) : bw :=
  if ok then s
  else mkBw (failures s + 1) (if failures s =? 0 then take 159 what else firstFailure s) (sys s).
Definition set_sys (σ : fs) (s : bw) : bw := mkBw (failures s) (firstFailure s) σ.

(** Whether the [got] bytes read match the pattern. *)
Definition bytes_match (rb : list Z) (pos seed got : Z) : bool :=
  forallb (λ i, nth (Z.to_nat i) rb 0 =? patternAt (u64 (pos + i)) seed) (seqZ 0 got).

(** The while loop of verify; [fuel] bounds the reads. *)
Fixpoint verify_loop (fuel : nat) (fd pos len seed done : Z) (σ : fs) : option (bool * fs) :=
  match fuel with
  | O => None
  | S fuel =>
      if done <? len then
        let want := len - done in
        let want := if chunk <? want then chunk else want in
        let '(got, rb, σ) := fs_read fd want σ in
        if got <=? 0 then Some (false, σ)
        else if bytes_match rb (pos + done) seed got then verify_loop fuel fd pos len seed (done + got) σ
        else Some (false, σ)
      else Some (true, σ)
  end.

Definition verify (fd pos len seed : Z) (σ : fs) : option (bool * fs) :=
  let '(ok, σ) := fs_malloc chunk σ in
  if negb ok then Some (false, σ)
  else
    let '(r, σ) := fs_lseek fd pos σ in
    if negb (r =? pos) then Some (false, σ)
    else verify_loop (S (Z.to_nat len)) fd pos len seed 0 σ.

(** snprintf(path, sizeof(path), ...). *)
Definition path_in (dir name : list Z) : list Z := take 255 (dir ++ name).

Definition size_is (fd n : Z) (σ : fs) : bool :=
  match fs_fstat fd σ with Some size => size =? n | None => false end.

Definition test_one_big_write (dir : list Z) (len : Z) (s : bw) : option bw :=
  let path := path_in dir (str "/bigwrite.bin") in
  let '(_, σ) := fs_unlink path (sys s) in
  let '(ok, σ) := fs_malloc len σ in
  if negb ok then Some (check (str "big: allocate the write buffer") false (set_sys σ s))
  else
    let buf := fillPattern len 0 1 in
    let '(fd, σ) := fs_open path σ in
    if fd <? 0 then Some (check (str "big: create") false (set_sys σ s))
    else
      let '(wr, σ) := fs_write fd buf σ in
      let what := take 95 (str "big: one write() of " ++ decimal (len / 2 ^ 20) ++ str " MiB returns all of it") in
      let s := check what (wr =? len) (set_sys σ s) in
      let s := check (str "big: fstat size equals the write") (size_is fd len σ) s in
      match verify fd 0 len 1 σ with
      | None => None
      | Some (ok, σ) =>
          let s := check (str "big: read-back matches, offset for offset") ok (set_sys σ s) in
          let '(r, σ) := fs_unlink path (fs_close fd σ) in
          Some (check (str "big: unlink") (r =? 0) (set_sys σ s))
      end.

Definition test_unaligned_write (dir : list Z) (s : bw) : option bw :=
  let path := path_in dir (str "/bigwrite_odd.bin") in
  let '(_, σ) := fs_unlink path (sys s) in
  let '(ok, σ) := fs_malloc oddLength σ in
  if negb ok then Some (check (str "odd: allocate the write buffer") false (set_sys σ s))
  else
    let '(fd, σ) := fs_open path σ in
    if fd <? 0 then Some (check (str "odd: create") false (set_sys σ s))
    else
      let '(wr, σ) := fs_write fd (fillPattern oddOffset 0 2) σ in
      let s := check (str "odd: prefix write") (wr =? oddOffset) (set_sys σ s) in
      let '(wr, σ) := fs_write fd (fillPattern oddLength oddOffset 2) σ in
      let s := check (str "odd: unaligned write of 3 MiB + 7 at offset 12345") (wr =? oddLength) (set_sys σ s) in
      let s := check (str "odd: fstat size") (size_is fd (oddOffset + oddLength) σ) s in
      match verify fd 0 (oddOffset + oddLength) 2 σ with
      | None => None
      | Some (ok, σ) =>
          let s := check (str "odd: read-back matches, offset for offset") ok (set_sys σ s) in
          let '(r, σ) := fs_unlink path (fs_close fd σ) in
          Some (check (str "odd: unlink") (r =? 0) (set_sys σ s))
      end.

(** The end of main: the verdict line. *)
Inductive bw_verdict := Usage | Passed | Failed (first : list Z) (n : Z).
Definition bw_exit (v : bw_verdict) : Z := match v with Usage => 2 | Passed => 0 | Failed _ _ => 1 end.

Definition bigwrite_main (dir : list Z) (mib : Z) (σ : fs) : option bw_verdict :=
  if (mib <=? 0) || (1024 <? mib) then Some Usage
  else
    match test_one_big_write dir (mib * 2 ^ 20) (mkBw 0 [] σ) with
    | None => None
    | Some s =>
        match test_unaligned_write dir s with
        | None => None
        | Some s => Some (if failures s =? 0 then Passed else Failed (firstFailure s) (failures s))
        end
    end.
End program.
