(* ===== verification/BigWriteProps.v ===== *)
(** * What test_bigwrite decides

    Against a file system whose reads can be trusted, passing means that the
    two large writes left exactly the pattern in the files, whatever write()
    does; data of one position found at another is always caught, because no
    two words of the pattern are equal. A file system that does what it is
    asked passes. *)

From S2P Require Import Prelude UnityOutput FilePattern BigWrite.

(** ** The pattern *)

Lemma patternAt_word k i seed :
  0 ≤ i < 8 → patternAt (8 * k + i) seed = word_byte (mix (u64 (u64 (k * GOLDEN) + seed))) i.
Proof.
  intros Hi. unfold patternAt. f_equal.
  - do 3 f_equal. rewrite Z.shiftr_div_pow2 by lia. change (2 ^ 3) with 8. f_equal.
    rewrite (Z.mul_comm 8 k), Z.div_add_l, Z.div_small by lia. lia.
  - change 7 with (Z.ones 3). rewrite Z.land_ones by lia. change (2 ^ 3) with 8.
    rewrite Z.add_comm, (Z.mul_comm 8 k), Z.mod_add by lia. apply Z.mod_small. lia.
Qed.

(** Two words of a file differ in some byte. *)
Lemma patternAt_words_differ j k seed :
  0 ≤ j < 2 ^ 61 → 0 ≤ k < 2 ^ 61 → (∀ i, 0 ≤ i < 8 → patternAt (8 * j + i) seed = patternAt (8 * k + i) seed) → j = k.
Proof.
  intros Hj Hk Hb.
  assert (mix (u64 (u64 (j * GOLDEN) + seed)) = mix (u64 (u64 (k * GOLDEN) + seed))) as E.
  { apply word_bytes_inj; [apply mix_range..|]. intros i Hi. specialize (Hb i Hi). by rewrite !patternAt_word in Hb. }
  apply mix_inj in E; [|apply uint64_u64..].
  assert (u64 (j * GOLDEN) = u64 (k * GOLDEN)) as E'.
  { rewrite !u64_add_l, !(Z.add_comm _ seed) in E. by apply u64_add_cancel in E. }
  apply (mul_inj _ 17428512612931826493) in E'; [|by vm_compute].
  unfold u64 in E'. rewrite !uwrap_small in E' by lia. done.
Qed.

Lemma fillPattern_lookup len pos seed i :
  0 ≤ i < len → fillPattern len pos seed !! Z.to_nat i = Some (patternAt (u64 (pos + i)) seed).
Proof. apply filled_lookup. Qed.
Lemma length_fillPattern len pos seed : 0 ≤ len → Z.of_nat (length (fillPattern len pos seed)) = len.
Proof. apply length_filled. Qed.

(** ** File systems *)

(** Reads, lseek() and fstat() tell the truth about the content of an open
    file and its position, and nothing but write() changes a file. *)
Class TruthfulFiles `{Files} := {
  content : fs → Z → list Z;
  position : fs → Z → Z;
  malloc_keeps n σ fd : content (fs_malloc n σ).2 fd = content σ fd;
  lseek_true fd p σ : 0 ≤ p → let '(r, σ') := fs_lseek fd p σ in
    content σ' fd = content σ fd ∧ (r = p → position σ' fd = p);
  read_true fd want σ : let '(got, rb, σ') := fs_read fd want σ in
    content σ' fd = content σ fd ∧
    (0 < got → got ≤ want ∧ position σ' fd = position σ fd + got ∧
       ∀ i, 0 ≤ i < got → content σ fd !! Z.to_nat (position σ fd + i) = Some (nth (Z.to_nat i) rb 0));
  fstat_true fd σ n : fs_fstat fd σ = Some n → n = Z.of_nat (length (content σ fd));
}.

(** Every call succeeds and does what it is for. *)
Class FaithfulFiles `{TruthfulFiles} := {
  malloc_succeeds n σ : (fs_malloc n σ).1 = true;
  unlink_succeeds p σ : (fs_unlink p σ).1 = 0;
  open_empty p σ : let '(fd, σ') := fs_open p σ in 0 ≤ fd ∧ content σ' fd = [] ∧ position σ' fd = 0;
  write_all fd buf σ : let '(r, σ') := fs_write fd buf σ in
    r = Z.of_nat (length buf) ∧ content σ' fd = overwrite (position σ fd) buf (content σ fd) ∧
    position σ' fd = position σ fd + Z.of_nat (length buf);
  malloc_position n σ fd : position (fs_malloc n σ).2 fd = position σ fd;
  lseek_succeeds fd p σ : 0 ≤ p → (fs_lseek fd p σ).1 = p;
  read_progress fd want σ :
    0 < want → 0 ≤ position σ fd < Z.of_nat (length (content σ fd)) → 0 < (fs_read fd want σ).1.1;
  fstat_succeeds fd σ : fs_fstat fd σ = Some (Z.of_nat (length (content σ fd)));
}.

Section loop.
Context `{Files} (chunk : Z).

Lemma bytes_match_spec rb pos seed got :
  bytes_match rb pos seed got = true ↔
  ∀ i, 0 ≤ i < got → nth (Z.to_nat i) rb 0 = patternAt (u64 (pos + i)) seed.
Proof.
  unfold bytes_match. rewrite forallb_forall. split.
  - intros Hm i Hi. apply Z.eqb_eq, Hm, list_elem_of_In, elem_of_seqZ. lia.
  - intros Hm i Hi%list_elem_of_In%elem_of_seqZ. apply Z.eqb_eq, Hm. lia.
Qed.

(** The loop ends whatever read() returns. *)
Lemma verify_loop_total fuel fd pos len seed got0 σ :
  (Z.to_nat (len - got0) < fuel)%nat → is_Some (verify_loop chunk fuel fd pos len seed got0 σ).
Proof.
  revert got0 σ. induction fuel as [|fuel IH]; intros got0 σ Hf; [lia|cbn [verify_loop]].
  destruct (Z.ltb_spec got0 len); [|eauto]. destruct (fs_read _ _ _) as [[got rb] σ'].
  destruct (Z.leb_spec got 0); [eauto|]. destruct (bytes_match _ _ _ _); [|eauto]. apply IH. lia.
Qed.
Lemma verify_total fd pos len seed σ : is_Some (verify chunk fd pos len seed σ).
Proof.
  unfold verify. destruct (fs_malloc _ _) as [[] σ1]; cbn [negb]; [|eauto]. destruct (fs_lseek _ _ _) as [r σ2].
  destruct (negb _); [eauto|]. apply verify_loop_total. lia.
Qed.

Section truthful.
Context `{!TruthfulFiles}.

Lemma verify_loop_true fuel fd pos len seed got0 σ σ' :
  0 ≤ got0 → position σ fd = pos + got0 →
  verify_loop chunk fuel fd pos len seed got0 σ = Some (true, σ') →
  content σ' fd = content σ fd ∧
  ∀ i, got0 ≤ i < len → content σ fd !! Z.to_nat (pos + i) = Some (patternAt (u64 (pos + i)) seed).
Proof.
  revert got0 σ. induction fuel as [|fuel IH]; intros got0 σ Hd Hp; cbn [verify_loop]; [done|].
  destruct (Z.ltb_spec got0 len).
  2:{ intros [= <-]. split; [done|]. intros; lia. }
  set (want := if chunk <? _ then _ else _). pose proof (read_true fd want σ) as Hr.
  destruct (fs_read fd want σ) as [[got rb] σ1]. destruct Hr as (Hc & Hr).
  destruct (Z.leb_spec got 0); [done|]. specialize (Hr ltac:(lia)) as (Hw & Hp1 & Hb).
  destruct (bytes_match rb (pos + got0) seed got) eqn:Hm; [|done]. rewrite bytes_match_spec in Hm.
  intros Hv. apply IH in Hv as (Hc' & Hi); [|lia..]. rewrite Hc in *. split; [done|].
  intros i Hi'. destruct (decide (i < got0 + got)) as [Hlt|]; [|apply Hi; lia].
  specialize (Hb (i - got0) ltac:(lia)). replace (position σ fd + (i - got0)) with (pos + i) in Hb by lia.
  rewrite Hb, Hm by lia. do 3 f_equal. lia.
Qed.

(** A file that verifies has the pattern in the range asked for. *)
Lemma verify_true fd pos len seed σ σ' :
  0 ≤ pos → verify chunk fd pos len seed σ = Some (true, σ') →
  content σ' fd = content σ fd ∧
  ∀ i, 0 ≤ i < len → content σ fd !! Z.to_nat (pos + i) = Some (patternAt (u64 (pos + i)) seed).
Proof.
  intros Hpos. unfold verify. pose proof (malloc_keeps chunk σ fd) as Hk.
  destruct (fs_malloc chunk σ) as [[] σ1]; cbn [negb snd] in *; [|done].
  pose proof (lseek_true fd pos σ1 Hpos) as Hl. destruct (fs_lseek fd pos σ1) as [r σ2]. destruct Hl as (Hc & Hp).
  destruct (Z.eqb_spec r pos) as [->|]; cbn [negb]; [|done].
  intros Hv. apply verify_loop_true in Hv as (Hc' & Hi); [|lia|rewrite Hp; lia].
  rewrite Hc, Hk in *. done.
Qed.
End truthful.

Section faithful.
Context `{!TruthfulFiles, !FaithfulFiles} (Hchunk : 0 < chunk).

Lemma verify_loop_passes fuel fd pos len seed got0 σ :
  0 ≤ got0 → 0 ≤ pos → position σ fd = pos + got0 → Z.of_nat (length (content σ fd)) = pos + len →
  (∀ i, got0 ≤ i < len → content σ fd !! Z.to_nat (pos + i) = Some (patternAt (u64 (pos + i)) seed)) →
  (Z.to_nat (len - got0) < fuel)%nat →
  ∃ σ', verify_loop chunk fuel fd pos len seed got0 σ = Some (true, σ').
Proof.
  revert got0 σ. induction fuel as [|fuel IH]; intros got0 σ Hd Hpos Hp Hlen Hi Hf; [lia|cbn [verify_loop]].
  destruct (Z.ltb_spec got0 len); [|eauto].
  set (want := if chunk <? _ then _ else _). assert (0 < want) as Hw.
  { unfold want. destruct (Z.ltb_spec chunk (len - got0)); lia. }
  pose proof (read_true fd want σ) as Hr. pose proof (read_progress fd want σ Hw) as Hg. specialize (Hg ltac:(lia)).
  destruct (fs_read fd want σ) as [[got rb] σ1]. destruct Hr as (Hc & Hr). cbn in Hg.
  rewrite (proj2 (Z.leb_gt got 0)) by lia. specialize (Hr Hg) as (Hgw & Hp1 & Hb).
  assert (bytes_match rb (pos + got0) seed got = true) as ->.
  { apply bytes_match_spec. intros i Hi'. specialize (Hb i Hi').
    assert (want ≤ len - got0) by (unfold want; destruct (Z.ltb_spec chunk (len - got0)); lia).
    specialize (Hi (got0 + i) ltac:(lia)). rewrite Hp, <- Z.add_assoc, Hi in Hb. injection Hb as <-.
    by rewrite Z.add_assoc. }
  apply IH; rewrite ?Hc; try lia. intros i Hi'. apply Hi. lia.
Qed.

Lemma verify_passes fd len seed σ :
  0 ≤ len → content σ fd = fillPattern len 0 seed → ∃ σ', verify chunk fd 0 len seed σ = Some (true, σ').
Proof.
  intros Hlen Hc. unfold verify. pose proof (malloc_keeps chunk σ fd) as Hk. pose proof (malloc_succeeds chunk σ) as Hm.
  destruct (fs_malloc chunk σ) as [ok σ1]; cbn [fst snd] in *. subst ok. cbn [negb].
  pose proof (lseek_true fd 0 σ1 ltac:(lia)) as Hl. pose proof (lseek_succeeds fd 0 σ1 ltac:(lia)) as Hs.
  destruct (fs_lseek fd 0 σ1) as [r σ2]. destruct Hl as (Hc2 & Hp). cbn in Hs. subst r. cbn [Z.eqb negb].
  apply verify_loop_passes; rewrite ?Hc2, ?Hk, ?Hc; [lia|lia|by rewrite Hp| | |lia].
  - by rewrite length_fillPattern by lia.
  - intros i Hi. rewrite Z.add_0_l. by apply fillPattern_lookup.
Qed.
End faithful.
End loop.

(** ** The program *)

Section verdict.
Context `{Files} (chunk oddOffset oddLength : Z).
Implicit Types (s : bw) (dir : list Z).

Lemma failures_check what ok s : failures (check what ok s) = failures s + Z.b2z (negb ok).
Proof. destruct ok; cbn; lia. Qed.
Lemma failures_set_sys σ s : failures (set_sys σ s) = failures s.
Proof. done. Qed.

(** Counts the checks that fail, one case per check. *)
Ltac count_checks :=
  repeat (rewrite failures_check || rewrite failures_set_sys);
  repeat match goal with |- context [Z.b2z (negb ?b)] => let E := fresh "Hcheck" in destruct b eqn:E; cbn [negb Z.b2z] end;
  (split; [lia|]); try lia.

Lemma content_pattern `{!TruthfulFiles} fd len seed σ σ' :
  0 ≤ len → size_is fd len σ = true → verify chunk fd 0 len seed σ = Some (true, σ') →
  content σ fd = fillPattern len 0 seed.
Proof.
  intros Hlen Hs Hv. destruct (verify_true chunk fd 0 len seed σ σ' ltac:(lia) Hv) as (_ & Hi).
  unfold size_is in Hs. destruct (fs_fstat fd σ) as [n|] eqn:E; [|done]. apply fstat_true in E. apply Z.eqb_eq in Hs.
  apply list_eq_same_length with (Z.to_nat len); [pose proof (length_fillPattern len 0 seed); lia|lia|].
  intros i x y Hi' Hx Hy. specialize (Hi (Z.of_nat i) ltac:(lia)).
  pose proof (fillPattern_lookup len 0 seed (Z.of_nat i) ltac:(lia)) as Hf.
  rewrite Nat2Z.id in Hf. rewrite Z.add_0_l, Nat2Z.id in Hi. rewrite Z.add_0_l in Hf. congruence.
Qed.

(** The calls of the two tests up to their writes, from the state [σ] the test
    starts in: the file is created and holds the pattern, written in full. *)
Definition big_written `{!TruthfulFiles} (dir : list Z) (len : Z) (σ : fs) : Prop :=
  let path := path_in dir (str "/bigwrite.bin") in
  ∃ σ1 fd σ2 σ3, fs_malloc len (fs_unlink path σ).2 = (true, σ1) ∧ fs_open path σ1 = (fd, σ2) ∧ 0 ≤ fd ∧
    fs_write fd (fillPattern len 0 1) σ2 = (len, σ3) ∧ content σ3 fd = fillPattern len 0 1.
Definition odd_written `{!TruthfulFiles} (dir : list Z) (σ : fs) : Prop :=
  let path := path_in dir (str "/bigwrite_odd.bin") in
  ∃ σ1 fd σ2 σ3 σ4, fs_malloc oddLength (fs_unlink path σ).2 = (true, σ1) ∧ fs_open path σ1 = (fd, σ2) ∧ 0 ≤ fd ∧
    fs_write fd (fillPattern oddOffset 0 2) σ2 = (oddOffset, σ3) ∧
    fs_write fd (fillPattern oddLength oddOffset 2) σ3 = (oddLength, σ4) ∧
    content σ4 fd = fillPattern (oddOffset + oddLength) 0 2.

Lemma one_big_write_spec `{!TruthfulFiles} dir len s :
  0 ≤ len → ∃ s', test_one_big_write chunk dir len s = Some s' ∧ failures s ≤ failures s' ∧
    (failures s' = failures s → big_written dir len (sys s)).
Proof.
  intros Hlen. unfold test_one_big_write. destruct (fs_unlink _ (sys s)) as [r0 σ1] eqn:Hu.
  destruct (fs_malloc _ _) as [[] σ2] eqn:Hm; cbn [negb]; [|eexists; split; [done|]; rewrite ?failures_check, ?failures_set_sys; cbn; lia].
  destruct (fs_open _ _) as [fd σ3] eqn:Hop.
  destruct (fd <? 0) eqn:Hfd; [eexists; split; [done|]; rewrite ?failures_check, ?failures_set_sys; cbn; lia|].
  destruct (fs_write _ _ _) as [wr σ4] eqn:Hw.
  destruct (verify_total chunk fd 0 len 1 σ4) as [[ok σ5] Hv]. rewrite Hv.
  destruct (fs_unlink _ (fs_close _ _)) as [r σ6]. eexists. split; [reflexivity|]. count_checks. intros _.
  apply Z.eqb_eq in Hcheck. subst wr. subst ok. exists σ2, fd, σ3, σ4. rewrite Hu. split_and!; [done|done|lia|done|].
  by apply (content_pattern fd len 1 σ4 σ5).
Qed.

Lemma unaligned_write_spec `{!TruthfulFiles} dir s :
  0 ≤ oddOffset → 0 ≤ oddLength →
  ∃ s', test_unaligned_write chunk oddOffset oddLength dir s = Some s' ∧ failures s ≤ failures s' ∧
    (failures s' = failures s → odd_written dir (sys s)).
Proof.
  intros Ho Hl. unfold test_unaligned_write. destruct (fs_unlink _ (sys s)) as [r0 σ1] eqn:Hu.
  destruct (fs_malloc _ _) as [[] σ2] eqn:Hm; cbn [negb]; [|eexists; split; [done|]; rewrite ?failures_check, ?failures_set_sys; cbn; lia].
  destruct (fs_open _ _) as [fd σ3] eqn:Hop.
  destruct (fd <? 0) eqn:Hfd; [eexists; split; [done|]; rewrite ?failures_check, ?failures_set_sys; cbn; lia|].
  destruct (fs_write fd _ σ3) as [wr1 σ4] eqn:Hw1. destruct (fs_write fd _ σ4) as [wr2 σ5] eqn:Hw2.
  destruct (verify_total chunk fd 0 (oddOffset + oddLength) 2 σ5) as [[ok σ6] Hv]. rewrite Hv.
  destruct (fs_unlink _ (fs_close _ _)) as [r σ7]. eexists. split; [reflexivity|]. count_checks. intros _.
  apply Z.eqb_eq in Hcheck, Hcheck0. subst wr1 wr2 ok. exists σ2, fd, σ3, σ4, σ5. rewrite Hu. split_and!; [done|done|lia|done|done|].
  apply (content_pattern fd _ 2 σ5 σ6); [lia|done..].
Qed.

(** The passing checks of a system that does what it is asked. *)
Section faithful.
Context `{!TruthfulFiles, !FaithfulFiles} (Hchunk : 0 < chunk).

Lemma faithful_unlink p σ : ∃ σ', fs_unlink p σ = (0, σ').
Proof. pose proof (unlink_succeeds p σ) as Hu. destruct (fs_unlink p σ) as [r σ']. cbn in Hu. subst. eauto. Qed.
Lemma faithful_malloc n σ : ∃ σ', fs_malloc n σ = (true, σ').
Proof. pose proof (malloc_succeeds n σ) as Hu. destruct (fs_malloc n σ) as [r σ']. cbn in Hu. subst. eauto. Qed.
Lemma faithful_size fd len seed σ : 0 ≤ len → content σ fd = fillPattern len 0 seed → size_is fd len σ = true.
Proof. intros Hlen Hc. unfold size_is. rewrite fstat_succeeds, Hc, length_fillPattern by lia. apply Z.eqb_refl. Qed.

Lemma one_big_write_passes dir len s :
  0 ≤ len → ∃ s', test_one_big_write chunk dir len s = Some s' ∧ failures s' = failures s.
Proof.
  intros Hlen. unfold test_one_big_write.
  destruct (faithful_unlink (path_in dir (str "/bigwrite.bin")) (sys s)) as (σ1 & ->).
  destruct (faithful_malloc len σ1) as (σ2 & ->). cbn [negb].
  pose proof (open_empty (path_in dir (str "/bigwrite.bin")) σ2) as Ho. destruct (fs_open _ σ2) as [fd σ3].
  destruct Ho as (Hfd & Hc & Hp). rewrite (proj2 (Z.ltb_ge fd 0)) by lia.
  pose proof (write_all fd (fillPattern len 0 1) σ3) as Hw. destruct (fs_write fd _ σ3) as [wr σ4].
  destruct Hw as (-> & Hc4 & _). rewrite Hc, Hp, length_fillPattern in * by lia.
  assert (content σ4 fd = fillPattern len 0 1) as Hc4'.
  { rewrite Hc4. unfold overwrite. by rewrite take_nil, drop_nil, app_nil_r. }
  rewrite (faithful_size fd len 1 σ4 Hlen Hc4').
  destruct (verify_passes chunk Hchunk fd len 1 σ4 Hlen Hc4') as (σ5 & ->).
  destruct (faithful_unlink (path_in dir (str "/bigwrite.bin")) (fs_close fd σ5)) as (σ6 & ->).
  eexists. split; [done|]. repeat (rewrite failures_check || rewrite failures_set_sys). rewrite Z.eqb_refl. cbn. lia.
Qed.

Lemma unaligned_write_passes dir s :
  0 ≤ oddOffset → 0 ≤ oddLength →
  ∃ s', test_unaligned_write chunk oddOffset oddLength dir s = Some s' ∧ failures s' = failures s.
Proof.
  intros Ho Hl. unfold test_unaligned_write.
  destruct (faithful_unlink (path_in dir (str "/bigwrite_odd.bin")) (sys s)) as (σ1 & ->).
  destruct (faithful_malloc oddLength σ1) as (σ2 & ->). cbn [negb].
  pose proof (open_empty (path_in dir (str "/bigwrite_odd.bin")) σ2) as Hop. destruct (fs_open _ σ2) as [fd σ3].
  destruct Hop as (Hfd & Hc & Hp). rewrite (proj2 (Z.ltb_ge fd 0)) by lia.
  pose proof (write_all fd (fillPattern oddOffset 0 2) σ3) as Hw. destruct (fs_write fd _ σ3) as [wr σ4].
  destruct Hw as (-> & Hc4 & Hp4).
  pose proof (write_all fd (fillPattern oddLength oddOffset 2) σ4) as Hw. destruct (fs_write fd _ σ4) as [wr σ5].
  destruct Hw as (-> & Hc5 & _). rewrite Hc, Hp, !length_fillPattern in * by lia.
  assert (content σ5 fd = fillPattern (oddOffset + oddLength) 0 2) as Hc5'.
  { rewrite Hc5, Hc4, Hp4. unfold fillPattern. rewrite filled_app by lia. unfold overwrite. rewrite take_nil, drop_nil, app_nil_r.
    cbn [app Z.to_nat]. pose proof (length_fillPattern oddOffset 0 2) as Hlen. unfold fillPattern in Hlen.
    rewrite take_ge, drop_ge, app_nil_r by lia. done. }
  rewrite (faithful_size fd (oddOffset + oddLength) 2 σ5 ltac:(lia) Hc5').
  destruct (verify_passes chunk Hchunk fd (oddOffset + oddLength) 2 σ5 ltac:(lia) Hc5') as (σ6 & ->).
  destruct (faithful_unlink (path_in dir (str "/bigwrite_odd.bin")) (fs_close fd σ6)) as (σ7 & ->).
  eexists. split; [done|]. repeat (rewrite failures_check || rewrite failures_set_sys). rewrite !Z.eqb_refl. cbn. lia.
Qed.

Lemma faithful_passes dir mib σ :
  0 ≤ oddOffset → 0 ≤ oddLength → 1 ≤ mib ≤ 1024 →
  bigwrite_main chunk oddOffset oddLength dir mib σ = Some Passed.
Proof.
  intros Ho Hl Hm. unfold bigwrite_main.
  rewrite (proj2 (Z.leb_gt mib 0)), (proj2 (Z.ltb_ge 1024 mib)) by lia. cbn [orb].
  destruct (one_big_write_passes dir (mib * 2 ^ 20) (mkBw 0 [] σ)) as (s1 & -> & E1); [lia|].
  destruct (unaligned_write_passes dir s1 Ho Hl) as (s2 & -> & E2).
  rewrite E2, E1. done.
Qed.
End faithful.
End verdict.

(** C13: The test always ends. On a file system whose reads, seeks and sizes
    can be trusted it passes only if in this very run the file was created and
    the single large write returned the whole count and left exactly the
    pattern in it, and the same of the two writes of the unaligned case, which
    starts where the first test ended; whatever else write() may do. *)
Theorem bigwrite_pass_means `{TruthfulFiles} chunk oddOffset oddLength dir mib σ :
  0 ≤ oddOffset → 0 ≤ oddLength →
  ∃ v, bigwrite_main chunk oddOffset oddLength dir mib σ = Some v ∧
    (v = Passed → 1 ≤ mib ≤ 1024 ∧ big_written dir (mib * 2 ^ 20) σ ∧
      ∃ s, test_one_big_write chunk dir (mib * 2 ^ 20) (mkBw 0 [] σ) = Some s ∧
        odd_written oddOffset oddLength dir (sys s)).
Proof.
  intros Ho Hl. unfold bigwrite_main.
  destruct (_ || _) eqn:Hm; [eexists; split; [done|]; done|].
  destruct (one_big_write_spec chunk dir (mib * 2 ^ 20) (mkBw 0 [] σ)) as (s1 & Hs1 & E1 & B1); [lia|]. rewrite Hs1.
  destruct (unaligned_write_spec chunk oddOffset oddLength dir s1 Ho Hl) as (s2 & -> & E2 & B2).
  eexists. split; [done|]. cbn in E1, B1. destruct (Z.eqb_spec (failures s2) 0); [|done].
  intros _. split_and!; [lia|lia|apply B1; lia|]. exists s1. split; [done|]. apply B2; lia.
Qed.

(** A file system that does what it is asked passes. *)
Theorem bigwrite_passes `{FaithfulFiles} chunk oddOffset oddLength dir mib σ :
  0 < chunk → 0 ≤ oddOffset → 0 ≤ oddLength → 1 ≤ mib ≤ 1024 →
  bigwrite_main chunk oddOffset oddLength dir mib σ = Some Passed.
Proof. intros Hc Ho Hl Hm. exact (faithful_passes chunk oddOffset oddLength Hc dir mib σ Ho Hl Hm). Qed.

(** A chunk written at the wrong offset is caught: if some aligned word of
    the range to verify holds the pattern of another word, the verification
    fails, for any file below 2^64 bytes and any way the reads are cut up. *)
Theorem verify_catches_misplaced `{TruthfulFiles} chunk fd len seed σ j k :
  0 ≤ j < 2 ^ 61 → 0 ≤ k → j ≠ k → 8 * k + 8 ≤ len → len ≤ 2 ^ 64 →
  (∀ i, 0 ≤ i < 8 → content σ fd !! Z.to_nat (8 * k + i) = Some (patternAt (8 * j + i) seed)) →
  ∃ σ', verify chunk fd 0 len seed σ = Some (false, σ').
Proof.
  intros Hj Hk Hjk Hlen Hl64 Hw. destruct (verify_total chunk fd 0 len seed σ) as [[ok σ'] Hv].
  exists σ'. rewrite Hv. destruct ok; [|done]. destruct Hjk.
  destruct (verify_true chunk fd 0 len seed σ σ' ltac:(lia) Hv) as (_ & Hi).
  apply (patternAt_words_differ j k seed); [lia..|]. intros i Hi'. specialize (Hi (8 * k + i) ltac:(lia)).
  rewrite Z.add_0_l, Hw in Hi by lia. injection Hi as ->. unfold u64. by rewrite uwrap_small by lia.
Qed.

(** ** A file system in memory *)

(** One open file: its content and the position. A read gives at most 100
    bytes. *)
#[export] Instance MemFiles : Files := {|
  fs := list Z * nat;
  fs_malloc _ σ := (true, σ);
  fs_unlink _ σ := (0, σ);
  fs_open _ _ := (3, ([], 0%nat));
  fs_write _ buf σ := (Z.of_nat (length buf), (overwrite (Z.of_nat σ.2) buf σ.1, (σ.2 + length buf)%nat));
  fs_read _ want σ :=
    let rb := take (Z.to_nat (Z.min want 100)) (drop σ.2 σ.1) in
    (Z.of_nat (length rb), rb, (σ.1, (σ.2 + length rb)%nat));
  fs_lseek _ p σ := if p <? 0 then (-1, σ) else (p, (σ.1, Z.to_nat p));
  fs_fstat _ σ := Some (Z.of_nat (length σ.1));
  fs_close _ σ := σ;
|}.

#[export] Instance MemFiles_truthful : TruthfulFiles.
Proof.
  refine {| content (σ : fs) _ := σ.1 : list Z; position (σ : fs) _ := Z.of_nat σ.2 |}.
  - done.
  - intros fd p [c q] Hp; cbn. rewrite (proj2 (Z.ltb_ge p 0)) by lia. cbn. split; [done|lia].
  - intros fd want [c q]. cbn -[Z.min]. split; [done|]. intros Hg. split; [rewrite length_take in *; lia|]. split; [lia|].
    intros i Hi. destruct (lookup_lt_is_Some_2 (take (Z.to_nat (Z.min want 100)) (drop q c)) (Z.to_nat i)) as [x Hx]; [lia|].
    rewrite (nth_lookup_Some _ _ _ _ Hx). apply lookup_take_Some in Hx as [Hx _]. rewrite lookup_drop in Hx.
    by replace (Z.to_nat (Z.of_nat q + i)) with (q + Z.to_nat i)%nat by lia.
  - by intros fd [c q] n [= <-].
Defined.

#[export] Instance MemFiles_faithful : FaithfulFiles.
Proof.
  split; try done.
  - intros fd buf [c q]; cbn. split_and!; [done..|lia].
  - intros fd p [c q] Hp; cbn. by rewrite (proj2 (Z.ltb_ge p 0)) by lia.
  - intros fd want [c q] Hw Hq. cbn -[Z.min] in *. rewrite length_take, length_drop. lia.
Qed.

Lemma bigwrite_pass_means_witness :
  ∃ v, bigwrite_main 64 5 30 (str "/root") 2 ([], 0%nat) = Some v ∧
    (v = Passed → 1 ≤ 2 ≤ 1024 ∧ big_written (str "/root") (2 * 2 ^ 20) ([], 0%nat) ∧
      ∃ s, test_one_big_write 64 (str "/root") (2 * 2 ^ 20) (mkBw 0 [] ([], 0%nat)) = Some s ∧
        odd_written 5 30 (str "/root") (sys s)).
Proof. apply bigwrite_pass_means; lia. Defined.

Lemma bigwrite_passes_witness :
  bigwrite_main READ_CHUNK ODD_OFFSET ODD_LENGTH (str "/root") 64 ([], 0%nat) = Some Passed.
Proof. apply (bigwrite_passes READ_CHUNK); unfold READ_CHUNK, ODD_OFFSET, ODD_LENGTH; lia. Defined.

(** Words 1 and 2 of a file of 40 bytes exchanged. *)
Definition swapped : @fs MemFiles :=
  (fillPattern 8 0 7 ++ fillPattern 8 16 7 ++ fillPattern 8 8 7 ++ fillPattern 16 24 7, 0%nat).

Lemma verify_catches_misplaced_witness : ∃ σ', verify 1024 3 0 40 7 swapped = Some (false, σ').
Proof.
  apply (verify_catches_misplaced 1024 3 40 7 swapped 2 1); try lia.
  intros i Hi. assert (i = 0 ∨ i = 1 ∨ i = 2 ∨ i = 3 ∨ i = 4 ∨ i = 5 ∨ i = 6 ∨ i = 7) as Hc by lia.
  repeat (destruct Hc as [->|Hc]; [by vm_compute|]). subst i. by vm_compute.
Defined.
