(* ===== verification/ObjCache.v ===== *)
(** * The file object cache tests, mem/test_objcache.c

    The tests write a file with a pattern, map it, and check what the mapping
    shows after the file was rewritten, resized, replaced or removed. The file
    system and the kernel are parameters; a test is a computation over their
    state that ends normally, at a failed assertion or as ignored. *)

From S2P Require Import Prelude UnityOutput FilePattern.

Definition MIB : Z := 1024 * 1024.
Definition DEFAULT_MIB : Z := 96.
Definition WARM_SPEEDUP : Z := 3.
Definition CHUNK : Z := 64 * MIB.
Definition DEFAULT_PRESSURE_MIB : Z := 512.
Definition MARGIN_MIN : Z := 256 * MIB.
Definition LEAK_TOLERANCE : Z := 64 * MIB.
Definition LEAK_KILLED : Z := 16 * MIB.

(** How open() is called: O_RDONLY, O_WRONLY, O_WRONLY | O_CREAT | O_TRUNC. *)
Inductive open_mode := Reading | Writing | Creating.

(** How a child process ends: with an exit code, killed at a fault, or not at
    all. *)
Inductive child_end := Exit (code : Z) | Killed | Endless.

(** The system under test. mmap() of a file, of anonymous and of contiguous
    memory gives [None] when it fails; a byte of a mapping is read with
    [os_load] and written with [os_store], which says whether the process
    survived; [os_free] is what meminfo() reports. While a child runs the test
    waits for it, so both act on one state in turn; waitpid() is told how the
    child ended and gives its result and the status. *)
Class System := {
  os : Type;
  mapping : Type;
  os_open : list Z → open_mode → os → Z * os;
  os_pwrite : Z → list Z → Z → os → Z * os;
  os_close : Z → os → Z * os;
  os_mmap : Z → Z → os → option mapping * os;
  os_load : mapping → Z → os → Z * os;
  os_munmap : mapping → Z → os → Z * os;
  os_rename : list Z → list Z → os → Z * os;
  os_unlink : list Z → os → Z * os;
  os_now_us : os → Z * os;
  os_usleep : Z → os → () * os;
  os_free : os → Z * os;
  os_anonymous : Z → os → option mapping * os;
  os_contiguous : Z → os → option mapping * os;
  os_store : mapping → Z → Z → os → bool * os;
  os_fork : os → Z * os;
  os_waitpid : Z → child_end → os → (Z * Z) * os;
}.

Record common_t := mkCommon {
  path : list Z; tmppath : list Z; size : Z; pressureSize : Z; marginMin : Z; pagesz : Z }.

(** Seed of every page of the file, but one page that was rewritten. *)
Record expect_t := mkExpect { seed : Z; page : Z; pageSeed : Z }.
Definition NO_PAGE : Z := 2 ^ 64 - 1.

(** ** The pattern *)

Definition pattern (offs seed : Z) : Z :=
  mix (u64 (u64 (u64 (Z.shiftr offs 3 * GOLDEN) + u64 (Z.shiftl seed 32)) + seed)).

Definition patternByte (offs seed : Z) : Z :=
  word_byte (pattern (Z.land offs (u64 (Z.lnot 7))) seed) (Z.land offs 7).

Definition fill (len offs seed : Z) : list Z := filled (λ offs, patternByte offs seed) len offs.

(** [Hung]: a loop took more rounds than its fuel. *)
Inductive outcome (A : Type) := Done (a : A) | Failed | Ignored | Hung.
Arguments Done {A} _.
Arguments Failed {A}.
Arguments Ignored {A}.
Arguments Hung {A}.

Section tests.
Context `{System} (common : common_t).

(** ** Tests *)

Definition T (A : Type) : Type := os → outcome A * os.
#[local] Instance T_ret : MRet T := λ A a σ, (Done a, σ).
#[local] Instance T_bind : MBind T := λ A B k m σ,
  match m σ with
  | (Done a, σ) => k a σ
  | (Failed, σ) => (Failed, σ)
  | (Ignored, σ) => (Ignored, σ)
  | (Hung, σ) => (Hung, σ)
  end.
Definition call {A} (f : os → A * os) : T A := λ σ, let '(a, σ) := f σ in (Done a, σ).
Definition TEST_ASSERT (ok : bool) : T () := λ σ, (if ok then Done () else Failed, σ).
Definition ignore_test : T () := λ σ, (Ignored, σ).
Definition hang {A} : T A := λ σ, (Hung, σ).

(** ** Writing *)

(** The while loop of writeRange; [fuel] bounds the chunks. *)
Fixpoint write_loop (fuel : nat) (fd offs len seed done : Z) : T () :=
  if done <? len then
    match fuel with
    | O => hang
    | S fuel =>
        let chunk := if len - done <? MIB then len - done else MIB in
        r ← call (os_pwrite fd (fill chunk (u64 (offs + done)) seed) (u64 (offs + done)));
        TEST_ASSERT (chunk =? r);;
        write_loop fuel fd offs len seed (done + chunk)
    end
  else mret ().

Definition writeRange (path : list Z) (mode : open_mode) (offs len seed : Z) : T () :=
  fd ← call (os_open path mode);
  TEST_ASSERT (0 <=? fd);;
  write_loop (Z.to_nat len) fd offs len seed 0;;
  r ← call (os_close fd);
  TEST_ASSERT (r =? 0).

Definition writeFile (path : list Z) (len seed : Z) : T () := writeRange path Creating 0 len seed.

(** ** Checking a mapping *)

Definition expectByte (e : expect_t) (offs : Z) : Z :=
  patternByte offs (if offs / pagesz common =? page e then pageSeed e else seed e).

Definition map_pages (len : Z) : Z := u64 (len + pagesz common - 1) / pagesz common.

(** The byte of page [i] that is looked at. *)
Definition sample_offs (len i : Z) : Z :=
  let offs := i * pagesz common + (i * 8 + 3) mod pagesz common in
  if len <=? offs then i * pagesz common else offs.

(** The offsets the two loops of mapCheck look at, with the bytes expected. *)
Definition samples (len : Z) (e : expect_t) : list (Z * Z) :=
  (λ i, (sample_offs len i, expectByte e (sample_offs len i))) <$> seqZ 0 (map_pages len).
Definition last_page (len : Z) (e : expect_t) : list (Z * Z) :=
  let first := u64 ((map_pages len - 1) * pagesz common) in
  (λ j, (j, if j <? len then expectByte e j else 0)) <$> seqZ first (map_pages len * pagesz common - first).

Fixpoint count_bad (m : mapping) (l : list (Z * Z)) (bad : Z) : T Z :=
  match l with
  | [] => mret bad
  | (offs, expected) :: l =>
      b ← call (os_load m offs);
      count_bad m l (if b =? expected then bad else u32 (bad + 1))
  end.

(** The result is the number of wrong bytes and the time taken. *)
Definition mapCheck (path : list Z) (len : Z) (e : expect_t) : T (Z * Z) :=
  fd ← call (os_open path Reading);
  TEST_ASSERT (0 <=? fd);;
  start ← call os_now_us;
  m ← call (os_mmap fd (map_pages len * pagesz common));
  match m with
  | None => TEST_ASSERT false;; mret (0, 0)
  | Some m =>
      bad ← count_bad m (samples len e) 0;
      bad ← count_bad m (last_page len e) bad;
      r ← call (os_munmap m (map_pages len * pagesz common));
      TEST_ASSERT (r =? 0);;
      stop ← call os_now_us;
      r ← call (os_close fd);
      TEST_ASSERT (r =? 0);;
      mret (bad, u64 (stop - start))
  end.

(** TEST_ASSERT_EQUAL_UINT(0, mapCheck(...)). *)
Definition check_map (path : list Z) (len : Z) (e : expect_t) : T Z :=
  '(bad, us) ← mapCheck path len e; TEST_ASSERT (bad =? 0);; mret us.

(** ** The tests of the content *)

Definition second_mapping_is_fast : T () :=
  let e := mkExpect 1 NO_PAGE 0 in
  writeFile (path common) (size common) (seed e);;
  cold ← check_map (path common) (size common) e;
  warm ← check_map (path common) (size common) e;
  TEST_ASSERT (u64 (warm * WARM_SPEEDUP) <? cold).

Definition rewrite_same_size_is_seen : T () :=
  let e := mkExpect 1 NO_PAGE 0 in
  writeFile (path common) (size common) (seed e);;
  check_map (path common) (size common) e;;
  let e := mkExpect 2 NO_PAGE 0 in
  writeRange (path common) Writing 0 (size common) (seed e);;
  check_map (path common) (size common) e;;
  let e := mkExpect 2 (size common / pagesz common / 2) 3 in
  writeRange (path common) Writing (page e * pagesz common) (pagesz common) (pageSeed e);;
  check_map (path common) (size common) e;;
  mret ().

Definition rewrite_other_size_is_seen : T () :=
  let smaller := size common / 2 + 5000 in
  let larger := size common + 2 * pagesz common + 123 in
  writeFile (path common) (size common) 1;;
  check_map (path common) (size common) (mkExpect 1 NO_PAGE 0);;
  writeFile (path common) smaller 4;;
  check_map (path common) smaller (mkExpect 4 NO_PAGE 0);;
  writeFile (path common) larger 5;;
  check_map (path common) larger (mkExpect 5 NO_PAGE 0);;
  mret ().

Definition replaced_file_is_seen : T () :=
  writeFile (path common) (size common) 1;;
  check_map (path common) (size common) (mkExpect 1 NO_PAGE 0);;
  writeFile (tmppath common) (size common) 6;;
  r ← call (os_rename (tmppath common) (path common));
  TEST_ASSERT (r =? 0);;
  check_map (path common) (size common) (mkExpect 6 NO_PAGE 0);;
  r ← call (os_unlink (path common));
  TEST_ASSERT (r =? 0);;
  writeFile (path common) (size common) 7;;
  check_map (path common) (size common) (mkExpect 7 NO_PAGE 0);;
  mret ().

(** ** Memory *)

Definition now_ms : T Z := us ← call os_now_us; mret (us / 1000).

(** The loop of freeAgain; [f] is the free memory seen last. *)
Fixpoint free_loop (fuel : nat) (want start stable f : Z) : T Z :=
  match fuel with
  | O => hang
  | S fuel =>
      call (os_usleep 100000);;
      let last := f in
      f ← call os_free;
      stable ← (if negb (f =? last) then now_ms else mret stable);
      settled ← (if want <=? f then t ← now_ms; mret (1000 <=? u64 (t - stable)) else mret false);
      over ← (if settled : bool then mret true else t ← now_ms; mret (30000 <=? u64 (t - start)));
      if over : bool then mret f else free_loop fuel want start stable f
  end.

(** The free memory found and the milliseconds it took. *)
Definition freeAgain (fuel : nat) (want : Z) : T (Z * Z) :=
  start ← now_ms;
  f ← call os_free;
  f ← free_loop fuel want start start f;
  stop ← now_ms;
  mret (f, u64 (stop - start)).

(** ** Children *)

(** A child's computation goes on or ends the process. *)
Definition C (A : Type) : Type := os → (child_end + A) * os.
Definition c_bind {A B} (m : C A) (k : A → C B) : C B := λ σ,
  match m σ with (inl e, σ) => (inl e, σ) | (inr a, σ) => k a σ end.
Definition c_exit {A} (e : child_end) : C A := λ σ, (inl e, σ).
Definition store (m : mapping) (i v : Z) : C () := λ σ,
  let '(alive, σ) := os_store m i v σ in (if alive then inr () else inl Killed, σ).
Definition c_load (m : mapping) (i : Z) : C Z := λ σ, let '(b, σ) := os_load m i σ in (inr b, σ).

(** [for (i = 0; i < len; i += pagesz)], [fuel] rounds at most. *)
Fixpoint each_page (fuel : nat) (i len : Z) (body : Z → C ()) : C () :=
  if i <? len then
    match fuel with
    | O => c_exit Endless
    | S fuel => c_bind (body i) (λ _, each_page fuel (i + pagesz common) len body)
    end
  else λ σ, (inr (), σ).

(** The number of the page that starts [i] bytes into the piece at [done]. *)
Definition page_value (done i : Z) : Z := u8 ((done + i) / pagesz common).

Fixpoint touch_pieces (fuel : nat) (done len : Z) : C () :=
  if done <? len then
    match fuel with
    | O => c_exit Endless
    | S fuel =>
        let chunk := if len - done <? CHUNK then len - done else CHUNK in
        c_bind (λ σ, let '(m, σ) := os_anonymous chunk σ in (inr m, σ)) (λ m : option mapping,
        match m with
        | None => c_exit (Exit 2)
        | Some m =>
            c_bind (each_page (Z.to_nat chunk) 0 chunk (λ i, store m i (page_value done i))) (λ _,
            c_bind (each_page (Z.to_nat chunk) 0 chunk (λ i,
              c_bind (c_load m i) (λ b, if b =? page_value done i then λ σ, (inr (), σ) else c_exit (Exit 3)))) (λ _,
            touch_pieces fuel (done + chunk) len))
        end)
    end
  else λ σ, (inr (), σ).

(** A child that runs [body] and then exits with 0. *)
Definition ends_with (body : C ()) (σ : os) : child_end * os :=
  match body σ with (inl e, σ) => (e, σ) | (inr _, σ) => (Exit 0, σ) end.

(** fork(), the child's body, waitpid(); the status. *)
Definition in_child (body : C ()) : T Z :=
  pid ← call os_fork;
  TEST_ASSERT (0 <=? pid);;
  e ← call (ends_with body);
  '(r, status) ← call (os_waitpid pid e);
  TEST_ASSERT (pid =? r);;
  mret status.

Definition touchInChild (len : Z) : T Z := in_child (touch_pieces (Z.to_nat len) 0 len).

(** The child of the last test touches its memory, unmaps the first page and
    stores to it. *)
Definition faulting_child (len : Z) : C () :=
  c_bind (λ σ, let '(m, σ) := os_anonymous len σ in (inr m, σ)) (λ m : option mapping,
  match m with
  | None => c_exit (Exit 2)
  | Some m =>
      c_bind (each_page (Z.to_nat len) 0 len (λ i, store m i 1)) (λ _,
      c_bind (λ σ, let '(_, σ) := os_munmap m (pagesz common) σ in (inr (), σ)) (λ _, store m 0 1))
  end).

Definition contiguousOk (len : Z) : T bool :=
  m ← call (os_contiguous len);
  match m with
  | None => mret false
  | Some m => call (os_munmap m len);; mret true
  end.

(** WIFEXITED and WEXITSTATUS. *)
Definition exited (status : Z) : bool := Z.land status 127 =? 0.
Definition exit_status (status : Z) : Z := Z.land (Z.shiftr status 8) 255.

(** The memory left to others, and the bytes the child touches. *)
Definition pressure_margin (before : Z) : Z :=
  if negb (marginMin common =? MARGIN_MIN) then marginMin common
  else let m := before / 10 in if m <? MARGIN_MIN then MARGIN_MIN else m.
Definition pressure_target (before margin : Z) : Z :=
  Z.land (u64 (before - margin)) (u64 (Z.lnot (u64 (pagesz common - 1)))).

Definition memory_pressure_evicts_cache (fuel : nat) : T () :=
  let e := mkExpect 8 NO_PAGE 0 in
  before ← call os_free;
  let margin := pressure_margin before in
  (if pressureSize common <=? margin then ignore_test else mret ());;
  writeFile (path common) (pressureSize common) (seed e);;
  check_map (path common) (pressureSize common) e;;
  before ← call os_free;
  TEST_ASSERT (u64 (margin + pressureSize common) <? before);;
  status ← touchInChild (pressure_target before margin);
  '(after, _) ← freeAgain fuel (u64 (before - LEAK_TOLERANCE));
  TEST_ASSERT (exited status);;
  TEST_ASSERT (exit_status status =? 0);;
  TEST_ASSERT (u64 (before - LEAK_TOLERANCE) <=? after);;
  ok ← contiguousOk (1 * MIB);
  TEST_ASSERT ok;;
  ok ← contiguousOk (4 * MIB);
  TEST_ASSERT ok;;
  status ← touchInChild (512 * MIB);
  TEST_ASSERT (exited status && (exit_status status =? 0));;
  check_map (path common) (pressureSize common) e;;
  mret ().

Definition killed_child_gives_memory_back (fuel : nat) : T () :=
  before ← call os_free;
  status ← in_child (faulting_child (256 * MIB));
  '(after, _) ← freeAgain fuel (u64 (before - LEAK_KILLED));
  TEST_ASSERT (negb (status =? 0));;
  TEST_ASSERT (u64 (before - LEAK_KILLED) <=? after).
End tests.

(** ** The environment *)

(** A size in MiB taken from the environment: unset, empty and 0 stand for the
    default. *)
Definition env_mib (v : option (list Z)) (default_mib : Z) : Z :=
  match v with
  | Some (c :: s) => let n := strtoul10 (c :: s) in if n =? 0 then default_mib else n
  | _ => default_mib
  end.

(** TEST_SETUP, with the values of the four variables and the page size. *)
Definition objcache_setup (dir mib pmib mmib : option (list Z)) (pagesz : Z) : common_t :=
  let dir := match dir with Some (c :: s) => c :: s | _ => str "/root" end in
  mkCommon (take 255 (dir ++ str "/objcache_test.bin")) (take 255 (dir ++ str "/objcache_test.tmp"))
    (u64 (env_mib mib DEFAULT_MIB * MIB)) (u64 (env_mib pmib DEFAULT_PRESSURE_MIB * MIB))
    (match mmib with Some (c :: s) => u64 (strtoul10 (c :: s) * MIB) | _ => MARGIN_MIN end) pagesz.
