(* ===== verification/ObjCacheProps.v ===== *)
(** * What the file object cache tests decide

    A system whose mappings show the current content of the file passes the
    tests of the content; a mapping that shows an earlier version is always
    caught by the check of the last page, because the patterns of two seeds
    differ in every word; waiting for free memory ends. *)

From S2P Require Import Prelude UnityOutput FilePattern ObjCache.

(** ** The pattern *)

Lemma patternByte_word k i seed :
  0 ≤ i < 8 → 0 ≤ k < 2 ^ 61 → patternByte (8 * k + i) seed = word_byte (pattern (8 * k) seed) i.
Proof.
  intros Hi Hk. unfold patternByte. f_equal.
  - f_equal. change (u64 (Z.lnot 7)) with (Z.shiftl (Z.ones 61) 3). apply Z.bits_inj'. intros n Hn.
    rewrite Z.land_spec, Z.shiftl_spec by lia. destruct (decide (n < 3)) as [Hn3|Hn3].
    + rewrite (Z.testbit_neg_r _ (n - 3)), andb_false_r by lia.
      rewrite (Z.mul_comm 8 k). change 8 with (2 ^ 3). by rewrite <- Z.shiftl_mul_pow2, Z.shiftl_spec_low by lia.
    + rewrite Z.testbit_ones_nonneg by lia.
      assert (Z.testbit (8 * k + i) n = Z.testbit (8 * k) n) as ->.
      { replace n with (n - 3 + 3) by lia. rewrite <- !Z.shiftr_spec, !Z.shiftr_div_pow2 by lia. f_equal.
        change (2 ^ 3) with 8. rewrite (Z.mul_comm 8), Z.div_add_l, Z.div_mul, (Z.div_small i) by lia. lia. }
      destruct (Z.ltb_spec (n - 3) 61); [by rewrite andb_true_r|]. rewrite andb_false_r.
      destruct (decide (k = 0)) as [->|]; [by rewrite Z.mul_0_r, Z.testbit_0_l|].
      symmetry. apply Z.bits_above_log2; [lia|]. apply Z.log2_lt_pow2; [lia|].
      apply Z.lt_le_trans with (2 ^ 64); [lia|]. apply Z.pow_le_mono_r; lia.
  - change 7 with (Z.ones 3). rewrite Z.land_ones by lia. change (2 ^ 3) with 8.
    rewrite Z.add_comm, (Z.mul_comm 8 k), Z.mod_add by lia. apply Z.mod_small. lia.
Qed.

(** The same word of the file under two seeds. *)
Lemma pattern_seeds_differ offs s s' :
  0 ≤ s < 2 ^ 32 → 0 ≤ s' < 2 ^ 32 → pattern offs s = pattern offs s' → s = s'.
Proof.
  intros Hs Hs' E. unfold pattern in E. apply mix_inj in E; [|apply uint64_u64..].
  assert (u64 (s * (2 ^ 32 + 1)) = u64 (s' * (2 ^ 32 + 1))) as E'.
  { assert (∀ g a s, u64 (u64 (u64 g + u64 a) + s) = u64 (g + (a + s))) as Hsum.
    { intros g a t. rewrite !u64_add_l, <- Z.add_assoc, u64_add_l, (Z.add_comm (u64 a)), Z.add_assoc, u64_add_r.
      f_equal. lia. }
    rewrite !Hsum in E. apply u64_add_cancel in E.
    rewrite !Z.shiftl_mul_pow2 in E by lia. revert E.
    replace (s * 2 ^ 32 + s) with (s * (2 ^ 32 + 1)) by lia. by replace (s' * 2 ^ 32 + s') with (s' * (2 ^ 32 + 1)) by lia. }
  apply (mul_inj _ 18446744069414584321) in E'; [|by vm_compute].
  unfold u64 in E'. rewrite !uwrap_small in E' by lia. done.
Qed.

(** ** Computations that end normally *)

Section runs.
Context `{System}.

(** [m] ends normally, with [Q] of its result and the state, or at a failed
    assertion in a state in which [R] holds. *)
Definition runs_or (R : os → Prop) {A} (m : T A) (σ : os) (Q : A → os → Prop) : Prop :=
  match m σ with
  | (Done a, σ') => Q a σ'
  | (Failed, σ') => R σ'
  | _ => False
  end.

Lemma runs_mret R {A} (a : A) σ (Q : A → os → Prop) : Q a σ → runs_or R (T_ret A a) σ Q.
Proof. done. Qed.
Lemma runs_then R {A B} (m : T A) (k : A → T B) σ Q :
  runs_or R m σ (λ a σ', runs_or R (k a) σ' Q) → runs_or R (T_bind A B k m) σ Q.
Proof. unfold runs_or, T_bind. by destruct (m σ) as [[a| | |] σ1]. Qed.
Lemma runs_call R {A} (f : os → A * os) σ (Q : A → os → Prop) : Q (f σ).1 (f σ).2 → runs_or R (call f) σ Q.
Proof. unfold runs_or, call. by destruct (f σ). Qed.
Lemma runs_assert R (ok : bool) σ (Q : () → os → Prop) : ok = true → Q () σ → runs_or R (TEST_ASSERT ok) σ Q.
Proof. by intros ->. Qed.
Lemma runs_refused (R : os → Prop) (ok : bool) σ (Q : () → os → Prop) :
  ok = false → R σ → runs_or R (TEST_ASSERT ok) σ Q.
Proof. by intros ->. Qed.
Lemma runs_mono R {A} (m : T A) σ (Q Q' : A → os → Prop) :
  runs_or R m σ Q → (∀ a σ', Q a σ' → Q' a σ') → runs_or R m σ Q'.
Proof. unfold runs_or. destruct (m σ) as [[a| | |] σ1]; auto. Qed.
Lemma runs_inv {A} (m : T A) σ (Q : A → os → Prop) :
  runs_or (λ _, False) m σ Q → ∃ a σ', m σ = (Done a, σ') ∧ Q a σ'.
Proof. unfold runs_or. destruct (m σ) as [[a| | |] σ1]; [eauto|done..]. Qed.
End runs.

(** [m] ends normally. *)
Abbreviation runs := (runs_or (λ _, False)).

(** Steps through a computation, one call or assertion at a time. *)
Ltac step :=
  lazymatch goal with
  | |- runs_or _ (T_bind _ _ _ _) _ _ => apply runs_then; step
  | |- runs_or _ (mbind _ _) _ _ => apply runs_then; step
  | |- runs_or _ (call _) _ _ => apply runs_call
  | |- runs_or _ (TEST_ASSERT _) _ _ => apply runs_assert
  | |- runs_or _ (T_ret _ _) _ _ => apply runs_mret
  | |- runs_or _ (mret _) _ _ => apply runs_mret
  | |- _ => idtac
  end.

(** ** Counting wrong bytes *)

Section counting.
Context `{System} (common : common_t).
(** Every mapping shows these bytes. *)
Context (shown : Z → Z) (Hshown : ∀ m j σ, (os_load m j σ).1 = shown j).

Definition wrong (l : list (Z * Z)) : list (Z * Z) := filter (λ x, shown x.1 ≠ x.2) l.

Lemma count_bad_exact m l bad σ :
  0 ≤ bad → runs (count_bad m l (u32 bad)) σ (λ n _, n = u32 (bad + Z.of_nat (length (wrong l)))).
Proof.
  revert bad σ. induction l as [|[o x] l IH]; intros bad σ Hb; cbn [count_bad].
  { step. cbn. by rewrite Z.add_0_r. }
  step. rewrite Hshown. unfold wrong. rewrite filter_cons. cbn [fst snd].
  destruct (Z.eqb_spec (shown o) x) as [Hx|Hx].
  - rewrite decide_False by naive_solver. by apply IH.
  - rewrite decide_True by done. rewrite u32_add_l. eapply runs_mono; [apply IH; lia|].
    cbn. intros n _ ->. f_equal. unfold wrong. lia.
Qed.

Lemma runs_then_inv {A B} (m : T A) (k : A → T B) σ b σ' :
  T_bind A B k m σ = (Done b, σ') → ∃ a σ1, m σ = (Done a, σ1) ∧ k a σ1 = (Done b, σ').
Proof. unfold T_bind. destruct (m σ) as [[a| | |] σ1]; [eauto|done..]. Qed.

(** The number mapCheck returns is the number of wrong bytes it looked at. *)
Lemma mapCheck_exact path len e σ bad us σ' :
  mapCheck common path len e σ = (Done (bad, us), σ') →
  bad = u32 (Z.of_nat (length (wrong (samples common len e)) + length (wrong (last_page common len e)))).
Proof.
  unfold mapCheck. intros E.
  apply runs_then_inv in E as (fd & σ1 & _ & E). apply runs_then_inv in E as ([] & σ2 & _ & E).
  apply runs_then_inv in E as (start & σ3 & _ & E). apply runs_then_inv in E as ([m|] & σ4 & _ & E); [|done].
  apply runs_then_inv in E as (n1 & σ5 & E1 & E). apply runs_then_inv in E as (n2 & σ6 & E2 & E).
  destruct (runs_inv _ _ _ (count_bad_exact m (samples common len e) 0 σ4 ltac:(lia))) as (k & τ & Ek & Hk).
  change (u32 0) with 0 in Ek. rewrite Ek in E1. injection E1 as <- <-. rewrite Hk, Z.add_0_l in E2.
  destruct (runs_inv _ _ _ (count_bad_exact m (last_page common len e) (Z.of_nat (length (wrong (samples common len e)))) τ ltac:(lia)))
    as (k' & ? & Ek' & Hk'). rewrite Ek' in E2. injection E2 as <- <-.
  do 5 (apply runs_then_inv in E as (? & ? & _ & E)). injection E as <- _ _.
  rewrite Hk'. f_equal. lia.
Qed.

(** Sizes that fit the machine. *)
Definition fits (len : Z) : Prop := 0 < len ∧ 0 < pagesz common ∧ len + pagesz common < 2 ^ 31.

Lemma map_pages_spec len :
  fits len → 0 < map_pages common len ∧ (map_pages common len - 1) * pagesz common < len ≤ map_pages common len * pagesz common.
Proof.
  intros (Hl & Hp & Hf). unfold map_pages, u64. rewrite uwrap_small by lia.
  pose proof (Z.div_mod (len + pagesz common - 1) (pagesz common) ltac:(lia)) as Hd.
  pose proof (Z.mod_pos_bound (len + pagesz common - 1) (pagesz common) ltac:(lia)).
  set (q := _ / _) in *. nia.
Qed.

Lemma wrong_0 l : length (wrong l) = 0%nat → ∀ x, x ∈ l → shown x.1 = x.2.
Proof.
  intros Hw x Hx. destruct (decide (shown x.1 = x.2)) as [|Hne]; [done|].
  apply nil_length_inv in Hw. assert (x ∈ wrong l) as Hin by (apply list_elem_of_filter; done).
  rewrite Hw in Hin. by apply elem_of_nil in Hin.
Qed.
Lemma wrong_le l : (length (wrong l) ≤ length l)%nat.
Proof. apply length_filter. Qed.

(** Only bytes that are as expected give the result 0. *)
Lemma mapCheck_0 path len e σ us σ' :
  fits len → mapCheck common path len e σ = (Done (0, us), σ') →
  ∀ x, x ∈ samples common len e ++ last_page common len e → shown x.1 = x.2.
Proof.
  intros Hf E x Hx. pose proof (map_pages_spec len Hf). destruct Hf as (Hl & Hp & Hf).
  apply mapCheck_exact in E.
  assert (map_pages common len ≤ len) by nia.
  pose proof (wrong_le (samples common len e)) as L1. pose proof (wrong_le (last_page common len e)) as L2.
  unfold samples at 2 in L1. unfold last_page at 2 in L2. rewrite length_fmap, length_seqZ in L1, L2.
  unfold u64 in L2. rewrite uwrap_small in L2 by nia.
  rewrite u32_small in E by nia.
  apply elem_of_app in Hx as [Hx|Hx]; [apply (wrong_0 (samples common len e))|apply (wrong_0 (last_page common len e))]; auto; lia.
Qed.
End counting.

Lemma expectByte_whole common s offs :
  0 < pagesz common → 0 ≤ offs < 2 ^ 63 → expectByte common (mkExpect s NO_PAGE 0) offs = patternByte offs s.
Proof.
  intros Hp Ho. unfold expectByte; cbn [page seed pageSeed].
  assert ((offs / pagesz common =? NO_PAGE) = false) as ->; [|done].
  apply Z.eqb_neq. pose proof (Z.div_le_upper_bound offs (pagesz common) offs Hp). unfold NO_PAGE. nia.
Qed.

(** C12: A mapping that shows an earlier version of the file is caught: if the
    bytes it shows are those of another seed in just one aligned word of the
    last page of the file, mapCheck does not return 0. For a file that with
    another page is smaller than 2 GiB, and a mapping that always shows the
    same bytes. *)
Theorem stale_version_is_caught `{System} common shown path len s s' k e σ bad us σ' :
  fits common len → 0 ≤ s < 2 ^ 32 → 0 ≤ s' < 2 ^ 32 → s ≠ s' → e = mkExpect s NO_PAGE 0 →
  (∀ m j τ, (os_load m j τ).1 = shown j) →
  (map_pages common len - 1) * pagesz common ≤ 8 * k → 8 * k + 8 ≤ len →
  (∀ i, 0 ≤ i < 8 → shown (8 * k + i) = patternByte (8 * k + i) s') →
  mapCheck common path len e σ = (Done (bad, us), σ') → bad ≠ 0.
Proof.
  intros Hf Hs Hs' Hne -> Hshown Hk Hlen Hold E ->.
  pose proof (mapCheck_0 common shown Hshown path len _ σ us σ' Hf E) as Hall.
  pose proof (map_pages_spec common len Hf). destruct Hf as (Hl & Hp & Hf').
  assert (0 ≤ (map_pages common len - 1) * pagesz common) by (apply Z.mul_nonneg_nonneg; lia). apply Hne.
  apply (pattern_seeds_differ (8 * k)); [done..|]. apply word_bytes_inj; [apply mix_range..|].
  intros i Hi. rewrite <- !patternByte_word by lia. rewrite <- Hold by done.
  specialize (Hall (8 * k + i, patternByte (8 * k + i) s)). symmetry. apply Hall. apply elem_of_app. right.
  unfold last_page. apply list_elem_of_fmap. exists (8 * k + i). split.
  - rewrite (proj2 (Z.ltb_lt _ _)) by lia. by rewrite expectByte_whole by lia.
  - apply elem_of_seqZ. unfold u64. rewrite uwrap_small by lia. lia.
Qed.

(** ** A system that keeps its mappings coherent *)

(** The calls act on a table of files as POSIX says, and a mapping shows the
    content the file has at the time, followed by zeros. Any call that can
    fail may do so, and pwrite() may write less than it was given: [refused]
    is a mark such a call leaves, whatever else it does to the state. *)
Class Coherent `{System} := {
  files : os → gmap (list Z) (list Z);
  fd_path : os → Z → option (list Z);
  map_path : mapping → list Z;
  refused : os → Prop;
  open_law p mode σ : mode = Creating ∨ is_Some (files σ !! p) →
    let '(fd, σ') := os_open p mode σ in
    (fd < 0 ∧ refused σ') ∨
    (0 ≤ fd ∧ fd_path σ' fd = Some p ∧
     files σ' = match mode with Creating => <[p := []]> (files σ) | _ => files σ end);
  pwrite_law fd buf at_ σ p c :
    fd_path σ fd = Some p → files σ !! p = Some c → 0 ≤ at_ ≤ Z.of_nat (length c) →
    let '(r, σ') := os_pwrite fd buf at_ σ in
    (r < Z.of_nat (length buf) ∧ refused σ') ∨
    (r = Z.of_nat (length buf) ∧ fd_path σ' fd = Some p ∧ files σ' = <[p := overwrite at_ buf c]> (files σ));
  close_law fd σ :
    let '(r, σ') := os_close fd σ in (r < 0 ∧ refused σ') ∨ (r = 0 ∧ files σ' = files σ);
  mmap_law fd n σ p : fd_path σ fd = Some p →
    let '(m, σ') := os_mmap fd n σ in
    match m with
    | None => refused σ'
    | Some m => map_path m = p ∧ files σ' = files σ
    end;
  load_law m j σ c : files σ !! map_path m = Some c → 0 ≤ j →
    (os_load m j σ).1 = default 0 (c !! Z.to_nat j) ∧ files (os_load m j σ).2 = files σ;
  munmap_law m n σ :
    let '(r, σ') := os_munmap m n σ in (r < 0 ∧ refused σ') ∨ (r = 0 ∧ files σ' = files σ);
  now_law σ : files (os_now_us σ).2 = files σ ∧ ∀ fd, fd_path (os_now_us σ).2 fd = fd_path σ fd;
  rename_law a b σ c : files σ !! a = Some c →
    let '(r, σ') := os_rename a b σ in
    (r < 0 ∧ refused σ') ∨ (r = 0 ∧ files σ' = <[b := c]> (delete a (files σ)));
  unlink_law p σ : is_Some (files σ !! p) →
    let '(r, σ') := os_unlink p σ in (r < 0 ∧ refused σ') ∨ (r = 0 ∧ files σ' = delete p (files σ));
}.

Section coherent.
Context `{Coherent} (common : common_t).

(** [m] ends normally, or fails where a call was refused. *)
#[local] Abbreviation passes := (runs_or refused).

(** The assertion on the result of a call that gives 0 or -1. *)
Lemma passes_zero (f : os → Z * os) σ (Q : () → os → Prop) (R : os → Prop) :
  (let '(r, σ') := f σ in (r < 0 ∧ refused σ') ∨ (r = 0 ∧ R σ')) →
  (R (f σ).2 → Q () (f σ).2) → passes (TEST_ASSERT ((f σ).1 =? 0)) (f σ).2 Q.
Proof.
  destruct (f σ) as [r σ']. cbn [fst snd]. intros [[Hr Hx]|[-> Hx]] Hk.
  - apply runs_refused; [|done]. apply Z.eqb_neq. lia.
  - apply runs_assert; auto.
Qed.

(** open() and the assertion on its result. *)
Lemma passes_open {B} p mode (k : Z → T B) σ Q :
  mode = Creating ∨ is_Some (files σ !! p) →
  (∀ fd σ', fd_path σ' fd = Some p →
    files σ' = match mode with Creating => <[p := []]> (files σ) | _ => files σ end → passes (k fd) σ' Q) →
  passes (T_bind _ _ (λ fd, T_bind _ _ (λ _, k fd) (TEST_ASSERT (0 <=? fd))) (call (os_open p mode))) σ Q.
Proof.
  intros Hm Hk. step. pose proof (open_law p mode σ Hm) as Hop. destruct (os_open p mode σ) as [fd σ']. cbn [fst snd].
  apply runs_then. destruct Hop as [[Hfd Hr]|(Hfd & Hp & Hf)].
  - apply runs_refused; [by apply Z.leb_gt|done].
  - apply runs_assert; [by apply Z.leb_le|auto].
Qed.

Lemma length_fill len offs seed : 0 ≤ len → Z.of_nat (length (fill len offs seed)) = len.
Proof. apply length_filled. Qed.

Lemma runs_write_loop fuel fd offs len seed0 done0 σ p c :
  fd_path σ fd = Some p → files σ !! p = Some c → 0 ≤ done0 ≤ len → 0 ≤ offs → offs + len < 2 ^ 63 →
  offs + done0 ≤ Z.of_nat (length c) → (Z.to_nat (len - done0) ≤ fuel)%nat →
  passes (write_loop fuel fd offs len seed0 done0) σ (λ _ σ',
    files σ' = <[p := overwrite (offs + done0) (fill (len - done0) (offs + done0) seed0) c]> (files σ)).
Proof.
  revert done0 σ c. induction fuel as [|fuel IH]; intros dn σ c Hfd Hc Hd Ho Hl Hlen Hf.
  { assert (dn = len) as -> by lia. cbn [write_loop]. rewrite Z.ltb_irrefl. step.
    by rewrite Z.sub_diag, overwrite_empty, insert_id. }
  cbn [write_loop]. destruct (Z.ltb_spec dn len).
  2:{ assert (dn = len) as -> by lia. step.
      by rewrite Z.sub_diag, overwrite_empty, insert_id. }
  set (ch := if _ <? MIB then _ else _). assert (0 < ch ≤ len - dn) as Hch.
  { unfold ch, MIB. destruct (Z.ltb_spec (len - dn) (1024 * 1024)); lia. }
  assert (u64 (offs + dn) = offs + dn) as -> by (apply (uwrap_small 64); lia).
  step. pose proof (pwrite_law fd (fill ch (offs + dn) seed0) (offs + dn) σ p c Hfd Hc ltac:(lia)) as Hw.
  destruct (os_pwrite _ _ _ σ) as [r σ1]. cbn [fst snd].
  rewrite length_fill in Hw by lia. apply runs_then.
  destruct Hw as [[Hr Hx]|(-> & Hfd1 & Hf1)]; [apply runs_refused; [apply Z.eqb_neq; lia|done]|].
  step; [apply Z.eqb_refl|].
  eapply runs_mono; [apply (IH (dn + ch) σ1 (overwrite (offs + dn) (fill ch (offs + dn) seed0) c));
    try done; try lia|].
  - rewrite Hf1. apply lookup_insert_eq.
  - rewrite length_overwrite by lia. rewrite length_fill by lia. lia.
  - intros [] σ' ->. rewrite Hf1, insert_insert_eq. f_equal.
    pose proof (overwrite_app (offs + dn) (fill ch (offs + dn) seed0) (fill (len - (dn + ch)) (offs + dn + ch) seed0) c ltac:(lia)) as Ha.
    rewrite length_fill in Ha by lia. rewrite Z.add_assoc, Ha. f_equal.
    unfold fill. rewrite <- filled_app by lia. f_equal. lia.
Qed.

Lemma runs_writeRange p mode offs len seed0 σ c :
  (mode = Creating ∧ c = [] ∨ mode = Writing ∧ files σ !! p = Some c) → 0 ≤ len → 0 ≤ offs ≤ Z.of_nat (length c) →
  offs + len < 2 ^ 63 →
  passes (writeRange p mode offs len seed0) σ (λ _ σ', files σ' = <[p := overwrite offs (fill len offs seed0) c]> (files σ)).
Proof.
  intros Hm Hl Ho Hb. unfold writeRange.
  apply passes_open; [destruct Hm as [[]|[_ ->]]; eauto|]. intros fd σ1 Hp Hfi.
  assert (files σ1 = <[p := c]> (files σ)) as Hfi'.
  { destruct Hm as [[-> ->]|[-> Hc]]; [done|]. by rewrite Hfi, insert_id. }
  step. eapply runs_mono; [apply (runs_write_loop _ fd offs len seed0 0 σ1 p c); try done; try lia|].
  { rewrite Hfi'. apply lookup_insert_eq. }
  intros [] σ2 Hfi2. step. apply (passes_zero _ _ _ _ (close_law fd σ2)). intros Hfi3.
  rewrite Hfi3, Hfi2, Hfi', insert_insert_eq, Z.add_0_r, Z.sub_0_r. done.
Qed.

Lemma runs_writeFile p len seed0 σ :
  0 ≤ len < 2 ^ 63 → passes (writeFile p len seed0) σ (λ _ σ', files σ' = <[p := fill len 0 seed0]> (files σ)).
Proof.
  intros Hl. unfold writeFile. eapply runs_mono; [apply (runs_writeRange _ _ _ _ _ _ []); cbn; auto; lia|].
  intros [] σ' ->. by rewrite overwrite_nil.
Qed.

(** The file has [len] bytes, the ones expected. *)
Definition as_expected (len : Z) (e : expect_t) (c : list Z) : Prop :=
  Z.of_nat (length c) = len ∧ ∀ o, 0 ≤ o < len → c !! Z.to_nat o = Some (expectByte common e o).

Lemma runs_count_bad m l bad σ c :
  files σ !! map_path m = Some c →
  (∀ x, x ∈ l → 0 ≤ x.1 ∧ default 0 (c !! Z.to_nat x.1) = x.2) →
  passes (count_bad m l bad) σ (λ n σ', n = bad ∧ files σ' = files σ).
Proof.
  revert σ. induction l as [|[o x] l IH]; intros σ Hc Hl; cbn [count_bad]; [by step|].
  step. destruct (Hl (o, x)) as [Ho Hx]; [by left|]. cbn [fst snd] in *.
  destruct (load_law m o σ c Hc Ho) as [Hb Hfi]. rewrite Hb, Hx, Z.eqb_refl.
  eapply runs_mono; [apply IH|].
  - by rewrite Hfi.
  - intros y Hy. apply Hl. by right.
  - intros n σ' [-> ->]. by rewrite Hfi.
Qed.

Lemma looked_at_expected len e c x :
  fits common len → as_expected len e c → x ∈ samples common len e ++ last_page common len e →
  0 ≤ x.1 ∧ default 0 (c !! Z.to_nat x.1) = x.2.
Proof.
  intros Hf (Hlen & Hc) Hx. pose proof (map_pages_spec common len Hf) as Hm. destruct Hf as (Hl & Hp & Hf).
  apply elem_of_app in Hx as [Hx|Hx].
  - apply list_elem_of_fmap in Hx as (i & -> & Hi%elem_of_seqZ). cbn [fst snd].
    assert (0 ≤ sample_offs common len i < len) as Ho; [|rewrite Hc by done; cbn; lia].
    unfold sample_offs. pose proof (Z.mod_pos_bound (i * 8 + 3) (pagesz common) Hp).
    destruct (Z.leb_spec len (i * pagesz common + (i * 8 + 3) mod pagesz common)); nia.
  - apply list_elem_of_fmap in Hx as (j & -> & Hj%elem_of_seqZ). cbn [fst snd].
    assert (0 ≤ (map_pages common len - 1) * pagesz common) by (apply Z.mul_nonneg_nonneg; lia).
    unfold u64 in Hj. rewrite uwrap_small in Hj by lia. split; [lia|].
    destruct (Z.ltb_spec j len); [by rewrite Hc by lia|]. by rewrite lookup_ge_None_2 by lia.
Qed.

Lemma runs_check_map p len e σ c :
  fits common len → files σ !! p = Some c → as_expected len e c →
  passes (check_map common p len e) σ (λ _ σ', files σ' = files σ).
Proof.
  intros Hf Hc He. unfold check_map, mapCheck. apply runs_then.
  apply passes_open; [eauto|]. intros fd σ1 Hp Hfi. step.
  destruct (now_law σ1) as [Hn1 Hn2]. step.
  pose proof (mmap_law fd (map_pages common len * pagesz common) (os_now_us σ1).2 p) as Hmm.
  rewrite Hn2 in Hmm. specialize (Hmm Hp). destruct (os_mmap _ _ _) as [m σ2]. cbn [fst snd].
  destruct m as [m'|]; [destruct Hmm as [Hmp Hfi2]|apply runs_then; by apply runs_refused].
  assert (files σ2 = files σ) as Hs2 by congruence.
  assert (files σ2 !! map_path m' = Some c) as Hc2 by congruence.
  step. eapply runs_mono; [apply (runs_count_bad m' _ 0 σ2 c Hc2)|].
  { intros x Hx. apply (looked_at_expected len e c x Hf He). apply elem_of_app. by left. }
  intros n σ3 [-> Hfi3]. step. eapply runs_mono; [apply (runs_count_bad m' _ 0 σ3 c); [by rewrite Hfi3|]|].
  { intros x Hx. apply (looked_at_expected len e c x Hf He). apply elem_of_app. by right. }
  intros n σ4 [-> Hfi4]. step. apply runs_then.
  apply (passes_zero _ _ _ _ (munmap_law m' (map_pages common len * pagesz common) σ4)). intros Hfi5.
  step. set (σ5 := (os_munmap _ _ σ4).2) in *. destruct (now_law σ5) as [Hn5 _].
  step. apply runs_then. apply (passes_zero _ _ _ _ (close_law fd (os_now_us σ5).2)). intros Hfi6.
  step. step; [done|]. step. congruence.
Qed.

Lemma as_expected_whole len s : 0 ≤ len < 2 ^ 63 → 0 < pagesz common → as_expected len (mkExpect s NO_PAGE 0) (fill len 0 s).
Proof.
  intros Hl Hp. split; [apply length_fill; lia|]. intros o Ho. unfold fill. rewrite filled_lookup by done.
  rewrite expectByte_whole by lia. f_equal. f_equal. apply (uwrap_small 64). lia.
Qed.

(** One page rewritten with another seed. *)
Lemma as_expected_page len s pg s' :
  0 ≤ len < 2 ^ 63 → 0 < pagesz common → 0 ≤ pg → pg * pagesz common + pagesz common ≤ len →
  as_expected len (mkExpect s pg s') (overwrite (pg * pagesz common) (fill (pagesz common) (pg * pagesz common) s') (fill len 0 s)).
Proof.
  intros Hl Hp Hpg Hin. assert (0 ≤ pg * pagesz common) by nia.
  pose proof (length_fill len 0 s) as Lf. pose proof (length_fill (pagesz common) (pg * pagesz common) s') as Lp.
  split; [rewrite length_overwrite; lia|]. intros o Ho. rewrite overwrite_lookup by lia. rewrite Lp by lia.
  unfold expectByte; cbn [page seed pageSeed].
  assert ((o / pagesz common =? pg) = (pg * pagesz common <=? o) && (o <? pg * pagesz common + pagesz common)) as ->.
  { pose proof (Z.div_mod o (pagesz common) ltac:(lia)). pose proof (Z.mod_pos_bound o (pagesz common) Hp).
    set (q := o / pagesz common) in *.
    destruct (Z.eqb_spec q pg), (Z.leb_spec (pg * pagesz common) o), (Z.ltb_spec o (pg * pagesz common + pagesz common)); cbn; nia. }
  destruct (_ && _) eqn:E; unfold fill; rewrite filled_lookup by lia; do 2 f_equal; unfold u64.
  - rewrite Zplus_minus. apply uwrap_small. lia.
  - apply uwrap_small. lia.
Qed.

Lemma fits_63 len : fits common len → 0 ≤ len < 2 ^ 63 ∧ 0 < pagesz common.
Proof. unfold fits. lia. Qed.

(** Writing a version of the file and checking it. *)
Lemma runs_version {B} p len s (k : Z → T B) σ Q :
  fits common len → (∀ us σ', files σ' = <[p := fill len 0 s]> (files σ) → passes (k us) σ' Q) →
  passes (T_bind _ _ (λ _, T_bind _ _ k (check_map common p len (mkExpect s NO_PAGE 0))) (writeFile p len s)) σ Q.
Proof.
  intros Hf Hk. destruct (fits_63 len Hf). apply runs_then. eapply runs_mono; [by apply runs_writeFile|].
  intros [] σ1 Hf1. apply runs_then.
  eapply runs_mono; [apply (runs_check_map p len _ σ1 (fill len 0 s)); [done| |by apply as_expected_whole]|].
  - rewrite Hf1. apply lookup_insert_eq.
  - intros us σ2 Hf2. apply Hk. congruence.
Qed.

(** The sizes of the tests. *)
Definition sane : Prop :=
  0 < pagesz common ≤ size common ∧ size common + 3 * pagesz common + 5123 < 2 ^ 31.

Lemma sane_fits : sane →
  fits common (size common) ∧ fits common (size common / 2 + 5000) ∧ fits common (size common + 2 * pagesz common + 123).
Proof.
  intros [Hp Hs]. pose proof (Z.div_mod (size common) 2 ltac:(lia)). pose proof (Z.mod_pos_bound (size common) 2 ltac:(lia)).
  unfold fits. lia.
Qed.

Lemma runs_rewrite_same σ : sane → passes (rewrite_same_size_is_seen common) σ (λ _ _, True).
Proof.
  intros Hs. destruct (sane_fits Hs) as (Hf & _ & _). destruct Hs as [Hp Hs]. destruct (fits_63 _ Hf) as [Hl _].
  unfold rewrite_same_size_is_seen. apply runs_version; [done|]. intros us σ1 Hf1. cbv zeta; cbn [seed page pageSeed].
  apply runs_then. eapply runs_mono; [apply (runs_writeRange _ Writing 0 _ 2 σ1 (fill (size common) 0 1))|]; try lia.
  { right. split; [done|]. rewrite Hf1. apply lookup_insert_eq. }
  intros [] σ2 Hf2. pose proof (length_fill (size common) 0 1) as L1. pose proof (length_fill (size common) 0 2) as L2.
  assert (overwrite 0 (fill (size common) 0 2) (fill (size common) 0 1) = fill (size common) 0 2) as E.
  { unfold overwrite. cbn [take Z.to_nat app Nat.add]. rewrite drop_ge, app_nil_r by lia. done. }
  rewrite E in Hf2. clear E.
  apply runs_then. eapply runs_mono; [apply (runs_check_map _ _ _ σ2 (fill (size common) 0 2) Hf); [|apply as_expected_whole; lia]|].
  { rewrite Hf2. apply lookup_insert_eq. }
  intros us' σ3 Hf3. set (pg := _ / 2).
  assert (0 ≤ pg ∧ pg * pagesz common + pagesz common ≤ size common) as [Hpg Hin].
  { pose proof (Z.div_mod (size common) (pagesz common) ltac:(lia)).
    pose proof (Z.mod_pos_bound (size common) (pagesz common) ltac:(lia)). unfold pg.
    set (n := size common / pagesz common) in *. assert (1 ≤ n) by nia.
    pose proof (Z.div_mod n 2 ltac:(lia)). pose proof (Z.mod_pos_bound n 2 ltac:(lia)).
    set (h := n / 2) in *. assert (h + 1 ≤ n) by lia. nia. }
  assert (0 ≤ pg * pagesz common) by nia.
  apply runs_then. eapply runs_mono; [apply (runs_writeRange _ Writing _ _ 3 σ3 (fill (size common) 0 2))|]; try lia.
  { right. split; [done|]. rewrite Hf3, Hf2. apply lookup_insert_eq. }
  intros [] σ4 Hf4. apply runs_then.
  eapply runs_mono; [eapply (runs_check_map _ _ (mkExpect 2 pg 3) σ4); [exact Hf|rewrite Hf4; apply lookup_insert_eq|]|].
  { apply as_expected_page; lia. }
  intros us'' σ5 _. by step.
Qed.

Lemma runs_rewrite_other σ : sane → passes (rewrite_other_size_is_seen common) σ (λ _ _, True).
Proof.
  intros Hs. destruct (sane_fits Hs) as (Hf & Hf1 & Hf2). unfold rewrite_other_size_is_seen. cbv zeta.
  do 3 (apply runs_version; [done|]; intros ? ? _). by step.
Qed.

Lemma runs_replaced σ : sane → passes (replaced_file_is_seen common) σ (λ _ _, True).
Proof.
  intros Hs. destruct (sane_fits Hs) as (Hf & _ & _). destruct (fits_63 _ Hf) as [Hl Hp]. unfold replaced_file_is_seen.
  apply runs_version; [done|]. intros us σ1 _. apply runs_then. eapply runs_mono; [apply runs_writeFile; lia|].
  intros [] σ2 Hf2. step. apply runs_then.
  apply (passes_zero _ _ _ _ (rename_law (tmppath common) (path common) σ2 (fill (size common) 0 6)
    ltac:(rewrite Hf2; apply lookup_insert_eq))). intros Hf3. apply runs_then.
  eapply runs_mono; [apply (runs_check_map _ _ _ _ (fill (size common) 0 6) Hf); [|apply as_expected_whole; lia]|].
  { rewrite Hf3. apply lookup_insert_eq. }
  intros us' σ4 Hf4. step. apply runs_then.
  apply (passes_zero _ _ _ _ (unlink_law (path common) σ4 ltac:(rewrite Hf4, Hf3, lookup_insert_eq; eauto))).
  intros _. apply runs_version; [done|]. intros ? ? _. by step.
Qed.
End coherent.

(** A test that passes, or that a refused call ended. *)
Definition passes_or_refused `{Coherent} (test : T ()) (σ : os) : Prop :=
  ∃ σ', test σ = (Done (), σ') ∨ (test σ = (Failed, σ') ∧ refused σ').

Lemma runs_passes `{Coherent} (test : T ()) σ : runs_or refused test σ (λ _ _, True) → passes_or_refused test σ.
Proof. unfold runs_or, passes_or_refused. destruct (test σ) as [[[]| | |] σ']; naive_solver. Qed.

(** C11: On a system that handles files as POSIX says and whose mappings show
    the current content of the file, the tests of rewritten, resized, replaced
    and re-created files pass unless a call is refused: open, mmap, close,
    munmap, rename or unlink fails, or pwrite writes less than it was given,
    and that ends the test as failed. The speed test, unless a call is
    refused, writes the file, checks a mapping of it twice, and passes exactly
    when three times the duration of the second check is less than the
    duration of the first. The page size is not above the file size, and the
    file is smaller than 2 GiB by three pages and 5123 bytes. *)
Theorem coherent_cache_passes `{Coherent} common σ :
  sane common →
  passes_or_refused (rewrite_same_size_is_seen common) σ ∧
  passes_or_refused (rewrite_other_size_is_seen common) σ ∧
  passes_or_refused (replaced_file_is_seen common) σ ∧
  ((∃ σ', second_mapping_is_fast common σ = (Failed, σ') ∧ refused σ') ∨
   ∃ σ1 cold σ2 warm σ3,
     writeFile (path common) (size common) 1 σ = (Done (), σ1) ∧
     check_map common (path common) (size common) (mkExpect 1 NO_PAGE 0) σ1 = (Done cold, σ2) ∧
     check_map common (path common) (size common) (mkExpect 1 NO_PAGE 0) σ2 = (Done warm, σ3) ∧
     second_mapping_is_fast common σ = (if u64 (warm * 3) <? cold then Done () else Failed, σ3)).
Proof.
  intros Hs. split_and!; [apply runs_passes; by auto using runs_rewrite_same, runs_rewrite_other, runs_replaced..|].
  destruct (sane_fits common Hs) as (Hf & _ & _). destruct (fits_63 common _ Hf) as [Hl Hp].
  pose proof (as_expected_whole common (size common) 1 Hl Hp) as He.
  pose proof (runs_writeFile (path common) (size common) 1 σ Hl) as R1.
  unfold second_mapping_is_fast, mbind, T_bind. cbn [seed].
  unfold runs_or in R1. destruct (writeFile _ _ _ σ) as [[[]| | |] σ1]; [|by eauto|done..].
  pose proof (λ τ Hτ, runs_check_map common (path common) (size common) (mkExpect 1 NO_PAGE 0) τ
    (fill (size common) 0 1) Hf Hτ He) as R2. unfold runs_or in R2.
  assert (files σ1 !! path common = Some (fill (size common) 0 1)) as K1 by (rewrite R1; apply lookup_insert_eq).
  pose proof (R2 σ1 K1) as R3. destruct (check_map _ _ _ _ σ1) as [[cold| | |] σ2] eqn:E2; [|by eauto|done..].
  rewrite <- R3 in K1. specialize (R2 σ2 K1).
  destruct (check_map _ _ _ _ σ2) as [[warm| | |] σ3] eqn:E3; [|by eauto|done..].
  right. exists σ1, cold, σ2, warm, σ3. by rewrite E2, E3.
Qed.

(** ** Waiting for free memory *)

(** A clock in microseconds that usleep() advances and nothing turns back; no
    call takes more than twelve days. *)
Definition DELAY : Z := 2 ^ 40.
Class Clocked `{System} := {
  time : os → Z;
  time_pos σ : 0 ≤ time σ;
  now_time σ : (os_now_us σ).1 = time σ ∧ time σ ≤ time (os_now_us σ).2 ≤ time σ + DELAY;
  usleep_time n σ : 0 ≤ n → time σ + n ≤ time (os_usleep n σ).2 ≤ time σ + n + DELAY;
  free_time σ : time σ ≤ time (os_free σ).2 ≤ time σ + DELAY;
}.

Section waiting.
Context `{Clocked}.

Lemma runs_now_ms σ (Q : Z → os → Prop) :
  (∀ σ', time σ ≤ time σ' ≤ time σ + DELAY → Q (time σ / 1000) σ') → runs now_ms σ Q.
Proof. intros HQ. unfold now_ms. step. destruct (now_time σ) as [-> Ht]. step. by apply HQ. Qed.

(** Whole milliseconds between two moments. *)
Lemma elapsed_ms a σ :
  0 ≤ a → a * 1000 ≤ time σ → time σ - a * 1000 < 2 ^ 60 → u64 (time σ / 1000 - a) = time σ / 1000 - a.
Proof.
  intros Ha Hlo Hhi. apply (uwrap_small 64). pose proof (time_pos σ).
  assert (a ≤ time σ / 1000) by (apply Z.div_le_lower_bound; lia).
  assert (time σ / 1000 ≤ time σ) by (apply Z.div_le_upper_bound; lia).
  pose proof (Z.mul_div_le (time σ) 1000 ltac:(lia)). lia.
Qed.

(** The end of a round: the test of the thirty seconds. *)
Definition soon (start : Z) (σ : os) (n : Z) : Prop := time σ ≤ (start + 30001) * 1000 + n * DELAY.
Definition waited (want start g : Z) (σ : os) : Prop :=
  soon start σ 200 ∧ ((want ≤ g ∧ (start + 1000) * 1000 ≤ time σ) ∨ (start + 30000) * 1000 ≤ time σ).

Lemma runs_over (k : T Z) want start g σ :
  0 ≤ start → start * 1000 ≤ time σ → soon start σ 100 →
  (∀ σ', time σ ≤ time σ' → time σ < (start + 30000) * 1000 → soon start σ' 1 → runs k σ' (waited want start)) →
  runs (T_bind _ _ (λ over : bool, if over then T_ret _ g else k)
    (T_bind _ _ (λ t, T_ret _ (30000 <=? u64 (t - start))) now_ms)) σ (waited want start).
Proof.
  intros Hs0 Hs Hsoon Hk. step. apply runs_now_ms. intros σ' [K1 K2]. step.
  unfold soon, DELAY in *. rewrite elapsed_ms by lia.
  pose proof (Z.mod_pos_bound (time σ) 1000 ltac:(lia)). pose proof (Z.div_mod (time σ) 1000 ltac:(lia)).
  destruct (Z.leb_spec 30000 (time σ / 1000 - start)); [step; split; [unfold soon, DELAY in *; lia|]; right; lia|]. apply Hk; lia.
Qed.

(** A round, from the new value of [stable] on. *)
Lemma runs_round (k : T Z) want start stable g σ :
  0 ≤ start ≤ stable → stable * 1000 ≤ time σ → soon start σ 50 →
  (∀ σ', time σ ≤ time σ' → time σ < (start + 30000) * 1000 → soon start σ' 1 → runs k σ' (waited want start)) →
  runs (T_bind _ _ (λ settled : bool, T_bind _ _ (λ over : bool, if over then T_ret _ g else k)
      (if settled then T_ret _ true else T_bind _ _ (λ t, T_ret _ (30000 <=? u64 (t - start))) now_ms))
    (if want <=? g then T_bind _ _ (λ t, T_ret _ (1000 <=? u64 (t - stable))) now_ms else T_ret _ false)) σ
    (waited want start).
Proof.
  intros Hs Ht Hsoon Hk. apply runs_then. unfold soon, DELAY in Hsoon.
  destruct (Z.leb_spec want g) as [Hw|Hw].
  - step. apply runs_now_ms. intros σ' [K1 K2]. unfold DELAY in K2. step. rewrite elapsed_ms by lia.
    pose proof (Z.mul_div_le (time σ) 1000 ltac:(lia)).
    destruct (Z.leb_spec 1000 (time σ / 1000 - stable)); [step; step; split; [unfold soon, DELAY in *; lia|]; left; lia|].
    apply runs_over; unfold soon, DELAY in *; try lia. intros σ'' K3 K4 K5. apply Hk; lia.
  - step. apply runs_over; unfold soon, DELAY in *; lia || auto.
Qed.

Lemma runs_free_loop fuel want start stable f σ :
  0 ≤ start ≤ stable → stable * 1000 ≤ time σ → soon start σ 2 →
  (start + 30000) * 1000 ≤ time σ + 100000 * Z.of_nat fuel → (0 < fuel)%nat →
  runs (free_loop fuel want start stable f) σ (waited want start).
Proof.
  revert stable f σ. induction fuel as [|fuel IH]; intros stable f σ Hs Ht Hsoon Hf H0f; [lia|cbn [free_loop]].
  step. pose proof (usleep_time 100000 σ ltac:(lia)) as Hu. set (σ1 := (os_usleep _ σ).2) in *.
  step. pose proof (free_time σ1) as Hf1. set (σ2 := (os_free σ1).2) in *. set (g := (os_free σ1).1).
  unfold soon, DELAY in *.
  assert (∀ stable' σ3, start ≤ stable' → stable' * 1000 ≤ time σ2 → time σ2 ≤ time σ3 ≤ time σ2 + 2 ^ 40 →
    ∀ σ', time σ3 ≤ time σ' → time σ3 < (start + 30000) * 1000 → soon start σ' 1 →
    runs (free_loop fuel want start stable' g) σ' (waited want start)) as Hk.
  { intros stable' σ3 Hst Ht3 K3 σ' K4 Hlt K5. unfold soon, DELAY in *. apply IH; unfold soon, DELAY in *; try lia. }
  apply runs_then. destruct (negb _).
  - apply runs_now_ms. intros σ3 [K3 K4]. unfold DELAY in *. pose proof (Z.mul_div_le (time σ2) 1000 ltac:(lia)).
    assert (stable ≤ time σ2 / 1000) by (apply Z.div_le_lower_bound; lia).
    apply runs_round; unfold soon, DELAY; try lia. apply (Hk _ σ3); lia.
  - step. apply runs_round; unfold soon, DELAY; try lia. apply (Hk _ σ2); lia.
Qed.

Lemma freeAgain_runs fuel want σ :
  (302 ≤ fuel)%nat → runs (freeAgain fuel want) σ (λ r _, want ≤ r.1 ∧ 1000 ≤ r.2 ∨ 30000 ≤ r.2).
Proof.
  intros Hf. unfold freeAgain. step. apply runs_now_ms. intros σ1 [K1 K1']. pose proof (time_pos σ).
  step. pose proof (free_time σ1) as Hf1. set (σ2 := (os_free σ1).2) in *. unfold DELAY in *.
  pose proof (Z.div_mod (time σ) 1000 ltac:(lia)). pose proof (Z.mod_pos_bound (time σ) 1000 ltac:(lia)).
  assert (0 ≤ time σ / 1000) by (apply Z.div_pos; lia).
  step. eapply runs_mono; [apply (runs_free_loop fuel want); unfold soon, DELAY; lia|]. cbn beta. intros g σ3 Hg.
  step. apply runs_now_ms. intros σ4 _. step. cbn [fst snd].
  destruct Hg as [Hsn Hg]. unfold soon, DELAY in Hsn. rewrite elapsed_ms by lia.
  destruct Hg as [[Hw Hg]|Hg]; [left; split; [done|]|right].
  - assert (time σ / 1000 + 1000 ≤ time σ3 / 1000) by (apply Z.div_le_lower_bound; lia). lia.
  - assert (time σ / 1000 + 30000 ≤ time σ3 / 1000) by (apply Z.div_le_lower_bound; lia). lia.
Qed.
End waiting.

(** Waiting for free memory ends, after at most 302 samples, with the
    memory asked for and at least a second gone, or after thirty seconds. *)
Theorem freeAgain_ends `{Clocked} fuel want σ :
  (302 ≤ fuel)%nat → ∃ f ms σ', freeAgain fuel want σ = (Done (f, ms), σ') ∧ (want ≤ f ∧ 1000 ≤ ms ∨ 30000 ≤ ms).
Proof. intros Hf. destruct (runs_inv _ _ _ (freeAgain_runs fuel want σ Hf)) as ([f ms] & σ' & E & Hr). eauto. Qed.

(** ** The environment *)

(** OBJCACHE_MARGIN_MIB is documented as the exact margin; 256 is taken for the
    default, so a tenth of the memory is left instead. *)
Lemma margin_of_256_is_not_exact :
  pressure_margin (objcache_setup None None None (Some (str "255")) 4096) (8192 * MIB) = 255 * MIB ∧
  pressure_margin (objcache_setup None None None (Some (str "256")) 4096) (8192 * MIB) = 8192 * MIB / 10.
Proof. by vm_compute. Qed.

(** With less than 64 MiB free the amount to get back wraps around, and no
    amount is enough. *)
Lemma little_memory_never_comes_back before after :
  0 ≤ before < LEAK_TOLERANCE → after < 2 ^ 63 → (u64 (before - LEAK_TOLERANCE) <=? after) = false.
Proof.
  unfold LEAK_TOLERANCE, MIB. intros Hb Ha. apply Z.leb_gt. unfold u64.
  rewrite <- (uwrap_add_mul 64 _ 1) by lia. rewrite uwrap_small by lia. lia.
Qed.

(** ** A system in memory *)

Record mem_os := mkMem { m_files : gmap (list Z) (list Z); m_open : list Z; m_time : Z }.

(** One file is open at a time, as descriptor 3; a mapping is the path of its
    file. Half a gigabyte stays free. *)
#[export] Instance MemSystem : System := {|
  os := mem_os;
  mapping := list Z;
  os_open p mode σ :=
    (3, mkMem (match mode with Creating => <[p := []]> (m_files σ) | _ => m_files σ end) p (m_time σ));
  os_pwrite _ buf at_ σ :=
    (Z.of_nat (length buf),
     mkMem (<[m_open σ := overwrite at_ buf (default [] (m_files σ !! m_open σ))]> (m_files σ)) (m_open σ) (m_time σ));
  os_close _ σ := (0, σ);
  os_mmap _ _ σ := (Some (m_open σ), σ);
  os_load p j σ := (default 0 (default [] (m_files σ !! p) !! Z.to_nat j), σ);
  os_munmap _ _ σ := (0, σ);
  os_rename a b σ := (0, mkMem (<[b := default [] (m_files σ !! a)]> (delete a (m_files σ))) (m_open σ) (m_time σ));
  os_unlink p σ := (0, mkMem (delete p (m_files σ)) (m_open σ) (m_time σ));
  os_now_us σ := (Z.max 0 (m_time σ), σ);
  os_usleep n σ := ((), mkMem (m_files σ) (m_open σ) (Z.max 0 (m_time σ) + n));
  os_free σ := (512 * MIB, σ);
  os_anonymous _ σ := (Some [], σ);
  os_contiguous _ σ := (Some [], σ);
  os_store _ _ _ σ := (true, σ);
  os_fork σ := (2, σ);
  os_waitpid pid _ σ := ((pid, 0), σ);
|}.

#[export] Instance MemSystem_coherent : Coherent.
Proof.
  refine {| files (σ : os) := m_files σ; fd_path (σ : os) fd := if fd =? 3 then Some (m_open σ) else None;
            map_path (m : mapping) := m : list Z; refused _ := False |}; cbn [os_open os_pwrite os_close os_mmap os_load os_munmap
            os_now_us os_rename os_unlink MemSystem]; try done; try by right.
  - intros fd buf at_ σ p c. destruct (_ =? 3); [|done]. intros [= <-] Hc _. right. cbn. by rewrite Hc.
  - intros fd n σ p. destruct (_ =? 3); [|done]. intros [= <-]. done.
  - intros m j σ c Hc _. cbn. by rewrite Hc.
  - intros a b σ c Hc. right. cbn. by rewrite Hc.
Defined.

#[export] Instance MemSystem_clocked : Clocked.
Proof.
  refine {| time (σ : os) := Z.max 0 (m_time σ) |}; unfold DELAY; cbn; intros; lia.
Defined.

Definition mem0 : @os MemSystem := mkMem ∅ [] 7.
Definition small : common_t := mkCommon (str "/root/a") (str "/root/b") 40000 0 MARGIN_MIN 4096.

Lemma coherent_cache_passes_witness :
  (∃ σ', rewrite_same_size_is_seen small mem0 = (Done (), σ')) ∧
  (∃ σ', rewrite_other_size_is_seen small mem0 = (Done (), σ')) ∧
  (∃ σ', replaced_file_is_seen small mem0 = (Done (), σ')) ∧
  (∃ cold warm σ', second_mapping_is_fast small mem0 = (if u64 (warm * 3) <? cold then Done () else Failed, σ')).
Proof.
  destruct (coherent_cache_passes small mem0) as ((σ1 & H1) & (σ2 & H2) & (σ3 & H3) & H4); [unfold sane; cbn; lia|].
  split_and!.
  - exists σ1. by destruct H1 as [?|[_ []]].
  - exists σ2. by destruct H2 as [?|[_ []]].
  - exists σ3. by destruct H3 as [?|[_ []]].
  - destruct H4 as [(? & _ & [])|(? & cold & ? & warm & σ4 & _ & _ & _ & E)]. by exists cold, warm, σ4.
Defined.

Lemma freeAgain_ends_witness :
  ∃ f ms σ', freeAgain 302 (600 * MIB) mem0 = (Done (f, ms), σ') ∧ (600 * MIB ≤ f ∧ 1000 ≤ ms ∨ 30000 ≤ ms).
Proof. apply freeAgain_ends. lia. Defined.

(** A system that goes on showing the version written with seed 1. *)
Definition stale_byte (j : Z) : Z := if j <? 8200 then patternByte j 1 else 0.
Definition StaleSystem : System := {|
  os := mem_os;
  mapping := ();
  os_open _ _ σ := (3, σ);
  os_pwrite _ buf _ σ := (Z.of_nat (length buf), σ);
  os_close _ σ := (0, σ);
  os_mmap _ _ σ := (Some (), σ);
  os_load _ j σ := (stale_byte j, σ);
  os_munmap _ _ σ := (0, σ);
  os_rename _ _ σ := (0, σ);
  os_unlink _ σ := (0, σ);
  os_now_us σ := (0, σ);
  os_usleep _ σ := ((), σ);
  os_free σ := (0, σ);
  os_anonymous _ σ := (None, σ);
  os_contiguous _ σ := (None, σ);
  os_store _ _ _ σ := (false, σ);
  os_fork σ := (-1, σ);
  os_waitpid pid _ σ := ((pid, 0), σ);
|}.

Lemma stale_version_is_caught_witness :
  @mapCheck StaleSystem small (str "/root/a") 8200 (mkExpect 1 NO_PAGE 0) mem0 = (Done (0, 0), mem0) ∧
  ∃ bad, @mapCheck StaleSystem small (str "/root/a") 8200 (mkExpect 2 NO_PAGE 0) mem0 = (Done (bad, 0), mem0) ∧ bad ≠ 0.
Proof.
  split; [by vm_compute|]. eexists. split; [vm_compute; reflexivity|].
  apply (@stale_version_is_caught StaleSystem small stale_byte (str "/root/a") 8200 2 1 1024 (mkExpect 2 NO_PAGE 0)
    mem0 _ 0 mem0).
  - unfold fits, small; cbn [pagesz]. lia.
  - lia.
  - lia.
  - lia.
  - reflexivity.
  - reflexivity.
  - by vm_compute.
  - lia.
  - intros i Hi. unfold stale_byte. by rewrite (proj2 (Z.ltb_lt _ _)) by lia.
  - by vm_compute.
Defined.
