(* ===== verification/TestMalloc.v ===== *)
(** * The randomized malloc test, mem/test_malloc.c

    One thread fills blocks with the number of their slot and checks them
    before it frees, replaces or reallocates them. The allocator and rand_r()
    are parameters; an allocation may fail. A block found changed stops the
    thread for ever. *)

From S2P Require Import Prelude.

(** malloc(), realloc(), free() and malloc_test(), which the library exports
    for checking its own structures; a null pointer is 0. *)
Class Mallocs := {
  m_heap : Type;
  m_load : m_heap → Z → Z;
  m_store : m_heap → Z → Z → m_heap;
  m_malloc : Z → m_heap → Z * m_heap;
  m_realloc : Z → Z → m_heap → Z * m_heap;
  m_free : Z → m_heap → m_heap;
  m_test : m_heap → m_heap;
}.

Inductive size_mode := SZMODE_SMALL | SZMODE_MEDIUM | SZMODE_BIG | SZMODE_HUGE | SZMODE_MIXED.
Definition SZMODE_NUM_MODES : Z := 5.
Definition PAGE_SIZE : Z := 4096.

(** The conversion of an int below SZMODE_NUM_MODES. *)
Definition mode_of (n : Z) : size_mode :=
  if n =? 0 then SZMODE_SMALL else if n =? 1 then SZMODE_MEDIUM else if n =? 2 then SZMODE_BIG
  else if n =? 3 then SZMODE_HUGE else SZMODE_MIXED.

Record test_malloc_alloc := mkAlloc { sz : Z; buf : Z }.

Section thread.
Context `{Mallocs}.

(** rand_r(): the number drawn from a seed, and the next seed. *)
Context (rand_r : Z → Z * Z).

(** [allocslen] slots, [noallocs] steps a round. *)
Context (allocslen : nat) (noallocs : nat).

(** The modes drawn below SZMODE_MIXED. *)
Definition plain_size (szmode : size_mode) (r : Z) : Z :=
  match szmode with
  | SZMODE_SMALL => 1 + r mod 100
  | SZMODE_MEDIUM => 100 + r mod 400
  | SZMODE_BIG => 500 + r mod (10 * PAGE_SIZE)
  | SZMODE_HUGE => 500 + r mod 2 ^ 25
  | SZMODE_MIXED => 0
  end.
Definition random_size (szmode : size_mode) (seed : Z) : Z * Z :=
  match szmode with
  | SZMODE_MIXED =>
      let '(m, seed) := rand_r seed in
      let '(r, seed) := rand_r seed in (plain_size (mode_of (m mod 4)) r, seed)
  | _ => let '(r, seed) := rand_r seed in (plain_size szmode r, seed)
  end.

Record thread_t := mkThread {
  t_seed : Z; t_allocs : list test_malloc_alloc; t_total : Z; t_ftotal : Z; t_nofailed : Z; t_maxtotal : Z;
  t_heap : m_heap }.

(** memset(ptr, i, n). *)
Fixpoint m_memset (n : nat) (p i : Z) (h : m_heap) : m_heap :=
  match n with O => h | S n => m_memset n (p + 1) i (m_store h p i) end.

(** The first of the [n] bytes from [p] on that is not [i]. *)
Fixpoint corrupted (n : nat) (p i j : Z) (h : m_heap) : option Z :=
  match n with
  | O => None
  | S n => if m_load h (p + j) =? i then corrupted n p i (j + 1) h else Some j
  end.

(** What stops the thread: the slot and the byte of the report. *)
Definition alarm : Type := nat * Z.

Definition fails (i : nat) (h : m_heap) (t : thread_t) : thread_t :=
  mkThread (t_seed t) (<[i := mkAlloc 0 0]> (t_allocs t)) (t_total t) (u32 (t_ftotal t + t_total t))
    (u32 (t_nofailed t + 1)) (t_maxtotal t) h.
Definition set_total (total : Z) (t : thread_t) : thread_t :=
  mkThread (t_seed t) (t_allocs t) total (t_ftotal t) (t_nofailed t) (t_maxtotal t) (t_heap t).
Definition holds (i : nat) (a : test_malloc_alloc) (total : Z) (h : m_heap) (t : thread_t) : thread_t :=
  mkThread (t_seed t) (<[i := a]> (t_allocs t)) total (t_ftotal t) (t_nofailed t) (t_maxtotal t) h.

(** The branch that reallocates slot [i]. *)
Definition realloc_step (i : nat) (size : Z) (t : thread_t) : alarm + thread_t :=
  let a := default (mkAlloc 0 0) (t_allocs t !! i) in
  let '(ptr, h) := m_realloc (buf a) size (t_heap t) in
  if ptr =? 0 then
    inr (set_total (u32 (t_total t - sz a)) (fails i (m_free (buf a) h) t))
  else
    match corrupted (Z.to_nat (Z.min size (sz a))) ptr (Z.of_nat i) 0 h with
    | Some j => inl (i, j)
    | None =>
        let h := if sz a <? size then m_memset (Z.to_nat size) ptr (Z.of_nat i) h else h in
        inr (holds i (mkAlloc size ptr) (u32 (t_total t + u32 (size - sz a))) h t)
    end.

(** The branch that frees slot [i] and allocates it anew. *)
Definition replace_step (i : nat) (size : Z) (t : thread_t) : alarm + thread_t :=
  let a := default (mkAlloc 0 0) (t_allocs t !! i) in
  let checked : option Z :=
    if negb (buf a =? 0) then corrupted (Z.to_nat (sz a)) (buf a) (Z.of_nat i) 0 (t_heap t) else None in
  match checked with
  | Some j => inl (i, j)
  | None =>
      let '(total, h) :=
        if negb (buf a =? 0) then (u32 (t_total t - sz a), m_free (buf a) (t_heap t))
        else (t_total t, t_heap t) in
      let '(p, h) := m_malloc size h in
      if negb (p =? 0) then
        inr (holds i (mkAlloc size p) (u32 (total + size)) (m_memset (Z.to_nat size) p (Z.of_nat i) h) t)
      else inr (fails i h (set_total total t))
  end.

Definition set_seed (seed : Z) (t : thread_t) : thread_t :=
  mkThread seed (t_allocs t) (t_total t) (t_ftotal t) (t_nofailed t) (t_maxtotal t) (t_heap t).
(** [maxtotal = max(total, maxtotal); malloc_test();] *)
Definition step_end (t : thread_t) : thread_t :=
  mkThread (t_seed t) (t_allocs t) (t_total t) (t_ftotal t) (t_nofailed t) (Z.max (t_total t) (t_maxtotal t))
    (m_test (t_heap t)).

(** One pass of the inner loop. *)
Definition malloc_step (szmode : size_mode) (imax : Z) (t : thread_t) : alarm + thread_t :=
  let '(r, seed) := rand_r (t_seed t) in
  let i := Z.to_nat (r mod imax) in
  let '(size, seed) := random_size szmode seed in
  let '(r, seed) := rand_r seed in
  let t := set_seed seed t in
  match (if negb (r mod 2 =? 0) then realloc_step i size t else replace_step i size t) with
  | inl e => inl e
  | inr t => inr (step_end t)
  end.

Fixpoint malloc_steps (n : nat) (szmode : size_mode) (imax : Z) (t : thread_t) : alarm + thread_t :=
  match n with
  | O => inr t
  | S n =>
      match malloc_step szmode imax t with
      | inl e => inl e
      | inr t => malloc_steps n szmode imax t
      end
  end.

(** The loop that frees every slot. *)
Fixpoint free_all (todo : list test_malloc_alloc) (done : list test_malloc_alloc) (t : thread_t) : thread_t :=
  match todo with
  | [] => mkThread (t_seed t) done (t_total t) (t_ftotal t) (t_nofailed t) (t_maxtotal t) (t_heap t)
  | a :: todo =>
      free_all todo (done ++ [mkAlloc 0 0])
        (mkThread (t_seed t) (t_allocs t) (u32 (t_total t - sz a)) (t_ftotal t) (t_nofailed t) (t_maxtotal t)
           (m_free (buf a) (t_heap t)))
  end.

(** One pass of the outer loop; the flag says whether everything was freed. *)
Definition malloc_round (t : thread_t) : alarm + (bool * thread_t) :=
  let '(m, seed) := rand_r (t_seed t) in
  let '(r, seed) := rand_r seed in
  let t := mkThread seed (t_allocs t) (t_total t) 0 0 0 (t_heap t) in
  match malloc_steps noallocs (mode_of (m mod SZMODE_NUM_MODES)) (1 + r mod Z.of_nat allocslen) t with
  | inl e => inl e
  | inr t =>
      let '(r, seed) := rand_r (t_seed t) in
      let t := set_seed seed t in
      inr (if negb (r mod 2 =? 0) then (true, free_all (t_allocs t) [] t) else (false, t))
  end.

Definition malloc_init (seed : Z) (h : m_heap) : thread_t :=
  mkThread seed (replicate allocslen (mkAlloc 0 0)) 0 0 0 0 h.

(** test_malloc for [n] passes of its endless loop. *)
Fixpoint test_malloc (n : nat) (freed : bool) (t : thread_t) : alarm + (bool * thread_t) :=
  match n with
  | O => inr (freed, t)
  | S n =>
      match malloc_round t with
      | inl e => inl e
      | inr (freed, t) => test_malloc n freed t
      end
  end.
End thread.

(** The edge cases main() tries first; what they return is only printed. *)
Definition edge_cases `{Mallocs} (h : m_heap) : m_heap :=
  let '(ptr, h) := m_malloc 0 h in
  let h := m_free 0 h in
  let '(ptr, h) := m_malloc 0x7fffffff h in
  h.

(** main: one thread, 100 slots, 10000 steps a round, seed 0; [n] rounds. *)
Definition malloc_main `{Mallocs} (rand_r : Z → Z * Z) (n : nat) (h : m_heap) : alarm + (bool * thread_t) :=
  test_malloc rand_r 100 (Z.to_nat 10000) n true (malloc_init 100 0 (edge_cases h)).
