(* ===== verification/TestMallocProps.v ===== *)
(** * What the randomized malloc test decides

    Against an allocator that keeps its promises, failing whenever it likes,
    the thread never stops, its count of bytes is exact, and after everything
    was freed only the blocks of others are left. *)

From S2P Require Import Prelude TestMalloc.

(** ** The promises of an allocator *)

Section interface.
Context `{Mallocs}.

(** The blocks in [bs] have the same contents in both states. *)
Definition same_bytes (bs : gmap Z Z) (h h' : m_heap) : Prop :=
  ∀ p n k, bs !! p = Some n → 0 ≤ k < n → m_load h' (p + k) = m_load h (p + k).

Definition in_block (bs : gmap Z Z) (a : Z) : Prop := ∃ p n, bs !! p = Some n ∧ p ≤ a < p + n.

(** [h'] differs from [h] by the blocks [bs] and, where the result is not
    null, a new block of [n] bytes at [q]. *)
Definition allocated (bs : gmap Z Z) (n q : Z) (h' : m_heap) (live : m_heap → gmap Z Z) : Prop :=
  bs !! q = None ∧ live h' = <[q := n]> bs.

(** Requests are below 2^32, the range of the test. *)
Class MallocLaws := {
  m_ok : m_heap → Prop;
  live : m_heap → gmap Z Z;
  live_disjoint h p n q m : m_ok h → live h !! p = Some n → live h !! q = Some m → p ≠ q → p + n ≤ q ∨ q + m ≤ p;
  live_null h : m_ok h → live h !! 0 = None;
  store_law h a v : m_ok h → in_block (live h) a → 0 ≤ v < 256 →
    m_ok (m_store h a v) ∧ live (m_store h a v) = live h ∧
    ∀ b, in_block (live h) b → m_load (m_store h a v) b = if decide (a = b) then v else m_load h b;
  malloc_law h n : m_ok h → 0 ≤ n < 2 ^ 32 → let '(q, h') := m_malloc n h in
    m_ok h' ∧ same_bytes (live h) h h' ∧
    if decide (q = 0) then live h' = live h else allocated (live h) n q h' live;
  realloc_null h n : m_realloc 0 n h = m_malloc n h;
  realloc_law h p m n : m_ok h → 0 ≤ n < 2 ^ 32 → live h !! p = Some m → let '(q, h') := m_realloc p n h in
    m_ok h' ∧
    if decide (q = 0) then live h' = live h ∧ same_bytes (live h) h h'
    else allocated (delete p (live h)) n q h' live ∧ same_bytes (delete p (live h)) h h' ∧
      ∀ k, 0 ≤ k < m → k < n → m_load h' (q + k) = m_load h (p + k);
  free_null h : m_ok h → m_ok (m_free 0 h) ∧ live (m_free 0 h) = live h ∧ same_bytes (live h) h (m_free 0 h);
  free_law h p m : m_ok h → live h !! p = Some m →
    m_ok (m_free p h) ∧ live (m_free p h) = delete p (live h) ∧ same_bytes (delete p (live h)) h (m_free p h);
  test_law h : m_ok h → m_ok (m_test h) ∧ live (m_test h) = live h ∧ same_bytes (live h) h (m_test h);
}.
End interface.

(** ** Blocks *)

Section blocks.
Context `{MallocLaws}.
Implicit Types h : m_heap.

(** Freeing a slot that may be empty. *)
Lemma free_any h p : m_ok h → (p = 0 ∨ is_Some (live h !! p)) →
  m_ok (m_free p h) ∧ live (m_free p h) = delete p (live h) ∧ same_bytes (delete p (live h)) h (m_free p h).
Proof.
  intros Hh [->|[m Hm]]; [|by eapply free_law]. rewrite delete_id by by apply live_null. by apply free_null.
Qed.

(** Filling the first [n] bytes of a live block. *)
Lemma memset_spec n p i h q m k0 :
  m_ok h → live h !! q = Some m → p = q + k0 → 0 ≤ k0 → k0 + Z.of_nat n ≤ m → 0 ≤ i < 256 →
  m_ok (m_memset n p i h) ∧ live (m_memset n p i h) = live h ∧
  (∀ k, k0 ≤ k < k0 + Z.of_nat n → m_load (m_memset n p i h) (q + k) = i) ∧
  (∀ b, in_block (live h) b → (b < p ∨ p + Z.of_nat n ≤ b) → m_load (m_memset n p i h) b = m_load h b).
Proof.
  revert p h k0. induction n as [|n IH]; intros p h k0 Hh Hq -> Hk Hm Hi; cbn [m_memset].
  { split_and!; try done. intros k Hk'. lia. }
  assert (∀ k, 0 ≤ k < m → in_block (live h) (q + k)) as Hin by (intros k Hk'; exists q, m; split; [done|lia]).
  destruct (store_law h (q + k0) i Hh (Hin k0 ltac:(lia)) Hi) as (Hok & Hl & Hld).
  destruct (IH (q + k0 + 1) (m_store h (q + k0) i) (k0 + 1)) as (Hok' & Hl' & Hin' & Hout');
    [done|by rewrite Hl|lia|lia|lia|done|].
  rewrite Hl in *. split_and!; [done..| |].
  - intros k Hk'. destruct (decide (k = k0)) as [->|]; [|apply Hin'; lia].
    rewrite Hout' by (auto with lia). rewrite Hld by (apply Hin; lia). by rewrite decide_True.
  - intros b Hb Hbr. rewrite Hout' by (auto with lia). rewrite Hld by done. by rewrite decide_False by lia.
Qed.

Lemma corrupted_None n p i j h :
  corrupted n p i j h = None ↔ ∀ k, j ≤ k < j + Z.of_nat n → m_load h (p + k) = i.
Proof.
  revert j. induction n as [|n IH]; intros j; cbn [corrupted]; [split; [lia|done]|].
  destruct (Z.eqb_spec (m_load h (p + j)) i) as [E|E].
  - rewrite IH. split; intros Hk k Hr; [|apply Hk; lia]. destruct (decide (k = j)) as [->|]; [done|]. apply Hk. lia.
  - split; [done|]. intros Hk. destruct E. apply Hk. lia.
Qed.
End blocks.

(** ** The slots *)

Definition sum_sz (l : list test_malloc_alloc) : Z := foldr (λ a s, sz a + s) 0 l.

Lemma sum_insert l i a b : l !! i = Some a → sum_sz (<[i := b]> l) = sum_sz l - sz a + sz b.
Proof.
  revert i. induction l as [|c l IH]; intros [|i] E; [done..|cbn in *; injection E as ->; lia|].
  cbn in E. change (sz c + sum_sz (<[i := b]> l) = sz c + sum_sz l - sz a + sz b). rewrite (IH i E). lia.
Qed.
Lemma sum_bounds l n : Forall (λ a, 0 ≤ sz a ≤ n) l → 0 ≤ sum_sz l ≤ Z.of_nat (length l) * n.
Proof. induction 1 as [|a l Ha _ IH]; cbn [sum_sz foldr length]; [lia|]. fold (sum_sz l). lia. Qed.

(** The largest size drawn. *)
Definition SIZE_MAX : Z := 2 ^ 25 + 499.

Lemma mode_range szmode r : 0 ≤ r → szmode ≠ SZMODE_MIXED → 1 ≤ plain_size szmode r ≤ SIZE_MAX.
Proof.
  intros Hr Hm. unfold SIZE_MAX. destruct szmode; cbn [plain_size]; unfold PAGE_SIZE; try done;
    match goal with |- context [r mod ?n] => pose proof (Z.mod_pos_bound r n ltac:(lia)) end; lia.
Qed.

Section slots.
Context `{MallocLaws} (base : gmap Z Z).

(** Slot [i] is empty, or holds a live block filled with [i]. *)
Definition slot_ok (h : m_heap) (i : nat) (a : test_malloc_alloc) : Prop :=
  a = mkAlloc 0 0 ∨
  (buf a ≠ 0 ∧ 1 ≤ sz a ≤ SIZE_MAX ∧ live h !! buf a = Some (sz a) ∧ base !! buf a = None ∧
   ∀ k, 0 ≤ k < sz a → m_load h (buf a + k) = Z.of_nat i).

(** The slots hold different blocks; with [base] they are all there is. *)
Record slots_ok (l : list test_malloc_alloc) (h : m_heap) : Prop := {
  slots_heap : m_ok h;
  slots_each i a : l !! i = Some a → slot_ok h i a;
  slots_distinct i j a b : l !! i = Some a → l !! j = Some b → buf a ≠ 0 → buf a = buf b → i = j;
  slots_base : base ⊆ live h;
  slots_all p n : live h !! p = Some n → base !! p = Some n ∨ ∃ i a, l !! i = Some a ∧ buf a = p;
}.

Lemma slot_live l h i a : slots_ok l h → l !! i = Some a → buf a = 0 ∨ is_Some (live h !! buf a).
Proof. intros Hs Hi. destruct (slots_each l h Hs i a Hi) as [->|(? & ? & ? & ?)]; [by left|right; eauto]. Qed.

(** Slot [i] gives up its block, and may get a new one. *)
Lemma slots_update l h i a a' h' :
  slots_ok l h → l !! i = Some a → m_ok h' → same_bytes (delete (buf a) (live h)) h h' →
  slot_ok h' i a' →
  (if decide (buf a' = 0) then live h' = delete (buf a) (live h)
   else allocated (delete (buf a) (live h)) (sz a') (buf a') h' live) →
  slots_ok (<[i := a']> l) h'.
Proof.
  intros Hs Hi Hh' Hsame Ha' Hlive. pose proof (lookup_lt_Some _ _ _ Hi) as Hlt.
  assert (∀ p n, delete (buf a) (live h) !! p = Some n → live h' !! p = Some n ∧ buf a' ≠ p) as Hsub.
  { intros p n Hp. unfold allocated in Hlive. destruct (decide (buf a' = 0)) as [E|E].
    - rewrite Hlive, E. split; [done|]. intros <-. apply lookup_delete_Some in Hp as [_ Hp].
      by rewrite (live_null h (slots_heap l h Hs)) in Hp.
    - destruct Hlive as [Hfresh ->]. assert (buf a' ≠ p) by congruence. by rewrite lookup_insert_ne. }
  assert (∀ j b, j ≠ i → l !! j = Some b → buf b ≠ 0 → delete (buf a) (live h) !! buf b = Some (sz b)) as Hother.
  { intros j b Hji Hj Hb0. destruct (slots_each l h Hs j b Hj) as [->|(_ & _ & Hl & _)]; [done|].
    rewrite lookup_delete_ne; [done|]. intros E. apply Hji.
    symmetry. apply (slots_distinct l h Hs i j a b); try done. congruence. }
  split; [done| | | |].
  - intros j b Hj. destruct (decide (i = j)) as [<-|Hne].
    { rewrite list_lookup_insert_eq in Hj by done. by injection Hj as <-. }
    rewrite list_lookup_insert_ne in Hj by done.
    destruct (slots_each l h Hs j b Hj) as [->|(Hb0 & Hsz & Hl & Hbase & Hby)]; [by left|right].
    pose proof (Hother j b (not_eq_sym Hne) Hj Hb0) as Hd. destruct (Hsub _ _ Hd) as [Hl' _].
    split_and!; try done; [lia|lia|]. intros k Hk. rewrite (Hsame _ _ _ Hd Hk). by apply Hby.
  - intros j k b c Hj Hk Hb0 E.
    destruct (decide (i = j)) as [<-|Hij], (decide (i = k)) as [<-|Hik]; [done|..].
    + rewrite list_lookup_insert_eq in Hj by done. rewrite list_lookup_insert_ne in Hk by done. injection Hj as <-. destruct (Hsub _ _ (Hother k c (not_eq_sym Hik) Hk ltac:(congruence))) as [_ Hne]. congruence.
    + rewrite list_lookup_insert_eq in Hk by done. rewrite list_lookup_insert_ne in Hj by done.
      injection Hk as <-. destruct (Hsub _ _ (Hother j b (not_eq_sym Hij) Hj Hb0)) as [_ Hne]. congruence.
    + rewrite list_lookup_insert_ne in Hj, Hk by done. by apply (slots_distinct l h Hs j k b c).
  - apply map_subseteq_spec. intros p n Hp. apply Hsub. rewrite lookup_delete_ne.
    + by apply (lookup_weaken _ _ _ _ Hp), (slots_base l h Hs).
    + intros <-. destruct (slots_each l h Hs i a Hi) as [->|(_ & _ & _ & Hb & _)]; [|congruence].
      pose proof (lookup_weaken _ _ _ _ Hp (slots_base l h Hs)) as Hp'. cbn in Hp'.
      by rewrite (live_null h (slots_heap l h Hs)) in Hp'.
  - intros p n Hp.
    assert (delete (buf a) (live h) !! p = Some n ∨ (buf a' ≠ 0 ∧ buf a' = p)) as [Hd|[_ <-]].
    { unfold allocated in Hlive. destruct (decide (buf a' = 0)) as [E|E]; [left; congruence|].
      destruct Hlive as [_ Hl]. rewrite Hl in Hp. apply lookup_insert_Some in Hp as [[<- _]|[_ Hp]]; auto. }
    + apply lookup_delete_Some in Hd as [Hne Hd]. destruct (slots_all l h Hs p n Hd) as [|(j & b & Hj & <-)]; [by left|right].
      exists j, b. split; [|done]. rewrite list_lookup_insert_ne; [done|]. intros <-. congruence.
    + right. exists i, a'. by rewrite list_lookup_insert_eq.
Qed.

Lemma base_fresh l h i a q :
  slots_ok l h → l !! i = Some a → delete (buf a) (live h) !! q = None → base !! q = None.
Proof.
  intros Hs Hi Hd. destruct (base !! q) as [n|] eqn:E; [|done].
  pose proof (lookup_weaken _ _ _ _ E (slots_base l h Hs)) as Hl. apply lookup_delete_None in Hd as [<-|Hd]; [|congruence].
  destruct (slots_each l h Hs i a Hi) as [->|(_ & _ & _ & Hb & _)]; [|congruence]. cbn in *.
  by rewrite (live_null h (slots_heap l h Hs)) in Hl.
Qed.

(** Filling a block just allocated. *)
Lemma fill_new D n q i h h1 :
  m_ok h1 → allocated D n q h1 live → same_bytes D h h1 → 0 ≤ n → 0 ≤ i < 256 →
  let h2 := m_memset (Z.to_nat n) q i h1 in
  m_ok h2 ∧ allocated D n q h2 live ∧ same_bytes D h h2 ∧ ∀ k, 0 ≤ k < n → m_load h2 (q + k) = i.
Proof.
  intros Hok [Hfresh Hl] Hsame Hn Hi h2.
  assert (live h1 !! q = Some n) as Hq by (rewrite Hl; apply lookup_insert_eq).
  destruct (memset_spec (Z.to_nat n) q i h1 q n 0) as (Hok2 & Hl2 & Hin & Hout); [done|done|lia|lia|lia|done|].
  split_and!; [done|split; [done|unfold h2; by rewrite Hl2]| |intros k Hk; apply Hin; lia].
  intros p m k Hp Hk. assert (p ≠ q) by congruence.
  assert (live h1 !! p = Some m) as Hp1 by by rewrite Hl, lookup_insert_ne.
  rewrite <- (Hsame p m k Hp Hk). apply Hout; [exists p, m; split; [done|lia]|].
  destruct (live_disjoint h1 p m q n Hok Hp1 Hq); [done|lia..].
Qed.

(** ** The thread *)

Context (rand_r : Z → Z * Z) (allocslen noallocs : nat).
Context (Hrand : ∀ s, 0 ≤ (rand_r s).1) (Hlen : (0 < allocslen ≤ 100)%nat).

Definition thread_ok (t : thread_t) : Prop :=
  slots_ok (t_allocs t) (t_heap t) ∧ length (t_allocs t) = allocslen ∧ t_total t = sum_sz (t_allocs t).

Lemma slots_sizes l h : slots_ok l h → Forall (λ a, 0 ≤ sz a ≤ SIZE_MAX) l.
Proof.
  intros Hs. apply Forall_lookup. intros i a Hi. unfold SIZE_MAX in *.
  destruct (slots_each l h Hs i a Hi) as [->|(_ & Hsz & _)]; cbn; unfold SIZE_MAX in *; lia.
Qed.

(** The new total, computed with wrap-around, is exact. *)
Lemma total_exact l h x : slots_ok l h → length l = allocslen → x = sum_sz l → u32 x = sum_sz l.
Proof.
  intros Hs Hl ->. apply u32_small. pose proof (sum_bounds l SIZE_MAX (slots_sizes l h Hs)). unfold SIZE_MAX in *. nia.
Qed.

(** A step that leaves slot [i] with [a'] in the heap [h']. *)
Lemma thread_update t i a a' h' x tr :
  thread_ok t → t_allocs t !! i = Some a → slots_ok (<[i := a']> (t_allocs t)) h' →
  t_allocs tr = <[i := a']> (t_allocs t) → t_heap tr = h' → t_total tr = u32 x → x = t_total t - sz a + sz a' → thread_ok tr.
Proof.
  intros (Hs & Hl & Ht) Hi Hs' Ea Eh Et Hx. unfold thread_ok. rewrite Ea, Eh, Et, length_insert.
  split_and!; [done..|]. eapply total_exact; [done|by rewrite length_insert|]. rewrite Hx, Ht. symmetry. by apply sum_insert.
Qed.

Lemma total_without t i a : thread_ok t → t_allocs t !! i = Some a → u32 (t_total t - sz a) = t_total t - sz a.
Proof.
  intros (Hs & Hl & Htot) Ha. apply u32_small. rewrite Htot.
  pose proof (sum_insert _ i a (mkAlloc 0 0) Ha) as Hsum. cbn [sz] in Hsum.
  assert (Forall (λ a, 0 ≤ sz a ≤ SIZE_MAX) (<[i := mkAlloc 0 0]> (t_allocs t))) as Hall.
  { apply Forall_insert; [by apply (slots_sizes _ _ Hs)|cbn; unfold SIZE_MAX; lia]. }
  apply sum_bounds in Hall. rewrite length_insert in Hall. unfold SIZE_MAX in *. nia.
Qed.

Lemma realloc_step_ok t i size :
  thread_ok t → (i < allocslen)%nat → 1 ≤ size ≤ SIZE_MAX →
  ∃ t', realloc_step i size t = inr t' ∧ thread_ok t'.
Proof.
  intros Ht Hi Hsize. pose proof Ht as (Hs & Hl & Htot). unfold SIZE_MAX in Hsize.
  destruct (lookup_lt_is_Some_2 (t_allocs t) i) as [a Ha]; [lia|].
  pose proof (slots_each _ _ Hs i a Ha) as Hslot. pose proof (slots_heap _ _ Hs) as Hh.
  unfold realloc_step. rewrite Ha. cbn [default id].
  assert (let '(q, h') := m_realloc (buf a) size (t_heap t) in m_ok h' ∧
    if decide (q = 0) then live h' = live (t_heap t) ∧ same_bytes (live (t_heap t)) (t_heap t) h'
    else allocated (delete (buf a) (live (t_heap t))) size q h' live ∧
      same_bytes (delete (buf a) (live (t_heap t))) (t_heap t) h' ∧
      ∀ k, 0 ≤ k < sz a → k < size → m_load h' (q + k) = Z.of_nat i) as Hre.
  { destruct Hslot as [->|(Hb0 & Hsz & Hlv & _ & Hby)]; cbn [buf sz].
    - rewrite realloc_null, delete_id by by apply live_null.
      pose proof (malloc_law (t_heap t) size Hh ltac:(lia)) as Hm. destruct (m_malloc size (t_heap t)) as [q h'].
      destruct Hm as (? & ? & Hm). destruct (decide (q = 0)); split_and!; try done. intros k Hk. lia.
    - pose proof (realloc_law (t_heap t) (buf a) (sz a) size Hh ltac:(lia) Hlv) as Hr.
      destruct (m_realloc _ _ _) as [q h']. destruct Hr as (? & Hr). split; [done|].
      destruct (decide (q = 0)); [done|]. destruct Hr as (? & ? & Hr). split_and!; try done.
      intros k Hk Hks. rewrite Hr by done. by apply Hby. }
  destruct (m_realloc (buf a) size (t_heap t)) as [q h1]. destruct Hre as (Hok1 & Hre).
  destruct (Z.eqb_spec q 0) as [->|Hq].
  - rewrite decide_True in Hre by done. destruct Hre as [Hl1 Hs1]. eexists. split; [done|].
    destruct (free_any h1 (buf a) Hok1) as (Hok2 & Hl2 & Hs2).
    { rewrite Hl1. by apply (slot_live _ _ i _ Hs Ha). }
    eapply (thread_update t i a (mkAlloc 0 0) (m_free (buf a) h1) _ _ Ht Ha); [|done|done|done|cbn; lia].
    eapply slots_update; [done..| |by left|].
    + rewrite Hl1 in Hs2. intros p n k Hp Hk. rewrite (Hs2 _ _ _ Hp Hk). apply (Hs1 p n); [|done].
      by apply lookup_delete_Some in Hp as [_ ?].
    + rewrite decide_True by done. by rewrite Hl2, Hl1.
  - rewrite decide_False in Hre by done. destruct Hre as (Hal & Hs1 & Hby).
    rewrite (proj2 (corrupted_None _ _ _ _ _)).
    2:{ intros k Hk. apply Hby; lia. }
    eexists. split; [done|].
    pose proof (base_fresh _ _ _ _ _ Hs Ha (proj1 Hal)) as Hbase.
    set (h2 := if sz a <? size then _ else h1).
    assert (m_ok h2 ∧ allocated (delete (buf a) (live (t_heap t))) size q h2 live ∧
      same_bytes (delete (buf a) (live (t_heap t))) (t_heap t) h2 ∧
      ∀ k, 0 ≤ k < size → m_load h2 (q + k) = Z.of_nat i) as (Hok2 & Hal2 & Hs2 & Hby2).
    { unfold h2. destruct (Z.ltb_spec (sz a) size); [apply fill_new; try done; lia|].
      split_and!; try done. intros k Hk. apply Hby; lia. }
    eapply (thread_update t i a (mkAlloc size q) h2 _ _ Ht Ha); [|done|done|apply u32_add_r|cbn; lia].
    eapply slots_update; [done..| |].
    + right. cbn. unfold SIZE_MAX. split_and!; try done; [lia..|]. destruct Hal2 as [_ ->]. apply lookup_insert_eq.
    + cbn [buf sz]. by rewrite decide_False.
Qed.

Lemma replace_step_ok t i size :
  thread_ok t → (i < allocslen)%nat → 1 ≤ size ≤ SIZE_MAX →
  ∃ t', replace_step i size t = inr t' ∧ thread_ok t'.
Proof.
  intros Ht Hi Hsize. pose proof Ht as (Hs & Hl & Htot). unfold SIZE_MAX in Hsize.
  destruct (lookup_lt_is_Some_2 (t_allocs t) i) as [a Ha]; [lia|].
  pose proof (slots_each _ _ Hs i a Ha) as Hslot. pose proof (slots_heap _ _ Hs) as Hh.
  unfold replace_step. rewrite Ha. cbn [default id].
  assert ((if negb (buf a =? 0) then corrupted (Z.to_nat (sz a)) (buf a) (Z.of_nat i) 0 (t_heap t) else None) = None) as ->.
  { destruct (negb _); [|done]. apply corrupted_None. intros k Hk.
    destruct Hslot as [->|(_ & _ & _ & _ & Hby)]; [cbn in Hk; lia|]. apply Hby. lia. }
  set (p := if negb (buf a =? 0) then (_, _) else _).
  assert (∃ h1, p = (t_total t - sz a, h1) ∧ m_ok h1 ∧ live h1 = delete (buf a) (live (t_heap t)) ∧
    same_bytes (delete (buf a) (live (t_heap t))) (t_heap t) h1) as (h1 & -> & Hok1 & Hl1 & Hs1).
  { unfold p. destruct Hslot as [->|(Hb0 & Hsz & Hlv & _)]; cbn [buf sz].
    - exists (t_heap t). change (0 =? 0) with true. cbn [negb]. rewrite Z.sub_0_r, delete_id by by apply live_null.
      split_and!; [done..|]. by intros ? ? ? _ _.
    - rewrite (proj2 (Z.eqb_neq _ _) Hb0). cbn [negb]. destruct (free_law _ _ _ Hh Hlv) as (? & ? & ?).
      exists (m_free (buf a) (t_heap t)). split_and!; try done. f_equal. by apply (total_without t i). }
  pose proof (malloc_law h1 size Hok1 ltac:(lia)) as Hm. destruct (m_malloc size h1) as [q h2].
  destruct Hm as (Hok2 & Hs2 & Hm). rewrite Hl1 in Hs2, Hm.
  assert (same_bytes (delete (buf a) (live (t_heap t))) (t_heap t) h2) as Hs2'.
  { intros p0 n k Hp Hk. by rewrite (Hs2 _ _ _ Hp Hk), (Hs1 _ _ _ Hp Hk). }
  destruct (Z.eqb_spec q 0) as [->|Hq]; cbn [negb]; eexists; (split; [done|]).
  - rewrite decide_True in Hm by done.
    eapply (thread_update t i a (mkAlloc 0 0) h2 (t_total t - sz a) _ Ht Ha); [|done|done| |cbn; lia].
    + eapply slots_update; [done..|by left|]. by rewrite decide_True.
    + cbn. symmetry. by apply (total_without t i).
  - rewrite decide_False in Hm by done.
    pose proof (base_fresh _ _ _ _ _ Hs Ha (proj1 Hm)) as Hbase.
    destruct (fill_new _ size q (Z.of_nat i) (t_heap t) h2 Hok2 Hm Hs2') as (Hok3 & Hal3 & Hs3 & Hby3); [lia..|].
    eapply (thread_update t i a (mkAlloc size q) (m_memset (Z.to_nat size) q (Z.of_nat i) h2) _ _ Ht Ha); [|done|done|done|cbn; lia].
    eapply slots_update; [done..| |].
    + right. cbn [buf sz]. unfold SIZE_MAX. split_and!; try done; [lia..|]. destruct Hal3 as [_ ->]. apply lookup_insert_eq.
    + cbn [buf sz]. by rewrite decide_False.
Qed.

Lemma slots_keep l h h' :
  slots_ok l h → m_ok h' → live h' = live h → same_bytes (live h) h h' → slots_ok l h'.
Proof.
  intros Hs Hok Hl Hsame. split; [done| |apply (slots_distinct l h Hs)| |]; rewrite ?Hl.
  - intros i a Hi. destruct (slots_each l h Hs i a Hi) as [->|(? & ? & Hlv & ? & Hby)]; [by left|right].
    rewrite Hl. split_and!; try done; [lia..|]. intros k Hk. rewrite (Hsame _ _ _ Hlv Hk). by apply Hby.
  - apply (slots_base l h Hs).
  - apply (slots_all l h Hs).
Qed.

Lemma random_size_range szmode seed : 1 ≤ (random_size rand_r szmode seed).1 ≤ SIZE_MAX.
Proof.
  assert (∀ m s, m ≠ SZMODE_MIXED → 1 ≤ (let '(r, s) := rand_r s in (plain_size m r, s)).1 ≤ SIZE_MAX) as Hp.
  { intros m s Hm. pose proof (Hrand s). destruct (rand_r s) as [r s']. by apply mode_range. }
  destruct szmode; try by apply Hp. cbn [random_size]. destruct (rand_r seed) as [m s] eqn:E.
  apply Hp. pose proof (Z.mod_pos_bound m 4 ltac:(lia)). unfold mode_of.
  repeat case_match; try done; lia.
Qed.

Lemma malloc_step_ok szmode imax t :
  thread_ok t → 0 < imax ≤ Z.of_nat allocslen → ∃ t', malloc_step rand_r szmode imax t = inr t' ∧ thread_ok t'.
Proof.
  intros Ht Him. unfold malloc_step. destruct (rand_r (t_seed t)) as [r s1].
  pose proof (Z.mod_pos_bound r imax ltac:(lia)).
  pose proof (random_size_range szmode s1) as Hsz. destruct (random_size rand_r szmode s1) as [size s2]. cbn in Hsz.
  destruct (rand_r s2) as [r' s3].
  assert (thread_ok (set_seed s3 t)) as Ht' by exact Ht.
  assert (∃ t', (if negb (r' mod 2 =? 0) then realloc_step (Z.to_nat (r mod imax)) size (set_seed s3 t)
    else replace_step (Z.to_nat (r mod imax)) size (set_seed s3 t)) = inr t' ∧ thread_ok t') as (t1 & -> & Ht1).
  { destruct (negb _); [apply realloc_step_ok|apply replace_step_ok]; done || lia. }
  eexists. split; [done|]. destruct Ht1 as (Hs & Hl & Htot). split_and!; [|done..].
  destruct (test_law _ (slots_heap _ _ Hs)) as (? & ? & ?). by eapply slots_keep.
Qed.

Lemma malloc_steps_ok n szmode imax t :
  thread_ok t → 0 < imax ≤ Z.of_nat allocslen → ∃ t', malloc_steps rand_r n szmode imax t = inr t' ∧ thread_ok t'.
Proof.
  intros Ht Him. revert t Ht. induction n as [|n IH]; intros t Ht; cbn [malloc_steps]; [eauto|].
  destruct (malloc_step_ok szmode imax t Ht Him) as (t1 & -> & Ht1). by apply IH.
Qed.

Lemma free_all_ok todo done0 t :
  slots_ok (done0 ++ todo) (t_heap t) → length (done0 ++ todo) = allocslen → t_total t = sum_sz (done0 ++ todo) →
  let t' := free_all todo done0 t in
  thread_ok t' ∧ t_allocs t' = done0 ++ replicate (length todo) (mkAlloc 0 0).
Proof.
  revert done0 t. induction todo as [|a todo IH]; intros dn t Hs Hl Htot; cbn [free_all].
  { cbn. rewrite app_nil_r in *. done. }
  assert ((dn ++ a :: todo) !! length dn = Some a) as Hi by by apply list_lookup_middle.
  assert (<[length dn := mkAlloc 0 0]> (dn ++ a :: todo) = (dn ++ [mkAlloc 0 0]) ++ todo) as E.
  { replace (length dn) with (length dn + 0)%nat by lia. rewrite insert_app_r. by rewrite <- app_assoc. }
  destruct (free_any (t_heap t) (buf a) (slots_heap _ _ Hs) (slot_live _ _ _ _ Hs Hi)) as (Hok & Hlv & Hsame).
  set (t1 := mkThread _ _ _ _ _ _ _).
  assert (thread_ok (mkThread (t_seed t) (dn ++ a :: todo) (t_total t) (t_ftotal t) (t_nofailed t) (t_maxtotal t) (t_heap t))) as Ht0 by done.
  assert (slots_ok ((dn ++ [mkAlloc 0 0]) ++ todo) (m_free (buf a) (t_heap t))) as Hs1.
  { rewrite <- E. eapply slots_update; [done..|by left|]. by rewrite decide_True. }
  destruct (IH (dn ++ [mkAlloc 0 0]) t1) as [Ht' Ha'].
  - done.
  - rewrite <- E, length_insert. done.
  - rewrite <- E, (sum_insert _ _ _ _ Hi), <- Htot. cbn [sz t_total t1]. rewrite Z.add_0_r.
    apply (total_without _ (length dn) a Ht0 Hi).
  - split; [done|]. rewrite Ha', <- app_assoc. done.
Qed.

Lemma all_freed n h : slots_ok (replicate n (mkAlloc 0 0)) h → live h = base.
Proof.
  intros Hs. apply map_eq. intros p. destruct (base !! p) as [m|] eqn:Eb.
  { by apply (lookup_weaken _ _ _ _ Eb), (slots_base _ _ Hs). }
  destruct (live h !! p) as [m|] eqn:El; [|done].
  destruct (slots_all _ _ Hs p m El) as [|(i & a & Hi & <-)]; [congruence|].
  apply lookup_replicate in Hi as [-> _]. cbn in El. by rewrite (live_null _ (slots_heap _ _ Hs)) in El.
Qed.

(** After a round that freed everything only the blocks of others are live. *)
Definition clean (freed : bool) (t : thread_t) : Prop := freed = true → live (t_heap t) = base ∧ t_total t = 0.

Lemma sum_replicate n : sum_sz (replicate n (mkAlloc 0 0)) = 0.
Proof. induction n as [|n IH]; [done|]. cbn [replicate sum_sz foldr sz]. fold (sum_sz (replicate n (mkAlloc 0 0))). lia. Qed.

Lemma malloc_round_ok t :
  thread_ok t → ∃ b t', malloc_round rand_r allocslen noallocs t = inr (b, t') ∧ thread_ok t' ∧ clean b t'.
Proof.
  intros Ht. unfold malloc_round. destruct (rand_r (t_seed t)) as [m s1]. destruct (rand_r s1) as [r s2].
  pose proof (Z.mod_pos_bound r (Z.of_nat allocslen) ltac:(lia)).
  destruct (malloc_steps_ok noallocs (mode_of (m mod SZMODE_NUM_MODES)) (1 + r mod Z.of_nat allocslen)
    (mkThread s2 (t_allocs t) (t_total t) 0 0 0 (t_heap t))) as (t1 & -> & Ht1); [exact Ht|lia|].
  destruct (rand_r (t_seed t1)) as [r' s3].
  destruct (negb _); eexists _, _; (split; [done|]); [|by split; [exact Ht1|]].
  destruct Ht1 as (Hs & Hl & Htot).
  destruct (free_all_ok (t_allocs t1) [] (set_seed s3 t1)) as [Ht2 Ha2]; [done..|].
  split; [done|]. intros _. destruct Ht2 as (Hs2 & _ & Htot2). cbn [set_seed t_allocs app] in *. rewrite Ha2 in Hs2, Htot2.
  split; [by eapply all_freed|]. by rewrite Htot2, sum_replicate.
Qed.

Lemma test_malloc_ok n b t :
  thread_ok t → clean b t →
  ∃ b' t', test_malloc rand_r allocslen noallocs n b t = inr (b', t') ∧ thread_ok t' ∧ clean b' t'.
Proof.
  revert b t. induction n as [|n IH]; intros b t Ht Hc; cbn [test_malloc]; [eauto|].
  destruct (malloc_round_ok t Ht) as (b1 & t1 & -> & Ht1 & Hc1). by apply IH.
Qed.

Lemma init_ok seed h : m_ok h → live h = base → thread_ok (malloc_init allocslen seed h).
Proof.
  intros Hh Hl. unfold thread_ok, malloc_init; cbn [t_allocs t_heap t_total].
  split_and!; [|apply length_replicate|by rewrite sum_replicate].
  split; [done| | |by rewrite Hl|].
  - intros i a [-> _]%lookup_replicate. by left.
  - intros i j a b [-> _]%lookup_replicate. done.
  - intros p n Hp. left. congruence.
Qed.
End slots.

(** Against an allocator that keeps its promises the thread never reports
    corrupted memory, whatever numbers rand_r() gives and whichever allocations
    fail, for any number of rounds; its total is the sum of the sizes of its
    blocks, and when a round has freed everything the total is 0 and only the
    blocks of others are live. *)
Lemma thread_never_stops `{MallocLaws} (rand_r : Z → Z * Z) (allocslen noallocs n : nat) seed h :
  (∀ s, 0 ≤ (rand_r s).1) → (0 < allocslen ≤ 100)%nat → m_ok h →
  ∃ freed t, test_malloc rand_r allocslen noallocs n true (malloc_init allocslen seed h) = inr (freed, t) ∧
    t_total t = sum_sz (t_allocs t) ∧ t_total t < 2 ^ 32 ∧ live h ⊆ live (t_heap t) ∧
    (freed = true → live (t_heap t) = live h ∧ t_total t = 0).
Proof.
  intros Hr Hlen Hh. pose proof (init_ok (live h) allocslen Hlen seed h Hh eq_refl) as Hi.
  destruct (test_malloc_ok (live h) rand_r allocslen noallocs Hr Hlen n true _ Hi) as (b & t & E & (Hs & Hl & Ht) & Hc).
  { by intros _. }
  exists b, t. split_and!; [done..| |apply (slots_base _ _ _ Hs)|done].
  rewrite Ht. pose proof (sum_bounds (t_allocs t) SIZE_MAX ltac:(eapply slots_sizes; [exact Hlen|exact Hs])).
  unfold SIZE_MAX in *. nia.
Qed.

Lemma edge_cases_ok `{MallocLaws} h : m_ok h → m_ok (edge_cases h) ∧ live h ⊆ live (edge_cases h).
Proof.
  intros Hh. unfold edge_cases.
  assert (∀ n h, m_ok h → 0 ≤ n < 2 ^ 32 → m_ok (m_malloc n h).2 ∧ live h ⊆ live (m_malloc n h).2) as Hm.
  { clear h Hh. intros n h Hh Hn. pose proof (malloc_law h n Hh Hn) as Hl. destruct (m_malloc n h) as [q h'].
    destruct Hl as (Hok & _ & Hl). split; [done|]. cbn [snd]. destruct (decide (q = 0)); [by rewrite Hl|].
    destruct Hl as [Hq ->]. by apply insert_subseteq. }
  destruct (Hm 0 h Hh ltac:(lia)) as [Hh1 Hl1]. destruct (m_malloc 0 h) as [q h1]. cbn [snd] in *.
  destruct (free_null h1 Hh1) as (Hh2 & Hl2 & _).
  destruct (Hm 0x7fffffff _ Hh2 ltac:(lia)) as [Hh3 Hl3]. destruct (m_malloc 0x7fffffff _) as [q3 h3]. cbn [snd] in *.
  split; [done|]. rewrite Hl2 in Hl3. by transitivity (live h1).
Qed.

Lemma main_never_stops `{MallocLaws} (rand_r : Z → Z * Z) n h :
  (∀ s, 0 ≤ (rand_r s).1) → m_ok h →
  ∃ freed t, malloc_main rand_r n h = inr (freed, t) ∧
    t_total t = sum_sz (t_allocs t) ∧ t_total t < 2 ^ 32 ∧ live (edge_cases h) ⊆ live (t_heap t) ∧
    (freed = true → live (t_heap t) = live (edge_cases h) ∧ t_total t = 0).
Proof. intros Hr Hh. apply thread_never_stops; [done|lia|]. by apply edge_cases_ok. Qed.
