(* ===== verification/ArenaAlloc.v ===== *)
(** * The allocator of the thread-specific data test

    libc/pthread_tsd_alloc/pthread_tsd_alloc.c replaces malloc() by an
    allocator of its own: an arena in which blocks are cut off one after the
    other and never reused, with the size of a block stored before it. The
    arena's pages come from mmap(), a parameter, as is pthread_setspecific(),
    which a thread's first allocation calls and which allocates in turn. The
    lock makes an allocation atomic. *)

From S2P Require Import Prelude TestMalloc.

Definition ARENA_SIZE : Z := 2 ^ 25.

(** [arena] is 0 until the arena is mapped; bytes never written are 0.
    [arena_live] is not in the code: the blocks the program was given and did
    not give back, with the sizes asked for. *)
Record arena_t := mkArena {
  arena : Z; arenaUsed : Z; bytes : gmap Z Z; allocThreadSeen : bool; allocKeyReady : bool;
  arena_live : gmap Z Z }.

Definition get_byte (h : arena_t) (a : Z) : Z := default 0 (bytes h !! a).
Definition set_bytes (m : gmap Z Z) (h : arena_t) : arena_t :=
  mkArena (arena h) (arenaUsed h) m (allocThreadSeen h) (allocKeyReady h) (arena_live h).
Definition set_live (m : gmap Z Z) (h : arena_t) : arena_t :=
  mkArena (arena h) (arenaUsed h) (bytes h) (allocThreadSeen h) (allocKeyReady h) m.

Definition arena_store (h : arena_t) (a v : Z) : arena_t := set_bytes (<[a := v]> (bytes h)) h.

(** A size_t of eight bytes, least significant first. *)
Fixpoint put_bytes (n : nat) (a v : Z) (m : gmap Z Z) : gmap Z Z :=
  match n with O => m | S n => put_bytes n (a + 1) (v / 256) (<[a := v mod 256]> m) end.
Fixpoint load_bytes (n : nat) (a : Z) (h : arena_t) : Z :=
  match n with O => 0 | S n => get_byte h a + 256 * load_bytes n (a + 1) h end.

Section allocator.
(** The result of mmap(), and pthread_setspecific(allocKey, ...). *)
Context (mmap : option Z) (pthread_setspecific : arena_t → arena_t).

Definition arena_need (size : Z) : Z := Z.land (u64 (u64 (size + 8) + 15)) (u64 (Z.lnot 15)).

Definition arena_alloc (size : Z) (h : arena_t) : Z * arena_t :=
  let need := arena_need size in
  let h := if arena h =? 0 then
      mkArena (default 0 mmap) (arenaUsed h) (bytes h) (allocThreadSeen h) (allocKeyReady h) (arena_live h)
    else h in
  if (arena h =? 0) || (ARENA_SIZE <? u64 (arenaUsed h + need)) then (0, h)
  else
    let hdr := arena h + arenaUsed h + 8 in
    let h := mkArena (arena h) (u64 (arenaUsed h + u64 (need + 16))) (bytes h) (allocThreadSeen h) (allocKeyReady h)
      (<[hdr := size]> (arena_live h)) in
    (hdr, set_bytes (put_bytes 8 (hdr - 8) size (bytes h)) h).

Definition malloc (size : Z) (h : arena_t) : Z * arena_t :=
  let h := if negb (allocThreadSeen h) && allocKeyReady h then
      pthread_setspecific (mkArena (arena h) (arenaUsed h) (bytes h) true (allocKeyReady h) (arena_live h))
    else h in
  arena_alloc size h.

(** Frees nothing. *)
Definition free (ptr : Z) (h : arena_t) : arena_t := set_live (delete ptr (arena_live h)) h.

Definition calloc (n size : Z) (h : arena_t) : Z * arena_t :=
  if negb (size =? 0) && ((2 ^ 64 - 1) / size <? n) then (0, h) else malloc (u64 (n * size)) h.

Definition malloc_usable_size (ptr : Z) (h : arena_t) : Z := if ptr =? 0 then 0 else load_bytes 8 (ptr - 8) h.

Fixpoint memcpy (n : nat) (dst src : Z) (h : arena_t) : arena_t :=
  match n with O => h | S n => memcpy n (dst + 1) (src + 1) (arena_store h dst (get_byte h src)) end.

(** The old block counts as given back when a new one is returned. *)
Definition realloc (ptr size : Z) (h : arena_t) : Z * arena_t :=
  let '(p, h) := malloc size h in
  if negb (p =? 0) && negb (ptr =? 0) then
    let old := malloc_usable_size ptr h in
    let h := memcpy (Z.to_nat (if old <? size then old else size)) p ptr h in
    (p, set_live (delete ptr (arena_live h)) h)
  else (p, h).

Definition reallocf (ptr size : Z) (h : arena_t) : Z * arena_t := realloc ptr size h.

Definition malloc_aligned (alignment size : Z) (h : arena_t) : Z * arena_t :=
  let '(p, h) := malloc (u64 (size + alignment)) h in
  if p =? 0 then (0, h)
  else (Z.land (u64 (u64 (p + alignment) - 1)) (u64 (Z.lnot (u64 (alignment - 1)))), h).

(** The allocator as the malloc test sees it. pthread_tsd_alloc.c does not
    replace malloc_test(), the test hook of libphoenix's own allocator, so the
    malloc test cannot be linked with it as it is; here the hook does
    nothing. *)
Definition ArenaMallocs : Mallocs := {|
  m_heap := arena_t;
  m_load := get_byte;
  m_store := arena_store;
  m_malloc := malloc;
  m_realloc := realloc;
  m_free := free;
  m_test h := h;
|}.
End allocator.
