(* ===== verification/ArenaAllocProps.v ===== *)
(** * Properties of the arena allocator

    Its state stays well formed; it keeps the promises of malloc, realloc and
    free that the malloc test relies on, for requests below 2^32; calloc gives
    zeroed memory and refuses an overflowing product. And where it does not
    behave as malloc should. *)

From S2P Require Import Prelude TestMalloc TestMallocProps ArenaAlloc.

(** ** Sizes *)

Lemma arena_need_spec size :
  0 ≤ size < 2 ^ 64 - 2 ^ 26 → size + 8 ≤ arena_need size ≤ size + 23 ∧ arena_need size mod 16 = 0.
Proof.
  intros Hs. unfold arena_need, u64. rewrite !uwrap_small by (rewrite ?uwrap_small by lia; lia).
  assert (Z.land (size + 8 + 15) (Z.lnot 15 mod 2 ^ 64) = (size + 23) / 16 * 16) as E.
  { change (Z.lnot 15 mod 2 ^ 64) with (Z.shiftl (Z.ones 60) 4).
    replace (size + 8 + 15) with (size + 23) by lia.
    rewrite <- (Z.shiftl_mul_pow2 _ 4), <- (Z.shiftr_div_pow2 _ 4) by lia.
    apply Z.bits_inj'. intros n Hn. rewrite Z.land_spec, !Z.shiftl_spec by lia.
    destruct (decide (n < 4)); [by rewrite !(Z.testbit_neg_r _ (n - 4)), andb_false_r by lia|].
    rewrite Z.shiftr_spec, Z.testbit_ones_nonneg by lia. replace (n - 4 + 4) with n by lia.
    destruct (Z.ltb_spec (n - 4) 60); [by rewrite andb_true_r|]. rewrite andb_false_r.
    symmetry. apply Z.bits_above_log2; [lia|]. apply Z.log2_lt_pow2; [lia|].
    apply Z.lt_le_trans with (2 ^ 64); [lia|]. apply Z.pow_le_mono_r; lia. }
  unfold uwrap. rewrite E. pose proof (Z.div_mod (size + 23) 16 ltac:(lia)).
  pose proof (Z.mod_pos_bound (size + 23) 16 ltac:(lia)).
  split; [lia|]. by rewrite Z.mod_mul by lia.
Qed.

(** ** Bytes *)

Lemma put_bytes_out n a v m b : (b < a ∨ a + Z.of_nat n ≤ b) → put_bytes n a v m !! b = m !! b.
Proof.
  revert a v m. induction n as [|n IH]; intros a v m Hb; cbn [put_bytes]; [done|].
  rewrite IH by lia. by rewrite lookup_insert_ne by lia.
Qed.

Lemma load_put n a v h h' :
  0 ≤ v < 256 ^ Z.of_nat n → (∀ b, a ≤ b < a + Z.of_nat n → get_byte h' b = default 0 (put_bytes n a v (bytes h) !! b)) →
  load_bytes n a h' = v.
Proof.
  revert a v h. induction n as [|n IH]; intros a v h Hv Hb; cbn [load_bytes]; [cbn in Hv; lia|].
  rewrite (IH (a + 1) (v / 256) (set_bytes (<[a := v mod 256]> (bytes h)) h)).
  - rewrite Hb by lia. cbn [put_bytes]. rewrite put_bytes_out by lia. rewrite lookup_insert_eq. cbn.
    pose proof (Z.div_mod v 256 ltac:(lia)). lia.
  - rewrite Nat2Z.inj_succ, Z.pow_succ_r in Hv by lia. split; [apply Z.div_pos; lia|]. apply Z.div_lt_upper_bound; lia.
  - intros b Hb'. rewrite Hb by lia. done.
Qed.

Lemma load_bytes_ext n a h h' :
  (∀ b, a ≤ b < a + Z.of_nat n → get_byte h' b = get_byte h b) → load_bytes n a h' = load_bytes n a h.
Proof.
  revert a. induction n as [|n IH]; intros a Hb; cbn [load_bytes]; [done|]. rewrite Hb, IH by lia || (intros; apply Hb; lia). done.
Qed.

(** ** The well-formed arena *)

(** Live blocks lie behind their headers, inside the part of the arena handed
    out, apart from each other; the rest of the arena was never written. *)
Record arena_wf (h : arena_t) : Prop := {
  wf_arena : 0 ≤ arena h ∧ arena h + ARENA_SIZE + 64 < 2 ^ 64 ∧ arena h mod 16 = 0;
  wf_used : 0 ≤ arenaUsed h ≤ ARENA_SIZE + 16 ∧ arenaUsed h mod 16 = 0;
  wf_unmapped : arena h = 0 → arenaUsed h = 0 ∧ arena_live h = ∅;
  wf_block p n : arena_live h !! p = Some n →
    arena h + 8 ≤ p ∧ 0 ≤ n ∧ p + n + 16 ≤ arena h + arenaUsed h ∧ p + n ≤ arena h + ARENA_SIZE ∧
    load_bytes 8 (p - 8) h = n ∧ p mod 16 = 8;
  wf_apart p n q m : arena_live h !! p = Some n → arena_live h !! q = Some m → p ≠ q → p + n ≤ q - 8 ∨ q + m ≤ p - 8;
  wf_fresh a : arena h + arenaUsed h ≤ a → get_byte h a = 0;
}.

(** The contents of live blocks are kept. *)
Definition keeps_blocks (bs : gmap Z Z) (h h' : arena_t) : Prop :=
  ∀ p n k, bs !! p = Some n → 0 ≤ k < n → get_byte h' (p + k) = get_byte h (p + k).

Lemma keeps_blocks_trans bs h h1 h2 : keeps_blocks bs h h1 → keeps_blocks bs h1 h2 → keeps_blocks bs h h2.
Proof. intros H1 H2 p n k Hp Hk. by rewrite (H2 p n k Hp Hk), (H1 p n k Hp Hk). Qed.

(** Storing inside a live block, headers being outside of all. *)
Lemma store_wf h a v :
  arena_wf h → in_block (arena_live h) a → arena_wf (arena_store h a v).
Proof.
  intros Hw (p & n & Hp & Ha). pose proof (wf_block h Hw p n Hp) as (Hp8 & Hn & Hpu & _).
  assert (∀ b, b ≠ a → get_byte (arena_store h a v) b = get_byte h b) as Hne.
  { intros b Hb. unfold get_byte, arena_store; cbn. by rewrite lookup_insert_ne. }
  split; cbn [arena_store set_bytes arena arenaUsed arena_live]; try apply Hw.
  - intros q m Hq. pose proof (wf_block h Hw q m Hq) as (? & ? & ? & ? & Hld & ?). split_and!; try done.
    rewrite <- Hld. apply load_bytes_ext. intros b Hb. apply Hne. intros ->.
    destruct (decide (p = q)) as [->|Hpq]; [lia|]. destruct (wf_apart h Hw p n q m Hp Hq Hpq); lia.
  - intros b Hb. change (get_byte (arena_store h a v) b = 0). rewrite Hne by lia. by apply (wf_fresh h Hw).
Qed.

Lemma get_store h a v b : get_byte (arena_store h a v) b = if decide (a = b) then v else get_byte h b.
Proof.
  unfold get_byte, arena_store; cbn. destruct (decide (a = b)) as [->|]; [by rewrite lookup_insert_eq|].
  by rewrite lookup_insert_ne.
Qed.

(** Forgetting blocks keeps the arena well formed. *)
Lemma set_live_wf h m : arena_wf h → m ⊆ arena_live h → arena_wf (set_live m h).
Proof.
  intros Hw Hm. split; cbn [set_live arena arenaUsed arena_live]; try apply Hw.
  - intros E. destruct (wf_unmapped h Hw E) as [? E']. split; [done|].
    rewrite E' in Hm. apply map_eq. intros i. rewrite lookup_empty. destruct (m !! i) eqn:Ei; [|done].
    pose proof (lookup_weaken _ _ _ _ Ei Hm) as Hi. by rewrite lookup_empty in Hi.
  - intros p n Hp. apply (wf_block h Hw). by eapply lookup_weaken.
  - intros p n q k Hp Hq. apply (wf_apart h Hw); by eapply lookup_weaken.
Qed.

Section arena.
Context (mmap : option Z) (setspecific : arena_t → arena_t).
(** A mapping is aligned and leaves room at the end of the address space. *)
Context (Hmmap : ∀ a, mmap = Some a → 0 < a ∧ a + ARENA_SIZE + 64 < 2 ^ 64 ∧ a mod 16 = 0).
(** pthread_setspecific() uses memory of its own only. *)
Context (Hset : ∀ h, arena_wf h →
  arena_wf (setspecific h) ∧ arena_live (setspecific h) = arena_live h ∧ keeps_blocks (arena_live h) h (setspecific h)).

(** What an allocation of [size] bytes that gives [q] does. *)
Definition gives (size q : Z) (h h' : arena_t) : Prop :=
  arena_wf h' ∧ keeps_blocks (arena_live h) h h' ∧
  if decide (q = 0) then arena_live h' = arena_live h
  else arena_live h !! q = None ∧ arena_live h' = <[q := size]> (arena_live h) ∧
    ∀ k, 0 ≤ k < size → get_byte h' (q + k) = 0.

Lemma mapped_wf h :
  arena_wf h → arena h = 0 →
  arena_wf (mkArena (default 0 mmap) (arenaUsed h) (bytes h) (allocThreadSeen h) (allocKeyReady h) (arena_live h)).
Proof.
  intros Hw E. destruct (wf_unmapped h Hw E) as [Eu El].
  destruct mmap as [a|]; cbn [default id]; [|by destruct h; cbn in *; subst].
  destruct (Hmmap a eq_refl) as (Ha0 & Ha1 & Ha2).
  split; cbn [arena arenaUsed arena_live]; rewrite ?Eu, ?El.
  - split_and!; [lia|done|done].
  - unfold ARENA_SIZE. split; [lia|done].
  - lia.
  - by intros p n Hp%lookup_empty_Some.
  - by intros p n q m Hp%lookup_empty_Some.
  - intros b Hb. apply (wf_fresh h Hw). lia.
Qed.

Lemma arena_alloc_gives size h :
  arena_wf h → 0 ≤ size < 2 ^ 64 - 2 ^ 26 → gives size (arena_alloc mmap size h).1 h (arena_alloc mmap size h).2.
Proof.
  intros Hw Hs. unfold arena_alloc. destruct (arena_need_spec size Hs) as [Hn Hn16].
  set (h0 := if arena h =? 0 then _ else h).
  assert (arena_wf h0 ∧ arena_live h0 = arena_live h ∧ bytes h0 = bytes h) as (Hw0 & El & Eb).
  { unfold h0. destruct (Z.eqb_spec (arena h) 0); [split_and!; [by apply mapped_wf|done..]|done]. }
  clearbody h0. destruct (wf_arena h0 Hw0) as (HA1 & HA2 & HA3). destruct (wf_used h0 Hw0) as (HU & HU16).
  unfold ARENA_SIZE in *.
  assert (u64 (arenaUsed h0 + arena_need size) = arenaUsed h0 + arena_need size) as -> by (apply (uwrap_small 64); lia).
  destruct (Z.eqb_spec (arena h0) 0) as [E0|E0]; cbn [orb fst snd].
  { split_and!; [done| |by rewrite decide_True]. intros p n k _ _. unfold get_byte. by rewrite Eb. }
  destruct (Z.ltb_spec (2 ^ 25) (arenaUsed h0 + arena_need size)) as [Hbig|Hfit]; cbn [fst snd].
  { split_and!; [done| |by rewrite decide_True]. intros p n k _ _. unfold get_byte. by rewrite Eb. }
  assert (u64 (arenaUsed h0 + u64 (arena_need size + 16)) = arenaUsed h0 + arena_need size + 16) as ->.
  { unfold u64. rewrite !uwrap_small by (rewrite ?uwrap_small by lia; lia). lia. }
  set (q := arena h0 + arenaUsed h0 + 8). set (h' := set_bytes _ _).
  assert (∀ b, (b < q - 8 ∨ q ≤ b) → get_byte h' b = get_byte h0 b) as Hout.
  { intros b Hb. unfold get_byte, h'. cbn [set_bytes bytes]. by rewrite put_bytes_out by lia. }
  assert (arena_live h0 !! q = None) as Hq.
  { destruct (arena_live h0 !! q) as [m|] eqn:Eq; [|done]. pose proof (wf_block h0 Hw0 q m Eq). unfold q in *. lia. }
  split_and!.
  - split.
    + cbn. unfold ARENA_SIZE. lia.
    + cbn. unfold ARENA_SIZE. split; [lia|]. rewrite Z.add_mod, (Z.add_mod (arenaUsed h0)), HU16, Hn16 by lia. done.
    + cbn. lia.
    + intros p n Hp. cbn [h' set_bytes arena_live arena arenaUsed] in *. apply lookup_insert_Some in Hp as [[<- <-]|[Hne Hp]].
      * unfold ARENA_SIZE. split_and!; [lia|lia|lia|lia| |].
        -- apply (load_put 8 (q - 8) size h0); [|done]. change (256 ^ Z.of_nat 8) with (2 ^ 64). lia.
        -- unfold q. rewrite Z.add_mod, (Z.add_mod (arena h0)), HA3, HU16 by lia. done.
      * pose proof (wf_block h0 Hw0 p n Hp) as (? & ? & ? & ? & Hld & ?). split_and!; try done; try lia.
        rewrite <- Hld. apply load_bytes_ext. intros b Hb. apply Hout. left. unfold q. lia.
    + intros p n p' n' Hp Hp' Hne. cbn [h' set_bytes arena_live] in *.
      apply lookup_insert_Some in Hp as [[<- <-]|[Hne1 Hp]]; apply lookup_insert_Some in Hp' as [[<- <-]|[Hne2 Hp']]; [done| | |].
      * pose proof (wf_block h0 Hw0 p' n' Hp'). unfold q in *. lia.
      * pose proof (wf_block h0 Hw0 p n Hp). unfold q in *. lia.
      * by apply (wf_apart h0 Hw0).
    + intros a Ha. cbn [h' set_bytes arena arenaUsed] in Ha. rewrite Hout by (unfold q; lia). apply (wf_fresh h0 Hw0). lia.
  - intros p n k Hp Hk. rewrite <- El in Hp. pose proof (wf_block h0 Hw0 p n Hp). rewrite Hout by (unfold q; lia).
    unfold get_byte. by rewrite Eb.
  - rewrite decide_False by (unfold q; lia). cbn [h' set_bytes arena_live]. rewrite El in *. split_and!; [done..|].
    intros k Hk. rewrite Hout by lia. apply (wf_fresh h0 Hw0). unfold q. lia.
Qed.

Local Abbreviation malloc := (malloc mmap setspecific).
Local Abbreviation calloc := (calloc mmap setspecific).
Local Abbreviation realloc := (realloc mmap setspecific).
Local Abbreviation malloc_aligned := (malloc_aligned mmap setspecific).

Lemma malloc_gives size h :
  arena_wf h → 0 ≤ size < 2 ^ 64 - 2 ^ 26 → gives size (malloc size h).1 h (malloc size h).2.
Proof.
  intros Hw Hs. unfold ArenaAlloc.malloc. destruct (negb _ && _); [|by apply arena_alloc_gives].
  set (h0 := mkArena _ _ _ _ _ _). assert (arena_wf h0) as Hw0 by (destruct Hw; by split).
  destruct (Hset h0 Hw0) as (Hw1 & El & Hk). destruct (arena_alloc_gives size _ Hw1 Hs) as (Hw2 & Hk2 & Hg).
  rewrite El in *. change (arena_live h0) with (arena_live h) in *. split_and!; [done| |done].
  by eapply keeps_blocks_trans.
Qed.

Lemma free_wf h p : arena_wf h → arena_wf (free p h) ∧ keeps_blocks (arena_live h) h (free p h).
Proof. intros Hw. split; [apply set_live_wf; [done|apply delete_subseteq]|by intros ? ? ? _ _]. Qed.

(** Copying from one live block to another. *)
Lemma memcpy_spec n dst src h q m p m' k0 :
  arena_wf h → arena_live h !! q = Some m → arena_live h !! p = Some m' → p ≠ q →
  dst = q + k0 → src = p + k0 → 0 ≤ k0 → k0 + Z.of_nat n ≤ m → k0 + Z.of_nat n ≤ m' →
  let h' := memcpy n dst src h in
  arena_wf h' ∧ arena_live h' = arena_live h ∧
  (∀ k, k0 ≤ k < k0 + Z.of_nat n → get_byte h' (q + k) = get_byte h (p + k)) ∧
  (∀ b, (b < dst ∨ dst + Z.of_nat n ≤ b) → get_byte h' b = get_byte h b).
Proof.
  revert dst src h k0. induction n as [|n IH]; intros dst src h k0 Hw Hq Hp Hpq -> -> Hk Hm Hm'; cbn [memcpy].
  { split_and!; try done. intros k Hk'. lia. }
  set (h1 := arena_store h (q + k0) _).
  assert (arena_wf h1) as Hw1 by (apply store_wf; [done|]; exists q, m; split; [done|lia]).
  destruct (IH (q + k0 + 1) (p + k0 + 1) h1 (k0 + 1)) as (Hw2 & El & Hin & Hout); [done|done|done|done|lia..|].
  pose proof (wf_apart h Hw p m' q m Hp Hq Hpq) as Hap.
  split_and!; [done|done| |].
  - intros k Hk'. destruct (decide (k = k0)) as [->|].
    + rewrite Hout by lia. unfold h1. rewrite get_store. by rewrite decide_True.
    + rewrite Hin by lia. unfold h1. rewrite get_store. by rewrite decide_False by lia.
  - intros b Hb. rewrite Hout by lia. unfold h1. rewrite get_store. by rewrite decide_False by lia.
Qed.

Lemma realloc_spec h p m n :
  arena_wf h → 0 ≤ n < 2 ^ 64 - 2 ^ 26 → arena_live h !! p = Some m → let '(q, h') := realloc p n h in
  arena_wf h' ∧
  if decide (q = 0) then arena_live h' = arena_live h ∧ keeps_blocks (arena_live h) h h'
  else delete p (arena_live h) !! q = None ∧ arena_live h' = <[q := n]> (delete p (arena_live h)) ∧
    keeps_blocks (delete p (arena_live h)) h h' ∧
    ∀ k, 0 ≤ k < m → k < n → get_byte h' (q + k) = get_byte h (p + k).
Proof.
  intros Hw Hn Hp. unfold ArenaAlloc.realloc. destruct (malloc_gives n h Hw Hn) as (Hw1 & Hk1 & Hg).
  destruct (malloc n h) as [q h1]. cbn [fst snd] in *.
  pose proof (wf_block h Hw p m Hp) as (Hp8 & Hm & _). destruct (wf_arena h Hw) as [HA _].
  rewrite (proj2 (Z.eqb_neq p 0)) by lia. cbn [negb]. rewrite andb_true_r.
  destruct (Z.eqb_spec q 0) as [->|Hq]; cbn [negb].
  { rewrite decide_True in * by done. done. }
  rewrite decide_False in * by done. destruct Hg as (Hfresh & El & _).
  assert (p ≠ q) as Hpq by congruence.
  assert (arena_live h1 !! p = Some m) as Hp1 by by rewrite El, lookup_insert_ne.
  assert (arena_live h1 !! q = Some n) as Hq1 by (rewrite El; apply lookup_insert_eq).
  assert (malloc_usable_size p h1 = m) as ->.
  { unfold malloc_usable_size. rewrite (proj2 (Z.eqb_neq p 0)) by lia. apply (wf_block h1 Hw1 p m Hp1). }
  set (c := if m <? n then m else n). assert (c = Z.min m n) as Ec by (unfold c; destruct (Z.ltb_spec m n); lia).
  destruct (memcpy_spec (Z.to_nat c) q p h1 q n p m 0) as (Hw2 & El2 & Hin & Hout); [done..|lia|lia|lia|lia|lia|].
  set (h2 := memcpy _ _ _ _) in *.
  split; [apply set_live_wf; [done|apply delete_subseteq]|]. cbn [set_live arena_live].
  rewrite El2, El, delete_insert_ne by done. split_and!; [|done| |].
  - apply lookup_delete_None. by right.
  - intros p' n' k Hp' Hk. apply lookup_delete_Some in Hp' as [Hne Hp'].
    change (get_byte h2 (p' + k) = get_byte h (p' + k)).
    assert (arena_live h1 !! p' = Some n') as Hp1' by (rewrite El; apply lookup_insert_Some; right; split; [congruence|done]).
    rewrite Hout; [by apply (Hk1 p' n')|].
    destruct (wf_apart h1 Hw1 p' n' q n Hp1' Hq1); [congruence|lia..].
  - intros k Hk Hkn. change (get_byte h2 (q + k) = get_byte h (p + k)). rewrite Hin by lia. by apply (Hk1 p m).
Qed.

Lemma realloc_wf h p n :
  arena_wf h → 0 ≤ n < 2 ^ 64 - 2 ^ 26 → p = 0 ∨ is_Some (arena_live h !! p) → arena_wf (realloc p n h).2.
Proof.
  intros Hw Hn [->|[m Hp]].
  - unfold ArenaAlloc.realloc. destruct (malloc_gives n h Hw Hn) as (Hw1 & _).
    destruct (malloc n h) as [q h1]. cbn [Z.eqb negb]. by rewrite andb_false_r.
  - pose proof (realloc_spec h p m n Hw Hn Hp) as Hr. destruct (realloc p n h). apply Hr.
Qed.

(** The allocator keeps the promises the malloc test relies on. *)
Lemma arena_malloc_laws : @MallocLaws (ArenaMallocs mmap setspecific).
Proof.
  refine {| m_ok := arena_wf : @m_heap (ArenaMallocs mmap setspecific) → Prop;
            live := arena_live : @m_heap (ArenaMallocs mmap setspecific) → gmap Z Z |}.
  - intros h p n q m Hw Hp Hq Hne. destruct (wf_apart h Hw p n q m Hp Hq Hne); lia.
  - intros h Hw. destruct (arena_live h !! 0) as [n|] eqn:E; [|done]. pose proof (wf_block h Hw 0 n E).
    destruct (wf_arena h Hw). lia.
  - intros h a v Hw Ha Hv. split_and!; [by apply store_wf|done|]. intros b _. apply get_store.
  - intros h n Hw Hn. cbn [m_malloc ArenaMallocs]. destruct (malloc_gives n h Hw ltac:(lia)) as (Hw1 & Hk & Hg).
    destruct (malloc n h) as [q h']. cbn [fst snd] in *. split_and!; [done..|].
    destruct (decide (q = 0)); [done|]. destruct Hg as (? & ? & _). done.
  - intros h n. cbn. unfold ArenaAlloc.realloc. destruct (malloc n h) as [q h']. cbn [Z.eqb negb]. by rewrite andb_false_r.
  - intros h p m n Hw Hn Hp. pose proof (realloc_spec h p m n Hw ltac:(lia) Hp) as Hr.
    cbn [m_realloc ArenaMallocs]. destruct (realloc p n h) as [q h']. destruct Hr as (? & Hr). split; [done|].
    destruct (decide (q = 0)); [done|]. destruct Hr as (? & ? & ? & ?). done.
  - intros h Hw. destruct (free_wf h 0 Hw) as [Hw' Hk]. split_and!; [done| |done]. cbn. apply delete_id.
    destruct (arena_live h !! 0) as [n|] eqn:E; [|done]. pose proof (wf_block h Hw 0 n E). destruct (wf_arena h Hw). lia.
  - intros h p m Hw Hp. destruct (free_wf h p Hw) as [Hw' Hk]. split_and!; [done|done|].
    intros p' n k Hp' Hk'. apply (Hk p' n); [|done]. by apply lookup_delete_Some in Hp' as [_ ?].
  - intros h Hw. split_and!; [done|done|by intros ? ? ? _ _].
Defined.

Lemma calloc_spec n size h :
  arena_wf h → 0 ≤ n < 2 ^ 64 → 0 ≤ size < 2 ^ 64 →
  if 2 ^ 64 <=? n * size then calloc n size h = (0, h)
  else n * size < 2 ^ 64 - 2 ^ 26 → gives (n * size) (calloc n size h).1 h (calloc n size h).2.
Proof.
  intros Hw Hn Hs. unfold ArenaAlloc.calloc.
  assert ((2 ^ 64 <=? n * size) = negb (size =? 0) && ((2 ^ 64 - 1) / size <? n)) as ->.
  { destruct (Z.eqb_spec size 0) as [->|]; cbn [negb andb]; [lia|].
    pose proof (Z.div_mod (2 ^ 64 - 1) size ltac:(lia)). pose proof (Z.mod_pos_bound (2 ^ 64 - 1) size ltac:(lia)).
    set (d := (2 ^ 64 - 1) / size) in *. destruct (Z.ltb_spec d n); [apply Z.leb_le|apply Z.leb_gt]; nia. }
  destruct (_ && _); [done|]. intros Hp. unfold u64. rewrite uwrap_small by nia. apply malloc_gives; [done|nia].
Qed.

(** An aligned block lies inside the block it was cut from. *)
Lemma malloc_aligned_spec k size h :
  arena_wf h → 0 ≤ k → 0 ≤ size → size + 2 ^ k < 2 ^ 64 - 2 ^ 26 → let '(q, h') := malloc_aligned (2 ^ k) size h in
  arena_wf h' ∧ keeps_blocks (arena_live h) h h' ∧
  (q ≠ 0 → q mod 2 ^ k = 0 ∧ ∃ p, arena_live h !! p = None ∧ arena_live h' = <[p := size + 2 ^ k]> (arena_live h) ∧
     p ≤ q ∧ q + size ≤ p + (size + 2 ^ k)).
Proof.
  intros Hw Hk Hs Hmax. assert (1 ≤ 2 ^ k) as Hk2 by (pose proof (Z.pow_pos_nonneg 2 k); lia).
  assert (k < 64) by (apply (Z.pow_lt_mono_r_iff 2); lia).
  unfold ArenaAlloc.malloc_aligned, u64 at 1. rewrite (uwrap_small 64 (size + 2 ^ k)) by lia.
  destruct (malloc_gives (size + 2 ^ k) h Hw ltac:(lia)) as (Hw1 & Hk1 & Hg). destruct (malloc (size + 2 ^ k) h) as [p h1].
  cbn [fst snd] in *. destruct (Z.eqb_spec p 0) as [->|Hp]; [done|]. rewrite decide_False in Hg by done.
  destruct Hg as (Hfresh & El & _). split_and!; [done..|]. intros _.
  assert (arena_live h1 !! p = Some (size + 2 ^ k)) as Hp1 by (rewrite El; apply lookup_insert_eq).
  pose proof (wf_block h1 Hw1 _ _ Hp1) as (Hlo & _ & _ & Hhi & _). destruct (wf_arena h1 Hw1) as (HA0 & HA1 & _).
  unfold ARENA_SIZE in Hhi, HA1. set (x := p + 2 ^ k - 1).
  assert (Z.land (u64 (u64 (p + 2 ^ k) - 1)) (u64 (Z.lnot (u64 (2 ^ k - 1)))) = x / 2 ^ k * 2 ^ k) as ->.
  { unfold u64. rewrite (uwrap_small 64 (p + 2 ^ k)), (uwrap_small 64 (2 ^ k - 1)) by lia. fold x.
    rewrite (uwrap_small 64 x) by (unfold x; lia).
    apply Z.bits_inj'. intros n Hn. rewrite Z.land_spec. unfold uwrap.
    rewrite <- (Z.shiftl_mul_pow2 _ k), <- (Z.shiftr_div_pow2 _ k), Z.shiftl_spec by lia.
    assert (0 ≤ x < 2 ^ 64) as Hx by (unfold x; lia).
    destruct (decide (n < 64)) as [H64|H64].
    - rewrite Z.mod_pow2_bits_low, Z.lnot_spec by lia. replace (2 ^ k - 1) with (Z.ones k) by (rewrite Z.ones_equiv; lia).
      rewrite Z.testbit_ones_nonneg by lia. destruct (Z.ltb_spec n k); cbn [negb].
      + by rewrite andb_false_r, Z.testbit_neg_r by lia.
      + rewrite andb_true_r, Z.shiftr_spec by lia. f_equal. lia.
    - rewrite Z.mod_pow2_bits_high, andb_false_r by lia. rewrite Z.shiftr_spec by lia. replace (n - k + k) with n by lia.
      symmetry. destruct (decide (x = 0)) as [->|]; [apply Z.testbit_0_l|]. apply Z.bits_above_log2; [lia|].
      apply Z.log2_lt_pow2; [lia|]. apply Z.lt_le_trans with (2 ^ 64); [lia|]. apply Z.pow_le_mono_r; lia. }
  pose proof (Z.div_mod x (2 ^ k) ltac:(lia)). pose proof (Z.mod_pos_bound x (2 ^ k) ltac:(lia)).
  split; [by rewrite Z.mod_mul by lia|]. exists p. split_and!; [done|done|unfold x in *; lia|unfold x in *; lia].
Qed.
End arena.

(** ** The allocator *)

(** The arena before the first allocation. *)
Definition arena_empty : arena_t := mkArena 0 0 ∅ false true ∅.

Lemma arena_empty_wf : arena_wf arena_empty.
Proof.
  split; cbn; try done.
Qed.

(** What the allocator relies on: mmap() gives an aligned address with room to
    the end of the address space; pthread_setspecific() leaves the program's
    blocks alone. The blocks it allocates for itself are not among them. *)
Definition good_mmap (mmap : option Z) : Prop :=
  ∀ a, mmap = Some a → 0 < a ∧ a + ARENA_SIZE + 64 < 2 ^ 64 ∧ a mod 16 = 0.
Definition good_setspecific (setspecific : arena_t → arena_t) : Prop :=
  ∀ h, arena_wf h → arena_wf (setspecific h) ∧ arena_live (setspecific h) = arena_live h ∧
    keeps_blocks (arena_live h) h (setspecific h).

(** C16: The empty arena is well formed, and the operations keep it so: live
    blocks behind a header with their size, inside the arena, apart from each
    other and from each other's headers, and nothing written beyond the part
    handed out. This holds of malloc, calloc, realloc, reallocf and
    _malloc_aligned for a request of fewer than 2^64 - 2^26 bytes, where
    realloc is given NULL or a live block, of free, and of a store into a live
    block. A request in the last 64 MiB below 2^64, where the sums of
    arena_alloc may wrap around, is not covered: malloc(SIZE_MAX) in an empty
    arena leaves it ill-formed. The mapping is taken to be aligned to 16 and
    to end before the last 64 bytes of the address space, and
    pthread_setspecific to leave the program's blocks alone. *)
Theorem arena_stays_well_formed mmap setspecific h :
  good_mmap mmap → good_setspecific setspecific → arena_wf h →
  arena_wf arena_empty ∧
  (∀ size, 0 ≤ size < 2 ^ 64 - 2 ^ 26 → arena_wf (malloc mmap setspecific size h).2) ∧
  (∀ n size, 0 ≤ n → 0 ≤ size → n * size < 2 ^ 64 - 2 ^ 26 → arena_wf (calloc mmap setspecific n size h).2) ∧
  (∀ p size, p = 0 ∨ is_Some (arena_live h !! p) → 0 ≤ size < 2 ^ 64 - 2 ^ 26 →
     arena_wf (realloc mmap setspecific p size h).2 ∧ arena_wf (reallocf mmap setspecific p size h).2) ∧
  (∀ k size, 0 ≤ k → 0 ≤ size → size + 2 ^ k < 2 ^ 64 - 2 ^ 26 →
     arena_wf (malloc_aligned mmap setspecific (2 ^ k) size h).2) ∧
  (∀ p, arena_wf (free p h)) ∧
  (∀ a v, in_block (arena_live h) a → arena_wf (arena_store h a v)) ∧
  ¬ arena_wf (malloc (Some 65536) id (2 ^ 64 - 1) arena_empty).2.
Proof.
  intros Hm Hs Hw. split_and!.
  - apply arena_empty_wf.
  - intros size Hz. by apply malloc_gives.
  - intros n size Hn Hz Hp. destruct (decide (size = 0)) as [->|].
    { unfold calloc. cbn [Z.eqb negb andb]. rewrite Z.mul_0_r. by apply malloc_gives. }
    assert (n < 2 ^ 64) by nia. assert (size < 2 ^ 64 ∨ n = 0) as [Hz2|Hn0] by nia.
    + pose proof (calloc_spec mmap setspecific Hm Hs n size h Hw ltac:(lia) ltac:(lia)) as Hc.
      rewrite (proj2 (Z.leb_gt _ _)) in Hc by lia. by apply Hc.
    + subst n. unfold calloc. rewrite (proj2 (Z.ltb_ge _ 0)), andb_false_r by (apply Z.div_pos; lia). by apply malloc_gives.
  - intros p size Hp Hz. pose proof (realloc_wf mmap setspecific Hm Hs h p size Hw Hz Hp). done.
  - intros k size Hk Hz Hb. pose proof (malloc_aligned_spec mmap setspecific Hm Hs k size h Hw Hk Hz Hb) as Ha.
    destruct (malloc_aligned _ _ _ _ _). apply Ha.
  - intros p. by apply free_wf.
  - intros a v Ha. by apply store_wf.
  - intros Hw'. pose proof (wf_block _ Hw' 65544 (2 ^ 64 - 1) ltac:(by vm_compute)) as (_ & _ & Hin & _).
    by vm_compute in Hin.
Qed.

(** Calloc returns null for a product above SIZE_MAX, and otherwise null or
    zeroed memory; realloc returns null and leaves everything as it was, or
    moves the contents up to the smaller size; no other live block changes. *)
Theorem arena_contents mmap setspecific h n size p m :
  good_mmap mmap → good_setspecific setspecific → arena_wf h →
  0 ≤ n < 2 ^ 64 → 0 ≤ size < 2 ^ 64 - 2 ^ 26 → arena_live h !! p = Some m →
  (2 ^ 64 ≤ n * size → calloc mmap setspecific n size h = (0, h)) ∧
  (n * size < 2 ^ 64 - 2 ^ 26 → let '(q, h') := calloc mmap setspecific n size h in
     keeps_blocks (arena_live h) h h' ∧ (q ≠ 0 → ∀ k, 0 ≤ k < n * size → get_byte h' (q + k) = 0)) ∧
  (let '(q, h') := realloc mmap setspecific p size h in
     if decide (q = 0) then arena_live h' = arena_live h ∧ keeps_blocks (arena_live h) h h'
     else arena_live h' = <[q := size]> (delete p (arena_live h)) ∧ keeps_blocks (delete p (arena_live h)) h h' ∧
       ∀ k, 0 ≤ k < Z.min m size → get_byte h' (q + k) = get_byte h (p + k)).
Proof.
  intros Hm Hs Hw Hn Hz Hp. pose proof (calloc_spec mmap setspecific Hm Hs n size h Hw ltac:(lia) ltac:(lia)) as Hc.
  split_and!.
  - intros Hb. by rewrite (proj2 (Z.leb_le _ _)) in Hc by lia.
  - intros Hb. rewrite (proj2 (Z.leb_gt _ _)) in Hc by lia. destruct (Hc Hb) as (_ & Hk & Hg).
    destruct (calloc _ _ _ _ _) as [q h']. cbn [fst snd] in *. split; [done|]. intros Hq.
    rewrite decide_False in Hg by done. apply Hg.
  - pose proof (realloc_spec mmap setspecific Hm Hs h p m size Hw ltac:(lia) Hp) as Hr.
    destruct (realloc _ _ _ _ _) as [q h']. destruct Hr as (_ & Hr). destruct (decide (q = 0)); [done|].
    destruct Hr as (_ & ? & ? & Hb). split_and!; try done. intros k Hk. apply Hb; lia.
Qed.

(** C15: The malloc test run on this allocator never reports corruption, for any
    numbers from rand_r() and any number of rounds, also when the arena is used
    up; its total is the bytes it holds and stays below 2^32, and a round that
    freed everything leaves just the blocks of the edge cases. The repository
    does not link the two, and the hook malloc_test(), which this allocator
    lacks, is taken to do nothing; numbers from rand_r() are not negative, and
    mmap() and pthread_setspecific() behave as for the next theorem. *)
Theorem test_malloc_on_arena mmap setspecific rand_r n :
  good_mmap mmap → good_setspecific setspecific → (∀ s, 0 ≤ (rand_r s).1) →
  ∃ freed t, @malloc_main (ArenaMallocs mmap setspecific) rand_r n arena_empty = inr (freed, t) ∧
    t_total t = sum_sz (t_allocs t) ∧ t_total t < 2 ^ 32 ∧
    (freed = true → t_total t = 0 ∧
       arena_live (@t_heap (ArenaMallocs mmap setspecific) t) =
       arena_live (@edge_cases (ArenaMallocs mmap setspecific) arena_empty)).
Proof.
  intros Hm Hs Hr.
  destruct (@main_never_stops (ArenaMallocs mmap setspecific) (arena_malloc_laws mmap setspecific Hm Hs)
    rand_r n arena_empty Hr arena_empty_wf) as (freed & t & E & Ht & Hb & _ & Hf).
  exists freed, t. split_and!; [done..|]. intros Ef. destruct (Hf Ef) as [Hl H0]. split; [exact H0|exact Hl].
Qed.

(** ** Where it is no malloc *)

(** Blocks are aligned to 8 bytes only: 16 is what a block of any type needs. *)
Lemma arena_blocks_misaligned mmap setspecific size h :
  good_mmap mmap → good_setspecific setspecific → arena_wf h → 0 ≤ size < 2 ^ 64 - 2 ^ 26 →
  (malloc mmap setspecific size h).1 ≠ 0 → (malloc mmap setspecific size h).1 mod 16 = 8.
Proof.
  intros Hm Hs Hw Hz Hq. destruct (malloc_gives mmap setspecific Hm Hs size h Hw Hz) as (Hw' & _ & Hg).
  rewrite decide_False in Hg by done. destruct Hg as (_ & El & _).
  apply (wf_block _ Hw' _ size). rewrite El. apply lookup_insert_eq.
Qed.

(** A request of nearly 2^64 bytes is granted with no bytes behind it, and
    realloc of an aligned block finds no header and copies nothing. *)
Lemma arena_wraps_and_forgets :
  let malloc := malloc (Some 65536) id in
  (∃ p, (malloc (2 ^ 64 - 1) arena_empty).1 = p ∧ p ≠ 0 ∧
     arenaUsed (malloc (2 ^ 64 - 1) arena_empty).2 = 32) ∧
  (let '(p, h) := malloc_aligned (Some 65536) id 64 16 arena_empty in
   let h := arena_store h p 7 in
   let '(q, h') := realloc (Some 65536) id p 32 h in get_byte h p = 7 ∧ q ≠ 0 ∧ get_byte h' q = 0).
Proof. cbv zeta. split; [eexists; split; [reflexivity|]; by vm_compute|by vm_compute]. Qed.

(** ** Witnesses *)

Lemma arena_at_64K : good_mmap (Some 65536).
Proof. intros a [= <-]. unfold ARENA_SIZE. by vm_compute. Qed.
Lemma setspecific_id : good_setspecific id.
Proof. intros h Hw. split_and!; [done..|]. by intros ? ? ? _ _. Qed.

(** A pthread_setspecific() that allocates a node of 48 bytes and writes it:
    its block is none of the program's. *)
Definition setspecific_node (h : arena_t) : arena_t :=
  let '(q, h1) := arena_alloc (Some 65536) 48 h in
  set_live (arena_live h) (if q =? 0 then h1 else arena_store h1 q 1).

Lemma setspecific_node_good : good_setspecific setspecific_node.
Proof.
  intros h Hw. unfold setspecific_node.
  destruct (arena_alloc_gives (Some 65536) arena_at_64K 48 h Hw ltac:(lia)) as (Hw1 & Hk1 & Hg).
  destruct (arena_alloc (Some 65536) 48 h) as [q h1]. cbn [fst snd] in *. destruct (Z.eqb_spec q 0) as [->|Hq].
  { rewrite decide_True in Hg by done. split_and!; [|done|exact Hk1]. apply set_live_wf; [done|by rewrite Hg]. }
  rewrite decide_False in Hg by done. destruct Hg as (Hfresh & El & _).
  assert (arena_live h1 !! q = Some 48) as Hq1 by (rewrite El; apply lookup_insert_eq).
  split_and!; [|done|].
  - apply set_live_wf; [apply store_wf; [done|by exists q, 48; split; [|lia]]|]. cbn [arena_store set_bytes arena_live].
    rewrite El. by apply insert_subseteq.
  - intros p n k Hp Hk. change (get_byte (arena_store h1 q 1) (p + k) = get_byte h (p + k)).
    assert (p ≠ q) as Hpq by congruence.
    assert (arena_live h1 !! p = Some n) as Hp1 by (rewrite El, lookup_insert_ne by done; done).
    rewrite get_store, decide_False; [by eapply Hk1|]. intros ->. destruct (wf_apart h1 Hw1 _ _ _ _ Hp1 Hq1 Hpq); lia.
Qed.

(** One block of 10 bytes, the first of which is 5. *)
Definition arena_used : arena_t := arena_store (malloc (Some 65536) id 10 arena_empty).2 65544 5.
Lemma arena_used_wf : arena_wf arena_used.
Proof.
  apply store_wf; [apply (malloc_gives _ _ arena_at_64K setspecific_id); [apply arena_empty_wf|lia]|].
  exists 65544, 10. split; [by vm_compute|lia].
Qed.

Lemma arena_stays_well_formed_witness :
  arena_wf (malloc (Some 65536) id 100 arena_used).2 ∧ arena_wf (realloc (Some 65536) id 65544 30 arena_used).2.
Proof.
  destruct (arena_stays_well_formed (Some 65536) id arena_used arena_at_64K setspecific_id arena_used_wf)
    as (_ & Hm & _ & Hr & _).
  split; [apply Hm; lia|apply Hr; [right; by vm_compute; eauto|lia]].
Defined.

Lemma arena_contents_witness :
  calloc (Some 65536) id (2 ^ 32) (2 ^ 32) arena_used = (0, arena_used) ∧
  let '(q, h') := realloc (Some 65536) id 65544 (2 ^ 32) arena_used in q = 0 ∧ arena_live h' = arena_live arena_used.
Proof.
  destruct (arena_contents (Some 65536) id arena_used (2 ^ 32) (2 ^ 32) 65544 10 arena_at_64K setspecific_id arena_used_wf
    ltac:(lia) ltac:(lia) ltac:(by vm_compute)) as (Hc & _ & Hr).
  split; [apply Hc; lia|]. destruct (realloc _ _ _ _ _) as [q h'] eqn:E.
  assert (q = 0) as -> by (change (q = 0); assert ((realloc (Some 65536) id 65544 (2 ^ 32) arena_used).1 = 0) as E0 by (by vm_compute); by rewrite E in E0).
  split; [done|]. by destruct Hr as [-> _].
Defined.

Definition rand_lcg (s : Z) : Z * Z := let s := u32 (s * 1103515245 + 12345) in (s / 65536 mod 32768, s).
Lemma rand_lcg_pos s : 0 ≤ (rand_lcg s).1.
Proof. unfold rand_lcg; cbn. apply Z.mod_pos_bound. lia. Qed.

Lemma test_malloc_on_arena_witness :
  ∃ freed t, @malloc_main (ArenaMallocs (Some 65536) setspecific_node) rand_lcg 3 arena_empty = inr (freed, t) ∧
    t_total t = sum_sz (t_allocs t).
Proof.
  destruct (test_malloc_on_arena (Some 65536) setspecific_node rand_lcg 3 arena_at_64K setspecific_node_good rand_lcg_pos)
    as (freed & t & E & Ht & _).
  exists freed, t. split; [exact E|exact Ht].
Defined.
