(* ===== verification/AccuracyRefs.v ===== *)
(** * Reference values of the accuracy tests (src/libc/math/accuracy-refs.h)

    The tables of the functions whose results are algebraic or exact: sqrt,
    cbrt, hypot, fmod and remainder with their float variants, as the header
    writes them, and the distances allowed. The tables of the transcendental
    functions stay parameters of the tests. *)

From Stdlib Require Import SpecFloat.
From S2P Require Import Prelude.

Record math_ref1 := mkRef1 { ref1_x : spec_float; ref1_r : spec_float }.
Record math_ref2 := mkRef2 { ref2_x : spec_float; ref2_y : spec_float; ref2_r : spec_float }.

(** A hexadecimal constant of type double: m times 2^e. *)
Definition lit (m e : Z) : spec_float := binary_normalize 53 1024 m e false.

Definition ref_sqrt : list math_ref1 := [
  mkRef1 (lit 0x1 1) (lit 0x16a09e667f3bcd (-52));
  mkRef1 (lit 0x1 (-1074)) (lit 0x1 (-537));
  mkRef1 (lit 0x137951852f443e 457) (lit 0x18f698cdf9d0ea 202);
  mkRef1 (lit 0x1a412c16ccf2d3 257) (lit 0x1cfc3b63fb6e39 102);
  mkRef1 (lit 0x13c48505471e1e (-893)) (lit 0x19269db58e815b (-473));
  mkRef1 (lit 0x1143fa81b43859 (-237)) (lit 0x178158d1268f2a (-145));
  mkRef1 (lit 0x19ae5949225a2a 449) (lit 0x1caabcbf9e56c 202);
  mkRef1 (lit 0x18734410881443 (-603)) (lit 0x1bf8b83bb792c8 (-328));
  mkRef1 (lit 0x1906c14cfa1358 (-535)) (lit 0x1c4c97fb90bed1 (-294));
  mkRef1 (lit 0x188c6e7c86e8ea (-260)) (lit 0x13d18fe1e9b483 (-156));
  mkRef1 (lit 0x178ae633ffc2cf (-969)) (lit 0x1b728bf4674759 (-511));
  mkRef1 (lit 0x1b3e2f0d241ae3 885) (lit 0x1d869af30a20e1 416);
  mkRef1 (lit 0x19f6113e19ba39 357) (lit 0x1cd2a845c0c651 152);
  mkRef1 (lit 0x13d7151be1b237 (-445)) (lit 0x19326a09b0aa32 (-249))
].
Definition REF_sqrt_ULPS : Z := 0.

Definition ref_sqrtf : list math_ref1 := [
  mkRef1 (lit 0x1 1) (lit 0x16a09e6 (-24));
  mkRef1 (lit 0 0) (lit 0 0);
  mkRef1 (lit 0 0) (lit 0 0);
  mkRef1 (lit 0 0) (lit 0 0);
  mkRef1 (lit 0x1507e7e 76) (lit 0x125801c 26);
  mkRef1 (lit 0 0) (lit 0 0);
  mkRef1 (lit 0 0) (lit 0 0);
  mkRef1 (lit 0 0) (lit 0 0);
  mkRef1 (lit 0 0) (lit 0 0);
  mkRef1 (lit 0 0) (lit 0 0)
].
Definition REF_sqrtF_ULPS : Z := 0.

Definition ref_cbrt : list math_ref1 := [
  mkRef1 (lit 0x1fffada2f9e (-1070)) (lit 0x1fffe48b9111e4 (-396));
  mkRef1 (lit 0x1b 0) (lit 0x18 (-3));
  mkRef1 (lit (-0x1) 1) (lit (-0x1428a2f98d728b) (-52));
  mkRef1 (lit (-0x11ad8911826ad4) (-628)) (lit (-0x108a723b88ec6c) (-244));
  mkRef1 (lit 0x148702301c813d 801) (lit 0x15e7910bf22aec 232);
  mkRef1 (lit 0x12eefdb0c06af3 272) (lit 0x10ec6be7740d17 56);
  mkRef1 (lit (-0x10357289af2454) (-348)) (lit (-0x143efc7761f43b) (-151));
  mkRef1 (lit (-0x112a9a64db765d) (-1017)) (lit (-0x14a31cc5abf287) (-374));
  mkRef1 (lit 0x1dbc377a760354 369) (lit 0x18c8d5ce8ff813 88);
  mkRef1 (lit (-0x1bfc8474829df7) (-1011)) (lit (-0x1849ed4884be93) (-372));
  mkRef1 (lit (-0x1af27eb38843) (-596)) (lit (-0x13095166348dfb) (-236));
  mkRef1 (lit 0x1c4d26284592a9 208) (lit 0x1eb76062ae0b37 34);
  mkRef1 (lit (-0x1c8c5a2fa2679d) (-887)) (lit (-0x1ece2d00977358) (-331));
  mkRef1 (lit 0x108bd9bf188e1e (-862)) (lit 0x102e189d26d2c2 (-322));
  mkRef1 (lit (-0x13ce554ae7e435) (-431)) (lit (-0x1b4557106e6674) (-179))
].
Definition REF_cbrt_ULPS : Z := 1.

Definition ref_cbrtf : list math_ref1 := [
  mkRef1 (lit 0x1b 0) (lit 0x18 (-3));
  mkRef1 (lit (-0x1) 1) (lit (-0x1428a3) (-20));
  mkRef1 (lit 0x11cd0b 63) (lit 0x1a5153e 3);
  mkRef1 (lit 0x1ccdfc6 32) (lit 0x1ee5b68 (-6))
].
Definition REF_cbrtF_ULPS : Z := 1.

Definition ref_hypot : list math_ref2 := [
  mkRef2 (lit 0x18 (-3)) (lit 0x1 2) (lit 0x14 (-2));
  mkRef2 (lit 0x17e43c8800759c 944) (lit 0x17e43c8800759c 944) (lit 0x10e4d50f99b211 945);
  mkRef2 (lit 0x164becdb8dc51b (-21)) (lit 0x16dd914496ba26 (-22)) (lit 0x190e8d3b6b2e1b (-21));
  mkRef2 (lit (-0x18c180c6ead27a) (-23)) (lit (-0x1502c9d622b14) (-67)) (lit 0x18c180c6ead27a (-23));
  mkRef2 (lit (-0x19932bffc8b0d5) (-47)) (lit 0x1ac5e171b6202c (-59)) (lit 0x19932c0dcc2b6 (-43));
  mkRef2 (lit 0x1926985faa34cd (-81)) (lit (-0x1e71bb6f89a366) (-29)) (lit 0x1e71bb6f89a366 (-29));
  mkRef2 (lit 0x1b6560a6d3a73c (-29)) (lit (-0x18e0d03ee735ce) (-24)) (lit 0x18e4955b658eb7 (-24));
  mkRef2 (lit (-0x1084eee1d7d435) (-73)) (lit 0x1cc46c1606f55e (-46)) (lit 0x1cc46c1606f55e (-46));
  mkRef2 (lit 0x11a74fca939d62 (-38)) (lit (-0x1d0f6103c6c49) (-39)) (lit 0x11ad498dd15e75 (-38));
  mkRef2 (lit 0x1e89f31500479d (-69)) (lit 0x15cc4dffc7547e (-23)) (lit 0x15cc4dffc7547e (-23));
  mkRef2 (lit (-0x10cd528f115e9e) (-29)) (lit 0x1740a53859e48f (-80)) (lit 0x10cd528f115e9e (-29));
  mkRef2 (lit 0x10c8e9c306d7f4 (-73)) (lit 0x12a9b912f4b8ef (-71)) (lit 0x1320ffd780d059 (-71));
  mkRef2 (lit (-0x1ae76b419e2231) (-63)) (lit (-0x1af3b4100a0eda) (-23)) (lit 0x1af3b4100a0eda (-23));
  mkRef2 (lit 0x1140b873798df4 (-58)) (lit 0x1a46d5453907da (-37)) (lit 0x1a46d545390944 (-37));
  mkRef2 (lit (-0x137fffe9fa2816) (-772)) (lit 0x13eb901b6a79b (-452)) (lit 0x13eb901b6a79b (-452));
  mkRef2 (lit (-0x10b05660523648) (-808)) (lit (-0x176905d5b449d6) 246) (lit 0x176905d5b449d6 246);
  mkRef2 (lit 0x184ab54dfb60c5 (-380)) (lit (-0x12b6ed87012494) 239) (lit 0x12b6ed87012494 239);
  mkRef2 (lit (-0x162c65ecc50e2e) (-690)) (lit 0x129bf623f080de 927) (lit 0x129bf623f080de 927);
  mkRef2 (lit (-0x13488ca5336da1) (-148)) (lit 0x130a9227e32a5c 915) (lit 0x130a9227e32a5c 915);
  mkRef2 (lit 0x1b9505b18fabac (-830)) (lit (-0x1489abd726363c) 585) (lit 0x1489abd726363c 585);
  mkRef2 (lit (-0x1dcb8ffa0edb83) (-660)) (lit (-0x10e39d84c29024) (-537)) (lit 0x10e39d84c29024 (-537));
  mkRef2 (lit (-0x16f76d74cd4a42) (-810)) (lit 0x14736437f6efaf (-365)) (lit 0x14736437f6efaf (-365));
  mkRef2 (lit 0x19cb18be348e55 (-352)) (lit 0x1d2e62dec7510a 443) (lit 0x1d2e62dec7510a 443);
  mkRef2 (lit (-0x1160db72e39964) 757) (lit 0x1bb342d3efd92 (-518)) (lit 0x1160db72e39964 757);
  mkRef2 (lit 0x1d15f8a28df8e9 (-21)) (lit (-0x1c00c476707df9) 552) (lit 0x1c00c476707df9 552);
  mkRef2 (lit 0x1627028e0bf669 (-936)) (lit (-0x15cdc8e992a29a) (-108)) (lit 0x15cdc8e992a29a (-108))
].
Definition REF_hypot_ULPS : Z := 1.

Definition ref_hypotf : list math_ref2 := [
  mkRef2 (lit 0x18 (-3)) (lit 0x1 2) (lit 0x14 (-2));
  mkRef2 (lit 0x17edaf2 (-34)) (lit 0x111dfa8 (-28)) (lit 0x111f062 (-28));
  mkRef2 (lit 0x14809c6 (-3)) (lit 0x197a7bc (-41)) (lit 0x14809c6 (-3));
  mkRef2 (lit 0x1fc1b16 (-52)) (lit 0x1fd9fb8 (-2)) (lit 0x1fd9fb8 (-2));
  mkRef2 (lit (-0x14e91da) (-23)) (lit (-0x188c772) (-32)) (lit 0x14e9214 (-23));
  mkRef2 (lit (-0x11e508c) (-49)) (lit 0x1a57404 (-55)) (lit 0x11e63ee (-49));
  mkRef2 (lit (-0x1ca4a94) (-5)) (lit (-0x106589e) (-43)) (lit 0x1ca4a94 (-5));
  mkRef2 (lit (-0x19844d8) (-10)) (lit (-0x1962fa2) (-21)) (lit 0x19844dc (-10));
  mkRef2 (lit 0x13e3346 (-16)) (lit (-0x14e90d4) (-2)) (lit 0x14e90d4 (-2));
  mkRef2 (lit 0x101e552 (-31)) (lit 0x1fc4f6 (-42)) (lit 0x101e552 (-31));
  mkRef2 (lit (-0x125e322) (-55)) (lit 0x10477fc (-30)) (lit 0x10477fc (-30));
  mkRef2 (lit 0x111dc86 (-35)) (lit (-0x1592cc) (-36)) (lit 0x11212e2 (-35));
  mkRef2 (lit 0x1d7e9ba (-31)) (lit 0x1322d12 (-23)) (lit 0x1322e7e (-23))
].
Definition REF_hypotF_ULPS : Z := 1.

Definition ref_fmod : list math_ref2 := [
  mkRef2 (lit 0x10822655749b3b 941) (lit 0x14126ff9c7fdd8 (-84)) (lit 0x11ca9316203 (-75));
  mkRef2 (lit 0x1 0) (lit 0x1 (-1074)) (lit 0 0);
  mkRef2 (lit 0x17e43c8800759c 944) (lit 0x18 (-3)) (lit 0 0);
  mkRef2 (lit (-0x1443d596846bc1) (-46)) (lit 0x1b19097281966c (-50)) (lit (-0x1a29f17cb5456c) (-50));
  mkRef2 (lit 0x13296333d62c06 (-46)) (lit (-0x133efb24f7d187) (-49)) (lit 0x12923b9beaa57f (-49));
  mkRef2 (lit (-0x1883268c39607b) (-46)) (lit 0x14590dfba1483 (-48)) (lit (-0x100372f6ab428) (-51));
  mkRef2 (lit 0x18f412c240bd9 (-44)) (lit 0x1afcaeda792094 (-51)) (lit 0x156f9c316c10e8 (-52));
  mkRef2 (lit (-0x15a47874a21ad) (-42)) (lit 0x1faa5f1490d7a (-49)) (lit (-0x1eabd4a7a8414) (-50));
  mkRef2 (lit 0x161c3907e555ca (-46)) (lit (-0x16895183d1acd5) (-50)) (lit 0x1f6f938a18784a (-51));
  mkRef2 (lit (-0x18e017f26131b2) (-46)) (lit 0x15b80b3a64fb62 (-50)) (lit (-0x1c42d42be5b8f) (-48));
  mkRef2 (lit 0x169fcd97c9a954 (-46)) (lit 0x13454dca236f4 (-47)) (lit 0x15eae9842c2c8 (-48));
  mkRef2 (lit 0x11f472a14de28 (-45)) (lit 0x1d313619667c6 (-49)) (lit 0x188c433043c8a (-49));
  mkRef2 (lit 0x1f6d801b0c9098 (-47)) (lit (-0x10975de6d22c0b) (-50)) (lit 0x146c02909f80d8 (-53));
  mkRef2 (lit 0x13c51d1d222aac (-46)) (lit (-0x1e29c71aac822a) (-51)) (lit 0x1d60158ecb2a38 (-51));
  mkRef2 (lit 0x15cb32fea24c7c (-46)) (lit (-0x1a3c12c91f0afe) (-51)) (lit 0x1e98eece44e368 (-52));
  mkRef2 (lit 0x1a39936e19225a 750) (lit (-0x132ef4de836164) (-65)) (lit 0x153a7302cad73 (-63));
  mkRef2 (lit 0x1763d61585b4ca 782) (lit (-0x10ce6d4b901411) (-45)) (lit 0x11e56d29b91564 (-47));
  mkRef2 (lit (-0x158491ac9e6432) 135) (lit 0x162bb29cb1d826 (-31)) (lit (-0x18469e0ccce0c) (-28));
  mkRef2 (lit 0x1278013218d607 166) (lit (-0x11fcc64ae1acf3) (-34)) (lit 0x1ee80f07019a2 (-33));
  mkRef2 (lit (-0x143368cbe49fe9) 371) (lit (-0x143c0e74c583f5) (-46)) (lit (-0x1574e77e2e4874) (-47));
  mkRef2 (lit 0x17ed7e82eb2dc1 254) (lit 0x1628d25cdee157 (-81)) (lit 0x134d2553fea69e (-82));
  mkRef2 (lit 0x120e5e2ae9e55a 223) (lit 0x171df0f4166eec (-65)) (lit 0x1797ec5bb565f (-63));
  mkRef2 (lit 0x185f015b8f9673 403) (lit 0x148a0e34c2a867 (-28)) (lit 0x1f8133b9b40b78 (-30));
  mkRef2 (lit (-0x1e1a78a896bef4) 728) (lit (-0x10857daf92348a) (-77)) (lit (-0x1a05a4c4a3ca7) (-76));
  mkRef2 (lit (-0x134674665e92a6) 460) (lit (-0x1ac0fe17f8205) (-63)) (lit (-0x1324ab21c5562) (-63));
  mkRef2 (lit 0x14f0f91e0734d 843) (lit (-0x1f5d49bebc8f63) (-30)) (lit 0x1b99cbe70d3fde (-30));
  mkRef2 (lit (-0x1067f25e2d0d97) 724) (lit 0x126865cb3ff674 (-32)) (lit (-0x1f0fcc971a5d58) (-33))
].
Definition REF_fmod_ULPS : Z := 0.

Definition ref_fmodf : list math_ref2 := [
  mkRef2 (lit (-0x18fdc9) (-18)) (lit 0x1c69a8c (-22)) (lit (-0x18fdc9) (-18));
  mkRef2 (lit (-0x10e6786) (-20)) (lit (-0x176182) (-21)) (lit (-0x1862f) (-20));
  mkRef2 (lit 0x1151df (-14)) (lit (-0x1193b42) (-21)) (lit 0x1f0a164 (-22));
  mkRef2 (lit (-0x18c4358) (-18)) (lit (-0x180a59a) (-22)) (lit (-0x173b7c) (-19));
  mkRef2 (lit 0x1d99734 (-20)) (lit (-0x10494ca) (-22)) (lit 0x1192d28 (-24));
  mkRef2 (lit 0x19f0dec (-20)) (lit (-0x19d5c7c) (-22)) (lit 0x1b17 (-16));
  mkRef2 (lit (-0x1b3844a) (-19)) (lit 0x110295 (-18)) (lit (-0x1b4652) (-19));
  mkRef2 (lit (-0x17efa8a) (-18)) (lit (-0x1904c86) (-24)) (lit (-0x1719a48) (-26));
  mkRef2 (lit 0x1e498bc (-20)) (lit (-0x1426f24) (-24)) (lit 0x1e40c (-21));
  mkRef2 (lit 0x14254ce (-19)) (lit (-0x129e942) (-21)) (lit 0x186b8c (-19));
  mkRef2 (lit 0x1fea98a (-19)) (lit (-0x1992d3c) (-23)) (lit 0x18c3d2c (-23));
  mkRef2 (lit 0x1505c3c (-19)) (lit 0x1df84e4 (-22)) (lit 0x125496c (-22));
  mkRef2 (lit (-0x1aae73a) (-38)) (lit 0x1bab418 7) (lit (-0x1aae73a) (-38));
  mkRef2 (lit (-0x19b2eec) 15) (lit (-0x1a27ea4) (-15)) (lit (-0x15f68b8) (-15));
  mkRef2 (lit 0x1b6fca4 46) (lit 0x1526e62 (-7)) (lit 0x199865 (-6));
  mkRef2 (lit (-0x1ae401a) 87) (lit 0x1f236e6 (-29)) (lit (-0x1a227a) (-28));
  mkRef2 (lit (-0x175188a) 68) (lit (-0x1161cda) 2) (lit (-0x196438) 5)
].
Definition REF_fmodF_ULPS : Z := 0.

Definition ref_remainder : list math_ref2 := [
  mkRef2 (lit 0x17e43c8800759c 944) (lit 0x18 (-3)) (lit 0 0);
  mkRef2 (lit 0x14 (-2)) (lit 0x1 1) (lit 0x1 0);
  mkRef2 (lit 0x1c (-2)) (lit 0x1 1) (lit (-0x1) 0);
  mkRef2 (lit (-0x15db7735ad210d) (-47)) (lit (-0x11bac7ea1a8efb) (-49)) (lit 0x1380abbd046b3 (-49));
  mkRef2 (lit 0x13b2905fcfdb (-38)) (lit (-0x162129168ef9f4) (-50)) (lit 0x15631b04b012a (-48));
  mkRef2 (lit 0x172b338b164bc (-42)) (lit 0x1cedb5ed91cb5c (-50)) (lit (-0x157c117c0a5eb) (-48));
  mkRef2 (lit 0x17dfafad87aa28 (-48)) (lit (-0x13a1dc94134a96) (-49)) (lit 0x10f74c65d17e48 (-50));
  mkRef2 (lit 0x158dfe2468e04a (-46)) (lit (-0x173f1e7a39bf68) (-50)) (lit (-0x1e973716a193c) (-49));
  mkRef2 (lit 0x1101c6f351fc6c (-46)) (lit (-0x182f7e28bac398) (-52)) (lit 0x188fabaab948 (-52));
  mkRef2 (lit 0x13ccf9fbe5e1da (-46)) (lit (-0x1b2e796dc006d6) (-51)) (lit 0x10e4ad40f73c0c (-52));
  mkRef2 (lit 0x17c60d8d9d5bae (-46)) (lit (-0x1ca723d4c356) (-47)) (lit (-0x157d83f649a8) (-49));
  mkRef2 (lit 0x115c569fd9bd82 (-46)) (lit (-0x188a71837841a6) (-50)) (lit 0x1f4a255dc417f8 (-52));
  mkRef2 (lit (-0x1a6290ebc8e9d) (-46)) (lit (-0x1281cdebe148f7) (-49)) (lit 0x154215d7f3503c (-51));
  mkRef2 (lit (-0x10e32c371210a4) (-46)) (lit 0x19a636eac1510c (-51)) (lit (-0x1c305a0666e84) (-51));
  mkRef2 (lit (-0x16435c44a43625) (-46)) (lit (-0x1d84f8c4b8d1e) (-48)) (lit (-0x1fa1b11998bd) (-46));
  mkRef2 (lit (-0x1e58b256cb3991) 658) (lit 0x1299a864c43247 (-57)) (lit (-0x1dcb2c647ac6ec) (-59));
  mkRef2 (lit (-0x1250f639f4490a) 353) (lit (-0x16650468d8e47d) (-47)) (lit (-0x1b78b59ea5b548) (-50));
  mkRef2 (lit 0x1b616d020feccf 202) (lit 0x187dcccfcd489a (-57)) (lit (-0x1f02b9c534312) (-56));
  mkRef2 (lit 0x17188aae322626 918) (lit (-0x1a9ab9340f216c) (-70)) (lit (-0x1c7f8999769cc) (-69));
  mkRef2 (lit (-0x16cfcb6833c641) 163) (lit 0x10dc7648ada55a (-47)) (lit (-0x108467e84bd5d8) (-48));
  mkRef2 (lit 0x18514f682f14e4 216) (lit (-0x1d2f2f32b4d04f) (-58)) (lit 0x1b72f28425421a (-59));
  mkRef2 (lit 0x1cd5c202360c05 659) (lit (-0x122777c79bc13) (-27)) (lit 0x170667c396b (-24));
  mkRef2 (lit 0x12162db44423f6 582) (lit (-0x1a90cbe7d3ff6e) (-72)) (lit 0x1a7c257df47a7c (-73));
  mkRef2 (lit 0x1f9293815c1079 133) (lit 0x1f87d9133583d7 (-31)) (lit (-0x1e49735e2600c2) (-32));
  mkRef2 (lit 0x19bca8a0ac944b 696) (lit (-0x1ccc8bd4e3c49f) (-74)) (lit (-0x19d1f9b8b1897e) (-75));
  mkRef2 (lit (-0x1a10669fa19576) 906) (lit 0x14dab7581e2345 (-25)) (lit 0x103cdc2f159fa (-24));
  mkRef2 (lit (-0x1966afc1bb5b08) (-60)) (lit 0x1461a0cc7fda07 (-60)) (lit (-0x14143bd4ee0404) (-62))
].
Definition REF_remainder_ULPS : Z := 0.

Definition ref_remainderf : list math_ref2 := [
  mkRef2 (lit 0x14 (-2)) (lit 0x1 1) (lit 0x1 0);
  mkRef2 (lit 0x1c (-2)) (lit 0x1 1) (lit (-0x1) 0);
  mkRef2 (lit (-0x14ef95) (-15)) (lit (-0x13f18e4) (-22)) (lit (-0x1fc0d8) (-20));
  mkRef2 (lit 0x1470932 (-18)) (lit (-0x124c21e) (-21)) (lit (-0x12897e) (-21));
  mkRef2 (lit 0x1b2e96e (-20)) (lit 0x16f6906 (-22)) (lit (-0x1859d98) (-24));
  mkRef2 (lit (-0x175b154) (-19)) (lit 0x11d6f0e (-21)) (lit (-0x10e6828) (-23));
  mkRef2 (lit (-0x127b26) (-18)) (lit 0x1d4ffba (-23)) (lit (-0x1e99418) (-25));
  mkRef2 (lit 0x103e976 (-18)) (lit (-0x16a8364) (-22)) (lit 0x155e428 (-23));
  mkRef2 (lit (-0x16d9a18) (-22)) (lit 0x148010e (-23)) (lit (-0x12cc85) (-21));
  mkRef2 (lit (-0x11a613e) (-23)) (lit (-0x1782ab8) (-22)) (lit (-0x11a613e) (-23));
  mkRef2 (lit (-0x131b954) (-19)) (lit (-0x1272e52) (-23)) (lit 0x1f9f8c8 (-25));
  mkRef2 (lit (-0x127bb26) (-18)) (lit (-0x10c1374) (-22)) (lit 0x176af2 (-20));
  mkRef2 (lit (-0x14ffaba) (-18)) (lit (-0x144c5c6) (-25)) (lit (-0x10ec5d) (-22));
  mkRef2 (lit 0x13b1b4a (-21)) (lit (-0x112db2e) (-22)) (lit 0x14200e (-20));
  mkRef2 (lit (-0x111a5f) 40) (lit 0x13da394 (-5)) (lit (-0x13d017) (-2));
  mkRef2 (lit (-0x10877fa) 72) (lit 0x1512894 (-30)) (lit 0x161658 (-28));
  mkRef2 (lit 0x130cdf8 92) (lit 0x119f79a (-40)) (lit 0x14187 (-36))
].
Definition REF_remainderF_ULPS : Z := 0.
