(* ===== verification/MathAccuracy.v ===== *)
(** * The accuracy tests of the mathematical functions (src/libc/math/accuracy.c)

    A result is compared with the correctly rounded one in units in the last
    place: doubles are mapped to integers in their order and the integers
    subtracted. The functions under test are parameters; a [spec_float] has no
    NaN payload, which the tests never look at. *)

From Stdlib Require Import SpecFloat.
From S2P Require Import Prelude CMachine UnityOutput UnityAssert UnityFloat UnityMacros AccuracyRefs.

Definition INT64_MIN : Z := - 2 ^ 63.
Definition INT32_MIN : Z := - 2 ^ 31.
Definition UINT64_MAX : Z := 2 ^ 64 - 1.

(** ** Distances *)

Definition acc_ordered (x : spec_float) : Z :=
  let i := i64 (bits_of_float binary64 x) in
  if i <? 0 then INT64_MIN - i else i.

Definition acc_ulps (got want : spec_float) : Z :=
  if isnan got then UINT64_MAX
  else
    let a := acc_ordered got in
    let b := acc_ordered want in
    if b <? a then u64 (u64 a - u64 b) else u64 (u64 b - u64 a).

Definition acc_ulpsf (got want : spec_float) : Z :=
  if isnan got then UINT64_MAX
  else
    let a := i32 (bits_of_float binary32 got) in
    let b := i32 (bits_of_float binary32 want) in
    let a := if a <? 0 then INT32_MIN - a else a in
    let b := if b <? 0 then INT32_MIN - b else b in
    if b <? a then u64 (a - b) else u64 (b - a).

(** ** Checking a table *)

(** (float)x *)
Definition to_float (x : spec_float) : spec_float :=
  match x with S754_finite s m e => binary_round 24 128 s m e | _ => x end.

(** The loop of the four checks: the greatest distance and its first row. *)
Fixpoint worst_loop {A} (d : A → Z) (t : list A) (i wi : nat) (worst : Z) : Z * nat :=
  match t with
  | [] => (worst, wi)
  | row :: t => if worst <? d row then worst_loop d t (S i) i (d row) else worst_loop d t (S i) wi worst
  end.

Section tests.
Context `{Target}.

(** What snprintf() makes of the arguments of the two messages. *)
Context (acc_msg1 : cstr → spec_float → spec_float → spec_float → Z → Z → cstr).
Context (acc_msg2 : cstr → spec_float → spec_float → spec_float → spec_float → Z → Z → cstr).

Definition acc_check1 (name : cstr) (f : spec_float → spec_float) (t : list math_ref1) (ulps : Z) : M unit :=
  let '(worst, wi) := worst_loop (λ row, acc_ulps (f (ref1_x row)) (ref1_r row)) t 0 0 0 in
  when (ulps <? worst)
    (row ← of_option (t !! wi);
     TEST_FAIL_MESSAGE (Some (acc_msg1 name (ref1_x row) (f (ref1_x row)) (ref1_r row) worst ulps)) 115).

Definition acc_check2 (name : cstr) (f : spec_float → spec_float → spec_float) (t : list math_ref2) (ulps : Z) : M unit :=
  let '(worst, wi) := worst_loop (λ row, acc_ulps (f (ref2_x row) (ref2_y row)) (ref2_r row)) t 0 0 0 in
  when (ulps <? worst)
    (row ← of_option (t !! wi);
     TEST_FAIL_MESSAGE
       (Some (acc_msg2 name (ref2_x row) (ref2_y row) (f (ref2_x row) (ref2_y row)) (ref2_r row) worst ulps)) 135).

Definition acc_check1f (name : cstr) (f : spec_float → spec_float) (t : list math_ref1) (ulps : Z) : M unit :=
  let '(worst, wi) :=
    worst_loop (λ row, acc_ulpsf (f (to_float (ref1_x row))) (to_float (ref1_r row))) t 0 0 0 in
  when (ulps <? worst)
    (row ← of_option (t !! wi);
     TEST_FAIL_MESSAGE
       (Some (acc_msg1 name (ref1_x row) (to_double (f (to_float (ref1_x row)))) (ref1_r row) worst ulps)) 155).

Definition acc_check2f (name : cstr) (f : spec_float → spec_float → spec_float) (t : list math_ref2) (ulps : Z) : M unit :=
  let '(worst, wi) :=
    worst_loop (λ row, acc_ulpsf (f (to_float (ref2_x row)) (to_float (ref2_y row))) (to_float (ref2_r row))) t 0 0 0 in
  when (ulps <? worst)
    (row ← of_option (t !! wi);
     TEST_FAIL_MESSAGE
       (Some (acc_msg2 name (ref2_x row) (ref2_y row) (to_double (f (to_float (ref2_x row)) (to_float (ref2_y row))))
          (ref2_r row) worst ulps)) 175).

(** The tests the two macros define: the double, then the float function. *)
Definition ACC_TEST1 (fn : cstr) (f ff : spec_float → spec_float) (ref reff : list math_ref1) (ulps ulpsf : Z) : M unit :=
  acc_check1 fn f ref ulps;; acc_check1f (fn ++ str "f") ff reff ulpsf.
Definition ACC_TEST2 (fn : cstr) (f ff : spec_float → spec_float → spec_float) (ref reff : list math_ref2)
    (ulps ulpsf : Z) : M unit :=
  acc_check2 fn f ref ulps;; acc_check2f (fn ++ str "f") ff reff ulpsf.

Definition test_sqrt (f ff : spec_float → spec_float) : M unit :=
  ACC_TEST1 (str "sqrt") f ff ref_sqrt ref_sqrtf REF_sqrt_ULPS REF_sqrtF_ULPS.
Definition test_cbrt (f ff : spec_float → spec_float) : M unit :=
  ACC_TEST1 (str "cbrt") f ff ref_cbrt ref_cbrtf REF_cbrt_ULPS REF_cbrtF_ULPS.
Definition test_hypot (f ff : spec_float → spec_float → spec_float) : M unit :=
  ACC_TEST2 (str "hypot") f ff ref_hypot ref_hypotf REF_hypot_ULPS REF_hypotF_ULPS.
Definition test_fmod (f ff : spec_float → spec_float → spec_float) : M unit :=
  ACC_TEST2 (str "fmod") f ff ref_fmod ref_fmodf REF_fmod_ULPS REF_fmodF_ULPS.
Definition test_remainder (f ff : spec_float → spec_float → spec_float) : M unit :=
  ACC_TEST2 (str "remainder") f ff ref_remainder ref_remainderf REF_remainder_ULPS REF_remainderF_ULPS.

(** ** The constants of SHA-256, in decimal *)

Definition acc_sha256_h : list Z := [
  1779033703; 3144134277; 1013904242; 2773480762; 1359893119; 2600822924; 528734635; 1541459225].

Definition acc_sha256_k : list Z := [
  1116352408; 1899447441; 3049323471; 3921009573; 961987163; 1508970993; 2453635748; 2870763221;
  3624381080; 310598401; 607225278; 1426881987; 1925078388; 2162078206; 2614888103; 3248222580;
  3835390401; 4022224774; 264347078; 604807628; 770255983; 1249150122; 1555081692; 1996064986;
  2554220882; 2821834349; 2952996808; 3210313671; 3336571891; 3584528711; 113926993; 338241895;
  666307205; 773529912; 1294757372; 1396182291; 1695183700; 1986661051; 2177026350; 2456956037;
  2730485921; 2820302411; 3259730800; 3345764771; 3516065817; 3600352804; 4094571909; 275423344;
  430227734; 506948616; 659060556; 883997877; 958139571; 1322822218; 1537002063; 1747873779;
  1955562222; 2024104815; 2227730452; 2361852424; 2428436474; 2756734187; 3204031479; 3329325298].

(** floor() *)
Definition floor (x : spec_float) : spec_float :=
  match x with
  | S754_finite s m e => if 0 <=? e then x else of_int ((if s then Zneg m else Zpos m) / 2 ^ (- e))
  | _ => x
  end.

(** (int64_t)x, undefined when the truncated value does not fit. *)
Definition to_int64 (x : spec_float) : option Z :=
  v ← trunc x; if (- 2 ^ 63 <=? v) && (v <? 2 ^ 63) then Some v else None.

Definition acc_frac32 (x : spec_float) : option Z :=
  i ← to_int64 (dmul (dsub x (floor x)) (of_int 4294967296)); Some (u32 i).

(** The inner loop: no prime found so far with a square up to [c] divides it. *)
Fixpoint no_divisor (primes : list Z) (c : Z) : bool :=
  match primes with
  | [] => true
  | p :: primes => if p * p <=? c then (if c mod p =? 0 then false else no_divisor primes c) else true
  end.

Fixpoint primes_loop (fuel : nat) (count : nat) (primes : list Z) (c : Z) : option (list Z) :=
  if (length primes <? count)%nat then
    match fuel with
    | O => None
    | S fuel => primes_loop fuel count (if no_divisor primes c then primes ++ [c] else primes) (c + 1)
    end
  else Some primes.

(** pow(), and the messages for H and for K. *)
Context (pow : spec_float → spec_float → spec_float) (h_msg k_msg : nat → Z → cstr).

(** The constants from [i] on against the powers of the primes. *)
Fixpoint constants_loop (msg : nat → Z → cstr) (line : Z) (exponent : spec_float) (i : nat) (table primes : list Z) : M unit :=
  match table, primes with
  | k :: table, p :: primes =>
      v ← of_option (acc_frac32 (pow (of_int p) exponent));
      TEST_ASSERT_EQUAL_MESSAGE HEX32 k v line (Some (msg i p));;
      constants_loop msg line exponent (S i) table primes
  | _, _ => skip
  end.

Definition sha256_constants_from_pow : M unit :=
  primes ← of_option (primes_loop 310 64 [] 2);
  constants_loop h_msg 280 (ddiv (of_int 1) (of_int 2)) 0 acc_sha256_h primes;;
  constants_loop k_msg 284 (ddiv (of_int 1) (of_int 3)) 0 acc_sha256_k primes.
End tests.
