(* ===== verification/MathAccuracyProps.v ===== *)
(** * What the accuracy tests decide

    Units in the last place count the floating-point numbers between two
    values; a check reports the worst row exactly when some row is too far
    off; the reference values of the exact functions are right, so their tests
    pass exactly the right results; the SHA-256 constants are the digits of
    the roots of the first primes, and an accurate pow() gives them. *)

From Stdlib Require Import SpecFloat Znumtheory Sorting.Sorted.
From S2P Require Import Prelude CMachine UnityOutput UnityAssert UnityAssertSpec UnityFloat UnityFloatSpec.
From S2P Require Import UnityAssertProps UnityMacros TestVerdict AccuracyRefs MathAccuracy.

(** ** Floating-point numbers in order *)

Section order.
Context (f : format) (Hf : f = binary32 ∨ f = binary64).

Local Abbreviation mw := (f_prec f - 1).
Local Abbreviation em := (emin (f_prec f) (f_emax f)).

Definition valid (x : spec_float) : Prop := valid_binary (f_prec f) (f_emax f) x = true.

(** The place of the infinity, counted from zero. *)
Definition top : Z := (2 * f_emax f - 1) * 2 ^ mw.

(** The place of a value among those of its format, zero being 0. *)
Definition place (x : spec_float) : Z :=
  match x with
  | S754_zero _ => 0
  | S754_infinity s => if s then - top else top
  | S754_nan => 0
  | S754_finite s m e => let k := (e - em) * 2 ^ mw + Zpos m in if s then - k else k
  end.

(** The value at a place; the positive zero at 0. *)
Definition at_place (k : Z) : spec_float :=
  let s := k <? 0 in
  let a := Z.abs k in
  if a =? 0 then S754_zero false
  else if a =? top then S754_infinity s
  else if a <? 2 ^ mw then match a with Zpos p => S754_finite s p em | _ => S754_nan end
  else match a mod 2 ^ mw + 2 ^ mw with
       | Zpos p => S754_finite s p (a / 2 ^ mw - 1 + em)
       | _ => S754_nan
       end.

Lemma format_bounds : 2 ≤ f_prec f ∧ f_prec f < f_emax f ∧ 4 ≤ 2 ^ mw.
Proof using Hf. destruct Hf as [-> | ->]; simpl; lia. Qed.

Lemma finite_bounds s m e :
  valid (S754_finite s m e) →
  em ≤ e ≤ f_emax f - f_prec f ∧ Zpos m < 2 * 2 ^ mw ∧ (em < e → 2 ^ mw ≤ Zpos m).
Proof using Hf.
  pose proof format_bounds as (Hp & Hpe & _). unfold valid, valid_binary, bounded, canonical_mantissa, fexp.
  intros [Hc%Z.eqb_eq He%Z.leb_le]%andb_true_iff. pose proof (Zdigits_bounds m) as Hm.
  set (d := Zpos (digits2_pos m)) in *. fold em in Hc.
  assert (d ≤ f_prec f) by lia. rewrite <- Z.pow_succ_r by lia. split_and!.
  - lia.
  - lia.
  - eapply Z.lt_le_trans; [apply Hm|]. apply Z.pow_le_mono_r; lia.
  - intros Hlt. transitivity (2 ^ (d - 1)); [|lia]. apply Z.pow_le_mono_r; lia.
Qed.

Lemma finite_valid s m e :
  em ≤ e ≤ f_emax f - f_prec f → Zpos m < 2 * 2 ^ mw → (em < e → 2 ^ mw ≤ Zpos m) → valid (S754_finite s m e).
Proof using Hf.
  pose proof format_bounds as (Hp & Hpe & _). intros He Hm1 Hm2. unfold valid, valid_binary, bounded, canonical_mantissa, fexp.
  pose proof (Zdigits_bounds m) as Hm. set (d := Zpos (digits2_pos m)) in *.
  apply andb_true_iff. rewrite Z.eqb_eq, Z.leb_le. split; [|lia]. fold em.
  rewrite <- Z.pow_succ_r in Hm1 by lia.
  assert (d - 1 < Z.succ mw) by (apply (Z.pow_lt_mono_r_iff 2); lia).
  destruct (decide (em < e)) as [Hlt|]; [|lia]. specialize (Hm2 Hlt).
  assert (mw < d) by (apply (Z.pow_lt_mono_r_iff 2); lia). lia.
Qed.

Lemma place_finite s m e :
  valid (S754_finite s m e) → 0 < (e - em) * 2 ^ mw + Zpos m < top.
Proof using Hf.
  intros Hv. pose proof format_bounds as (Hp & Hpe & HP). destruct (finite_bounds _ _ _ Hv) as (He & Hm & _).
  unfold top, emin in *. nia.
Qed.

(** The order of the values is the order of their places. *)
Lemma place_compare x y :
  valid x → valid y → isnan x = false → isnan y = false → SFcompare x y = Some (place x ?= place y).
Proof using Hf.
  intros Hx Hy Nx Ny. pose proof format_bounds as (Hp & Hpe & HP).
  assert (0 < top) as Ht by (unfold top; nia).
  assert (∀ a b, a < b → (a ?= b) = Lt) as HL by (intros; by apply Z.compare_lt_iff).
  assert (∀ a b, b < a → (a ?= b) = Gt) as HG by (intros; by apply Z.compare_gt_iff).
  destruct x as [s|s| |s m e]; [| |done|]; destruct y as [s'|s'| |s' m' e']; try done; cbn [SFcompare place];
    repeat match goal with H : valid (S754_finite _ _ _) |- _ => pose proof (place_finite _ _ _ H);
      pose proof (finite_bounds _ _ _ H); clear H end;
    repeat match goal with s : bool |- _ => destruct s end; f_equal; symmetry;
    try (apply HL; lia); try (apply HG; lia); try (apply Z.compare_refl).
  all: destruct (Z.compare_spec e e') as [->|Hlt|Hgt].
  all: try (apply HL; nia); try (apply HG; nia).
  all: change (Pos.compare_cont Eq m m') with (Pos.compare m m'); destruct (Pos.compare_spec m m') as [->|?|?];
    cbn [CompOpp]; [apply Z.compare_refl|(apply HL; lia) || (apply HG; lia)..].
Qed.

Lemma at_place_spec k : Z.abs k ≤ top → valid (at_place k) ∧ isnan (at_place k) = false ∧ place (at_place k) = k.
Proof using Hf.
  intros Hk. pose proof format_bounds as (Hp & Hpe & HP). unfold at_place.
  destruct (Z.eqb_spec (Z.abs k) 0); [split_and!; [done..|cbn; lia]|].
  destruct (Z.eqb_spec (Z.abs k) top); [split_and!; [done..|cbn; destruct (Z.ltb_spec k 0); lia]|].
  assert (em = 3 - f_emax f - f_prec f) as Hem by done.
  destruct (Z.ltb_spec (Z.abs k) (2 ^ mw)) as [Hsub|Hnorm].
  { destruct (Z.abs k) as [|m|m] eqn:Ea; [lia| |lia]. split_and!; [apply finite_valid; lia|done|].
    cbn [place]. destruct (Z.ltb_spec k 0); lia. }
  pose proof (Z.div_mod (Z.abs k) (2 ^ mw) ltac:(lia)). pose proof (Z.mod_pos_bound (Z.abs k) (2 ^ mw) ltac:(lia)).
  assert (1 ≤ Z.abs k / 2 ^ mw) by (apply Z.div_le_lower_bound; lia).
  assert (Z.abs k / 2 ^ mw < 2 * f_emax f - 1) by (apply Z.div_lt_upper_bound; unfold top in *; lia).
  destruct (_ + 2 ^ mw) as [|m|m] eqn:Em; [lia| |lia]. split_and!; [apply finite_valid; lia|done|].
  cbn [place]. destruct (Z.ltb_spec k 0); lia.
Qed.

(** Values other than zero are determined by their places. *)
Lemma place_inj x : valid x → isnan x = false → place x ≠ 0 → at_place (place x) = x.
Proof using Hf.
  intros Hv Hn Hz. pose proof format_bounds as (Hp & Hpe & HP). unfold at_place.
  assert (0 < top) as Ht by (unfold top; nia).
  destruct x as [s|s| |s m e]; [done| |done|].
  { cbn [place] in *. replace (Z.abs _) with top by (destruct s; lia).
    rewrite (proj2 (Z.eqb_neq top 0)), Z.eqb_refl by lia. f_equal. destruct s; [apply Z.ltb_lt|apply Z.ltb_ge]; lia. }
  pose proof (place_finite _ _ _ Hv) as Hb. destruct (finite_bounds _ _ _ Hv) as (He & Hm & Hm2).
  cbn [place] in *. set (a := (e - em) * 2 ^ mw + Zpos m) in *.
  replace ((if s then - a else a) <? 0) with s by (symmetry; destruct s; [apply Z.ltb_lt|apply Z.ltb_ge]; lia).
  replace (Z.abs (if s then - a else a)) with a by (destruct s; lia).
  rewrite (proj2 (Z.eqb_neq a 0)), (proj2 (Z.eqb_neq a top)) by lia.
  destruct (Z.ltb_spec a (2 ^ mw)) as [Hsub|Hnorm].
  - assert (e = em) as -> by nia. assert (a = Zpos m) as -> by (unfold a; lia). done.
  - assert (2 ^ mw ≤ Zpos m) as Hm3 by (destruct (decide (em < e)); [by apply Hm2|assert (e = em) by lia; unfold a in *; nia]).
    assert (a / 2 ^ mw = e - em + 1) as -> by (symmetry; apply Z.div_unique with (Zpos m - 2 ^ mw); unfold a; lia).
    assert (a mod 2 ^ mw = Zpos m - 2 ^ mw) as -> by (symmetry; apply Z.mod_unique with (e - em + 1); unfold a; lia).
    replace (Zpos m - 2 ^ mw + 2 ^ mw) with (Zpos m) by lia. f_equal. lia.
Qed.

Definition sign (x : spec_float) : bool :=
  match x with S754_zero s | S754_infinity s | S754_finite s _ _ => s | S754_nan => false end.

(** The object representation is a sign and the place. *)
Lemma bits_place x :
  valid x → isnan x = false →
  bits_of_float f x = Z.b2z (sign x) * (2 * f_emax f * 2 ^ mw) + Z.abs (place x) ∧
  (if sign x then place x ≤ 0 else 0 ≤ place x) ∧ Z.abs (place x) < 2 * f_emax f * 2 ^ mw.
Proof using Hf.
  intros Hv Hn. pose proof format_bounds as (Hp & Hpe & HP).
  assert (0 < top < 2 * f_emax f * 2 ^ mw) as Ht by (unfold top; nia).
  destruct x as [s|s| |s m e]; [| |done|].
  - cbn. destruct s; split_and!; lia.
  - cbn [bits_of_float sign place]. destruct s; unfold top in *; cbn [Z.b2z]; split_and!; nia.
  - pose proof (place_finite _ _ _ Hv) as Hb. destruct (finite_bounds _ _ _ Hv) as (He & Hm & Hm2).
    cbn [bits_of_float sign place]. set (a := (e - em) * 2 ^ mw + Zpos m) in *.
    destruct (Z.ltb_spec (Zpos m) (2 ^ mw)) as [Hsub|Hnorm].
    + assert (e = em) as -> by lia. destruct s; cbn [Z.b2z]; unfold a in *; split_and!; lia.
    + destruct s; cbn [Z.b2z]; unfold a in *; split_and!; nia.
Qed.
End order.

(** ** Distances *)

Lemma signed_place w b a k (s : bool) :
  0 < w → b = Z.b2z s * 2 ^ (w - 1) + Z.abs k → (if s then k ≤ 0 else 0 ≤ k) → Z.abs k < 2 ^ (w - 1) → a = swrap w b →
  (if a <? 0 then - 2 ^ (w - 1) - a else a) = k.
Proof.
  intros Hw -> Hs Hk ->. assert (2 ^ w = 2 * 2 ^ (w - 1)) as E by (rewrite <- Z.pow_succ_r by lia; f_equal; lia).
  assert (swrap w (Z.b2z s * 2 ^ (w - 1) + Z.abs k) = Z.abs k - Z.b2z s * 2 ^ (w - 1)) as ->.
  { unfold swrap. destruct s; cbn [Z.b2z].
    - replace (1 * 2 ^ (w - 1) + Z.abs k + 2 ^ (w - 1)) with (Z.abs k + 1 * 2 ^ w) by lia.
      rewrite Z_mod_plus_full, Z.mod_small; lia.
    - rewrite Z.mod_small; lia. }
  destruct s; cbn [Z.b2z]; match goal with |- context [?a <? 0] => destruct (Z.ltb_spec a 0) end; lia.
Qed.

Abbreviation double := (valid binary64).
Abbreviation single := (valid binary32).

Lemma acc_ordered_place x : double x → isnan x = false → acc_ordered x = place binary64 x.
Proof.
  intros Hv Hn. destruct (bits_place binary64 (or_intror eq_refl) x Hv Hn) as (Eb & Hs & Hk).
  by eapply (signed_place 64).
Qed.

Lemma place_bound f x : f = binary32 ∨ f = binary64 → valid f x → isnan x = false → Z.abs (place f x) ≤ top f.
Proof.
  intros Hf Hv Hn. destruct x as [s|s| |s m e]; [| |done|].
  - destruct Hf as [-> | ->]; by cbn.
  - destruct s; cbn [place]; destruct Hf as [-> | ->]; by cbn.
  - pose proof (place_finite f Hf _ _ _ Hv). cbn [place]. destruct s; lia.
Qed.

Lemma acc_ulps_place got want :
  double got → double want → isnan got = false → isnan want = false →
  acc_ulps got want = Z.abs (place binary64 got - place binary64 want).
Proof.
  intros Hg Hw Ng Nw. unfold acc_ulps. rewrite Ng, !acc_ordered_place by done.
  pose proof (place_bound binary64 got (or_intror eq_refl) Hg Ng) as Hb1.
  pose proof (place_bound binary64 want (or_intror eq_refl) Hw Nw) as Hb2.
  assert (top binary64 < 2 ^ 63) as Ht by (by vm_compute).
  unfold u64, uwrap. rewrite <- !Zminus_mod.
  destruct (Z.ltb_spec (place binary64 want) (place binary64 got)); rewrite Z.mod_small; lia.
Qed.

Lemma ordered_float x : single x → isnan x = false →
  (if i32 (bits_of_float binary32 x) <? 0 then INT32_MIN - i32 (bits_of_float binary32 x)
   else i32 (bits_of_float binary32 x)) = place binary32 x.
Proof.
  intros Hv Hn. destruct (bits_place binary32 (or_introl eq_refl) x Hv Hn) as (Eb & Hs & Hk).
  by eapply (signed_place 32).
Qed.

Lemma acc_ulpsf_place got want :
  single got → single want → isnan got = false → isnan want = false →
  acc_ulpsf got want = Z.abs (place binary32 got - place binary32 want).
Proof.
  intros Hg Hw Ng Nw. unfold acc_ulpsf. rewrite Ng.
  pose proof (place_bound binary32 got (or_introl eq_refl) Hg Ng) as Hb1.
  pose proof (place_bound binary32 want (or_introl eq_refl) Hw Nw) as Hb2.
  assert (top binary32 < 2 ^ 31) as Ht by (by vm_compute).
  rewrite !ordered_float by done.
  destruct (Z.ltb_spec (place binary32 want) (place binary32 got)); unfold u64; rewrite uwrap_small; lia.
Qed.

(** C17: The distance acc_ulps computes is the number of steps between the two
    values in the list of all doubles from minus to plus infinity: the map to
    integers follows the order of the values, reaches every integer up to that
    of the infinity and makes the two zeros one, and the subtraction does not
    overflow. *)
Theorem acc_ulps_counts_doubles got want :
  double got → double want → isnan got = false → isnan want = false →
  acc_ulps got want = Z.abs (acc_ordered got - acc_ordered want) ∧
  SFcompare got want = Some (acc_ordered got ?= acc_ordered want) ∧
  (∀ k, Z.abs k ≤ acc_ordered (S754_infinity false) →
     ∃ x, double x ∧ isnan x = false ∧ acc_ordered x = k ∧
       ∀ y, double y → isnan y = false → acc_ordered y = k → SFeqb x y = true).
Proof.
  intros Hg Hw Ng Nw. rewrite acc_ulps_place, !(acc_ordered_place got), !(acc_ordered_place want) by done.
  split_and!; [done|by apply place_compare; [right| | | |]|]. intros k Hk.
  destruct (at_place_spec binary64 (or_intror eq_refl) k) as (Hv & Hn & Hp); [by rewrite acc_ordered_place in Hk|].
  exists (at_place binary64 k). split_and!; [done..|by rewrite acc_ordered_place|].
  intros y Hy Ny Ey. rewrite acc_ordered_place in Ey by done.
  unfold SFeqb. rewrite (place_compare binary64 (or_intror eq_refl)) by done. by rewrite Hp, Ey, Z.compare_refl.
Qed.

(** ** Checking a table *)

Lemma worst_loop_spec {A} (d : A → Z) t : ∀ i wi worst,
  let '(w, k) := worst_loop d t i wi worst in
  Forall (λ row, d row ≤ w) t ∧
  ((w = worst ∧ k = wi) ∨
   worst < w ∧ ∃ j row, k = (i + j)%nat ∧ t !! j = Some row ∧ d row = w ∧
     ∀ j' row', (j' < j)%nat → t !! j' = Some row' → d row' < w).
Proof.
  induction t as [|row t IH]; intros i wi worst; cbn [worst_loop]; [split; [constructor|by left]|].
  destruct (Z.ltb_spec worst (d row)) as [Hlt|Hge].
  - specialize (IH (S i) i (d row)). destruct (worst_loop d t (S i) i (d row)) as [w k].
    destruct IH as (Hall & [[-> ->]|(Hw & j & r & -> & Hj & Hd & Hlow)]).
    + split; [by constructor|]. right. split; [done|]. exists 0%nat, row. split_and!; [lia|done|done|lia].
    + split; [constructor; [lia|done]|]. right. split; [lia|]. exists (S j), r. split_and!; [lia|done|done|].
      intros [|j'] row' Hj' Hl; [injection Hl as <-; lia|by eapply Hlow; [|exact Hl]; lia].
  - specialize (IH (S i) wi worst). destruct (worst_loop d t (S i) wi worst) as [w k].
    destruct IH as (Hall & [[-> ->]|(Hw & j & r & -> & Hj & Hd & Hlow)]); [split; [by constructor|by left]|].
    split; [constructor; [lia|done]|]. right. split; [lia|]. exists (S j), r. split_and!; [lia|done|done|].
    intros [|j'] row' Hj' Hl; [injection Hl as <-; lia|by eapply Hlow; [|exact Hl]; lia].
Qed.

Section checks.
Context `{Target}.

(** The common shape of the checks. *)
Definition table_check {A} (d : A → Z) (t : list A) (ulps line : Z) (msg : A → Z → cstr) : M unit :=
  let '(worst, wi) := worst_loop d t 0 0 0 in
  when (ulps <? worst) (row ← of_option (t !! wi); TEST_FAIL_MESSAGE (Some (msg row worst)) line).

(** A row that is too far off, at the greatest distance, the first such. *)
Definition worst_row {A} (d : A → Z) (t : list A) (ulps : Z) (row : A) : Prop :=
  ulps < d row ∧ Forall (λ r, d r ≤ d row) t ∧
  ∃ j, t !! j = Some row ∧ ∀ j' r, (j' < j)%nat → t !! j' = Some r → d r < d row.

Definition within {A} (d : A → Z) (t : list A) (ulps : Z) : bool := forallb (λ row, d row <=? ulps) t.

Lemma table_check_spec {A} (d : A → Z) t ulps line msg :
  0 ≤ ulps →
  if within d t ulps then table_check d t ulps line msg = skip
  else ∃ row, worst_row d t ulps row ∧
    ∀ w, table_check d t ulps line msg w = TEST_FAIL_MESSAGE (Some (msg row (d row))) line w.
Proof.
  intros Hu. unfold table_check, within. pose proof (worst_loop_spec d t 0 0 0) as Hl.
  destruct (worst_loop d t 0 0 0) as [worst wi]. destruct Hl as (Hall & Hw).
  destruct (forallb _ t) eqn:Hf.
  - rewrite forallb_forall in Hf.
    assert (worst ≤ ulps) as Hle.
    { destruct Hw as [[-> _]|(_ & j & row & _ & Hj & <- & _)]; [done|].
      apply Z.leb_le, Hf, list_elem_of_In. by eapply list_elem_of_lookup_2. }
    by rewrite (proj2 (Z.ltb_ge _ _)).
  - assert (ulps < worst) as Hlt.
    { apply Z.nle_gt. intros Hle. apply not_true_iff_false in Hf. apply Hf, forallb_forall. intros row Hr%list_elem_of_In.
      rewrite Forall_forall in Hall. apply Z.leb_le. specialize (Hall row Hr). cbn in Hall. lia. }
    rewrite (proj2 (Z.ltb_lt _ _)) by done. destruct Hw as [[-> _]|(_ & j & row & -> & Hj & Hd & Hlow)]; [lia|].
    exists row. cbn [Nat.add when]. subst worst. split; [by split_and!; [done..|]; exists j|]. intros w. by rewrite Hj.
Qed.

Lemma verdict_check {A} (d : A → Z) t ulps line msg : 0 ≤ ulps → verdict (table_check d t ulps line msg) (within d t ulps).
Proof.
  intros Hu w Hw. pose proof (table_check_spec d t ulps line msg Hu) as Hc. destruct (within d t ulps); [by rewrite Hc|].
  destruct Hc as (row & _ & E). rewrite E. unfold TEST_FAIL_MESSAGE, UNITY_TEST_FAIL. rewrite UnityFail_eq by done.
  eexists. split; [done|]. done.
Qed.

Context (acc_msg1 : cstr → spec_float → spec_float → spec_float → Z → Z → cstr).
Context (acc_msg2 : cstr → spec_float → spec_float → spec_float → spec_float → Z → Z → cstr).

Definition dist1 (f : spec_float → spec_float) (row : math_ref1) : Z := acc_ulps (f (ref1_x row)) (ref1_r row).
Definition dist2 (f : spec_float → spec_float → spec_float) (row : math_ref2) : Z :=
  acc_ulps (f (ref2_x row) (ref2_y row)) (ref2_r row).
Definition dist1f (f : spec_float → spec_float) (row : math_ref1) : Z :=
  acc_ulpsf (f (to_float (ref1_x row))) (to_float (ref1_r row)).
Definition dist2f (f : spec_float → spec_float → spec_float) (row : math_ref2) : Z :=
  acc_ulpsf (f (to_float (ref2_x row)) (to_float (ref2_y row))) (to_float (ref2_r row)).

Lemma verdict_ACC_TEST1 fn f ff ref reff ulps ulpsf :
  0 ≤ ulps → 0 ≤ ulpsf →
  verdict (ACC_TEST1 acc_msg1 fn f ff ref reff ulps ulpsf) (within (dist1 f) ref ulps && within (dist1f ff) reff ulpsf).
Proof.
  intros Hu Huf. apply verdict_seq.
  - apply (verdict_check (dist1 f) ref ulps 115 (λ row worst, acc_msg1 fn (ref1_x row) (f (ref1_x row)) (ref1_r row) worst ulps) Hu).
  - apply (verdict_check (dist1f ff) reff ulpsf 155 (λ row worst, acc_msg1 (fn ++ str "f") (ref1_x row)
      (to_double (ff (to_float (ref1_x row)))) (ref1_r row) worst ulpsf) Huf).
Qed.

Lemma verdict_ACC_TEST2 fn f ff ref reff ulps ulpsf :
  0 ≤ ulps → 0 ≤ ulpsf →
  verdict (ACC_TEST2 acc_msg2 fn f ff ref reff ulps ulpsf) (within (dist2 f) ref ulps && within (dist2f ff) reff ulpsf).
Proof.
  intros Hu Huf. apply verdict_seq.
  - apply (verdict_check (dist2 f) ref ulps 135 (λ row worst, acc_msg2 fn (ref2_x row) (ref2_y row)
      (f (ref2_x row) (ref2_y row)) (ref2_r row) worst ulps) Hu).
  - apply (verdict_check (dist2f ff) reff ulpsf 175 (λ row worst, acc_msg2 (fn ++ str "f") (ref2_x row) (ref2_y row)
      (to_double (ff (to_float (ref2_x row)) (to_float (ref2_y row)))) (ref2_r row) worst ulpsf) Huf).
Qed.

(** A test of a function passes exactly when every row of both tables is
    within the allowed distance; otherwise the check of the doubles reports
    the first of the rows at the greatest distance, with that distance. *)
Theorem accuracy_tests_decide fn f ff ref reff ulps ulpsf :
  0 ≤ ulps → 0 ≤ ulpsf →
  verdict (ACC_TEST1 acc_msg1 fn f ff ref reff ulps ulpsf) (within (dist1 f) ref ulps && within (dist1f ff) reff ulpsf) ∧
  (within (dist1 f) ref ulps = false → ∃ row, worst_row (dist1 f) ref ulps row ∧
     ∀ w, acc_check1 acc_msg1 fn f ref ulps w =
       TEST_FAIL_MESSAGE (Some (acc_msg1 fn (ref1_x row) (f (ref1_x row)) (ref1_r row) (dist1 f row) ulps)) 115 w).
Proof.
  intros Hu Huf. split; [by apply verdict_ACC_TEST1|]. intros Hw.
  pose proof (table_check_spec (dist1 f) ref ulps 115
    (λ row worst, acc_msg1 fn (ref1_x row) (f (ref1_x row)) (ref1_r row) worst ulps) Hu) as Hc.
  rewrite Hw in Hc. exact Hc.
Qed.
End checks.

(** ** Exact values *)

(** A finite value as a multiple of the smallest one of its format. *)
Definition scaled (f : format) (x : spec_float) : option Z :=
  match x with
  | S754_zero _ => Some 0
  | S754_finite s m e => let v := Zpos m * 2 ^ (e - emin (f_prec f) (f_emax f)) in Some (if s then - v else v)
  | _ => None
  end.

Section exact.
Context (f : format) (Hf : f = binary32 ∨ f = binary64).

Lemma scaled_pos s m e :
  valid f (S754_finite s m e) → 0 < Zpos m * 2 ^ (e - emin (f_prec f) (f_emax f)).
Proof using Hf.
  intros Hv. destruct (finite_bounds f Hf _ _ _ Hv) as (He & _). apply Z.mul_pos_pos; [lia|]. apply Z.pow_pos_nonneg; lia.
Qed.

Lemma finite_compare s m e s' m' e' :
  valid f (S754_finite s m e) → valid f (S754_finite s' m' e') →
  let em := emin (f_prec f) (f_emax f) in
  ((e - em) * 2 ^ (f_prec f - 1) + Zpos m ?= (e' - em) * 2 ^ (f_prec f - 1) + Zpos m') =
  (Zpos m * 2 ^ (e - em) ?= Zpos m' * 2 ^ (e' - em)).
Proof using Hf.
  intros Hv Hv' em. pose proof (format_bounds f Hf) as (_ & _ & HP).
  assert (∀ m e m' e', em ≤ e → e < e' → Zpos m < 2 * 2 ^ (f_prec f - 1) → 2 ^ (f_prec f - 1) ≤ Zpos m' →
    Zpos m * 2 ^ (e - em) < Zpos m' * 2 ^ (e' - em)) as Hlt.
  { clear. intros m e m' e' He Hee Hm Hm'. replace (e' - em) with (e - em + (e' - e - 1) + 1) by lia.
    rewrite !Z.pow_add_r by lia. set (A := 2 ^ (e - em)). set (B := 2 ^ (e' - e - 1)).
    assert (0 < A) by (apply Z.pow_pos_nonneg; lia). assert (0 < B) by (apply Z.pow_pos_nonneg; lia).
    change (2 ^ 1) with 2. apply Z.lt_le_trans with (2 * Zpos m' * A); [apply Z.mul_lt_mono_pos_r; lia|nia]. }
  destruct (finite_bounds f Hf _ _ _ Hv) as (He & Hm & Hm2). destruct (finite_bounds f Hf _ _ _ Hv') as (He' & Hm' & Hm2').
  fold em in He, Hm2, He', Hm2'. destruct (Z.lt_trichotomy e e') as [Hee|[->|Hee]].
  - specialize (Hm2' ltac:(lia)). transitivity Lt; [apply Z.compare_lt_iff; nia|symmetry; apply Z.compare_lt_iff; apply Hlt; lia].
  - rewrite Z.add_compare_mono_l, !(Z.mul_comm (Zpos _)). apply Zmult_compare_compat_l.
    apply Z.lt_gt, Z.pow_pos_nonneg; lia.
  - specialize (Hm2 ltac:(lia)). transitivity Gt; [apply Z.compare_gt_iff; nia|symmetry; apply Z.compare_gt_iff; apply Hlt; lia].
Qed.

(** The places are in the order of the numbers. *)
Lemma scaled_compare x y u v :
  valid f x → valid f y → scaled f x = Some u → scaled f y = Some v → (place f x ?= place f y) = (u ?= v).
Proof using Hf.
  intros Hx Hy Hu Hv.
  destruct x as [s|s| |s m e]; try done; destruct y as [s'|s'| |s' m' e']; try done;
    injection Hu as <-; injection Hv as <-; cbn [place]; [done|..].
  - pose proof (place_finite f Hf _ _ _ Hy). pose proof (scaled_pos _ _ _ Hy).
    destruct s'; [transitivity Gt; [|symmetry]; apply Z.compare_gt_iff; lia|].
    transitivity Lt; [|symmetry]; apply Z.compare_lt_iff; lia.
  - pose proof (place_finite f Hf _ _ _ Hx). pose proof (scaled_pos _ _ _ Hx).
    destruct s; [transitivity Lt; [|symmetry]; apply Z.compare_lt_iff; lia|].
    transitivity Gt; [|symmetry]; apply Z.compare_gt_iff; lia.
  - pose proof (place_finite f Hf _ _ _ Hx). pose proof (scaled_pos _ _ _ Hx).
    pose proof (place_finite f Hf _ _ _ Hy). pose proof (scaled_pos _ _ _ Hy).
    destruct s, s'.
    + rewrite !Z.compare_opp. by apply (finite_compare _ _ _ _ _ _ Hy Hx).
    + transitivity Lt; [|symmetry]; apply Z.compare_lt_iff; lia.
    + transitivity Gt; [|symmetry]; apply Z.compare_gt_iff; lia.
    + by apply (finite_compare _ _ _ _ _ _ Hx Hy).
Qed.

Lemma scaled_lt x y u v :
  valid f x → valid f y → scaled f x = Some u → scaled f y = Some v → place f x < place f y ↔ u < v.
Proof using Hf. intros Hx Hy Hu Hv. rewrite <- !Z.compare_lt_iff. by rewrite (scaled_compare x y u v). Qed.
Lemma scaled_le x y u v :
  valid f x → valid f y → scaled f x = Some u → scaled f y = Some v → place f x ≤ place f y ↔ u ≤ v.
Proof using Hf. intros Hx Hy Hu Hv. rewrite <- !Z.nlt_ge. by rewrite (scaled_lt y x v u). Qed.

Lemma scaled_place x y v :
  valid f x → valid f y → isnan x = false → scaled f y = Some v → place f x = place f y ↔ scaled f x = Some v.
Proof using Hf.
  intros Hx Hy Nx Hv. destruct (scaled f x) as [u|] eqn:Hu.
  - rewrite (inj_iff Some), <- !Z.compare_eq_iff. by rewrite (scaled_compare x y u v).
  - split; [|done]. destruct x as [|s| |]; try done. intros E. destruct y as [|s'| |s' m e]; try done; cbn [place] in E.
    + assert (0 < top f) by (destruct Hf as [-> | ->]; by vm_compute). destruct s; lia.
    + pose proof (place_finite f Hf _ _ _ Hy). destruct s, s'; lia.
Qed.

(** ** Nearest values *)

(** No value other than [r] is nearer to the [n]-th root of [t], t being in
    units of the smallest value: the middle between [r] and the other is on
    the other's side of the root. *)
Definition nearest_root (n t : Z) (r : spec_float) : Prop :=
  ∃ R, scaled f r = Some R ∧ 0 ≤ R ∧ ∀ y Y, valid f y → scaled f y = Some Y → 0 ≤ Y →
    (R < Y → 2 ^ n * t ≤ (R + Y) ^ n) ∧ (Y < R → (R + Y) ^ n ≤ 2 ^ n * t).

(** Comparing with the two neighbours is enough. *)
Definition nearest_rootb (n t : Z) (r : spec_float) : bool :=
  valid_binary (f_prec f) (f_emax f) r && (0 <=? place f r) && (place f r <? top f - 1) &&
  match scaled f r, scaled f (at_place f (place f r - 1)), scaled f (at_place f (place f r + 1)) with
  | Some R, Some A, Some B => ((R =? 0) || ((R + A) ^ n <=? 2 ^ n * t)) && (2 ^ n * t <=? (R + B) ^ n)
  | _, _, _ => false
  end.

Lemma nearest_rootb_spec n t r : 0 ≤ n → nearest_rootb n t r = true → nearest_root n t r.
Proof using Hf.
  intros Hn. unfold nearest_rootb. rewrite !andb_true_iff. intros (((Hv & H0%Z.leb_le) & Htop%Z.ltb_lt) & Hm).
  destruct (scaled f r) as [R|] eqn:ER; [|done].
  destruct (scaled f (at_place f (place f r - 1))) as [A|] eqn:EA; [|done].
  destruct (scaled f (at_place f (place f r + 1))) as [B|] eqn:EB; [|done].
  apply andb_true_iff in Hm as [HA HB%Z.leb_le].
  assert (0 < top f) as Ht by (destruct Hf as [-> | ->]; by vm_compute).
  destruct (at_place_spec f Hf (place f r - 1) ltac:(lia)) as (VA & _ & PA).
  destruct (at_place_spec f Hf (place f r + 1) ltac:(lia)) as (VB & _ & PB).
  assert (0 ≤ R) as HR0 by (by apply (scaled_le (S754_zero false) r 0 R)).
  exists R. split_and!; [done..|]. intros y Y Hy EY HY. split; intros HYR.
  - apply (scaled_lt r y R Y) in HYR; [|done..].
    assert (B ≤ Y) as HBY by (apply (scaled_le (at_place f (place f r + 1)) y B Y); [done..|lia]).
    etransitivity; [exact HB|]. apply Z.pow_le_mono_l. split; [|lia].
    enough (R ≤ B) by lia. apply (scaled_le r (at_place f (place f r + 1)) R B); [done..|lia].
  - apply orb_true_iff in HA as [HA%Z.eqb_eq|HA%Z.leb_le]; [lia|].
    apply (scaled_lt y r Y R) in HYR; [|done..].
    assert (Y ≤ A) as HYA by (apply (scaled_le y (at_place f (place f r - 1)) Y A); [done..|lia]).
    etransitivity; [|exact HA]. apply Z.pow_le_mono_l. lia.
Qed.
End exact.

Lemma acc_ulps_zero got want v :
  double got → double want → scaled binary64 want = Some v → acc_ulps got want ≤ 0 ↔ scaled binary64 got = Some v.
Proof.
  intros Hg Hw Hv. destruct (isnan got) eqn:Ng.
  { unfold acc_ulps. rewrite Ng. unfold UINT64_MAX. split; [lia|]. by destruct got. }
  rewrite acc_ulps_place, <- (scaled_place binary64 (or_intror eq_refl) got want) by (done || by destruct want). lia.
Qed.

Lemma acc_ulpsf_zero got want v :
  single got → single want → scaled binary32 want = Some v → acc_ulpsf got want ≤ 0 ↔ scaled binary32 got = Some v.
Proof.
  intros Hg Hw Hv. destruct (isnan got) eqn:Ng.
  { unfold acc_ulpsf. rewrite Ng. unfold UINT64_MAX. split; [lia|]. by destruct got. }
  rewrite acc_ulpsf_place, <- (scaled_place binary32 (or_introl eq_refl) got want) by (done || by destruct want). lia.
Qed.

(** The remainder of the nearest quotient, the even one of two. *)
Definition ieee_rem (x y : Z) : Z :=
  let r := x mod Z.abs y in
  if (2 * r <? Z.abs y) || ((2 * r =? Z.abs y) && Z.even (x / Z.abs y)) then r else r - Z.abs y.

Lemma ieee_rem_spec x y :
  y ≠ 0 → ∃ n, x = n * y + ieee_rem x y ∧ 2 * Z.abs (ieee_rem x y) ≤ Z.abs y ∧
    (2 * Z.abs (ieee_rem x y) = Z.abs y → Z.even n = true).
Proof.
  intros Hy. unfold ieee_rem. pose proof (Z.div_mod x (Z.abs y) ltac:(lia)) as Hd.
  pose proof (Z.mod_pos_bound x (Z.abs y) ltac:(lia)) as Hr.
  set (r := x mod Z.abs y) in *. set (q := x / Z.abs y) in *.
  assert (∀ k, k * Z.abs y = (k * Z.sgn y) * y) as Hs by (intros k; destruct y; lia).
  assert (∀ k, Z.even (k * Z.sgn y) = Z.even k) as He by (intros k; destruct y; [done|by rewrite Z.mul_1_r|by rewrite Z.even_mul, orb_false_r]).
  destruct (Z.ltb_spec (2 * r) (Z.abs y)); [|destruct (Z.eqb_spec (2 * r) (Z.abs y))]; cbn [orb andb].
  - exists (q * Z.sgn y). rewrite <- Hs. split_and!; [lia|lia|]. lia.
  - destruct (Z.even q) eqn:Eq.
    + exists (q * Z.sgn y). rewrite <- Hs, He. split_and!; [lia|lia|done].
    + exists ((q + 1) * Z.sgn y). rewrite <- Hs, He. split_and!; [lia|lia|]. intros _. rewrite Z.even_add, Eq. done.
  - exists ((q + 1) * Z.sgn y). rewrite <- Hs, He. split_and!; [lia|lia|lia].
Qed.

(** [g] gives the number [op] of the arguments of a row. *)
Definition row_exact (f : format) (cast : spec_float → spec_float) (op : Z → Z → Z)
    (g : spec_float → spec_float → spec_float) (row : math_ref2) : Prop :=
  ∃ x y, scaled f (cast (ref2_x row)) = Some x ∧ scaled f (cast (ref2_y row)) = Some y ∧ y ≠ 0 ∧
    scaled f (g (cast (ref2_x row)) (cast (ref2_y row))) = Some (op x y).

(** The reference of a row is that number. *)
Definition ref_exact (f : format) (cast : spec_float → spec_float) (op : Z → Z → Z) (row : math_ref2) : bool :=
  valid_binary (f_prec f) (f_emax f) (cast (ref2_r row)) &&
  match scaled f (cast (ref2_x row)), scaled f (cast (ref2_y row)), scaled f (cast (ref2_r row)) with
  | Some x, Some y, Some r => negb (y =? 0) && (r =? op x y)
  | _, _, _ => false
  end.

Lemma references_exact :
  forallb (ref_exact binary64 id Z.rem) ref_fmod && forallb (ref_exact binary32 to_float Z.rem) ref_fmodf &&
  forallb (ref_exact binary64 id ieee_rem) ref_remainder && forallb (ref_exact binary32 to_float ieee_rem) ref_remainderf = true.
Proof. by vm_compute. Qed.

Lemma exact_rows f cast op g d t :
  (∀ got want v, valid f got → valid f want → scaled f want = Some v → d got want ≤ 0 ↔ scaled f got = Some v) →
  (∀ x y, valid f (g x y)) → forallb (ref_exact f cast op) t = true →
  within (λ row, d (g (cast (ref2_x row)) (cast (ref2_y row))) (cast (ref2_r row))) t 0 = true ↔
  Forall (row_exact f cast op g) t.
Proof.
  intros Hd Hg. unfold within. induction t as [|row t IH]; cbn [forallb]; [by split|].
  intros [Hr Ht]%andb_true_iff. rewrite andb_true_iff, Forall_cons, IH by done. f_equiv.
  unfold ref_exact in Hr. apply andb_true_iff in Hr as [Hv Hr]. unfold row_exact.
  destruct (scaled f (cast (ref2_x row))) as [x|] eqn:Ex; [|done]. destruct (scaled f (cast (ref2_y row))) as [y|] eqn:Ey; [|done].
  destruct (scaled f (cast (ref2_r row))) as [r|] eqn:Er; [|done].
  apply andb_true_iff in Hr as [Hy%negb_true_iff%Z.eqb_neq Hr%Z.eqb_eq]. subst r.
  rewrite Z.leb_le, (Hd _ _ _ (Hg _ _) Hv Er). split; [intros E; by exists x, y|]. by intros (? & ? & [= <-] & [= <-] & _ & E).
Qed.

(** C18: The tests of fmod() and remainder() pass exactly the functions that are
    exact on every row, double and float: the numbers in the tables are the
    remainders of the truncated and of the nearest quotient, and a distance of
    0 allows nothing but the sign of a zero. *)
Theorem exact_functions_decided `{Target} acc_msg2 fmod fmodf remainder remainderf w :
  undecided w →
  (∀ x y, double (fmod x y)) → (∀ x y, single (fmodf x y)) →
  (∀ x y, double (remainder x y)) → (∀ x y, single (remainderf x y)) →
  (passes (test_fmod acc_msg2 fmod fmodf) w ↔
   Forall (row_exact binary64 id Z.rem fmod) ref_fmod ∧ Forall (row_exact binary32 to_float Z.rem fmodf) ref_fmodf) ∧
  (passes (test_remainder acc_msg2 remainder remainderf) w ↔
   Forall (row_exact binary64 id ieee_rem remainder) ref_remainder ∧
   Forall (row_exact binary32 to_float ieee_rem remainderf) ref_remainderf).
Proof.
  intros Hw Hf Hff Hr Hrf. pose proof references_exact as [[[H1 H2]%andb_true_iff H3]%andb_true_iff H4]%andb_true_iff.
  unfold test_fmod, test_remainder, REF_fmod_ULPS, REF_fmodF_ULPS, REF_remainder_ULPS, REF_remainderF_ULPS. split.
  - rewrite (verdict_passes _ _ _ (verdict_ACC_TEST2 acc_msg2 _ _ _ _ _ 0 0 ltac:(done) ltac:(done)) Hw), andb_true_iff.
    by rewrite <- (exact_rows _ _ _ _ _ _ acc_ulps_zero Hf H1), <- (exact_rows _ _ _ _ _ _ acc_ulpsf_zero Hff H2).
  - rewrite (verdict_passes _ _ _ (verdict_ACC_TEST2 acc_msg2 _ _ _ _ _ 0 0 ltac:(done) ltac:(done)) Hw), andb_true_iff.
    by rewrite <- (exact_rows _ _ _ _ _ _ acc_ulps_zero Hr H3), <- (exact_rows _ _ _ _ _ _ acc_ulpsf_zero Hrf H4).
Qed.

(** ** The tables of roots *)

Section roots.
Context (f : format) (Hf : f = binary32 ∨ f = binary64) (cast : spec_float → spec_float).

(** One unit, the smallest value of the format, is 2^-[unit_bits]. *)
Definition unit_bits : Z := - emin (f_prec f) (f_emax f).

(** The reference is the value nearest to the root of the argument. *)
Definition sqrt_row (row : math_ref1) : Prop := ∃ x,
  scaled f (cast (ref1_x row)) = Some x ∧ nearest_root f 2 (x * 2 ^ unit_bits) (cast (ref1_r row)).
Definition cbrt_row (row : math_ref1) : Prop := ∃ x,
  scaled f (cast (ref1_x row)) = Some x ∧ sign (cast (ref1_r row)) = sign (cast (ref1_x row)) ∧
  nearest_root f 3 (Z.abs x * 2 ^ (2 * unit_bits)) (SFabs (cast (ref1_r row))).
Definition hypot_row (row : math_ref2) : Prop := ∃ x y,
  scaled f (cast (ref2_x row)) = Some x ∧ scaled f (cast (ref2_y row)) = Some y ∧
  nearest_root f 2 (x * x + y * y) (cast (ref2_r row)).

Definition sqrt_rowb (row : math_ref1) : bool :=
  match scaled f (cast (ref1_x row)) with
  | Some x => nearest_rootb f 2 (x * 2 ^ unit_bits) (cast (ref1_r row))
  | None => false
  end.
Definition cbrt_rowb (row : math_ref1) : bool :=
  match scaled f (cast (ref1_x row)) with
  | Some x => eqb (sign (cast (ref1_r row))) (sign (cast (ref1_x row))) &&
      nearest_rootb f 3 (Z.abs x * 2 ^ (2 * unit_bits)) (SFabs (cast (ref1_r row)))
  | None => false
  end.
Definition hypot_rowb (row : math_ref2) : bool :=
  match scaled f (cast (ref2_x row)), scaled f (cast (ref2_y row)) with
  | Some x, Some y => nearest_rootb f 2 (x * x + y * y) (cast (ref2_r row))
  | _, _ => false
  end.

Lemma forallb_Forall {A} (P : A → Prop) (b : A → bool) l : (∀ a, b a = true → P a) → forallb b l = true → Forall P l.
Proof. intros Hb Hl. rewrite forallb_forall in Hl. apply Forall_forall. intros a Ha. by apply Hb, Hl, list_elem_of_In. Qed.

Lemma sqrt_rows t : forallb sqrt_rowb t = true → Forall sqrt_row t.
Proof using Hf.
  apply forallb_Forall. intros row. unfold sqrt_rowb, sqrt_row. destruct (scaled f _) as [x|]; [|done].
  intros Hr. exists x. split; [done|]. by apply nearest_rootb_spec.
Qed.
Lemma cbrt_rows t : forallb cbrt_rowb t = true → Forall cbrt_row t.
Proof using Hf.
  apply forallb_Forall. intros row. unfold cbrt_rowb, cbrt_row. destruct (scaled f _) as [x|]; [|done].
  intros [Hs%eqb_prop Hr]%andb_true_iff. exists x. split_and!; [done..|]. by apply nearest_rootb_spec.
Qed.
Lemma hypot_rows t : forallb hypot_rowb t = true → Forall hypot_row t.
Proof using Hf.
  apply forallb_Forall. intros row. unfold hypot_rowb, hypot_row.
  destruct (scaled f (cast (ref2_x row))) as [x|]; [|done]. destruct (scaled f (cast (ref2_y row))) as [y|]; [|done].
  intros Hr. exists x, y. split_and!; [done..|]. by apply nearest_rootb_spec.
Qed.
End roots.

(** C20: The reference values of sqrt(), cbrt() and hypot() and of their float
    variants are correctly rounded: no other value of the format is nearer to
    the true root. *)
Theorem reference_roots_nearest :
  Forall (sqrt_row binary64 id) ref_sqrt ∧ Forall (sqrt_row binary32 to_float) ref_sqrtf ∧
  Forall (cbrt_row binary64 id) ref_cbrt ∧ Forall (cbrt_row binary32 to_float) ref_cbrtf ∧
  Forall (hypot_row binary64 id) ref_hypot ∧ Forall (hypot_row binary32 to_float) ref_hypotf.
Proof.
  split_and!; [apply sqrt_rows|apply sqrt_rows|apply cbrt_rows|apply cbrt_rows|apply hypot_rows|apply hypot_rows];
    first [by right|by left|by vm_compute].
Qed.

(** ** The first primes *)

Lemma prime_divisor n : 1 < n → ∃ p, prime p ∧ (p | n) ∧ p ≤ n.
Proof.
  induction n as [n IH] using (well_founded_induction (Z.lt_wf 0)). intros Hn.
  destruct (prime_dec n) as [Hp|Hp]; [exists n; split_and!; [done|apply Z.divide_refl|lia]|].
  destruct (not_prime_divide n Hn Hp) as (k & Hk & Hd).
  destruct (IH k ltac:(lia) ltac:(lia)) as (p & Hp' & Hpk & Hle). exists p. split_and!; [done|by eapply Z.divide_trans|lia].
Qed.

(** The primes below [c] in ascending order. *)
Definition primes_below (ps : list Z) (c : Z) : Prop :=
  StronglySorted Z.lt ps ∧ ∀ p, p ∈ ps ↔ prime p ∧ p < c.

Lemma no_divisor_true ps c :
  StronglySorted Z.lt ps → Forall (λ p, 0 < p) ps → no_divisor ps c = true →
  ∀ p, p ∈ ps → p * p ≤ c → ¬ (p | c).
Proof.
  induction 1 as [|q ps Hs IH Hlt]; intros Hpos Hn p Hp Hpp Hd; [by apply not_elem_of_nil in Hp|].
  apply Forall_cons in Hpos as [Hq Hpos]. rewrite Forall_forall in Hlt, Hpos. cbn [no_divisor] in Hn.
  assert (q ≤ p) as Hqp by (apply elem_of_cons in Hp as [->|Hp]; [lia|specialize (Hlt p Hp); lia]).
  rewrite (proj2 (Z.leb_le _ _)) in Hn by nia. destruct (Z.eqb_spec (c mod q) 0) as [|Hm]; [done|].
  apply elem_of_cons in Hp as [->|Hp]; [by apply Hm, Z.mod_divide; [lia|]|].
  by eapply IH; [apply Forall_forall| | | |].
Qed.

Lemma no_divisor_false ps c : Forall (λ p, 0 < p) ps → no_divisor ps c = false → ∃ p, p ∈ ps ∧ (p | c).
Proof.
  induction 1 as [|q ps Hq Hpos IH]; cbn [no_divisor]; [done|].
  destruct (q * q <=? c); [|done]. destruct (Z.eqb_spec (c mod q) 0) as [Hm|]; intros Hn.
  - exists q. split; [by left|]. apply Z.mod_divide; lia.
  - destruct (IH Hn) as (p & Hp & Hd). exists p. split; [by right|done].
Qed.

Lemma no_divisor_spec ps c : 2 ≤ c → primes_below ps c → no_divisor ps c = true ↔ prime c.
Proof.
  intros Hc [Hs Hps]. assert (Forall (λ p, 0 < p) ps) as Hpos.
  { apply Forall_forall. intros p [Hp _]%Hps. destruct Hp. lia. }
  split; intros Hn.
  - destruct (prime_dec c) as [|Hp]; [done|]. exfalso. destruct (not_prime_divide c ltac:(lia) Hp) as (n & Hn1 & k & Hk).
    assert (1 < k < c) as Hk1 by nia. assert (∃ q, q ≤ n ∧ q ≤ k ∧ 1 < q ∧ (q | c)) as (q & Hqn & Hqk & Hq1 & Hqd).
    { destruct (decide (n ≤ k)); [exists n|exists k]; split_and!; try lia; [by exists k|exists n; lia]. }
    destruct (prime_divisor q Hq1) as (p & Hp' & Hpq & Hle). assert (1 < p) by (by destruct Hp').
    eapply (no_divisor_true ps c Hs Hpos Hn p); [apply Hps; split; [done|lia]|nia|by eapply Z.divide_trans].
  - destruct (no_divisor ps c) eqn:E; [done|]. destruct (no_divisor_false ps c Hpos E) as (p & [Hp Hlt]%Hps & Hd).
    exfalso. apply prime_alt in Hn as [_ Hn]. apply (Hn p); [split; [by destruct Hp|done]|done].
Qed.

Lemma no_primes_below_2 : primes_below [] 2.
Proof.
  split; [constructor|]. intros p. split; [by intros ?%not_elem_of_nil|]. intros [Hp Hlt]. destruct Hp. lia.
Qed.

Lemma primes_loop_spec fuel count : ∀ ps c r,
  2 ≤ c → primes_below ps c → (length ps ≤ count)%nat → primes_loop fuel count ps c = Some r →
  length r = count ∧ ∃ c', primes_below r c'.
Proof.
  induction fuel as [|fuel IH]; intros ps c r Hc Hps Hl; cbn [primes_loop];
    (destruct (Nat.ltb_spec (length ps) count) as [Hlt|]; [|intros [= <-]; split; [lia|eauto]]); [done|].
  apply IH; [lia| |destruct (no_divisor ps c); rewrite ?length_app; cbn [length]; lia].
  pose proof (no_divisor_spec ps c Hc Hps) as Hn. destruct Hps as [Hs Hps]. destruct (no_divisor ps c).
  - split; [|intros p; rewrite elem_of_app, list_elem_of_singleton, Hps].
    + clear - Hs Hps. assert (Forall (λ p, p < c) ps) as Hf by (apply Forall_forall; intros p Hp; by apply Hps in Hp as [_ ?]).
      clear Hps. induction Hs as [|q ps Hs IH Hq]; [repeat constructor|]. apply Forall_cons in Hf as [Hqc Hf].
      constructor; [by apply IH|]. apply Forall_app. by split; [|repeat constructor].
    + split; [intros [[? ?]| ->]; split; [done|lia|by apply Hn|lia]|]. intros [Hp Hlt']. destruct (decide (p = c)); [by right|left; split; [done|lia]].
  - split; [done|]. intros p. rewrite Hps. split; [intros []; split; [done|lia]|]. intros [Hp Hlt']. split; [done|].
    assert (p ≠ c) by (intros ->; by apply Hn in Hp). lia.
Qed.

(** ** The constants *)

(** [h] is the first 32 bits of the fractional part of the [n]-th root of [p]. *)
Definition root_digits (n h p : Z) : Prop :=
  0 ≤ h < 2 ^ 32 ∧ ∃ i, 0 ≤ i ∧ (i * 2 ^ 32 + h) ^ n ≤ p * 2 ^ (32 * n) < (i * 2 ^ 32 + h + 1) ^ n.

Definition root_digitsb (n h p : Z) : bool :=
  (0 <=? h) && (h <? 2 ^ 32) &&
  existsb (λ i, ((i * 2 ^ 32 + h) ^ n <=? p * 2 ^ (32 * n)) && (p * 2 ^ (32 * n) <? (i * 2 ^ 32 + h + 1) ^ n))
    (seqZ 0 20).

Lemma root_digitsb_spec n h p : root_digitsb n h p = true → root_digits n h p.
Proof.
  unfold root_digitsb, root_digits. rewrite !andb_true_iff, Z.leb_le, Z.ltb_lt, existsb_exists.
  intros [Hh (i & Hi%list_elem_of_In%elem_of_seqZ & [H1%Z.leb_le H2%Z.ltb_lt]%andb_true_iff)].
  split; [done|]. exists i. lia.
Qed.

Fixpoint pairwise (b : Z → Z → bool) (l l' : list Z) : bool :=
  match l, l' with
  | [], [] => true
  | x :: l, y :: l' => b x y && pairwise b l l'
  | _, _ => false
  end.

Lemma pairwise_cons b x l y l' : pairwise b (x :: l) (y :: l') = true ↔ b x y = true ∧ pairwise b l l' = true.
Proof. apply andb_true_iff. Qed.

Lemma pairwise_Forall2 (P : Z → Z → Prop) b l l' : (∀ x y, b x y = true → P x y) → pairwise b l l' = true → Forall2 P l l'.
Proof.
  intros Hb. revert l'. induction l as [|x l IH]; intros [|y l']; try done.
  intros [Hx Hl]%pairwise_cons. constructor; auto.
Qed.

(** The integer part of the [n]-th root of [t], by bisection. *)
Fixpoint int_root (bits : nat) (n t r : Z) : Z :=
  match bits with
  | O => r
  | S bits => let r' := r + 2 ^ Z.of_nat bits in int_root bits n t (if r' ^ n <=? t then r' else r)
  end.

(** The place of the largest double below the [n]-th root of [p], from its
    first 52 bits after the point; the root is from 1 to 8. *)
Definition root_place (n p : Z) : Z :=
  let s := int_root 55 n (p * 2 ^ (52 * n)) 0 in
  let j := Z.log2 s - 52 in
  (1022 + j) * 2 ^ 52 + s / 2 ^ j.

(** The root of [p] in units of the smallest double. *)
Definition root_units (n p : Z) : Z := p * 2 ^ (n * unit_bits binary64).

(** The constant comes out for every double within [d] places of the two
    around the root. *)
Definition digits_stable (d : nat) (n h p : Z) : bool :=
  let k := root_place n p in
  (Z.of_nat d <? k) && (k + Z.of_nat d + 1 <? top binary64) &&
  match scaled binary64 (at_place binary64 k), scaled binary64 (at_place binary64 (k + 1)) with
  | Some a, Some b => (0 <=? a) && (a ^ n <=? root_units n p) && (root_units n p <=? b ^ n)
  | _, _ => false
  end &&
  forallb (λ j, bool_decide (acc_frac32 (at_place binary64 (k + j)) = Some h)) (seqZ (- Z.of_nat d) (2 * Z.of_nat d + 2)).

Lemma nearest_between n t r R a b :
  0 < n → 0 ≤ a → scaled binary64 r = Some R → nearest_root binary64 n t r →
  (∃ x, double x ∧ scaled binary64 x = Some a) → (∃ x, double x ∧ scaled binary64 x = Some b) →
  a ^ n ≤ t → t ≤ b ^ n → a ≤ b → a ≤ R ≤ b.
Proof.
  intros Hn Ha ER (R' & ER' & HR & Hnear) (x & Hx & Ex) (y & Hy & Ey) Hat Hbt Hab.
  assert (R' = R) as -> by congruence. split; apply Z.nlt_ge; intros Hlt.
  - destruct (Hnear x a Hx Ex Ha) as [H1 _]. specialize (H1 Hlt).
    assert ((R + a) ^ n < (2 * a) ^ n) by (apply Z.pow_lt_mono_l; lia). rewrite Z.pow_mul_l in *.
    assert (0 < 2 ^ n) by (apply Z.pow_pos_nonneg; lia). nia.
  - destruct (Hnear y b Hy Ey ltac:(lia)) as [_ H1]. specialize (H1 Hlt).
    assert ((2 * b) ^ n < (R + b) ^ n) by (apply Z.pow_lt_mono_l; lia). rewrite Z.pow_mul_l in *.
    assert (0 < 2 ^ n) by (apply Z.pow_pos_nonneg; lia). nia.
Qed.

(** A result within [d] places of the correctly rounded root gives the constant. *)
Lemma stable_digits d n h p x r :
  0 < n → digits_stable d n h p = true → double r → nearest_root binary64 n (root_units n p) r →
  double x → acc_ulps x r ≤ Z.of_nat d → Z.of_nat d < UINT64_MAX → acc_frac32 x = Some h.
Proof.
  intros Hn Hst Hr Hnear Hx Hd Hdm. unfold digits_stable in Hst. revert Hst. generalize (root_place n p) as k. intros k Hst. cbv zeta in Hst.
  apply andb_true_iff in Hst as [Hst Hall]. apply andb_true_iff in Hst as [[Hk1%Z.ltb_lt Hk2%Z.ltb_lt]%andb_true_iff Hst].
  destruct (scaled binary64 (at_place binary64 k)) as [a|] eqn:Ea; [|done].
  destruct (scaled binary64 (at_place binary64 (k + 1))) as [b|] eqn:Eb; [|done].
  apply andb_true_iff in Hst as [[Ha%Z.leb_le Hat%Z.leb_le]%andb_true_iff Hbt%Z.leb_le].
  assert (isnan x = false) as Nx by (destruct x; [done..| |done]; unfold acc_ulps in Hd; cbn [isnan] in Hd; lia).
  destruct (at_place_spec binary64 (or_intror eq_refl) k ltac:(lia)) as (Va & _ & Pa).
  destruct (at_place_spec binary64 (or_intror eq_refl) (k + 1) ltac:(lia)) as (Vb & _ & Pb).
  pose proof Hnear as (R & ER & _).
  assert (a ≤ b) as Hab by (apply (scaled_le binary64 (or_intror eq_refl) _ _ _ _ Va Vb Ea Eb); lia).
  destruct (nearest_between n (root_units n p) r R a b) as [HaR HRb]; eauto.
  apply (scaled_le binary64 (or_intror eq_refl) _ _ _ _ Va Hr Ea ER) in HaR.
  apply (scaled_le binary64 (or_intror eq_refl) _ _ _ _ Hr Vb ER Eb) in HRb.
  rewrite (acc_ulps_place x r Hx Hr Nx ltac:(destruct r; [reflexivity..|discriminate ER|reflexivity])) in Hd.
  rewrite <- (place_inj binary64 (or_intror eq_refl) x Hx Nx) by lia.
  rewrite forallb_forall in Hall. specialize (Hall (place binary64 x - k)).
  rewrite <- list_elem_of_In, elem_of_seqZ in Hall. specialize (Hall ltac:(lia)).
  apply bool_decide_eq_true in Hall. by replace (k + (place binary64 x - k)) with (place binary64 x) in Hall by lia.
Qed.

(** The primes the test finds. *)
Definition primes64 : list Z := default [] (primes_loop 310 64 [] 2).

Lemma primes_found : primes_loop 310 64 [] 2 = Some primes64.
Proof. vm_compute. reflexivity. Qed.

(** The test tries the first 64 primes in order, and its tables are what the
    standard defines: the first 32 bits of the fractional parts of the square
    roots of the first 8 and of the cube roots of all of them. *)
Theorem sha256_tables_are_root_digits :
  primes_loop 310 64 [] 2 = Some primes64 ∧ length primes64 = 64%nat ∧
  (∃ c, primes_below primes64 c) ∧
  Forall2 (root_digits 2) acc_sha256_h (take 8 primes64) ∧ Forall2 (root_digits 3) acc_sha256_k primes64.
Proof.
  pose proof primes_found as E.
  destruct (primes_loop_spec 310 64 [] 2 primes64 ltac:(lia) no_primes_below_2 ltac:(cbn; lia) E) as [Hl Hc].
  assert (pairwise (root_digitsb 2) acc_sha256_h (take 8 primes64) = true) as E2 by (vm_compute; reflexivity).
  assert (pairwise (root_digitsb 3) acc_sha256_k primes64 = true) as E3 by (vm_compute; reflexivity).
  exact (conj E (conj Hl (conj Hc (conj (pairwise_Forall2 _ _ _ _ (root_digitsb_spec 2) E2)
    (pairwise_Forall2 _ _ _ _ (root_digitsb_spec 3) E3))))).
Qed.

(** pow() with the exponent [e] is within 8 places of the correctly rounded
    [n]-th root of each prime. *)
Definition accurate (pow : spec_float → spec_float → spec_float) (e : spec_float) (n : Z) (ps : list Z) : Prop :=
  Forall (λ p, ∃ r, double r ∧ nearest_root binary64 n (root_units n p) r ∧
    double (pow (of_int p) e) ∧ acc_ulps (pow (of_int p) e) r ≤ 8) ps.

Lemma constants_stable :
  pairwise (digits_stable 8 2) acc_sha256_h (take 8 primes64) && pairwise (digits_stable 8 3) acc_sha256_k primes64 = true.
Proof. vm_compute. reflexivity. Qed.

Lemma accurate_cons pow e n p ps :
  accurate pow e n (p :: ps) ↔
  (∃ r, double r ∧ nearest_root binary64 n (root_units n p) r ∧ double (pow (of_int p) e) ∧
    acc_ulps (pow (of_int p) e) r ≤ 8) ∧ accurate pow e n ps.
Proof. unfold accurate. rewrite Forall_cons. reflexivity. Qed.

Lemma of_some_bind {A B} (a : A) (k : A → M B) w : (of_option (Some a) ≫= k) w = k a w.
Proof. reflexivity. Qed.

(** One round of the loop whose constant comes out. *)
Lemma round_passes `{Target} line h msg (k : M unit) w : undecided w → passes k w →
  passes (v ← of_option (Some h); TEST_ASSERT_EQUAL_MESSAGE HEX32 h v line msg;; k) w.
Proof.
  intros Hw Hk. pose proof (verdict_EQUAL_MESSAGE HEX32 h h line msg w Hw) as Hv. rewrite Z.eqb_refl in Hv.
  unfold passes in *. rewrite of_some_bind, (bind_Ret _ _ _ _ _ Hv). exact Hk.
Qed.

Lemma constants_pass `{Target} pow msg line e n w : ∀ table ps i,
  0 < n → undecided w → pairwise (digits_stable 8 n) table ps = true → accurate pow e n ps →
  passes (constants_loop pow msg line e i table ps) w.
Proof.
  induction table as [|h table IH]; intros [|p ps] i Hn Hw Hst Ha; [reflexivity|discriminate Hst|discriminate Hst|].
  apply pairwise_cons in Hst as [Hh Hst]. apply accurate_cons in Ha as [(r & Hr & Hnear & Hx & Hd) Ha].
  cbn [constants_loop]. rewrite (stable_digits 8 n h p _ r Hn Hh Hr Hnear Hx Hd ltac:(unfold UINT64_MAX; lia)).
  apply round_passes; [exact Hw|]. exact (IH ps (S i) Hn Hw Hst Ha).
Qed.

Lemma constants_take `{Target} pow msg line e : ∀ table ps i,
  constants_loop pow msg line e i table (take (length table) ps) = constants_loop pow msg line e i table ps.
Proof.
  induction table as [|h table IH]; intros [|p ps] i; try reflexivity.
  cbn [length take constants_loop]. by rewrite IH.
Qed.

(** C19: Any pow() whose square and cube roots of the first primes are within 8
    units in the last place of the correctly rounded ones passes the test of
    the SHA-256 constants. *)
Theorem accurate_pow_passes `{Target} pow h_msg k_msg w :
  undecided w →
  accurate pow (ddiv (of_int 1) (of_int 2)) 2 (take 8 primes64) →
  accurate pow (ddiv (of_int 1) (of_int 3)) 3 primes64 →
  passes (sha256_constants_from_pow pow h_msg k_msg) w.
Proof.
  intros Hw H2 H3. pose proof constants_stable as [S2 S3]%andb_true_iff.
  pose proof (constants_pass pow h_msg 280 _ 2 w _ _ 0 ltac:(lia) Hw S2 H2) as P2.
  change (take 8 primes64) with (take (length acc_sha256_h) primes64) in P2. rewrite constants_take in P2.
  pose proof (constants_pass pow k_msg 284 _ 3 w _ _ 0 ltac:(lia) Hw S3 H3) as P3.
  unfold sha256_constants_from_pow. rewrite primes_found. generalize dependent primes64. intros ps _ _ _ _ P2 P3.
  unfold passes in *. rewrite of_some_bind, (bind_Ret _ _ _ _ _ P2). exact P3.
Qed.

(** ** Witnesses *)

Section witnesses.
#[local] Existing Instance aarch64.

Lemma acc_ulps_counts_doubles_witness :
  acc_ulps (of_int 1) (of_int 2) = 2 ^ 52 ∧ SFcompare (of_int 1) (of_int 2) = Some Lt.
Proof.
  destruct (acc_ulps_counts_doubles (of_int 1) (of_int 2)) as (E & Ec & _); [vm_compute; reflexivity..|].
  split; [rewrite E|rewrite Ec]; vm_compute; reflexivity.
Defined.

(** The functions that are right on the rows of a table and 0 elsewhere. *)
Definition by_table (cast : spec_float → spec_float) (t : list math_ref2) (x y : spec_float) : spec_float :=
  match List.find (λ row, SFeqb (cast (ref2_x row)) x && SFeqb (cast (ref2_y row)) y) t with
  | Some row => cast (ref2_r row)
  | None => S754_zero false
  end.

Lemma by_table_valid f cast t x y :
  forallb (λ row, valid_binary (f_prec f) (f_emax f) (cast (ref2_r row))) t = true → valid f (by_table cast t x y).
Proof.
  intros Ht. unfold by_table. destruct (List.find _ t) as [row|] eqn:E; [|done].
  apply find_some in E as [Hin _]. rewrite forallb_forall in Ht. exact (Ht row Hin).
Qed.

Lemma exact_functions_decided_witness :
  Forall (row_exact binary64 id Z.rem (by_table id ref_fmod)) ref_fmod ∧
  Forall (row_exact binary32 to_float ieee_rem (by_table to_float ref_remainderf)) ref_remainderf.
Proof.
  destruct (exact_functions_decided (λ _ _ _ _ _ _ _, []) (by_table id ref_fmod) (by_table to_float ref_fmodf)
    (by_table id ref_remainder) (by_table to_float ref_remainderf) initial_world) as [Hf Hr].
  - vm_compute; reflexivity.
  - intros x y. apply by_table_valid. vm_compute; reflexivity.
  - intros x y. apply by_table_valid. vm_compute; reflexivity.
  - intros x y. apply by_table_valid. vm_compute; reflexivity.
  - intros x y. apply by_table_valid. vm_compute; reflexivity.
  - split; [refine (proj1 (proj1 Hf _))|refine (proj2 (proj1 Hr _))]; vm_compute; reflexivity.
Defined.

(** A pow() that is correctly rounded on the roots. *)
Definition nearest_double (n p : Z) : spec_float :=
  let x := at_place binary64 (root_place n p) in
  if nearest_rootb binary64 n (root_units n p) x then x else at_place binary64 (root_place n p + 1).
Definition pow_nearest (x e : spec_float) : spec_float :=
  nearest_double (if SFeqb e (ddiv (of_int 1) (of_int 2)) then 2 else 3) (default 0 (trunc x)).

Lemma nearest_is_accurate pow e n ps :
  0 ≤ n → forallb (λ p, nearest_rootb binary64 n (root_units n p) (pow (of_int p) e)) ps = true → accurate pow e n ps.
Proof.
  intros Hn. apply forallb_Forall. intros p Hp. exists (pow (of_int p) e).
  pose proof (nearest_rootb_spec binary64 (or_intror eq_refl) n _ _ Hn Hp) as Hnear.
  assert (double (pow (of_int p) e)) as Hv by (unfold nearest_rootb in Hp; rewrite !andb_true_iff in Hp; apply Hp).
  split_and!; [exact Hv|exact Hnear|exact Hv|]. destruct Hnear as (R & ER & _).
  assert (isnan (pow (of_int p) e) = false) as Nv by (destruct (pow (of_int p) e); [reflexivity..|discriminate ER|reflexivity]).
  rewrite acc_ulps_place by assumption. lia.
Qed.

Lemma accurate_pow_passes_witness : passes (sha256_constants_from_pow pow_nearest (λ _ _, []) (λ _ _, [])) initial_world.
Proof.
  apply accurate_pow_passes; [vm_compute; reflexivity|apply nearest_is_accurate; [lia|vm_compute; reflexivity]..].
Defined.
End witnesses.
