(* ===== verification/Threads.v ===== *)
(** * Threads with one mutex and one condition variable

    The programs of libc/mutex/mutex.c and libc/bench-mutex/bench_mutex.c run
    threads that share variables under a mutex and wait on a condition
    variable. A program says for each place of a thread what it does there;
    the machine interleaves the threads. Mutex and condition variable are
    those of POSIX: a wait gives the mutex up and takes it again, a signal
    wakes one of the waiting threads, any of them, a broadcast all. Moves that
    a schedule may or may not contain: waking up for no reason, a wait that
    times out, and, for a broken library, a wake-up that is lost. *)

From S2P Require Import Prelude.

Definition EBUSY : Z := 16.
Definition ETIMEDOUT : Z := 110.

(** What a thread does next. *)
Inductive act (S L : Type) :=
  | Lock | Try | Unlock
  | Wait
  | Signal | Broadcast
  | Join (j : nat)
  | Access (s : S) (l : L)
  | Done.
Arguments Lock {S L}.
Arguments Try {S L}.
Arguments Unlock {S L}.
Arguments Wait {S L}.
Arguments Signal {S L}.
Arguments Broadcast {S L}.
Arguments Join {S L} j.
Arguments Access {S L} s l.
Arguments Done {S L}.

(** A program: [S] its shared variables, [L] the places of its threads; [ret]
    is where a thread goes on when a call returns. *)
Class Program (S L : Type) := {
  prog : L → S → act S L;
  ret : L → Z → L;
}.

(** Running, asleep on the condition variable, or woken up with the result of
    its wait and in need of the mutex. *)
Inductive thread (L : Type) := Run (l : L) | Sleep (l : L) | Wake (err : Z) (l : L).
Arguments Run {L} l.
Arguments Sleep {L} l.
Arguments Wake {L} err l.

Record config (S L : Type) := mkConfig { owner : option nat; shared : S; threads : list (thread L) }.
Arguments mkConfig {S L} owner shared threads.
Arguments owner {S L} c.
Arguments shared {S L} c.
Arguments threads {S L} c.

(** [Go i j]: thread [i] makes a step, waking thread [j] if it signals. *)
Inductive move := Go (i j : nat) | Spurious (i : nat) | Timeout (i : nat) | Lose (i : nat).

(** The moves of a working library on a system without time. *)
Definition works (m : move) : bool := match m with Go _ _ | Spurious _ => true | Timeout _ | Lose _ => false end.

Section machine.
Context {S L : Type} `{Program S L}.
Local Abbreviation config := (config S L).

Definition asleep (t : thread L) : bool := match t with Sleep _ => true | _ => false end.
Definition awaken (err : Z) (t : thread L) : thread L := match t with Sleep l => Wake err l | _ => t end.

Definition finished (c : config) (j : nat) : bool :=
  match threads c !! j with
  | Some (Run l) => match prog l (shared c) with Done => true | _ => false end
  | _ => false
  end.

(** Thread [i] goes on as [t]. *)
Definition put (i : nat) (t : thread L) (c : config) : config := mkConfig (owner c) (shared c) (<[i := t]> (threads c)).
Definition own (o : option nat) (c : config) : config := mkConfig o (shared c) (threads c).

(** One step of thread [i], which is running at [l]. *)
Definition run (i j : nat) (l : L) (c : config) : option config :=
  match prog l (shared c) with
  | Lock => match owner c with Some _ => None | None => Some (own (Some i) (put i (Run (ret l 0)) c)) end
  | Try =>
      Some (match owner c with
            | Some _ => put i (Run (ret l EBUSY)) c
            | None => own (Some i) (put i (Run (ret l 0)) c)
            end)
  | Unlock => if decide (owner c = Some i) then Some (own None (put i (Run (ret l 0)) c)) else None
  | Wait => if decide (owner c = Some i) then Some (own None (put i (Sleep l) c)) else None
  | Signal =>
      if existsb asleep (threads c) then
        match threads c !! j with
        | Some (Sleep l') => Some (put i (Run (ret l 0)) (put j (Wake 0 l') c))
        | _ => None
        end
      else Some (put i (Run (ret l 0)) c)
  | Broadcast => Some (put i (Run (ret l 0)) (mkConfig (owner c) (shared c) (awaken 0 <$> threads c)))
  | Join k => if finished c k then Some (put i (Run (ret l 0)) c) else None
  | Access s l' => Some (mkConfig (owner c) s (<[i := Run l']> (threads c)))
  | Done => None
  end.

Definition fire (m : move) (c : config) : option config :=
  match m with
  | Go i j =>
      match threads c !! i with
      | Some (Run l) => run i j l c
      | Some (Wake err l) =>
          match owner c with Some _ => None | None => Some (own (Some i) (put i (Run (ret l err)) c)) end
      | _ => None
      end
  | Spurious i => match threads c !! i with Some (Sleep l) => Some (put i (Wake 0 l) c) | _ => None end
  | Timeout i => match threads c !! i with Some (Sleep l) => Some (put i (Wake ETIMEDOUT l) c) | _ => None end
  | Lose i =>
      match threads c !! i with
      | Some (Run l) =>
          match prog l (shared c) with Signal | Broadcast => Some (put i (Run (ret l 0)) c) | _ => None end
      | _ => None
      end
  end.

(** A schedule is a list of moves. *)
Fixpoint fires (ms : list move) (c : config) : option config :=
  match ms with
  | [] => Some c
  | m :: ms => match fire m c with Some c => fires ms c | None => None end
  end.

(** Reached by a working library, possibly with threads waking up unasked. *)
Definition reached (c c' : config) : Prop := ∃ ms, Forall (λ m, works m = true) ms ∧ fires ms c = Some c'.

(** Some thread can make a step. *)
Definition can_go (c : config) : Prop := ∃ i j c', fire (Go i j) c = Some c'.
End machine.
