(* ===== verification/ThreadsProps.v ===== *)
(** * Mutual exclusion and progress, for every program

    A program that locks and unlocks in pairs, and waits and joins where it
    should, has its mutex owned by exactly the thread that is between the
    two, whatever the interleaving; and it can only get stuck with the mutex
    free and every thread asleep, at its end or joining one that is not. *)

From S2P Require Import Prelude Threads.

(** [inside] marks the places at which a thread holds the mutex. *)
Class Disciplined {S L} `{Program S L} (inside : L → bool) := {
  discipline l s :
    match prog l s with
    | Lock => inside l = false ∧ inside (ret l 0) = true
    | Try => inside l = false ∧ inside (ret l 0) = true ∧ inside (ret l EBUSY) = false
    | Unlock => inside l = true ∧ inside (ret l 0) = false
    | Wait => inside l = true ∧ ∀ err, inside (ret l err) = true
    | Signal | Broadcast => inside (ret l 0) = inside l
    | Join _ => inside l = false ∧ inside (ret l 0) = false
    | Access _ l' => inside l' = inside l
    | Done => inside l = false
    end;
}.

Section discipline.
Context {S L : Type} `{Program S L} (inside : L → bool) `{!Disciplined inside}.
Implicit Types c : config S L.

(** What the owner of the mutex says about thread [i]. *)
Definition fits (o : option nat) (i : nat) (t : thread L) : Prop :=
  match t with
  | Run l => inside l = bool_decide (o = Some i)
  | Sleep l | Wake _ l => o ≠ Some i ∧ ∀ err, inside (ret l err) = true
  end.

Definition excl c : Prop :=
  (∀ i t, threads c !! i = Some t → fits (owner c) i t) ∧ (∀ i, owner c = Some i → is_Some (threads c !! i)).

Lemma excl_put c i t t0 :
  excl c → threads c !! i = Some t0 → fits (owner c) i t → excl (put i t c).
Proof.
  intros [Hf Ho] Hi Ht. split; cbn [put owner threads].
  - intros k t' Hk. apply list_lookup_insert_Some in Hk as [(<- & <- & _)|[_ Hk]]; [done|by apply Hf].
  - intros k Hk. apply lookup_lt_is_Some. rewrite length_insert. by apply lookup_lt_is_Some, Ho.
Qed.

(** Thread [i] takes or gives up the mutex and no other thread is concerned. *)
Lemma excl_own c i t t0 o :
  excl c → threads c !! i = Some t0 → (o = Some i ∧ owner c = None ∨ o = None ∧ owner c = Some i) → fits o i t →
  excl (own o (put i t c)).
Proof.
  intros [Hf Ho] Hi Hc Ht. split; cbn [own put owner threads].
  - intros k t' Hk. apply list_lookup_insert_Some in Hk as [(<- & <- & _)|[Hne Hk]]; [done|]. specialize (Hf k t' Hk).
    destruct t' as [l|l|err l]; cbn [fits] in *.
    + rewrite Hf. apply bool_decide_ext. destruct Hc as [[-> ->]|[-> ->]]; split; congruence.
    + split; [destruct Hc as [[-> _]|[-> _]]; congruence|apply Hf].
    + split; [destruct Hc as [[-> _]|[-> _]]; congruence|apply Hf].
  - intros k Hk. apply lookup_lt_is_Some. rewrite length_insert. apply lookup_lt_is_Some.
    destruct Hc as [[-> _]|[-> _]]; [|done]. injection Hk as <-. by eexists.
Qed.

Lemma inside_run c i l : excl c → threads c !! i = Some (Run l) → inside l = bool_decide (owner c = Some i).
Proof. intros [Hf _] Hi. exact (Hf i (Run l) Hi). Qed.

Lemma excl_shared c s : excl c → excl (mkConfig (owner c) s (threads c)).
Proof. done. Qed.

Lemma excl_wake c err j l : excl c → threads c !! j = Some (Sleep l) → excl (put j (Wake err l) c).
Proof. intros He Hj. eapply excl_put; [done..|]. destruct He as [Hf _]. exact (Hf j (Sleep l) Hj). Qed.

Lemma excl_wake_all c err : excl c → excl (mkConfig (owner c) (shared c) (awaken err <$> threads c)).
Proof.
  intros [Hf Ho]. split; cbn [owner threads].
  - intros i t Hi. apply list_lookup_fmap_Some in Hi as (t' & -> & Hi). specialize (Hf i t' Hi). by destruct t'.
  - intros i Hi. apply lookup_lt_is_Some. rewrite length_fmap. by apply lookup_lt_is_Some, Ho.
Qed.

Lemma excl_run i j l c c' : excl c → threads c !! i = Some (Run l) → run i j l c = Some c' → excl c'.
Proof.
  intros He Hi. pose proof (inside_run c i l He Hi) as Hin. pose proof (discipline l (shared c)) as Hd. unfold run.
  destruct (prog l (shared c)) as [| | | | | |k|s l'|]; try done.
  - destruct (owner c) eqn:Eo; [done|]. intros [= <-]. eapply excl_own; [done..| |]; [by left|]. cbn. destruct Hd as [_ ->]. by rewrite bool_decide_true.
  - destruct Hd as (H0 & H1 & H2). intros [= <-]. destruct (owner c) eqn:Eo.
    + eapply excl_put; [done..|]. cbn. by rewrite H2, <- H0, Hin, Eo.
    + eapply excl_own; [done..| |]; [by left|]. cbn. by rewrite H1, bool_decide_true.
  - destruct (decide _) as [Eo|]; [|done]. intros [= <-]. eapply excl_own; [done..| |]; [by right|]. cbn. destruct Hd as [_ ->]. by rewrite bool_decide_false.
  - destruct (decide _) as [Eo|]; [|done]. intros [= <-]. eapply excl_own; [done..| |]; [by right|]. cbn. split; [done|]. apply Hd.
  - destruct (existsb _ _).
    + destruct (threads c !! j) as [[lj|lj|err lj]|] eqn:Ej; try done. intros [= <-].
      assert (i ≠ j) as Hij by congruence.
      eapply (excl_put (put j (Wake 0 lj) c)); [by apply excl_wake|cbn; by rewrite list_lookup_insert_ne|]. cbn. by rewrite Hd.
    + intros [= <-]. eapply excl_put; [done..|]. cbn. by rewrite Hd.
  - intros [= <-]. eapply (excl_put (mkConfig _ _ _)); [by apply excl_wake_all|cbn; by rewrite list_lookup_fmap, Hi|]. cbn. by rewrite Hd.
  - destruct (finished c k); [|done]. intros [= <-]. eapply excl_put; [done..|]. cbn. destruct Hd as [H0 ->]. by rewrite <- Hin, H0.
  - intros [= <-]. eapply (excl_put (mkConfig (owner c) s (threads c))); [by apply excl_shared|done|]. cbn. by rewrite Hd.
Qed.

(** Every move keeps the mutex with the thread that is inside. *)
Lemma excl_fire m c c' : excl c → fire m c = Some c' → excl c'.
Proof.
  intros He. destruct m as [i j|i|i|i]; cbn [fire]; destruct (threads c !! i) as [[l|l|err l]|] eqn:Hi; try done.
  - by eapply excl_run.
  - destruct (owner c) eqn:Eo; [done|]. intros [= <-]. destruct (proj1 He i _ Hi) as [_ Hr].
    eapply excl_own; [done..| |]; [by left|]. cbn. by rewrite Hr, bool_decide_true.
  - intros [= <-]. by apply excl_wake.
  - intros [= <-]. by apply excl_wake.
  - pose proof (discipline l (shared c)) as Hd. pose proof (inside_run c i l He Hi) as Hin.
    destruct (prog l (shared c)); try done; intros [= <-]; (eapply excl_put; [done..|]); cbn; by rewrite Hd.
Qed.

Lemma excl_fires ms c c' : excl c → fires ms c = Some c' → excl c'.
Proof.
  revert c. induction ms as [|m ms IH]; intros c He; cbn [fires]; [by intros [= <-]|].
  destruct (fire m c) as [c1|] eqn:E; [|done]. apply IH. by eapply excl_fire.
Qed.

(** A thread inside is alone there. *)
Definition outside (t : thread L) : Prop := match t with Run l => inside l = false | _ => True end.

Lemma alone c i l k t :
  excl c → threads c !! i = Some (Run l) → inside l = true → i ≠ k → threads c !! k = Some t → outside t.
Proof.
  intros He Hi Hl Hik Hk. destruct t as [l'| |]; [|done..]. cbn. apply not_true_iff_false. intros Hl'.
  pose proof (inside_run c i l He Hi) as Ei. pose proof (inside_run c k l' He Hk) as Ek.
  rewrite Hl in Ei. rewrite Hl' in Ek. symmetry in Ei, Ek. apply bool_decide_eq_true in Ei, Ek. congruence.
Qed.

(** ** Progress *)

(** A thread that cannot go on while the mutex is free. *)
Definition idle c (t : thread L) : bool :=
  match t with
  | Sleep _ => true
  | Wake _ _ => false
  | Run l => match prog l (shared c) with Done => true | Join k => negb (finished c k) | _ => false end
  end.

Lemma run_enabled i l c :
  excl c → threads c !! i = Some (Run l) → owner c = None ∨ owner c = Some i → idle c (Run l) = false → can_go c.
Proof.
  intros He Hi Ho Hid. pose proof (inside_run c i l He Hi) as Hin. pose proof (discipline l (shared c)) as Hd.
  assert (∃ j c', run i j l c = Some c') as (j & c' & Hr).
  { unfold run. cbn [idle] in Hid. destruct (prog l (shared c)) as [| | | | | |k|s l'|]; try done; eauto using O.
    - destruct Hd as [H0 _]. rewrite H0 in Hin. destruct Ho as [Eo|Eo]; rewrite Eo in *; [eauto using O|]. by rewrite bool_decide_true in Hin.
    - exists 0%nat. destruct Hd as [H0 _]. rewrite H0 in Hin. symmetry in Hin. apply bool_decide_eq_true in Hin. rewrite decide_True by done. eauto.
    - exists 0%nat. destruct Hd as [H0 _]. rewrite H0 in Hin. symmetry in Hin. apply bool_decide_eq_true in Hin. rewrite decide_True by done. eauto.
    - destruct (existsb asleep (threads c)) eqn:Es; [|eauto using O]. apply existsb_exists in Es as (t & [j Hj]%list_elem_of_In%list_elem_of_lookup_1 & Ht).
      destruct t as [|lj|]; try done. exists j. rewrite Hj. eauto.
    - destruct (finished c k); [eauto using O|done]. }
  exists i, j, c'. cbn [fire]. by rewrite Hi.
Qed.

Lemma progress c : excl c → can_go c ∨ (owner c = None ∧ ∀ i t, threads c !! i = Some t → idle c t = true).
Proof.
  intros He. destruct (owner c) as [i|] eqn:Eo.
  - left. destruct (proj2 He i Eo) as [t Hi]. pose proof (proj1 He i t Hi) as Hf. destruct t as [l|l|err l].
    + apply (run_enabled i l c He Hi); [by right|]. cbn [fits] in Hf. rewrite Eo, bool_decide_true in Hf by done.
      pose proof (discipline l (shared c)) as Hd. cbn [idle]. destruct (prog l (shared c)); try done; [destruct Hd; congruence|congruence].
    + by destruct Hf.
    + by destruct Hf.
  - destruct (forallb (idle c) (threads c)) eqn:Hall.
    + right. split; [done|]. intros i t Hi. rewrite forallb_forall in Hall. apply Hall, list_elem_of_In. by eapply list_elem_of_lookup_2.
    + left. apply not_true_iff_false in Hall. assert (∃ t, t ∈ threads c ∧ idle c t = false) as (t & [i Hi]%list_elem_of_lookup_1 & Ht).
      { clear -Hall. revert Hall. generalize (threads c) as ts. induction ts as [|t ts IH]; cbn [forallb]; [done|].
        intros Hn. destruct (idle c t) eqn:Et; [|exists t; split; [by left|done]].
        destruct IH as (t' & Ht' & E); [done|]. exists t'. split; [by right|done]. }
      destruct t as [l|l|err l]; [by eapply run_enabled; eauto|done|].
      exists i, 0%nat. cbn [fire]. rewrite Hi, Eo. eauto.
Qed.

(** A thread inside can always go on. *)
Lemma inside_goes c i l : excl c → threads c !! i = Some (Run l) → inside l = true → can_go c.
Proof.
  intros He Hi Hl. destruct (progress c He) as [?|[Ho _]]; [done|]. pose proof (inside_run c i l He Hi) as E.
  by rewrite Hl, Ho in E.
Qed.
End discipline.

(** ** Sums over the threads *)

Definition total {L} (f : thread L → Z) (ts : list (thread L)) : Z := foldr (λ t z, f t + z) 0 ts.

Lemma total_insert {L} (f : thread L → Z) ts i t t0 :
  ts !! i = Some t0 → total f (<[i := t]> ts) = total f ts - f t0 + f t.
Proof.
  revert i. induction ts as [|t1 ts IH]; intros [|i] Hi; try done.
  - injection Hi as ->. cbn. lia.
  - change (f t1 + total f (<[i := t]> ts) = f t1 + total f ts - f t0 + f t). rewrite (IH i Hi). lia.
Qed.

Lemma total_const {L} (f : thread L → Z) ts k :
  (∀ i t, ts !! i = Some t → f t = k) → total f ts = Z.of_nat (length ts) * k.
Proof.
  induction ts as [|t ts IH]; intros Hf; [done|]. cbn [total foldr length]. fold (total f ts).
  rewrite (Hf 0%nat t eq_refl), IH; [lia|]. intros i. exact (Hf (S i)).
Qed.

Lemma threads_total_nonneg {L} (f : thread L → Z) ts : (∀ i t, ts !! i = Some t → 0 ≤ f t) → 0 ≤ total f ts.
Proof.
  induction ts as [|t ts IH]; intros Hf; [done|]. pose proof (Hf 0%nat t eq_refl). specialize (IH (λ i, Hf (S i))).
  change (0 ≤ f t + total f ts). lia.
Qed.

Lemma total_ext {L} (f : thread L → Z) ts (g : thread L → thread L) :
  (∀ t, f (g t) = f t) → total f (g <$> ts) = total f ts.
Proof. intros Hg. induction ts as [|t ts IH]; [done|]. cbn. rewrite Hg. unfold total in IH. lia. Qed.

(** Counters that wrap around only get smaller. *)
Lemma u32_le z : 0 ≤ z → u32 z ≤ z.
Proof. intros Hz. unfold u32, uwrap. apply Z.mod_le; lia. Qed.

(** ** Invariants of schedules *)

Section schedules.
Context {S L : Type} `{Program S L}.
Implicit Types c : config S L.

(** A schedule of moves that are each [ok] when they are made. *)
Fixpoint schedule (ok : move → config S L → Prop) (ms : list move) c : Prop :=
  match ms with
  | [] => True
  | m :: ms => ok m c ∧ match fire m c with Some c => schedule ok ms c | None => True end
  end.

Lemma fires_keep (I : config S L → Prop) ok :
  (∀ m c c', ok m c → I c → fire m c = Some c' → I c') →
  ∀ ms c c', I c → schedule ok ms c → fires ms c = Some c' → I c'.
Proof.
  intros Hstep ms. induction ms as [|m ms IH]; intros c c' Hc Hs Hf; [by injection Hf as <-|]. cbn [schedule fires] in *.
  destruct Hs as [Hm Hs], (fire m c) as [c1|] eqn:E; [|done]. by eapply IH, Hf; [eapply Hstep|].
Qed.

Lemma schedule_Forall (ok : move → config S L → Prop) (P : move → bool) ms c :
  (∀ m c, P m = true → ok m c) → Forall (λ m, P m = true) ms → schedule ok ms c.
Proof.
  intros Hok Hms. revert c. induction Hms as [|m ms Hm _ IH]; intros c; [done|]. cbn [schedule]. split; [by apply Hok|].
  by case_match.
Qed.

Lemma any_schedule ms c : schedule (λ _ _, True) ms c.
Proof. by apply (schedule_Forall _ (λ _, true)); [|apply Forall_true]. Qed.

Lemma reached_keep (I : config S L → Prop) c c' :
  (∀ m c c', works m = true → I c → fire m c = Some c' → I c') → I c → reached c c' → I c'.
Proof.
  intros Hstep Hc (ms & Hms & Hf). refine (fires_keep I (λ m _, works m = true) Hstep ms c c' Hc _ Hf).
  by apply (schedule_Forall _ works).
Qed.
End schedules.
