(* ===== verification/MutexTests.v ===== *)
(** * The mutex and condition variable tests (src/libc/mutex/mutex.c)

    The threads of the contention tests, of the ping-pong, of the pool of
    consumers and of the broadcast, as programs of the machine of [Threads].
    A place of a program is a point between two accesses to shared variables
    or calls; for loops and conditions are spelled out. Deadlines are not
    modelled: a timed wait may time out at any moment. *)

From S2P Require Import Prelude Threads.

(** ** Mutual exclusion *)

Module Contend.

Record mtx_common := mkCommon { counter : Z; iters : Z }.

(** Places of mtx_incrementer and mtx_tryIncrementer; [In_end r] has returned
    [r]. *)
Inductive incPlace :=
  | In_for (i : Z) | In_lock (i : Z) | In_read (i : Z) | In_write (i v : Z) | In_unlock (i : Z) | In_end (r : Z).

(** [try]: the lock is taken with pthread_mutex_trylock(). *)
Definition mtx_incrementer (try : bool) : Program mtx_common incPlace := {|
  prog l s :=
    match l with
    | In_for i => Access s (if i <? iters s then In_lock i else In_end 0)
    | In_lock i => if try then Try else Lock
    | In_read i => Access s (In_write i (counter s))
    | In_write i v => Access (mkCommon (u64 (v + 1)) (iters s)) (In_unlock i)
    | In_unlock i => Unlock
    | In_end r => Done
    end;
  ret l r :=
    match l with
    | In_lock i => if r =? 0 then In_read i else if try then In_lock i else In_end 1
    | In_unlock i => if negb (r =? 0) then In_end 1 else In_for (u32 (i + 1))
    | _ => l
    end;
|}.

Definition NTHREADS : nat := 4.

(** mtx_contend: [n] threads that run [fn], here the one place they start at. *)
Definition mtx_contend (n : nat) (iters : Z) : config mtx_common incPlace :=
  mkConfig None (mkCommon 0 iters) (replicate n (Run (In_for 0))).

(** The tests; they differ in the kind of mutex, which must not matter. *)
Definition NITERS : Z := 20000.
Definition contention_normal : config mtx_common incPlace := mtx_contend NTHREADS NITERS.
Definition contention_trylock : config mtx_common incPlace := mtx_contend NTHREADS (NITERS / 4).

(** The assertions after the threads were joined: no thread returned an error,
    and the counter is right. *)
Definition ended (t : thread incPlace) : option Z := match t with Run (In_end r) => Some r | _ => None end.
Definition contend_asserts (n : nat) (c : config mtx_common incPlace) : option bool :=
  rs ← mapM ended (threads c);
  Some (forallb (λ r, r =? 0) rs && (u32 (Z.of_nat n * iters (shared c)) =? u32 (counter (shared c)))).
End Contend.

(** ** Condition variables *)

Record cv_t := mkCv {
  turn : Z; queued : Z; taken : Z; waiting : Z; released : Z; stop : Z; rounds : Z; failed : Z }.
Definition cv0 : cv_t := mkCv 0 0 0 0 0 0 0 0.
Definition set_turn (v : Z) (s : cv_t) : cv_t :=
  mkCv v (queued s) (taken s) (waiting s) (released s) (stop s) (rounds s) (failed s).
Definition set_queued (v : Z) (s : cv_t) : cv_t :=
  mkCv (turn s) v (taken s) (waiting s) (released s) (stop s) (rounds s) (failed s).
Definition set_taken (v : Z) (s : cv_t) : cv_t :=
  mkCv (turn s) (queued s) v (waiting s) (released s) (stop s) (rounds s) (failed s).
Definition set_waiting (v : Z) (s : cv_t) : cv_t :=
  mkCv (turn s) (queued s) (taken s) v (released s) (stop s) (rounds s) (failed s).
Definition set_released (v : Z) (s : cv_t) : cv_t :=
  mkCv (turn s) (queued s) (taken s) (waiting s) v (stop s) (rounds s) (failed s).
Definition set_stop (v : Z) (s : cv_t) : cv_t :=
  mkCv (turn s) (queued s) (taken s) (waiting s) (released s) v (rounds s) (failed s).
Definition set_rounds (v : Z) (s : cv_t) : cv_t :=
  mkCv (turn s) (queued s) (taken s) (waiting s) (released s) (stop s) v (failed s).
Definition set_failed (v : Z) (s : cv_t) : cv_t :=
  mkCv (turn s) (queued s) (taken s) (waiting s) (released s) (stop s) (rounds s) v.

Module PingPong.

(** cv_ponger in round [i] and cv_pingPong in round [i]. [_test], [_wait] and
    [_result] are mtx_condWaitFor, inlined: the loop, the wait in it and the
    result. *)
Inductive pingPlace :=
  | Po_lock | Po_for (i : Z) | Po_test (i err : Z) | Po_wait (i : Z) | Po_result (i err : Z) | Po_failed
  | Po_zero (i : Z) | Po_signal (i : Z) | Po_unlock | Po_end
  | Pi_lock | Pi_for (i : Z) | Pi_turn (i : Z) | Pi_signal (i : Z) | Pi_test (i err : Z) | Pi_wait (i : Z)
  | Pi_result (i err : Z) | Pi_failed (i : Z) | Pi_unlock (i : Z) | Pi_join (i : Z) | Pi_end (i : Z).

(** The condition of the loop of mtx_condWaitFor, and what it returns. *)
Definition condWaitFor_loops (pred value err : Z) : bool := negb (pred =? value) && (err =? 0).
Definition condWaitFor_result (pred value err : Z) : Z := if pred =? value then 0 else err.

Definition cv_threads : Program cv_t pingPlace := {|
  prog l s :=
    match l with
    | Po_lock => Lock
    | Po_for i => Access s (if i <? rounds s then Po_test i 0 else Po_unlock)
    | Po_test i err => Access s (if condWaitFor_loops (turn s) 1 err then Po_wait i else Po_result i err)
    | Po_wait i => Wait
    | Po_result i err => Access s (if negb (condWaitFor_result (turn s) 1 err =? 0) then Po_failed else Po_zero i)
    | Po_failed => Access (set_failed 1 s) Po_unlock
    | Po_zero i => Access (set_turn 0 s) (Po_signal i)
    | Po_signal i => Signal
    | Po_unlock => Unlock
    | Po_end => Done
    | Pi_lock => Lock
    | Pi_for i => Access s (if (i <? rounds s) && (failed s =? 0) then Pi_turn i else Pi_unlock i)
    | Pi_turn i => Access (set_turn 1 s) (Pi_signal i)
    | Pi_signal i => Signal
    | Pi_test i err => Access s (if condWaitFor_loops (turn s) 0 err then Pi_wait i else Pi_result i err)
    | Pi_wait i => Wait
    | Pi_result i err => Access s (if negb (condWaitFor_result (turn s) 0 err =? 0) then Pi_failed i else Pi_for (u32 (i + 1)))
    | Pi_failed i => Access (set_failed 1 s) (Pi_for (u32 (i + 1)))
    | Pi_unlock i => Unlock
    | Pi_join i => Join 1
    | Pi_end i => Done
    end;
  ret l r :=
    match l with
    | Po_lock => Po_for 0
    | Po_wait i => Po_test i r
    | Po_signal i => Po_for (u32 (i + 1))
    | Po_unlock => Po_end
    | Pi_lock => Pi_for 0
    | Pi_signal i => Pi_test i 0
    | Pi_wait i => Pi_test i r
    | Pi_unlock i => Pi_join i
    | Pi_join i => Pi_end i
    | _ => l
    end;
|}.

#[export] Existing Instance cv_threads.

(** cv_pingPong once the other thread was created; 5000 rounds. *)
Definition cv_pingPong (n : Z) : config cv_t pingPlace :=
  mkConfig None (set_rounds n cv0) [Run Pi_lock; Run Po_lock].

(** Its assertions. *)
Definition pingPong_asserts (c : config cv_t pingPlace) : option bool :=
  match threads c !! 0%nat with
  | Some (Run (Pi_end i)) => Some ((0 =? failed (shared c)) && (rounds (shared c) =? i))
  | _ => None
  end.
End PingPong.

Module Consumers.

(** cv_consumer and the main thread of producer_consumers. *)
Inductive poolPlace :=
  | Co_lock | Co_test (err : Z) | Co_wait | Co_queue (err : Z) | Co_take | Co_count | Co_err (err : Z)
  | Co_unlock | Co_end
  | Pr_for (i : Z) | Pr_lock (i : Z) | Pr_queue (i : Z) | Pr_signal (i : Z) | Pr_unlock (i : Z)
  | Pr_stoplock | Pr_stop | Pr_broadcast | Pr_stopunlock | Pr_join (k : nat) | Pr_end.

(** NITEMS items; [ncons] consumers, threads 1 to [ncons]. *)
Definition producer_consumers (nitems : Z) (ncons : nat) : Program cv_t poolPlace := {|
  prog l s :=
    match l with
    | Co_lock => Lock
    | Co_test err => Access s (if (queued s =? 0) && (stop s =? 0) && (err =? 0) then Co_wait else Co_queue err)
    | Co_wait => Wait
    | Co_queue err => Access s (if negb (queued s =? 0) then Co_take else Co_err err)
    | Co_take => Access (set_queued (u32 (queued s - 1)) s) Co_count
    | Co_count => Access (set_taken (u32 (taken s + 1)) s) (Co_test 0)
    | Co_err err => Access (if negb (err =? 0) then set_failed 1 s else s) Co_unlock
    | Co_unlock => Unlock
    | Co_end => Done
    | Pr_for i => Access s (if i <? nitems then Pr_lock i else Pr_stoplock)
    | Pr_lock i => Lock
    | Pr_queue i => Access (set_queued (u32 (queued s + 1)) s) (Pr_signal i)
    | Pr_signal i => Signal
    | Pr_unlock i => Unlock
    | Pr_stoplock => Lock
    | Pr_stop => Access (set_stop 1 s) Pr_broadcast
    | Pr_broadcast => Broadcast
    | Pr_stopunlock => Unlock
    | Pr_join k => if (k <? ncons)%nat then Join (S k) else Access s Pr_end
    | Pr_end => Done
    end;
  ret l r :=
    match l with
    | Co_lock => Co_test 0
    | Co_wait => Co_test r
    | Co_unlock => Co_end
    | Pr_lock i => Pr_queue i
    | Pr_signal i => Pr_unlock i
    | Pr_unlock i => Pr_for (u32 (i + 1))
    | Pr_stoplock => Pr_stop
    | Pr_broadcast => Pr_stopunlock
    | Pr_stopunlock => Pr_join 0
    | Pr_join k => Pr_join (S k)
    | _ => l
    end;
|}.

Definition consumers_start (ncons : nat) : config cv_t poolPlace := mkConfig None cv0 (Run (Pr_for 0) :: replicate ncons (Run Co_lock)).

Definition consumers_asserts (nitems : Z) (c : config cv_t poolPlace) : option bool :=
  match threads c !! 0%nat with
  | Some (Run Pr_end) =>
      Some ((0 =? failed (shared c)) && (nitems =? u32 (taken (shared c) + queued (shared c))) &&
        (0 =? queued (shared c)))
  | _ => None
  end.
End Consumers.

Module Broadcasts.

(** cv_broadcastWaiter and the main thread of broadcast_many. *)
Inductive castPlace :=
  | Bw_lock | Bw_count | Bw_tell | Bw_test (err : Z) | Bw_wait | Bw_check | Bw_failed | Bw_released | Bw_unlock | Bw_end
  | Bm_lock | Bm_test (err : Z) | Bm_wait | Bm_stop | Bm_unlock | Bm_broadcast | Bm_join (k : nat) | Bm_end.

(** [nw] waiters, threads 1 to [nw]. *)
Definition broadcast_many (nw : nat) : Program cv_t castPlace := {|
  prog l s :=
    match l with
    | Bw_lock => Lock
    | Bw_count => Access (set_waiting (u32 (waiting s + 1)) s) Bw_tell
    | Bw_tell => Broadcast
    | Bw_test err => Access s (if (stop s =? 0) && (err =? 0) then Bw_wait else Bw_check)
    | Bw_wait => Wait
    | Bw_check => Access s (if stop s =? 0 then Bw_failed else Bw_released)
    | Bw_failed => Access (set_failed 1 s) Bw_released
    | Bw_released => Access (set_released (u32 (released s + 1)) s) Bw_unlock
    | Bw_unlock => Unlock
    | Bw_end => Done
    | Bm_lock => Lock
    | Bm_test err => Access s (if negb (waiting s =? Z.of_nat nw) && (err =? 0) then Bm_wait else Bm_stop)
    | Bm_wait => Wait
    | Bm_stop => Access (set_stop 1 s) Bm_unlock
    | Bm_unlock => Unlock
    | Bm_broadcast => Broadcast
    | Bm_join k => if (k <? nw)%nat then Join (S k) else Access s Bm_end
    | Bm_end => Done
    end;
  ret l r :=
    match l with
    | Bw_lock => Bw_count
    | Bw_tell => Bw_test 0
    | Bw_wait => Bw_test r
    | Bw_unlock => Bw_end
    | Bm_lock => Bm_test 0
    | Bm_wait => Bm_test r
    | Bm_unlock => Bm_broadcast
    | Bm_broadcast => Bm_join 0
    | Bm_join k => Bm_join (S k)
    | _ => l
    end;
|}.

Definition broadcast_start (nw : nat) : config cv_t castPlace := mkConfig None cv0 (Run Bm_lock :: replicate nw (Run Bw_lock)).

Definition broadcast_asserts (nw : nat) (c : config cv_t castPlace) : option bool :=
  match threads c !! 0%nat with
  | Some (Run Bm_end) => Some ((0 =? failed (shared c)) && (Z.of_nat nw =? released (shared c)))
  | _ => None
  end.
End Broadcasts.
