(* ===== verification/PingPongProps.v ===== *)
(** * The ping-pong of the condition variable tests

    On a working library the two threads alternate to the end and the test
    passes. The same holds when wake-ups are lost: the thread that missed one
    times out first, finds its condition true and goes on, so the test does
    not notice what it was written for. *)

From S2P Require Import Prelude Threads ThreadsProps MutexTests.
Import MutexTests.PingPong.

(** ** The mutex *)

Definition inside (l : pingPlace) : bool :=
  match l with Po_lock | Po_end | Pi_lock | Pi_join _ | Pi_end _ => false | _ => true end.

#[export] Instance disciplined : Disciplined inside.
Proof. split. intros l s. destruct l; cbn; repeat case_match; done. Qed.

(** ** The state of the exchange *)

Section exchange.
Context (n : Z) (Hn : 0 ≤ n < 2 ^ 32).

(** The place a thread is at, and the result of a wait it has. *)
Definition at_place (t : thread pingPlace) : pingPlace := match t with Run l | Sleep l | Wake _ l => l end.

(** The round of the main thread, and whether it has asked in that round. *)
Definition round (p : thread pingPlace) : Z :=
  match at_place p with
  | Pi_for k | Pi_turn k | Pi_signal k | Pi_test k _ | Pi_wait k | Pi_result k _ | Pi_unlock k | Pi_join k | Pi_end k => k
  | _ => 0
  end.
Definition asked (p : thread pingPlace) : bool :=
  match at_place p with Pi_signal _ | Pi_test _ _ | Pi_wait _ | Pi_result _ _ => true | _ => false end.

(** How many times the other thread has answered. *)
Definition answers (q : thread pingPlace) : Z :=
  match at_place q with
  | Po_for k | Po_test k _ | Po_wait k | Po_result k _ | Po_zero k => k
  | Po_signal k => k + 1
  | Po_unlock | Po_end => n
  | _ => 0
  end.

(** Where the main thread can be, and what it then knows of [turn]. *)
Definition pinger (turn : Z) (p : thread pingPlace) : Prop :=
  match p with
  | Run Pi_lock => True
  | Run (Pi_for k) => 0 ≤ k ≤ n
  | Run (Pi_turn k) | Sleep (Pi_wait k) => 0 ≤ k < n
  | Run (Pi_signal k) | Run (Pi_wait k) => 0 ≤ k < n ∧ turn = 1
  | Run (Pi_test k err) | Wake err (Pi_wait k) => 0 ≤ k < n ∧ (err = 0 ∨ turn = 0)
  | Run (Pi_result k err) => 0 ≤ k < n ∧ turn = 0
  | Run (Pi_unlock k) | Run (Pi_join k) | Run (Pi_end k) => k = n
  | _ => False
  end.
Definition ponger (turn : Z) (q : thread pingPlace) : Prop :=
  match q with
  | Run Po_lock | Run Po_unlock | Run Po_end => True
  | Run (Po_for k) => 0 ≤ k ≤ n
  | Sleep (Po_wait k) => 0 ≤ k < n
  | Run (Po_wait k) | Run (Po_signal k) => 0 ≤ k < n ∧ turn = 0
  | Run (Po_test k err) | Wake err (Po_wait k) => 0 ≤ k < n ∧ (err = 0 ∨ turn = 1)
  | Run (Po_result k _) | Run (Po_zero k) => 0 ≤ k < n ∧ turn = 1
  | _ => False
  end.

(** The question of the round is out, or answered. *)
Definition in_step (turn : Z) (p q : thread pingPlace) : Prop :=
  if asked p then turn = 1 ∧ answers q = round p ∨ turn = 0 ∧ answers q = round p + 1
  else turn = 0 ∧ answers q = round p.

Definition exchange (c : config cv_t pingPlace) : Prop :=
  excl inside c ∧ rounds (shared c) = n ∧ failed (shared c) = 0 ∧
  ∃ p q, threads c = [p; q] ∧ pinger (turn (shared c)) p ∧ ponger (turn (shared c)) q ∧ in_step (turn (shared c)) p q.

(** The thread whose condition holds is the one that times out. *)
Definition due (m : move) (c : config cv_t pingPlace) : Prop :=
  match m with
  | Timeout 0 => turn (shared c) = 0
  | Timeout 1 => turn (shared c) = 1
  | Timeout _ => False
  | _ => True
  end.

Lemma excl_pair c l l' : excl inside c → threads c = [Run l; Run l'] → inside l = true → inside l' = true → False.
Proof.
  intros [Hf _] E H1 H2. rewrite E in Hf. pose proof (Hf 0%nat _ eq_refl) as F0. pose proof (Hf 1%nat _ eq_refl) as F1.
  cbn [fits] in F0, F1. rewrite H1 in F0. rewrite H2 in F1. symmetry in F0, F1.
  apply bool_decide_eq_true in F0, F1. congruence.
Qed.

(** The two threads after a step, with the mutex as it must be. *)
Definition pair_ok (s : cv_t) (ts : list (thread pingPlace)) : Prop :=
  rounds s = n ∧ failed s = 0 ∧
  ∃ p q, ts = [p; q] ∧ pinger (turn s) p ∧ ponger (turn s) q ∧ in_step (turn s) p q.

Lemma u32_next k : 0 ≤ k < n → u32 (k + 1) = k + 1.
Proof using Hn. intros Hk. apply u32_small. lia. Qed.

(** Both places are known: compute the step and compare. *)
Ltac pair_tac :=
  split_and!; [done|done|]; eexists _, _; split; [reflexivity|];
  unfold in_step in *; cbn [pinger ponger asked at_place round answers turn set_turn] in *; split_and!; first [assumption|lia].
Ltac step_tac j :=
  cbn [prog ret cv_threads condWaitFor_loops condWaitFor_result owner shared threads existsb asleep orb rounds failed turn] in *;
  try (destruct j as [|[|j]]); cbn [lookup list_lookup] in *; unfold condWaitFor_loops, condWaitFor_result in *;
  repeat case_match; intros; simplify_eq/=; try done; try rewrite u32_next by lia; try pair_tac.

Lemma pinger_runs c l q j c' :
  excl inside c → threads c = [Run l; q] → rounds (shared c) = n → failed (shared c) = 0 →
  pinger (turn (shared c)) (Run l) → ponger (turn (shared c)) q → in_step (turn (shared c)) (Run l) q →
  run 0 j l c = Some c' → pair_ok (shared c') (threads c').
Proof using Hn.
  intros He Ht Hr Hf Hp Hq Hs. destruct c as [o s ts]. cbn [shared threads] in *. subst ts.
  assert (∀ l', inside l = true → q = Run l' → inside l' = false) as Hex.
  { intros l' Hl ->. apply not_true_iff_false. intros Hl'. by eapply excl_pair. }
  unfold run; destruct l; try done; destruct q as [lq|lq|e lq]; destruct lq; try done;
    try (by specialize (Hex _ eq_refl eq_refl)); clear Hex He;
    cbn [pinger ponger] in Hp, Hq; step_tac j.
Qed.

Lemma ponger_runs c p l j c' :
  excl inside c → threads c = [p; Run l] → rounds (shared c) = n → failed (shared c) = 0 →
  pinger (turn (shared c)) p → ponger (turn (shared c)) (Run l) → in_step (turn (shared c)) p (Run l) →
  run 1 j l c = Some c' → pair_ok (shared c') (threads c').
Proof using Hn.
  intros He Ht Hr Hf Hp Hq Hs. destruct c as [o s ts]. cbn [shared threads] in *. subst ts.
  assert (∀ l', inside l = true → p = Run l' → inside l' = false) as Hex.
  { intros l' Hl ->. apply not_true_iff_false. intros Hl'. by eapply excl_pair. }
  unfold run; destruct l; try done; destruct p as [lp|lp|e lp]; destruct lp; try done;
    try (by specialize (Hex _ eq_refl eq_refl)); clear Hex He;
    cbn [pinger ponger] in Hp, Hq; step_tac j.
Qed.

(** The moves of the library, lost wake-ups and due timeouts included, keep the
    exchange in step. *)
Lemma exchange_fire m c c' : exchange c → due m c → fire m c = Some c' → exchange c'.
Proof using Hn.
  intros (He & Hr & Hf & p & q & Ht & Hp & Hq & Hs) Hd Hfire. split; [exact (excl_fire inside m c c' He Hfire)|].
  change (pair_ok (shared c') (threads c')). destruct m as [i j|i|i|i]; cbn [fire] in Hfire; rewrite Ht in Hfire;
    destruct i as [|[|i]]; cbn in Hfire; try done.
  - destruct p as [l|l|e l]; [by eapply pinger_runs|done|]. destruct (owner c); [done|]. injection Hfire as <-.
    cbn. rewrite Ht. destruct l; try done. cbn in *. pair_tac.
  - destruct q as [l|l|e l]; [by eapply ponger_runs|done|]. destruct (owner c); [done|]. injection Hfire as <-.
    cbn. rewrite Ht. destruct l; try done. cbn in *. pair_tac.
  - destruct p as [l|l|e l]; try done. injection Hfire as <-. cbn. rewrite Ht. destruct l; try done. cbn in *. pair_tac.
  - destruct q as [l|l|e l]; try done. injection Hfire as <-. cbn. rewrite Ht. destruct l; try done. cbn in *. pair_tac.
  - destruct p as [l|l|e l]; try done. injection Hfire as <-. cbn. rewrite Ht. destruct l; try done. cbn in *. pair_tac.
  - destruct q as [l|l|e l]; try done. injection Hfire as <-. cbn. rewrite Ht. destruct l; try done. cbn in *. pair_tac.
  - destruct p as [l|l|e l]; try done. destruct l; try done. injection Hfire as <-. cbn in *. rewrite Ht. cbn. pair_tac.
  - destruct q as [l|l|e l]; try done. destruct l; try done. injection Hfire as <-. cbn in *. rewrite Ht. cbn.
    rewrite u32_next by lia. pair_tac.
Qed.

Lemma exchange_start : exchange (cv_pingPong n).
Proof using Hn.
  split_and!; [|done|done|eexists _, _; split_and!; done]. split; [|done]. intros i t Hi.
  destruct i as [|[|i]]; [injection Hi as <-; done|injection Hi as <-; done|done].
Qed.

Lemma exchange_verdict c b : exchange c → pingPong_asserts c = Some b → b = true.
Proof using Hn.
  intros (_ & Hr & Hf & p & q & Ht & Hp & _). unfold pingPong_asserts. rewrite Ht, Hr, Hf. cbn.
  destruct p as [[]| |]; try done. cbn in Hp. intros [= <-]. subst. by rewrite Z.eqb_refl.
Qed.

(** If no thread can go on, the test has passed or one is due to time out. *)
Lemma exchange_stuck c :
  exchange c → can_go c ∨ pingPong_asserts c = Some true ∨
  (∃ k, threads c !! 0%nat = Some (Sleep (Pi_wait k)) ∧ turn (shared c) = 0) ∨
  (∃ k, threads c !! 1%nat = Some (Sleep (Po_wait k)) ∧ turn (shared c) = 1).
Proof using Hn.
  intros (He & Hr & Hf & p & q & Ht & Hp & Hq & Hs). destruct (progress inside c He) as [Hgo|[_ Hid]]; [by left|right].
  pose proof (Hid 0%nat p ltac:(by rewrite Ht)) as Ip. pose proof (Hid 1%nat q ltac:(by rewrite Ht)) as Iq.
  unfold pingPong_asserts. rewrite Ht in *. cbn [lookup list_lookup nth_lookup] in *. unfold finished in *. rewrite ?Ht in *.
  unfold in_step in Hs.
  destruct p as [lp|lp|e lp]; destruct lp; try done; destruct q as [lq|lq|e' lq]; destruct lq; try done; cbn in *;
    rewrite ?Hr, ?Hf; subst; rewrite ?Z.eqb_refl; try (by left); right;
    first [exfalso; lia|by (unfold finished in Ip; rewrite Ht in Ip)
          |destruct Hs as [[? ?]|[? ?]]; first [exfalso; lia|right; by eexists|left; by eexists]].
Qed.

(** ** A working library *)

(** Who sleeps has nothing to do, or is about to be signalled. *)
Definition alert (t : Z) (p q : thread pingPlace) : Prop :=
  (asleep p = true → t = 1 ∨ ∃ k, q = Run (Po_signal k)) ∧ (asleep q = true → t = 0 ∨ ∃ k, p = Run (Pi_signal k)).
Definition alerted (c : config cv_t pingPlace) : Prop := ∃ p q, threads c = [p; q] ∧ alert (turn (shared c)) p q.

Ltac alert_tac :=
  eexists _, _; split; [reflexivity|]; unfold alert; cbn [asleep turn set_turn own put shared] in *; split; intros Hsl;
  first [discriminate Hsl|left; lia|right; by eexists].

Lemma alerted_pinger c l q j c' :
  excl inside c → threads c = [Run l; q] → pinger (turn (shared c)) (Run l) → ponger (turn (shared c)) q →
  alert (turn (shared c)) (Run l) q → run 0 j l c = Some c' → alerted c'.
Proof using Hn.
  intros He Ht Hp Hq [_ Ha]. destruct c as [o s ts]. cbn [shared threads] in *. subst ts.
  assert (∀ l', inside l = true → q = Run l' → inside l' = false) as Hex.
  { intros l' Hl ->. apply not_true_iff_false. intros Hl'. by eapply excl_pair. }
  unfold run; destruct l; try done; destruct q as [lq|lq|e lq]; destruct lq; try done;
    try (by specialize (Hex _ eq_refl eq_refl)); clear Hex He; cbn [pinger ponger asleep] in Hp, Hq, Ha;
    try destruct (Ha eq_refl) as [Ht|[? [=]]]; clear Ha;
    step_tac j; try alert_tac.
Qed.

Lemma alerted_ponger c p l j c' :
  excl inside c → threads c = [p; Run l] → pinger (turn (shared c)) p → ponger (turn (shared c)) (Run l) →
  alert (turn (shared c)) p (Run l) → run 1 j l c = Some c' → alerted c'.
Proof using Hn.
  intros He Ht Hp Hq [Ha _]. destruct c as [o s ts]. cbn [shared threads] in *. subst ts.
  assert (∀ l', inside l = true → p = Run l' → inside l' = false) as Hex.
  { intros l' Hl ->. apply not_true_iff_false. intros Hl'. by eapply excl_pair. }
  unfold run; destruct l; try done; destruct p as [lp|lp|e lp]; destruct lp; try done;
    try (by specialize (Hex _ eq_refl eq_refl)); clear Hex He; cbn [pinger ponger asleep] in Hp, Hq, Ha;
    try destruct (Ha eq_refl) as [Ht|[? [=]]]; clear Ha;
    step_tac j; try alert_tac.
Qed.

(** Unless a wake-up is lost, who has something to do is awake. *)
Lemma alerted_fire m c c' : works m = true → exchange c → alerted c → fire m c = Some c' → alerted c'.
Proof using Hn.
  intros Hm (He & _ & _ & p & q & Ht & Hp & Hq & _) (p' & q' & Ht' & Ha) Hfire. rewrite Ht in Ht'. injection Ht' as <- <-.
  destruct m as [i j|i|i|i]; try done; cbn [fire] in Hfire; rewrite Ht in Hfire; destruct i as [|[|i]]; cbn in Hfire; try done.
  - destruct p as [l|l|e l]; [by eapply alerted_pinger|done|]. destruct (owner c); [done|]. injection Hfire as <-.
    eexists _, q. cbn. rewrite Ht. split; [done|]. destruct Ha as [_ Ha]. split; [done|]. intros Hs.
    destruct (Ha Hs) as [?|[? [=]]]. by left.
  - destruct q as [l|l|e l]; [by eapply alerted_ponger|done|]. destruct (owner c); [done|]. injection Hfire as <-.
    eexists p, _. cbn. rewrite Ht. split; [done|]. destruct Ha as [Ha _]. split; [|done]. intros Hs.
    destruct (Ha Hs) as [?|[? [=]]]. by left.
  - destruct p as [l|l|e l]; try done. injection Hfire as <-. eexists _, q. cbn. rewrite Ht. split; [done|].
    destruct Ha as [_ Ha]. split; [done|]. intros Hs. destruct (Ha Hs) as [?|[? [=]]]. by left.
  - destruct q as [l|l|e l]; try done. injection Hfire as <-. eexists p, _. cbn. rewrite Ht. split; [done|].
    destruct Ha as [Ha _]. split; [|done]. intros Hs. destruct (Ha Hs) as [?|[? [=]]]. by left.
Qed.

Lemma works_due m c : works m = true → due m c.
Proof using. by destruct m. Qed.

Lemma reached_alert c : reached (cv_pingPong n) c → exchange c ∧ alerted c.
Proof using Hn.
  apply (reached_keep (λ c, exchange c ∧ alerted c)); [|split; [exact exchange_start|by eexists _, _]]. clear c. intros m c c' Hm [He Ha] Hf.
  split; [by eapply exchange_fire, Hf; [|apply works_due]|by eapply alerted_fire].
Qed.

(** ** Lost wake-ups *)

(** A schedule in which timeouts are due. *)
Definition dues : list move → config cv_t pingPlace → Prop := schedule due.

Lemma exchange_fires ms c c' : exchange c → dues ms c → fires ms c = Some c' → exchange c'.
Proof using Hn. apply (fires_keep exchange due). intros m c1 c2 Hd He. by apply exchange_fire. Qed.

(** ** The end of the exchange *)

(** Steps a thread can still make, those after a wake-up paid by who signals. *)
Definition steps_left (t : thread pingPlace) : Z :=
  match t with
  | Run Pi_lock | Run Po_lock => 30 * n + 40
  | Run (Pi_for k) => 30 * (n - k) + 29
  | Run (Pi_turn k) => 30 * (n - k) + 28
  | Run (Pi_signal k) => 30 * (n - k) + 27
  | Wake _ (Pi_wait k) => 30 * (n - k) + 21
  | Run (Pi_test k _) => 30 * (n - k) + 20
  | Run (Pi_wait k) => 30 * (n - k) + 19
  | Run (Pi_result k _) => 30 * (n - k) + 18
  | Sleep (Pi_wait k) => 30 * (n - k) + 16
  | Run (Pi_unlock _) => 3
  | Run (Pi_join _) => 2
  | Run (Po_for k) | Wake _ (Po_wait k) => 30 * (n - k) + 29
  | Run (Po_test k _) => 30 * (n - k) + 28
  | Run (Po_wait k) => 30 * (n - k) + 27
  | Run (Po_result k _) => 30 * (n - k) + 26
  | Run (Po_zero k) => 30 * (n - k) + 25
  | Sleep (Po_wait k) => 30 * (n - k) + 24
  | Run (Po_signal k) => 30 * (n - k) + 22
  | Run Po_unlock => 2
  | _ => 0
  end.
Definition pace (c : config cv_t pingPlace) : Z := foldr Z.add 0 (steps_left <$> threads c).

Ltac pace_tac := unfold pace; cbn [threads fmap list_fmap foldr steps_left own put insert list_insert]; lia.

Lemma pace_pinger c l q j c' :
  excl inside c → threads c = [Run l; q] → pinger (turn (shared c)) (Run l) → ponger (turn (shared c)) q →
  run 0 j l c = Some c' → pace c' < pace c.
Proof using Hn.
  intros He Ht Hp Hq. destruct c as [o s ts]. cbn [shared threads] in *. subst ts.
  assert (∀ l', inside l = true → q = Run l' → inside l' = false) as Hex.
  { intros l' Hl ->. apply not_true_iff_false. intros Hl'. by eapply excl_pair. }
  unfold run; destruct l; try done; destruct q as [lq|lq|e lq]; destruct lq; try done;
    try (by specialize (Hex _ eq_refl eq_refl)); clear Hex He; cbn [pinger ponger] in Hp, Hq;
    step_tac j; pace_tac.
Qed.

Lemma pace_ponger c p l j c' :
  excl inside c → threads c = [p; Run l] → pinger (turn (shared c)) p → ponger (turn (shared c)) (Run l) →
  run 1 j l c = Some c' → pace c' < pace c.
Proof using Hn.
  intros He Ht Hp Hq. destruct c as [o s ts]. cbn [shared threads] in *. subst ts.
  assert (∀ l', inside l = true → p = Run l' → inside l' = false) as Hex.
  { intros l' Hl ->. apply not_true_iff_false. intros Hl'. by eapply excl_pair. }
  unfold run; destruct l; try done; destruct p as [lp|lp|e lp]; destruct lp; try done;
    try (by specialize (Hex _ eq_refl eq_refl)); clear Hex He; cbn [pinger ponger] in Hp, Hq;
    step_tac j; pace_tac.
Qed.

Lemma pace_fire i j c c' : exchange c → fire (Go i j) c = Some c' → pace c' < pace c.
Proof using Hn.
  intros (He & _ & _ & p & q & Ht & Hp & Hq & _) Hfire. cbn [fire] in Hfire. rewrite Ht in Hfire.
  destruct i as [|[|i]]; cbn [lookup list_lookup] in Hfire; [|..|done].
  - destruct p as [l|l|e l]; [by eapply pace_pinger|done|]. destruct (owner c); [done|]. injection Hfire as <-.
    unfold pace. cbn [own put threads]. rewrite Ht. destruct l; try done. cbn. lia.
  - destruct q as [l|l|e l]; [by eapply pace_ponger|done|]. destruct (owner c); [done|]. injection Hfire as <-.
    unfold pace. cbn [own put threads]. rewrite Ht. destruct l; try done. cbn. lia.
Qed.

Lemma pace_nonneg c : exchange c → 0 ≤ pace c.
Proof using Hn.
  intros (_ & _ & _ & p & q & Ht & Hp & Hq & _). unfold pace. rewrite Ht. cbn [fmap list_fmap foldr].
  assert (0 ≤ steps_left p) by (destruct p as [[]|[]|? []]; cbn in *; lia).
  assert (0 ≤ steps_left q) by (destruct q as [[]|[]|? []]; cbn in *; lia). lia.
Qed.

Definition is_go (m : move) : bool := match m with Go _ _ => true | _ => false end.

Lemma go_dues ms c : Forall (λ m, is_go m = true) ms → dues ms c.
Proof using. apply schedule_Forall. by intros []. Qed.

Lemma pace_fires ms c c' :
  Forall (λ m, is_go m = true) ms → exchange c → fires ms c = Some c' → Z.of_nat (length ms) + pace c' ≤ pace c.
Proof using Hn.
  intros Hms. revert c. induction Hms as [|m ms Hm _ IH]; intros c He Hf; [injection Hf as <-; cbn; lia|].
  cbn [fires] in Hf. destruct (fire m c) as [c1|] eqn:E; [|done]. destruct m as [i j| | |]; try done.
  pose proof (pace_fire i j c c1 He E). specialize (IH c1 ltac:(by eapply exchange_fire, E) Hf). cbn [length]. lia.
Qed.

(** C21: With a mutex and a condition variable that work, threads that wake up
    unasked included, the two threads keep in step, the ping-pong is never
    stuck before its assertions hold, and it ends: a schedule without
    spurious wake-ups has at most 60 steps a round, and 80 more. In the runs
    considered no timed wait reaches its deadline. *)
Theorem cv_pingPong_alternates c :
  reached (cv_pingPong n) c →
  (can_go c ∨ pingPong_asserts c = Some true) ∧ (∀ b, pingPong_asserts c = Some b → b = true) ∧
  (∀ p q, threads c = [p; q] → round p ≤ answers q ≤ round p + 1) ∧
  (∀ ms c', Forall (λ m, is_go m = true) ms → fires ms c = Some c' → Z.of_nat (length ms) ≤ pace c) ∧
  pace (cv_pingPong n) = 60 * n + 80.
Proof using Hn.
  intros [He (p & q & Ht & Ha)]%reached_alert. split_and!; [|by intros b; apply exchange_verdict| | |cbn; lia].
  - destruct (exchange_stuck c He) as [?|[?|[(k & Hk & E)|(k & Hk & E)]]]; [by left|by right|left..];
      rewrite Ht in Hk; injection Hk as ->; destruct Ha as [Hp Hq].
    + destruct (Hp eq_refl) as [?|[k' ->]]; [lia|]. by apply (inside_goes inside c 1 (Po_signal k') (proj1 He)); [rewrite Ht|].
    + destruct (Hq eq_refl) as [?|[k' ->]]; [lia|]. by apply (inside_goes inside c 0 (Pi_signal k') (proj1 He)); [rewrite Ht|].
  - intros p' q' Ht'. destruct He as (_ & _ & _ & p1 & q1 & Ht1 & _ & _ & Hs). rewrite Ht1 in Ht'. injection Ht' as <- <-.
    unfold in_step in Hs. case_match; lia.
  - intros ms c' Hms Hf. pose proof (pace_fires ms c c' Hms He Hf).
    pose proof (pace_nonneg c' (exchange_fires ms c c' He (go_dues ms c Hms) Hf)). lia.
Qed.

(** C22: Wake-ups that are lost go unnoticed. The library may lose any of them; the
    thread that missed one is the first whose wait times out (it began
    earlier), and if it has the mutex before the other's time is up as well,
    its condition holds and mtx_condWaitFor returns 0. In every such schedule
    the assertions hold when the test ends, and when no thread can go on the
    test has passed or such a timeout is due. *)
Theorem lost_wakeups_pass ms c :
  dues ms (cv_pingPong n) → fires ms (cv_pingPong n) = Some c →
  (∀ b, pingPong_asserts c = Some b → b = true) ∧
  (can_go c ∨ pingPong_asserts c = Some true ∨ ∃ i c', due (Timeout i) c ∧ fire (Timeout i) c = Some c').
Proof using Hn.
  intros Hd Hf. pose proof (exchange_fires ms _ c exchange_start Hd Hf) as He.
  split; [by intros b; apply exchange_verdict|].
  destruct (exchange_stuck c He) as [?|[?|[(k & Hk & E)|(k & Hk & E)]]]; [by left|by right; left|right; right..].
  - exists 0%nat. cbn [fire]. rewrite Hk. eauto.
  - exists 1%nat. cbn [fire]. rewrite Hk. eauto.
Qed.
End exchange.

(** One round; the other thread waits first, and is woken up for no reason
    before it is asked. *)
Definition one_round : list move :=
  [Go 1 0; Go 1 0; Go 1 0; Go 1 0; Spurious 1; Go 0 0; Go 0 0; Go 0 0; Go 0 0; Go 0 0; Go 0 0;
   Go 1 0; Go 1 0; Go 1 0; Go 1 0; Go 1 0; Go 1 0; Go 1 0; Go 0 0; Go 0 0; Go 0 0; Go 0 0; Go 0 0; Go 0 0].

(** The same with the wake-up lost: the other thread sleeps on until it times
    out. *)
Definition lost_round : list move :=
  [Go 1 0; Go 1 0; Go 1 0; Go 1 0; Go 0 0; Go 0 0; Go 0 0; Lose 0; Go 0 0; Go 0 0; Timeout 1;
   Go 1 0; Go 1 0; Go 1 0; Go 1 0; Go 1 0; Go 1 0; Go 1 0; Go 0 0; Go 0 0; Go 0 0; Go 0 0; Go 0 0; Go 0 0].

Definition passed : config cv_t pingPlace := mkConfig None (set_rounds 1 cv0) [Run (Pi_end 1); Run Po_end].

Lemma cv_pingPong_alternates_witness :
  fires one_round (cv_pingPong 1) = Some passed ∧ (can_go passed ∨ pingPong_asserts passed = Some true).
Proof.
  split; [vm_compute; reflexivity|]. apply (cv_pingPong_alternates 1 ltac:(lia) passed).
  exists one_round. split; [by repeat constructor|vm_compute; reflexivity].
Defined.

Lemma lost_wakeups_pass_witness :
  fires lost_round (cv_pingPong 1) = Some passed ∧ (∀ b, pingPong_asserts passed = Some b → b = true).
Proof.
  split; [vm_compute; reflexivity|]. apply (lost_wakeups_pass 1 ltac:(lia) lost_round passed); [|vm_compute; reflexivity].
  vm_compute. repeat split.
Defined.
