(* ===== verification/ContendProps.v ===== *)
(** * The contention tests: no increment is lost

    Threads that read, increment and write one counter between lock and
    unlock, or between a lock that is tried until it succeeds and unlock. *)

From S2P Require Import Prelude Threads ThreadsProps MutexTests.
Import MutexTests.Contend.

Lemma forallb_replicate {A} (f : A → bool) n x : f x = true → forallb f (replicate n x) = true.
Proof. intros Hx. induction n as [|n IH]; cbn; [done|]. by rewrite Hx. Qed.

Lemma u32_u64 z : u32 (u64 z) = u32 z.
Proof. unfold u32, u64, uwrap. rewrite !Z.mod_mod_divide; [done|]. by exists (2 ^ 32). Qed.

(** ** The counter *)

Section contention.
Context (try : bool) (n : nat) (N : Z) (HN : 0 ≤ N < 2 ^ 32).
#[local] Instance incrementers : Program mtx_common incPlace := mtx_incrementer try.

Definition holds (l : incPlace) : bool := match l with In_read _ | In_write _ _ | In_unlock _ => true | _ => false end.

#[local] Instance incrementers_disciplined : Disciplined holds.
Proof using. split. intros l s. destruct l; cbn; destruct try; repeat case_match; done. Qed.

(** The increments thread [t] has made. *)
Definition made (t : thread incPlace) : Z :=
  match t with
  | Run (In_for i) | Run (In_lock i) | Run (In_read i) | Run (In_write i _) => i
  | Run (In_unlock i) => i + 1
  | Run (In_end _) => N
  | _ => 0
  end.

(** Where it can be: a thread about to write has the present value. *)
Definition fine (count : Z) (t : thread incPlace) : Prop :=
  match t with
  | Run (In_for i) => 0 ≤ i ≤ N
  | Run (In_lock i) | Run (In_read i) | Run (In_unlock i) => 0 ≤ i < N
  | Run (In_write i v) => 0 ≤ i < N ∧ v = count
  | Run (In_end r) => r = 0
  | _ => False
  end.

Definition counted (c : config mtx_common incPlace) : Prop :=
  excl holds c ∧ length (threads c) = n ∧ iters (shared c) = N ∧ counter (shared c) = u64 (total made (threads c)) ∧
  ∀ i t, threads c !! i = Some t → fine (counter (shared c)) t.

(** The next place of thread [i], with the mutex as it may be. *)
Lemma counted_put i l t c o :
  counted c → threads c !! i = Some (Run l) → excl holds (own o (put i t c)) →
  made t = made (Run l) → fine (counter (shared c)) t → counted (own o (put i t c)).
Proof using.
  intros (_ & Hl & HI & Hc & Hf) Hi He Hm Ht. split_and!; cbn [own put threads shared]; [done|by rewrite length_insert|done| |].
  - rewrite Hc, (total_insert made _ i t (Run l) Hi), Hm. f_equal. lia.
  - intros k t' Hk. apply list_lookup_insert_Some in Hk as [(<- & <- & _)|[_ Hk]]; [done|by apply (Hf k)].
Qed.

(** The write: no other thread has a value it has not written. *)
Lemma counted_write i k v c :
  counted c → threads c !! i = Some (Run (In_write k v)) →
  excl holds (mkConfig (owner c) (mkCommon (u64 (v + 1)) N) (<[i := Run (In_unlock k)]> (threads c))) →
  counted (mkConfig (owner c) (mkCommon (u64 (v + 1)) N) (<[i := Run (In_unlock k)]> (threads c))).
Proof using.
  intros (He0 & Hl & HI & Hc & Hf) Hi He. pose proof (Hf i _ Hi) as [Hk Hv]. split_and!; cbn [threads shared counter iters]; [done|by rewrite length_insert|done| |].
  - rewrite (total_insert made _ i _ _ Hi), Hv, Hc, u64_add_l. f_equal. cbn. lia.
  - intros j t Hj. apply list_lookup_insert_Some in Hj as [(<- & <- & _)|[Hne Hj]]; [cbn; lia|].
    specialize (Hf j t Hj). destruct t as [[]| |]; try done.
    by pose proof (alone holds c i _ j _ He0 Hi eq_refl Hne Hj).
Qed.

Lemma counted_fire m c c' : True → counted c → fire m c = Some c' → counted c'.
Proof using HN.
  intros _ HC Hfire. pose proof HC as (He & Hl & HI & Hc & Hf). pose proof (excl_fire holds m c c' He Hfire) as He'.
  destruct m as [i j|i|i|i]; cbn [fire] in Hfire; destruct (threads c !! i) as [[l|l|err l]|] eqn:Hi; try done;
    pose proof (Hf i _ Hi) as Hl'; try done.
  - destruct l as [k|k|k|k v|k|r]; unfold run in Hfire; cbn [prog ret incrementers mtx_incrementer] in Hfire; cbn [fine] in Hl'.
    + rewrite HI in Hfire. injection Hfire as <-. apply (counted_put i (In_for k) _ c (owner c) HC Hi He').
      * destruct (k <? N) eqn:E; cbn; [done|lia].
      * destruct (k <? N) eqn:E; cbn; lia.
    + destruct try, (owner c) eqn:Eo; try done; injection Hfire as <-.
      * by apply (counted_put i (In_lock k) (Run (In_lock k)) c (owner c) HC Hi).
      * by apply (counted_put i (In_lock k) _ c _ HC Hi).
      * by apply (counted_put i (In_lock k) _ c _ HC Hi).
    + injection Hfire as <-. by apply (counted_put i (In_read k) _ c (owner c) HC Hi He').
    + rewrite HI in Hfire. injection Hfire as <-. by apply counted_write.
    + destruct (decide _); [|done]. injection Hfire as <-. apply (counted_put i (In_unlock k) _ c _ HC Hi He'); cbn; rewrite u32_small by lia; lia.
    + done.
  - destruct l; cbn in Hfire; try done. by destruct try.
Qed.

Lemma counted_start : counted (mtx_contend n N).
Proof using HN.
  assert (∀ i t, replicate n (Run (In_for 0)) !! i = Some t → t = Run (In_for 0)) as Hr
    by (intros i t [-> _]%lookup_replicate; done).
  split_and!; cbn [threads shared mtx_contend counter iters].
  - split; [|done]. intros i t ->%Hr. done.
  - apply length_replicate.
  - done.
  - rewrite (total_const _ _ 0), Z.mul_0_r; [done|]. by intros i t ->%Hr.
  - intros i t ->%Hr. cbn. lia.
Qed.

(** The threads have all ended: none with an error, and every increment is
    there. *)
Lemma counted_all c :
  counted c → (∀ i t, threads c !! i = Some t → t = Run (In_end 0)) → contend_asserts n c = Some true.
Proof using HN.
  intros (_ & Hl & HI & Hc & _) Hall. unfold contend_asserts.
  assert (mapM ended (threads c) = Some (replicate n 0)) as ->.
  { apply mapM_Some. apply Forall2_same_length_lookup_2; [by rewrite length_replicate|]. intros i t r Hi [-> _]%lookup_replicate.
    by rewrite (Hall i t Hi). }
  cbn [mbind option_bind]. assert (forallb (λ r, r =? 0) (replicate n 0) = true) as -> by (apply forallb_replicate; done).
  rewrite HI, Hc, (total_const made _ N), Hl by (intros i t Hi; by rewrite (Hall i t Hi)).
  cbn [andb]. f_equal. apply Z.eqb_eq. symmetry. apply u32_u64.
Qed.

(** C25: The lock excludes, so the counter is right: whatever the schedule, the
    threads are never stuck before the test has passed, and it never fails.
    Both with the lock and with the lock that is tried. *)
Theorem mtx_contend_counts ms c :
  fires ms (mtx_contend n N) = Some c →
  (can_go c ∨ contend_asserts n c = Some true) ∧ (∀ b, contend_asserts n c = Some b → b = true).
Proof using HN.
  intros Hf. pose proof (fires_keep counted _ counted_fire ms _ c counted_start (any_schedule ms _) Hf) as HC. pose proof HC as (He & _ & _ & _ & Hfine). split.
  - destruct (progress holds c He) as [?|[_ Hid]]; [by left|right]. apply counted_all; [done|]. intros i t Hi.
    specialize (Hid i t Hi). specialize (Hfine i t Hi). destruct t as [l| |]; try done.
    destruct l; cbn in Hid, Hfine; try done; [by destruct try|by subst].
  - intros b Hb. assert (contend_asserts n c = Some true) as E; [|congruence]. apply counted_all; [done|]. intros i t Hi.
    unfold contend_asserts in Hb. destruct (mapM ended (threads c)) as [rs|] eqn:Em; [|done].
    apply mapM_Some in Em. destruct (Forall2_lookup_l _ _ _ i t Em Hi) as (r & _ & Ht). specialize (Hfine i t Hi).
    destruct t as [[]| |]; try done. cbn in Hfine. by subst.
Qed.
End contention.

(** Two threads, one increment each; the second finds the mutex busy once. *)
Definition contended : list move :=
  [Go 0 0; Go 0 0; Go 1 0; Go 1 0; Go 0 0; Go 0 0; Go 0 0; Go 0 0; Go 1 0; Go 1 0; Go 1 0; Go 1 0; Go 1 0].

Definition all_counted : config mtx_common incPlace := mkConfig None (mkCommon 2 1) [Run (In_end 0); Run (In_end 0)].

Lemma mtx_contend_counts_witness :
  @fires _ _ (mtx_incrementer true) contended (mtx_contend 2 1) = Some all_counted ∧
  (∀ b, contend_asserts 2 all_counted = Some b → b = true).
Proof.
  split; [vm_compute; reflexivity|].
  apply (mtx_contend_counts true 2 1 ltac:(lia) contended all_counted). vm_compute. reflexivity.
Defined.
