(* ===== verification/ConsumersProps.v ===== *)
(** * The pool of consumers

    Every item announced is taken, by whichever consumer, and the consumers
    end when the queue is empty and [stop] is set. Signals do not matter for
    it: if every one of them is lost the consumers sleep until the broadcast
    at the end, take what has piled up, and the test passes. *)

From S2P Require Import Prelude Threads ThreadsProps MutexTests.
Import MutexTests.Consumers.

Section pool.
Context (nitems : Z) (ncons : nat) (Hitems : 0 ≤ nitems < 2 ^ 32) (Hcons : (0 < ncons)%nat).
#[local] Instance pool_program : Program cv_t poolPlace := producer_consumers nitems ncons.

Definition in_lock (l : poolPlace) : bool :=
  match l with
  | Co_test _ | Co_wait | Co_queue _ | Co_take | Co_count | Co_err _ | Co_unlock
  | Pr_queue _ | Pr_signal _ | Pr_unlock _ | Pr_stop | Pr_broadcast | Pr_stopunlock => true
  | _ => false
  end.

#[local] Instance pool_disciplined : Disciplined in_lock.
Proof using. split. intros l s. destruct l; cbn -[Nat.ltb]; by repeat case_match; simplify_eq. Qed.

(** Items on their way: minus those announced, plus those taken off the queue
    and not counted yet. *)
Definition credit (t : thread poolPlace) : Z :=
  match t with
  | Run Co_count => 1
  | Run (Pr_for i) | Run (Pr_lock i) | Run (Pr_queue i) => - i
  | Run (Pr_signal i) | Run (Pr_unlock i) => - (i + 1)
  | Run Pr_stoplock | Run Pr_stop | Run Pr_broadcast | Run Pr_stopunlock | Run (Pr_join _) | Run Pr_end => - nitems
  | _ => 0
  end.

(** Where the main thread can be. *)
Definition producer (s : cv_t) (p : poolPlace) : Prop :=
  match p with
  | Pr_for i => 0 ≤ i ≤ nitems ∧ stop s = 0
  | Pr_lock i | Pr_queue i | Pr_signal i | Pr_unlock i => 0 ≤ i < nitems ∧ stop s = 0
  | Pr_stoplock | Pr_stop => stop s = 0
  | Pr_broadcast | Pr_stopunlock | Pr_join _ | Pr_end => stop s = 1
  | _ => False
  end.

(** Where a consumer can be while the main thread is at [p]. *)
Definition consumer (s : cv_t) (p : poolPlace) (t : thread poolPlace) : Prop :=
  match t with
  | Run Co_lock | Run Co_count => True
  | Run (Co_test err) | Wake err Co_wait => err = 0
  | Run Co_wait => stop s = 0
  | Sleep Co_wait => stop s = 0 ∨ p = Pr_broadcast
  | Run (Co_queue err) => err = 0 ∧ (queued s ≠ 0 ∨ stop s = 1)
  | Run Co_take => queued s ≠ 0
  | Run (Co_err err) => err = 0 ∧ queued s = 0 ∧ stop s = 1
  | Run Co_unlock | Run Co_end => queued s = 0 ∧ stop s = 1
  | _ => False
  end.

(** The consumers the main thread has joined. *)
Definition joined (p : poolPlace) : nat := match p with Pr_join k => k | Pr_end => ncons | _ => 0 end.

Definition pooled (c : config cv_t poolPlace) : Prop :=
  excl in_lock c ∧ length (threads c) = S ncons ∧ failed (shared c) = 0 ∧
  u32 (taken (shared c) + queued (shared c) + total credit (threads c)) = 0 ∧
  ∃ p, threads c !! 0%nat = Some (Run p) ∧ producer (shared c) p ∧ (joined p ≤ ncons)%nat ∧
    (∀ k, (k < joined p)%nat → threads c !! S k = Some (Run Co_end)) ∧
    (∀ k t, threads c !! S k = Some t → consumer (shared c) p t).

(** A working library, except that signals may be lost. *)
Definition signals_lost (m : move) (c : config cv_t poolPlace) : Prop :=
  match m with
  | Go _ _ | Spurious _ => True
  | Timeout _ => False
  | Lose i => ∃ k, threads c !! i = Some (Run (Pr_signal k))
  end.

(** ** A step of the main thread *)

(** What the others see of it: a thread that slept may have been woken up. *)
Definition woken (t t' : thread poolPlace) : Prop := t' = t ∨ ∃ l, t = Sleep l ∧ t' = Wake 0 l.

Lemma pooled_main c c' p p' :
  pooled c → threads c !! 0%nat = Some (Run p) → excl in_lock c' → length (threads c') = length (threads c) →
  failed (shared c') = failed (shared c) →
  taken (shared c') + queued (shared c') + total credit (threads c') =
    taken (shared c) + queued (shared c) + total credit (threads c) ∨
  u32 (taken (shared c') + queued (shared c') + total credit (threads c')) = 0 →
  threads c' !! 0%nat = Some (Run p') → producer (shared c') p' → (joined p' ≤ ncons)%nat →
  (∀ k, (k < joined p')%nat → (k < joined p)%nat ∨ threads c' !! S k = Some (Run Co_end)) →
  (∀ k t', threads c' !! S k = Some t' → ∃ t, threads c !! S k = Some t ∧ woken t t' ∧
    (consumer (shared c) p t → consumer (shared c') p' t')) →
  pooled c'.
Proof using.
  intros (He & Hl & Hf & Hc & p0 & Hp0 & Hp & Hj & Hje & Hco) Hp0' He' Hl' Hf' Hc' H0 Hpr Hj' Hje' Hw.
  rewrite Hp0 in Hp0'. injection Hp0' as ->. split_and!; [done|congruence|congruence| |].
  - destruct Hc' as [->|Hc']; done.
  - exists p'. split_and!; [done..| |].
    + intros k Hk. destruct (Hje' k Hk) as [Hk'|?]; [|done]. pose proof (Hje k Hk') as He1.
      assert (is_Some (threads c' !! S k)) as [t' Ht']; [apply lookup_lt_is_Some; rewrite Hl'; by eapply lookup_lt_Some|].
      destruct (Hw k t' Ht') as (t & Ht & [->|(l & -> & _)] & _); congruence.
    + intros k t' Ht'. destruct (Hw k t' Ht') as (t & Ht & _ & Himp). by apply Himp, (Hco k).
Qed.

Lemma u32_shift a b d : u32 a = u32 b → u32 (a + d) = u32 (b + d).
Proof using. intros E. rewrite <- (u32_add_l a), E. apply u32_add_l. Qed.

(** Most steps leave the others as they are. *)
Lemma pooled_main_put c p p' o s' :
  pooled c → threads c !! 0%nat = Some (Run p) → excl in_lock (mkConfig o s' (<[0%nat := Run p']> (threads c))) →
  failed s' = failed (shared c) →
  u32 (taken s' + queued s' + credit (Run p')) = u32 (taken (shared c) + queued (shared c) + credit (Run p)) →
  producer s' p' → (joined p' ≤ ncons)%nat →
  (∀ k, (k < joined p')%nat → (k < joined p)%nat ∨ threads c !! S k = Some (Run Co_end)) →
  (∀ k t, threads c !! S k = Some t → consumer (shared c) p t → consumer s' p' t) →
  pooled (mkConfig o s' (<[0%nat := Run p']> (threads c))).
Proof using Hitems Hcons.
  intros HP H0 He Hf Hc Hpr Hj Hje Hco. pose proof HP as (_ & _ & _ & Ht & _).
  assert ((0 < length (threads c))%nat) as Hlen by (by eapply lookup_lt_Some).
  eapply (pooled_main c _ p p' HP H0 He); cbn [threads shared]; [by rewrite length_insert|done| |by rewrite list_lookup_insert_eq|done|done| |].
  - right. rewrite (total_insert credit _ 0 _ _ H0). rewrite <- Ht.
    apply (u32_shift _ _ (total credit (threads c) - credit (Run p))) in Hc.
    transitivity (u32 (taken s' + queued s' + credit (Run p') + (total credit (threads c) - credit (Run p)))); [f_equal; lia|].
    rewrite Hc. f_equal. lia.
  - intros k Hk. rewrite list_lookup_insert_ne by done. by apply Hje.
  - intros k t' Hk. rewrite list_lookup_insert_ne in Hk by done. exists t'. split; [done|]. split; [by left|]. by apply (Hco k).
Qed.

(** The consumers' facts that a step of the main thread leaves. *)
Lemma consumer_quiet s p p' t :
  (p = Pr_broadcast → stop s = 0) → consumer s p t → consumer s p' t.
Proof using. intros Hp. destruct t as [[]|[]|err []]; cbn; try done. intros [?|?]; left; auto. Qed.

Lemma pooled_signal c p k ts j :
  pooled c → threads c !! 0%nat = Some (Run (Pr_signal k)) → p = Pr_unlock k →
  (ts = threads c ∨ ∃ l, threads c !! j = Some (Sleep l) ∧ ts = <[j := Wake 0 l]> (threads c)) →
  excl in_lock (mkConfig (owner c) (shared c) (<[0%nat := Run p]> ts)) →
  pooled (mkConfig (owner c) (shared c) (<[0%nat := Run p]> ts)).
Proof using Hitems Hcons.
  intros HP H0 -> Hts He. pose proof HP as (_ & Hl & _ & _ & p0 & Hp0 & Hpr & _ & _ & Hco).
  rewrite Hp0 in H0. injection H0 as ->. destruct Hpr as [Hk Hs].
  destruct Hts as [->|(l & Hjl & ->)].
  - apply (pooled_main_put c (Pr_signal k)); cbn; try done; try lia.
    intros i t _. by apply consumer_quiet.
  - assert (j ≠ 0%nat) as Hj by (intros ->; congruence). assert ((0 < length (threads c))%nat) as Hlen by lia.
    assert (<[j := Wake 0 l]> (threads c) !! 0%nat = Some (Run (Pr_signal k))) as H0 by by rewrite list_lookup_insert_ne.
    eapply (pooled_main c _ (Pr_signal k) (Pr_unlock k) HP Hp0 He); cbn [threads shared joined producer];
      [by rewrite !length_insert|done| |by rewrite list_lookup_insert_eq by (by rewrite length_insert)|done|lia|lia|].
    + left. rewrite (total_insert credit _ 0 _ _ H0), (total_insert credit _ j _ _ Hjl). cbn. lia.
    + intros i t' Hi. rewrite list_lookup_insert_ne in Hi by done. apply list_lookup_insert_Some in Hi as [(-> & <- & _)|[_ Hi]].
      * exists (Sleep l). split; [done|]. split; [right; by exists l|]. intros Hc. by destruct l.
      * exists t'. split; [done|]. split; [by left|]. by apply consumer_quiet.
Qed.

Lemma pooled_broadcast c :
  pooled c → threads c !! 0%nat = Some (Run Pr_broadcast) →
  excl in_lock (mkConfig (owner c) (shared c) (<[0%nat := Run Pr_stopunlock]> (awaken 0 <$> threads c))) →
  pooled (mkConfig (owner c) (shared c) (<[0%nat := Run Pr_stopunlock]> (awaken 0 <$> threads c))).
Proof using Hitems Hcons.
  intros HP H0 He. pose proof HP as (_ & Hl & _ & _ & p0 & Hp0 & Hpr & _ & _ & Hco).
  rewrite Hp0 in H0. injection H0 as ->.
  assert ((awaken 0 <$> threads c) !! 0%nat = Some (Run Pr_broadcast)) as H0 by by rewrite list_lookup_fmap, Hp0.
  eapply (pooled_main c _ Pr_broadcast Pr_stopunlock HP Hp0 He); cbn [threads shared joined];
    [by rewrite length_insert, length_fmap|done| | |done|lia|lia|].
  - left. rewrite (total_insert credit _ 0 _ _ H0), total_ext by (by intros [| |]). cbn. lia.
  - by rewrite list_lookup_insert_eq by (rewrite length_fmap; lia).
  - intros i t' Hi. rewrite list_lookup_insert_ne in Hi by done. apply list_lookup_fmap_Some in Hi as (t & -> & Hi).
    exists t. split; [done|]. destruct t as [l|l|err l]; cbn [awaken]; (split; [first [by left|right; by exists l]|]); by destruct l.
Qed.

Lemma pooled_main_run c p j c' :
  pooled c → threads c !! 0%nat = Some (Run p) → excl in_lock c' → run 0 j p c = Some c' → pooled c'.
Proof using Hitems Hcons.
  intros HP H0 He'. pose proof HP as (He & Hl & Hf & Hc & p0 & Hp0 & Hpr & Hj & Hje & Hco).
  rewrite Hp0 in H0. injection H0 as ->. unfold run.
  destruct p as [| | | | | | | | |i|i|i|i|i| | | | |k|]; try done;
    cbn [prog ret pool_program producer_consumers producer joined] in *.
  - intros [= <-]. destruct (i <? nitems) eqn:E; (apply (pooled_main_put c (Pr_for i)); cbn; try done; try lia);
      try (f_equal; lia); intros ? ? _; by apply consumer_quiet.
  - destruct (owner c); [done|]. intros [= <-]. apply (pooled_main_put c (Pr_lock i)); cbn; try done; try lia.
    intros ? ? _; by apply consumer_quiet.
  - intros [= <-]. apply (pooled_main_put c (Pr_queue i)); cbn; try done; try lia.
    + rewrite <- Z.add_assoc, <- Z.add_assoc, <- (u32_add_r (taken (shared c))), u32_add_l, u32_add_r. f_equal. lia.
    + intros k t Hk Ht. pose proof (alone in_lock c 0 (Pr_queue i) (S k) t He Hp0 eq_refl ltac:(done) Hk) as Ho.
      destruct t as [[]|[]|err []]; cbn in *; try done; lia.
  - destruct (existsb asleep (threads c)).
    + destruct (threads c !! j) as [[lj|lj|err lj]|] eqn:Ej; try done. intros [= <-]. eapply (pooled_signal c); try done.
      right. by exists lj.
    + intros [= <-]. eapply (pooled_signal c _ i _ 0); try done. by left.
  - destruct (decide _); [|done]. intros [= <-]. rewrite u32_small in * by lia. apply (pooled_main_put c (Pr_unlock i)); cbn; try done; try lia.
    intros ? ? _; by apply consumer_quiet.
  - destruct (owner c); [done|]. intros [= <-]. apply (pooled_main_put c Pr_stoplock); cbn; try done; try lia.
    intros ? ? _; by apply consumer_quiet.
  - intros [= <-]. apply (pooled_main_put c Pr_stop); cbn; try done; try lia.
    intros k t Hk Ht. pose proof (alone in_lock c 0 Pr_stop (S k) t He Hp0 eq_refl ltac:(done) Hk) as Ho.
    destruct t as [[]|[]|err []]; cbn in *; try done; [lia|by right].
  - intros [= <-]. by apply pooled_broadcast.
  - destruct (decide _); [|done]. intros [= <-]. apply (pooled_main_put c Pr_stopunlock); cbn; try done; try lia.
    intros ? ? _; by apply consumer_quiet.
  - destruct (k <? ncons)%nat eqn:E.
    + destruct (finished c (S k)) eqn:Efin; [|done]. intros [= <-]. apply Nat.ltb_lt in E.
      apply (pooled_main_put c (Pr_join k)); cbn; try done; try lia.
      * intros k' Hk'. destruct (decide (k' = k)) as [->|]; [right|left; lia]. unfold finished in Efin.
        destruct (threads c !! S k) as [[l| |]|] eqn:Ek; try done. specialize (Hco k _ Ek).
        by destruct l.
      * intros ? ? _; by apply consumer_quiet.
    + intros [= <-]. apply Nat.ltb_ge in E. assert (k = ncons) as -> by lia.
      apply (pooled_main_put c (Pr_join ncons)); cbn; try done; try lia.
      intros ? ? _; by apply consumer_quiet.
Qed.

(** ** A step of a consumer *)

Lemma pooled_consumer c i t0 t o s' p :
  pooled c → threads c !! 0%nat = Some (Run p) → threads c !! S i = Some t0 → t0 ≠ Run Co_end →
  excl in_lock (mkConfig o s' (<[S i := t]> (threads c))) → failed s' = 0 → stop s' = stop (shared c) →
  u32 (taken s' + queued s' + credit t) = u32 (taken (shared c) + queued (shared c) + credit t0) →
  consumer s' p t →
  (∀ k t', k ≠ i → threads c !! S k = Some t' → consumer (shared c) p t' → consumer s' p t') →
  pooled (mkConfig o s' (<[S i := t]> (threads c))).
Proof using Hitems Hcons.
  intros (_ & Hl & _ & Ht & p0 & Hp0 & Hpr & Hj & Hje & Hco) Hp Hi Hne He Hf Hs Hc Hct Hoth. rewrite Hp0 in Hp. injection Hp as ->.
  split_and!; cbn [threads shared]; [done|by rewrite length_insert|done| |exists p; split_and!].
  - rewrite (total_insert credit _ _ _ _ Hi), <- Ht. apply (u32_shift _ _ (total credit (threads c) - credit t0)) in Hc.
    transitivity (u32 (taken s' + queued s' + credit t + (total credit (threads c) - credit t0))); [f_equal; lia|].
    rewrite Hc. f_equal. lia.
  - by rewrite list_lookup_insert_ne.
  - destruct p; cbn in *; rewrite ?Hs; done.
  - done.
  - intros k Hk. rewrite list_lookup_insert_ne; [by apply Hje|]. intros [= ->]. specialize (Hje k Hk). congruence.
  - intros k t' Hk. apply list_lookup_insert_Some in Hk as [(_ & <- & _)|[Hki Hk]]; [done|].
    apply (Hoth k); [congruence|done|by apply (Hco k)].
Qed.

(** Most of its steps do not concern the queue. *)
Lemma pooled_consumer_put c i t0 t o p :
  pooled c → threads c !! 0%nat = Some (Run p) → threads c !! S i = Some t0 → t0 ≠ Run Co_end →
  excl in_lock (own o (put (S i) t c)) → credit t = credit t0 → consumer (shared c) p t → pooled (own o (put (S i) t c)).
Proof using Hitems Hcons.
  intros HP H0 Hi Hne He Hc Ht. pose proof HP as (_ & _ & Hf & _). apply (pooled_consumer c i t0 t o (shared c) p); try done. by rewrite Hc.
Qed.

Lemma pooled_consumer_run c i l j c' :
  pooled c → threads c !! S i = Some (Run l) → excl in_lock c' → run (S i) j l c = Some c' → pooled c'.
Proof using Hitems Hcons.
  intros HP Hi He'. pose proof HP as (He & Hl & Hf & Hc & p & Hp0 & Hpr & Hj & Hje & Hco). pose proof (Hco i _ Hi) as Hcl.
  assert (∀ k t, in_lock l = true → k ≠ i → threads c !! S k = Some t → outside in_lock t) as Hout.
  { intros k t Hin Hki Hk. apply (alone in_lock c (S i) l (S k) t He Hi Hin); [congruence|done]. }
  unfold run. destruct l as [|err| |err| | |err| | | | | | | | | | | | |]; try done;
    cbn [prog ret pool_program producer_consumers consumer] in *.
  - destruct (owner c); [done|]. intros [= <-]. by apply (pooled_consumer_put c i _ _ _ p HP Hp0 Hi).
  - intros [= <-]. apply (pooled_consumer_put c i _ _ (owner c) p HP Hp0 Hi); [done|done|by case_match|].
    subst err. cbn [consumer]. destruct (queued (shared c) =? 0) eqn:Eq, (stop (shared c) =? 0) eqn:Es; cbn [andb consumer Z.eqb].
    + lia.
    + split; [done|]. right. destruct p; cbn in Hpr; lia.
    + split; [done|]. left. lia.
    + split; [done|]. left. lia.
  - destruct (decide _); [|done]. intros [= <-]. apply (pooled_consumer_put c i _ _ _ p HP Hp0 Hi); try done. by left.
  - intros [= <-]. apply (pooled_consumer_put c i _ _ (owner c) p HP Hp0 Hi); [done|done|by case_match|].
    destruct (queued (shared c) =? 0) eqn:Eq; cbn [negb consumer]; [|lia]. lia.
  - intros [= <-]. apply (pooled_consumer c i (Run Co_take) _ _ _ p HP Hp0 Hi); cbn; try done.
    + rewrite <- Z.add_assoc, <- (u32_add_r (taken (shared c))), u32_add_l, u32_add_r. f_equal. lia.
    + intros k t Hki Hk Ht. specialize (Hout k t eq_refl Hki Hk). destruct t as [[]|[]|e []]; cbn in *; try done. lia.
  - intros [= <-]. apply (pooled_consumer c i (Run Co_count) _ _ _ p HP Hp0 Hi); cbn; try done.
    rewrite <- Z.add_assoc, u32_add_l. f_equal. lia.
  - destruct Hcl as (-> & Hq & Hs). intros [= <-]. by apply (pooled_consumer_put c i _ _ (owner c) p HP Hp0 Hi).
  - destruct (decide _); [|done]. intros [= <-]. by apply (pooled_consumer_put c i _ _ _ p HP Hp0 Hi).
Qed.

(** ** The test *)

Lemma pooled_fire m c c' : signals_lost m c → pooled c → fire m c = Some c' → pooled c'.
Proof using Hitems Hcons.
  intros Hm HP Hfire. pose proof HP as (He & Hl & Hf & Hc & p & Hp0 & Hpr & Hj & Hje & Hco).
  pose proof (excl_fire in_lock m c c' He Hfire) as He'.
  destruct m as [[|i] j|[|i]|i|i]; try done; cbn [fire signals_lost] in *.
  - rewrite Hp0 in Hfire. by eapply pooled_main_run.
  - destruct (threads c !! S i) as [[l|l|err l]|] eqn:Hi; try done; [by eapply pooled_consumer_run|].
    destruct (owner c); [done|]. injection Hfire as <-. pose proof (Hco i _ Hi) as Hcl. destruct l; try done.
    by eapply (pooled_consumer_put c i _ _ _ p HP Hp0 Hi).
  - by rewrite Hp0 in Hfire.
  - destruct (threads c !! S i) as [[l|l|err l]|] eqn:Hi; try done. injection Hfire as <-. pose proof (Hco i _ Hi) as Hcl.
    destruct l; try done. by eapply (pooled_consumer_put c i _ _ (owner c) p HP Hp0 Hi).
  - destruct Hm as [k Hi]. rewrite Hi in Hfire. injection Hfire as <-.
    destruct i as [|i]; [|by specialize (Hco i _ Hi)].
    apply (pooled_signal c _ k _ 0 HP Hi); [done|by left|done].
Qed.

Lemma pooled_start : pooled (consumers_start ncons).
Proof using Hitems Hcons.
  assert (∀ k t, replicate ncons (Run Co_lock) !! k = Some t → t = Run Co_lock) as Hr
    by (intros k t [-> _]%lookup_replicate; done).
  split_and!; cbn [threads shared consumers_start failed cv0 taken queued].
  - split; [|done]. cbn [threads owner consumers_start]. intros [|k] t Hk; [by injection Hk as <-|]. cbn in Hk. apply Hr in Hk as ->. done.
  - cbn. by rewrite length_replicate.
  - done.
  - change (u32 (0 + 0 + (0 + total credit (replicate ncons (Run Co_lock)))) = 0). rewrite (total_const _ _ 0); [by rewrite Z.mul_0_r|].
    by intros k t ->%Hr.
  - exists (Pr_for 0). split_and!; cbn; try done; try lia. by intros k t ->%Hr.
Qed.

(** At its end every consumer has ended, with the queue empty. *)
Lemma pooled_verdict c b : pooled c → consumers_asserts nitems c = Some b → b = true.
Proof using Hitems Hcons.
  intros (_ & Hl & Hf & Hc & p & Hp0 & _ & _ & Hje & Hco) Hv. unfold consumers_asserts in Hv. rewrite Hp0 in Hv.
  destruct p; try done. injection Hv as <-. cbn [joined] in Hje. destruct (Hco 0%nat _ (Hje 0%nat Hcons)) as [Hq _].
  rewrite Hf, Hq in *. cbn [Z.eqb andb]. rewrite andb_true_r. apply Z.eqb_eq. rewrite Z.add_0_r in *.
  assert (total credit (threads c) = - nitems) as Ht.
  { destruct (threads c) as [|t ts] eqn:Ets; [done|]. cbn in Hp0. injection Hp0 as ->. change (- nitems + total credit ts = - nitems).
    rewrite (total_const _ _ 0); [lia|]. intros i t Hi. cbn in Hl.
    assert ((i < ncons)%nat) as Hi' by (apply lookup_lt_Some in Hi; lia).
    pose proof (Hje i Hi') as Hti. change (ts !! i = Some (Run Co_end)) in Hti. rewrite Hi in Hti. by injection Hti as ->. }
  rewrite Ht in Hc. unfold u32, uwrap in *. rewrite <- (Z.mod_small nitems (2 ^ 32)) at 1 by lia.
  apply Z.mod_divide in Hc as [d Hd]; [|lia]. replace (taken (shared c)) with (nitems + d * 2 ^ 32) by lia. by rewrite Z.mod_add by lia.
Qed.

(** With the mutex free and everyone idle the test has ended. *)
Lemma pooled_stuck c : pooled c → can_go c ∨ consumers_asserts nitems c = Some true.
Proof using Hitems Hcons.
  intros HP. pose proof HP as (He & Hl & _ & _ & p & Hp0 & Hpr & Hj & Hje & Hco).
  destruct (progress in_lock c He) as [?|[_ Hid]]; [by left|]. pose proof (Hid 0%nat _ Hp0) as Hm.
  destruct p; cbn -[Nat.ltb] in Hm, Hpr; try done.
  - destruct (k <? ncons)%nat eqn:E; [|done]. apply Nat.ltb_lt in E. assert (is_Some (threads c !! S k)) as [t Ht].
    { apply lookup_lt_is_Some. lia. }
    pose proof (Hid _ _ Ht) as Hidt. pose proof (Hco k t Ht) as Hct. exfalso. unfold finished in Hm. rewrite Ht in Hm.
    destruct t as [[]|[]|err []]; cbn in *; try done. destruct Hct as [?|[=]]. lia.
  - right. assert (∃ b, consumers_asserts nitems c = Some b) as [b Hb] by (unfold consumers_asserts; rewrite Hp0; eauto).
    by rewrite (pooled_verdict c b HP Hb) in Hb.
Qed.

(** ** It ends *)

Lemma queue_nonneg m c c' : 0 ≤ queued (shared c) → fire m c = Some c' → 0 ≤ queued (shared c').
Proof using Hitems Hcons.
  assert (∀ z, 0 ≤ u32 z) as Hu by (intros z; unfold u32, uwrap; apply Z.mod_pos_bound; lia).
  intros Hq Hfire. destruct m as [i j|i|i|i]; cbn [fire] in Hfire; destruct (threads c !! i) as [[l|l|err l]|]; try done.
  - unfold run in Hfire. destruct l; cbn -[Nat.ltb] in Hfire; repeat case_match; simplify_eq; cbn; auto.
  - destruct (owner c); simplify_eq; done.
  - by simplify_eq.
  - by simplify_eq.
  - destruct l; cbn -[Nat.ltb] in Hfire; repeat case_match; simplify_eq; cbn; auto.
Qed.

(** Steps a thread can still make; an item announced pays for its taking, a
    wake-up for what the woken thread does, the broadcast for everyone. *)
Definition work (t : thread poolPlace) : Z :=
  match t with
  | Run Co_lock | Wake _ _ | Run Co_count => 6
  | Run (Co_test _) => 5
  | Run Co_wait | Run (Co_queue _) => 4
  | Sleep _ | Run Co_take | Run (Co_err _) => 3
  | Run Co_unlock => 2
  | Run Co_end | Run Pr_end => 0
  | Run (Pr_for i) => 20 * (nitems - i) + 4 * Z.of_nat ncons + 9
  | Run (Pr_lock i) => 20 * (nitems - i) + 4 * Z.of_nat ncons + 8
  | Run (Pr_queue i) => 20 * (nitems - i) + 4 * Z.of_nat ncons + 7
  | Run (Pr_signal i) => 20 * (nitems - i) + 4 * Z.of_nat ncons - 2
  | Run (Pr_unlock i) => 20 * (nitems - i) + 4 * Z.of_nat ncons - 6
  | Run Pr_stoplock => 4 * Z.of_nat ncons + 8
  | Run Pr_stop => 4 * Z.of_nat ncons + 7
  | Run Pr_broadcast => 4 * Z.of_nat ncons + 6
  | Run Pr_stopunlock => Z.of_nat ncons + 2
  | Run (Pr_join k) => Z.of_nat ncons - Z.of_nat k + 1
  end.
Definition effort (c : config cv_t poolPlace) : Z := total work (threads c) + 8 * queued (shared c).

Lemma effort_start : effort (consumers_start ncons) = 20 * nitems + 10 * Z.of_nat ncons + 9.
Proof using Hitems Hcons.
  unfold effort. change (work (Run (Pr_for 0)) + total work (replicate ncons (Run Co_lock)) + 8 * 0 = 20 * nitems + 10 * Z.of_nat ncons + 9).
  rewrite (total_const _ _ 6), length_replicate; [cbn; lia|]. by intros k t [-> _]%lookup_replicate.
Qed.

Lemma effort_nonneg c : pooled c → 0 ≤ queued (shared c) → 0 ≤ effort c.
Proof using Hitems Hcons.
  intros (_ & _ & _ & _ & p & Hp0 & Hpr & Hj & _ & Hco) Hq. unfold effort.
  enough (0 ≤ total work (threads c)) by lia. apply threads_total_nonneg. intros [|i] t Hi.
  - rewrite Hp0 in Hi. injection Hi as <-. destruct p; cbn in *; lia.
  - specialize (Hco i t Hi). destruct t as [[]|[]|err []]; cbn in *; try done; lia.
Qed.

Lemma work_awaken ts : total work (awaken 0 <$> ts) ≤ total work ts + 3 * Z.of_nat (length ts).
Proof using Hitems Hcons.
  induction ts as [|t ts IH]; [done|]. change (work (awaken 0 t) + total work (awaken 0 <$> ts) ≤ work t + total work ts + 3 * Z.of_nat (S (length ts))).
  assert (work (awaken 0 t) ≤ work t + 3) by (destruct t; cbn; lia). lia.
Qed.

Lemma effort_put c o i t0 t s' :
  threads c !! i = Some t0 → work t + 8 * queued s' < work t0 + 8 * queued (shared c) →
  effort (mkConfig o s' (<[i := t]> (threads c))) < effort c.
Proof using Hitems Hcons. intros Hi Hw. unfold effort. cbn [threads shared]. rewrite (total_insert work _ i _ _ Hi). lia. Qed.

Lemma effort_main c p j c' :
  pooled c → 0 ≤ queued (shared c) → threads c !! 0%nat = Some (Run p) → run 0 j p c = Some c' → effort c' < effort c.
Proof using Hitems Hcons.
  intros (He & Hl & _ & _ & p0 & Hp0 & Hpr & Hj & _) Hq H0. rewrite Hp0 in H0. injection H0 as ->. unfold run.
  destruct p as [| | | | | | | | |i|i|i|i|i| | | | |k|]; try done;
    cbn [prog ret pool_program producer_consumers producer joined] in *.
  - intros [= <-]. apply (effort_put c _ 0 _ _ _ Hp0). case_match; cbn; lia.
  - destruct (owner c); [done|]. intros [= <-]. apply (effort_put c _ 0 _ _ _ Hp0). cbn. lia.
  - intros [= <-]. apply (effort_put c _ 0 _ _ _ Hp0). cbn.
    assert (u32 (queued (shared c) + 1) ≤ queued (shared c) + 1) by (apply u32_le; lia). lia.
  - destruct (existsb asleep (threads c)).
    + destruct (threads c !! j) as [[lj|lj|err lj]|] eqn:Ej; try done. intros [= <-]. unfold effort. cbn [put threads shared].
      assert (j ≠ 0%nat) by (intros ->; congruence).
      rewrite (total_insert work _ 0 _ (Run (Pr_signal i))) by (by rewrite list_lookup_insert_ne).
      rewrite (total_insert work _ j _ _ Ej). cbn. lia.
    + intros [= <-]. apply (effort_put c _ 0 _ _ _ Hp0). cbn. lia.
  - destruct (decide _); [|done]. intros [= <-]. apply (effort_put c _ 0 _ _ _ Hp0). rewrite u32_small by lia. cbn. lia.
  - destruct (owner c); [done|]. intros [= <-]. apply (effort_put c _ 0 _ _ _ Hp0). cbn. lia.
  - intros [= <-]. apply (effort_put c _ 0 _ _ _ Hp0). cbn. lia.
  - intros [= <-]. unfold effort. cbn [put threads shared].
    rewrite (total_insert work _ 0 _ (Run Pr_broadcast)) by (by rewrite list_lookup_fmap, Hp0).
    pose proof (work_awaken (threads c)). cbn. lia.
  - destruct (decide _); [|done]. intros [= <-]. apply (effort_put c _ 0 _ _ _ Hp0). cbn. lia.
  - destruct (k <? ncons)%nat eqn:E.
    + destruct (finished c (S k)) eqn:Efin; [|done]. intros [= <-]. apply (effort_put c _ 0 _ _ _ Hp0). cbn. lia.
    + intros [= <-]. apply (effort_put c _ 0 _ _ _ Hp0). cbn. lia.
Qed.

Lemma effort_consumer c i l j c' :
  pooled c → 0 ≤ queued (shared c) → threads c !! S i = Some (Run l) → run (S i) j l c = Some c' → effort c' < effort c.
Proof using Hitems Hcons.
  intros (He & Hl & _ & _ & p & Hp0 & Hpr & Hj & _ & Hco) Hq Hi. pose proof (Hco i _ Hi) as Hcl. unfold run.
  destruct l as [|err| |err| | |err| | | | | | | | | | | | |]; try done;
    cbn [prog ret pool_program producer_consumers consumer] in *.
  - destruct (owner c); [done|]. intros [= <-]. apply (effort_put c _ _ _ _ _ Hi). cbn. lia.
  - intros [= <-]. apply (effort_put c _ _ _ _ _ Hi). case_match; cbn; lia.
  - destruct (decide _); [|done]. intros [= <-]. apply (effort_put c _ _ _ _ _ Hi). cbn. lia.
  - intros [= <-]. apply (effort_put c _ _ _ _ _ Hi). case_match; cbn; lia.
  - intros [= <-]. apply (effort_put c _ _ _ _ _ Hi). cbn.
    assert (u32 (queued (shared c) - 1) ≤ queued (shared c) - 1) by (apply u32_le; lia). lia.
  - intros [= <-]. apply (effort_put c _ _ _ _ _ Hi). cbn. lia.
  - intros [= <-]. apply (effort_put c _ _ _ _ _ Hi). case_match; cbn; lia.
  - destruct (decide _); [|done]. intros [= <-]. apply (effort_put c _ _ _ _ _ Hi). cbn. lia.
Qed.

Definition not_spurious (m : move) : bool := match m with Spurious _ => false | _ => true end.

Lemma effort_fire m c c' :
  signals_lost m c → not_spurious m = true → pooled c → 0 ≤ queued (shared c) → fire m c = Some c' → effort c' < effort c.
Proof using Hitems Hcons.
  intros Hm Hns HP Hq Hfire. pose proof HP as (_ & _ & _ & _ & p & Hp0 & _ & _ & _ & Hco).
  destruct m as [[|i] j|i|i|i]; try done; cbn [fire signals_lost] in *.
  - rewrite Hp0 in Hfire. by eapply effort_main.
  - destruct (threads c !! S i) as [[l|l|err l]|] eqn:Hi; try done; [by eapply effort_consumer|].
    destruct (owner c); [done|]. injection Hfire as <-. apply (effort_put c _ _ _ _ _ Hi). pose proof (Hco i _ Hi) as Hcl.
    destruct l; try done. cbn. lia.
  - destruct Hm as [k Hi]. rewrite Hi in Hfire. injection Hfire as <-. apply (effort_put c _ _ _ _ _ Hi). cbn. lia.
Qed.

Definition ready (c : config cv_t poolPlace) : Prop := pooled c ∧ 0 ≤ queued (shared c).

Lemma ready_fire m c c' : signals_lost m c → ready c → fire m c = Some c' → ready c'.
Proof using Hitems Hcons. intros Hm [HP Hq] Hf. split; [by eapply pooled_fire|by eapply queue_nonneg]. Qed.

Lemma effort_fires ms c c' :
  Forall (λ m, not_spurious m = true) ms → schedule signals_lost ms c → ready c → fires ms c = Some c' →
  Z.of_nat (length ms) ≤ effort c.
Proof using Hitems Hcons.
  intros Hms. revert c. induction Hms as [|m ms Hm _ IH]; intros c Hs Hr Hf; [destruct Hr; by apply effort_nonneg|].
  cbn [schedule fires] in *. destruct Hs as [Hok Hs], (fire m c) as [c1|] eqn:E; [|done].
  pose proof (IH c1 Hs (ready_fire m c c1 Hok Hr E) Hf). destruct Hr as [HP Hq].
  pose proof (effort_fire m c c1 Hok Hm HP Hq E). cbn [length]. lia.
Qed.

(** C23: The pool takes every item, whether or not signals are lost: with a working
    mutex and a broadcast that reaches the threads asleep, and no wait that
    times out, the test is never stuck before it has passed, it never fails,
    and without spurious wake-ups it ends within a number of steps. So a lost
    signal, which its message speaks of, is not what it finds. *)
Theorem lost_signals_pass ms c :
  schedule signals_lost ms (consumers_start ncons) → fires ms (consumers_start ncons) = Some c →
  (can_go c ∨ consumers_asserts nitems c = Some true) ∧ (∀ b, consumers_asserts nitems c = Some b → b = true) ∧
  (∀ ms' c', schedule signals_lost ms' c → Forall (λ m, not_spurious m = true) ms' → fires ms' c = Some c' →
    Z.of_nat (length ms') ≤ effort c) ∧
  effort (consumers_start ncons) = 20 * nitems + 10 * Z.of_nat ncons + 9.
Proof using Hitems Hcons.
  intros Hs Hf. assert (ready c) as Hr by (by refine (fires_keep ready signals_lost ready_fire ms _ c _ Hs Hf); split; [apply pooled_start|]).
  pose proof Hr as [HP Hq]. split_and!; [by apply pooled_stuck|by intros b; apply pooled_verdict| |exact effort_start].
  intros ms' c' Hs' Hns Hf'. by eapply effort_fires.
Qed.
End pool.

(** Two items, one consumer that is asleep before the first is announced; both
    signals are lost, and the broadcast wakes it up. *)
Definition both_lost : list move :=
  [Go 1 0; Go 1 0; Go 1 0;
   Go 0 0; Go 0 0; Go 0 0; Lose 0; Go 0 0; Go 0 0; Go 0 0; Go 0 0; Lose 0; Go 0 0; Go 0 0;
   Go 0 0; Go 0 0; Go 0 0; Go 0 0;
   Go 1 0; Go 1 0; Go 1 0; Go 1 0; Go 1 0; Go 1 0; Go 1 0; Go 1 0; Go 1 0; Go 1 0; Go 1 0; Go 1 0; Go 1 0;
   Go 0 0; Go 0 0].

Definition both_taken : config cv_t poolPlace := mkConfig None (mkCv 0 0 2 0 0 1 0 0) [Run Pr_end; Run Co_end].

Lemma lost_signals_pass_witness :
  @fires _ _ (producer_consumers 2 1) both_lost (consumers_start 1) = Some both_taken ∧
  (∀ b, consumers_asserts 2 both_taken = Some b → b = true).
Proof.
  split; [vm_compute; reflexivity|].
  apply (lost_signals_pass 2 1 ltac:(lia) ltac:(lia) both_lost both_taken); [|vm_compute; reflexivity].
  vm_compute. repeat split; eexists; reflexivity.
Defined.
