(* ===== verification/BroadcastsProps.v ===== *)
(** * The broadcast to many waiters

    With a library that works the main thread waits until all are waiting and
    its one broadcast releases them. If that broadcast is lost it is not
    noticed: the waiters time out, find [stop] set and are released all the
    same. What is noticed is a waiter whose time is up before [stop] is set. *)

From S2P Require Import Prelude Threads ThreadsProps MutexTests.
Import MutexTests.Broadcasts.

(** Two waiters count themselves while the main thread sleeps, and their word
    to it is lost; the time of the first is up, then that of the main thread,
    whose broadcast releases the second. *)
Definition told_in_vain : list move :=
  [Go 0 0; Go 0 0; Go 0 0;
   Go 1 0; Go 1 0; Lose 1; Go 1 0; Go 1 0; Go 2 0; Go 2 0; Lose 2; Go 2 0; Go 2 0;
   Timeout 1; Go 1 0; Go 1 0; Go 1 0; Go 1 0; Go 1 0; Go 1 0;
   Timeout 0; Go 0 0; Go 0 0; Go 0 0; Go 0 0; Go 0 0;
   Go 2 0; Go 2 0; Go 2 0; Go 2 0; Go 2 0; Go 0 0; Go 0 0; Go 0 0].

Section waiters.
Context (nw : nat) (Hnw : Z.of_nat nw < 2 ^ 32).
#[local] Instance waiters_program : Program cv_t castPlace := broadcast_many nw.

Definition under (l : castPlace) : bool :=
  match l with
  | Bw_count | Bw_tell | Bw_test _ | Bw_wait | Bw_check | Bw_failed | Bw_released | Bw_unlock
  | Bm_test _ | Bm_wait | Bm_stop | Bm_unlock => true
  | _ => false
  end.

#[local] Instance waiters_disciplined : Disciplined under.
Proof using. split. intros l s. destruct l; cbn -[Nat.ltb]; by repeat case_match; simplify_eq. Qed.

(** Has the thread counted itself among those waiting, and those released? *)
Definition present (t : thread castPlace) : Z :=
  match t with
  | Run (Bw_tell | Bw_test _ | Bw_wait | Bw_check | Bw_failed | Bw_released | Bw_unlock | Bw_end) => 1
  | Sleep Bw_wait | Wake _ Bw_wait => 1
  | _ => 0
  end.
Definition freed (t : thread castPlace) : Z := match t with Run (Bw_unlock | Bw_end) => 1 | _ => 0 end.

(** Where the main thread, thread 0, and the others can be. *)
Definition role (s : cv_t) (i : nat) (t : thread castPlace) : Prop :=
  match i, t with
  | O, Run (Bm_lock | Bm_test _ | Bm_stop) | O, (Sleep Bm_wait | Wake _ Bm_wait) => stop s = 0
  | O, Run Bm_wait => stop s = 0 ∧ waiting s ≠ Z.of_nat nw
  | O, Run (Bm_unlock | Bm_broadcast | Bm_join _ | Bm_end) => stop s = 1
  | S _, Run (Bw_lock | Bw_count | Bw_tell | Bw_released | Bw_unlock | Bw_end) | S _, Sleep Bw_wait => True
  | S _, (Run (Bw_test err) | Wake err Bw_wait) => err = 0 ∨ stop s = 1
  | S _, Run Bw_wait => stop s = 0
  | S _, Run Bw_check => stop s = 1
  | _, _ => False
  end.

(** The waiters the main thread has joined. *)
Definition joined_by (t : thread castPlace) : nat := match t with Run (Bm_join k) => k | Run Bm_end => nw | _ => 0 end.

Definition gathered (c : config cv_t castPlace) : Prop :=
  excl under c ∧ length (threads c) = S nw ∧ failed (shared c) = 0 ∧ (stop (shared c) = 0 ∨ stop (shared c) = 1) ∧
  waiting (shared c) = u32 (total present (threads c)) ∧ released (shared c) = u32 (total freed (threads c)) ∧
  (∀ i t, threads c !! i = Some t → role (shared c) i t) ∧
  (∀ t, threads c !! 0%nat = Some t → (joined_by t ≤ nw)%nat ∧
    ∀ k, (k < joined_by t)%nat → threads c !! S k = Some (Run Bw_end)).

(** Schedules in which no waiter's time is up before [stop] is set. Any wake-up
    may be lost, and the main thread may time out at any moment. *)
Definition after_stop (m : move) (c : config cv_t castPlace) : Prop :=
  match m with Timeout (S _) => stop (shared c) = 1 | _ => True end.

(** ** The threads after a step *)

(** Thread [i] has moved on, and a broadcast has woken up the others. *)
Definition others (c : config cv_t castPlace) (ts : list (thread castPlace)) : Prop :=
  ts = threads c ∨ ts = awaken 0 <$> threads c.

Lemma others_lookup c ts k t' :
  others c ts → ts !! k = Some t' → ∃ t, threads c !! k = Some t ∧ (t' = t ∨ t' = awaken 0 t).
Proof using. intros [->| ->] Hk; [eauto|]. apply list_lookup_fmap_Some in Hk as (t & -> & Hk). eauto. Qed.

Lemma others_length c ts : others c ts → length ts = length (threads c).
Proof using. intros [->| ->]; [done|apply length_fmap]. Qed.

Lemma others_total c ts f : (∀ t, f (awaken 0 t) = f t) → others c ts → total f ts = total f (threads c).
Proof using. intros Hf [->| ->]; [done|by apply total_ext]. Qed.

Lemma role_awaken s k t : role s k t → role s k (awaken 0 t).
Proof using. destruct k, t as [l|l|err l]; try done; destruct l; try done. by left. Qed.

(** Who is outside does not mind what changes inside. *)
Lemma role_change s s' k t :
  outside under t → stop s' = stop s ∨ (k ≠ 0%nat ∧ stop s' = 1) → role s k t → role s' k t.
Proof using.
  intros Ho Hs. destruct k, t as [[]|[]|err []]; cbn in *; try done; destruct Hs as [Hs|[? Hs]]; try done; try lia.
Qed.

Lemma gathered_put c i t0 t ts o s' :
  gathered c → threads c !! i = Some t0 → others c ts → excl under (mkConfig o s' (<[i := t]> ts)) →
  failed s' = 0 → stop s' = 0 ∨ stop s' = 1 →
  waiting s' = u32 (waiting (shared c) + (present t - present t0)) →
  released s' = u32 (released (shared c) + (freed t - freed t0)) →
  role s' i t → (i ≠ 0%nat → t0 ≠ Run Bw_end) →
  (i = 0%nat → (joined_by t ≤ nw)%nat ∧ ∀ k, (k < joined_by t)%nat → (k < joined_by t0)%nat ∨ threads c !! S k = Some (Run Bw_end)) →
  (∀ k t', k ≠ i → threads c !! k = Some t' → role (shared c) k t' → role s' k t') →
  gathered (mkConfig o s' (<[i := t]> ts)).
Proof using.
  intros (_ & Hl & _ & _ & Hw & Hr & Hro & Hj) Hi Hts He Hf Hs Hw' Hr' Ht Hne Hj' Hoth.
  pose proof (others_length c ts Hts) as Hlen. assert (ts !! i = Some (awaken 0 t0) ∨ ts !! i = Some t0) as Hti.
  { destruct Hts as [->| ->]; [by right|left]. by rewrite list_lookup_fmap, Hi. }
  assert (∀ f, (∀ t, f (awaken 0 t) = f t) → total f (<[i := t]> ts) = total f (threads c) + (f t - f t0)) as Htot.
  { intros f Hfa. rewrite <- (others_total c ts f Hfa Hts).
    destruct Hti as [Hti|Hti]; rewrite (total_insert f ts i t _ Hti); [rewrite Hfa|]; lia. }
  split_and!; cbn [threads shared]; [done|rewrite length_insert; congruence|done|done| | | |].
  - rewrite Htot by (by intros [|[]|]). rewrite Hw', Hw. apply u32_add_l.
  - rewrite Htot by (by intros [|[]|]). rewrite Hr', Hr. apply u32_add_l.
  - intros k t' Hk. apply list_lookup_insert_Some in Hk as [(<- & <- & _)|[Hki Hk]]; [done|].
    destruct (others_lookup c ts k t' Hts Hk) as (t1 & H1 & [->| ->]); [|apply role_awaken]; (apply (Hoth k); [done..|by apply Hro]).
  - intros t' Ht'. apply list_lookup_insert_Some in Ht' as [(-> & <- & _)|[Hi0 Ht']].
    + destruct (Hj' eq_refl) as [Hle Hjk]. split; [done|]. intros k Hk. rewrite list_lookup_insert_ne by done.
      assert (threads c !! S k = Some (Run Bw_end)) as E by (destruct (Hjk k Hk) as [Hk'|?]; [by apply (Hj t0 Hi)|done]).
      destruct Hts as [->| ->]; [done|]. by rewrite list_lookup_fmap, E.
    + destruct (others_lookup c ts 0 t' Hts Ht') as (t1 & H1 & Ht1). destruct (Hj t1 H1) as [Hle Hjk].
      assert (joined_by t' ≤ joined_by t1)%nat as Hle' by (destruct Ht1 as [->| ->]; [done|by destruct t1]).
      split; [lia|]. intros k Hk. pose proof (Hjk k ltac:(lia)) as E. rewrite list_lookup_insert_ne.
      * destruct Hts as [->| ->]; [done|]. by rewrite list_lookup_fmap, E.
      * intros ->. rewrite Hi in E. injection E as ->. by apply Hne.
Qed.

Lemma gathered_u32 c : gathered c → waiting (shared c) = u32 (waiting (shared c) + 0) ∧ released (shared c) = u32 (released (shared c) + 0).
Proof using. intros (_ & _ & _ & _ & Hw & Hr & _). split; [rewrite Hw|rewrite Hr]; by rewrite u32_add_l, Z.add_0_r. Qed.

(** A step that leaves the shared variables alone. *)
Lemma gathered_move c i t0 t ts o :
  gathered c → threads c !! i = Some t0 → others c ts → excl under (mkConfig o (shared c) (<[i := t]> ts)) →
  present t = present t0 → freed t = freed t0 → role (shared c) i t → (i ≠ 0%nat → t0 ≠ Run Bw_end) →
  (i = 0%nat → (joined_by t ≤ nw)%nat ∧ ∀ k, (k < joined_by t)%nat → (k < joined_by t0)%nat ∨ threads c !! S k = Some (Run Bw_end)) →
  gathered (mkConfig o (shared c) (<[i := t]> ts)).
Proof using.
  intros HG Hi Hts He Hp Hf Hr Hne Hj. pose proof HG as (_ & _ & Hfa & Hs & _). destruct (gathered_u32 c HG) as [Ew Er].
  apply (gathered_put c i t0 t ts o (shared c) HG Hi Hts He); try done; [by rewrite Hp, Z.sub_diag|by rewrite Hf, Z.sub_diag].
Qed.

(** The main thread is not joining yet. *)
Ltac no_join := intros _; repeat case_match; (split; [cbn; lia|cbn; intros ? ?; lia]).

Lemma gathered_main c l j c' :
  gathered c → threads c !! 0%nat = Some (Run l) → excl under c' → run 0 j l c = Some c' → gathered c'.
Proof using.
  intros HG H0 He'. pose proof HG as (He & Hl & Hf & Hs & Hw & Hr & Hro & Hj). pose proof (Hro _ _ H0) as Hl0.
  destruct (Hj _ H0) as [Hle Hjk]. assert (others c (threads c)) as Hid by by left.
  unfold run. destruct l as [| | | | | | | | | | |err| | | | |k|]; try done; cbn [prog ret waiters_program broadcast_many] in *.
  - destruct (owner c); [done|]. intros [= <-]. apply (gathered_move c 0 _ _ _ _ HG H0 Hid); try done. no_join.
  - intros [= <-]. apply (gathered_move c 0 _ _ _ _ HG H0 Hid); try done; try (by case_match); cbn in Hl0 |- *.
    + destruct (waiting (shared c) =? Z.of_nat nw) eqn:E; cbn; [done|]. destruct (err =? 0); cbn; [split; [done|lia]|done].
    + no_join.
  - destruct (decide _); [|done]. intros [= <-]. apply (gathered_move c 0 _ _ _ _ HG H0 Hid); try done; [apply Hl0|no_join].
  - intros [= <-]. destruct (gathered_u32 c HG) as [Ew Er].
    apply (gathered_put c 0 (Run Bm_stop) _ _ _ _ HG H0 Hid); try done; cbn; [by right|no_join|].
    intros k t' Hk Hk' Ht'. apply (role_change (shared c)); [|by right|done]. by apply (alone under c 0 Bm_stop k t' He H0).
  - destruct (decide _); [|done]. intros [= <-]. apply (gathered_move c 0 _ _ _ _ HG H0 Hid); try done. no_join.
  - intros [= <-]. apply (gathered_move c 0 _ _ _ (owner c) HG H0 (or_intror eq_refl)); try done. no_join.
  - destruct (k <? nw)%nat eqn:E.
    + destruct (finished c (S k)) eqn:Efin; [|done]. intros [= <-]. apply Nat.ltb_lt in E.
      apply (gathered_move c 0 _ _ _ _ HG H0 Hid); try done. intros _. cbn. split; [lia|]. intros k' Hk'.
      destruct (decide (k' = k)) as [->|]; [right|left; lia]. unfold finished in Efin.
      destruct (threads c !! S k) as [[l| |]|] eqn:Ek; try done. specialize (Hro (S k) _ Ek). by destruct l.
    + intros [= <-]. apply Nat.ltb_ge in E. cbn in Hle. assert (k = nw) as -> by lia.
      apply (gathered_move c 0 _ _ _ (owner c) HG H0 Hid); try done. intros _. cbn. split; [lia|]. by left.
Qed.

Lemma gathered_waiter c i l j c' :
  gathered c → threads c !! S i = Some (Run l) → excl under c' → run (S i) j l c = Some c' → gathered c'.
Proof using.
  intros HG Hi He'. pose proof HG as (He & Hl & Hf & Hs & Hw & Hr & Hro & Hj). pose proof (Hro _ _ Hi) as Hli.
  assert (others c (threads c)) as Hid by by left. destruct (gathered_u32 c HG) as [Ew Er].
  assert (∀ s' k t', under l = true → stop s' = stop (shared c) → k ≠ S i → threads c !! k = Some t' → role (shared c) k t' → role s' k t') as Hout.
  { intros s' k t' Hin Hst Hk Hk'. apply role_change; [by apply (alone under c (S i) l k t' He Hi)|by left]. }
  unfold run. destruct l as [| | |err| | | | | | | | | | | | | |]; try done; cbn [prog ret waiters_program broadcast_many] in *.
  - destruct (owner c); [done|]. intros [= <-]. by apply (gathered_move c _ _ _ _ _ HG Hi Hid).
  - intros [= <-]. apply (gathered_put c _ (Run Bw_count) _ _ _ _ HG Hi Hid); try done. intros ? ? Hk Hk'. by apply Hout.
  - intros [= <-]. apply (gathered_move c _ _ _ _ (owner c) HG Hi (or_intror eq_refl)); try done. by left.
  - intros [= <-]. apply (gathered_move c _ _ _ _ (owner c) HG Hi Hid); try done; try (by case_match). cbn in Hli |- *.
    destruct (stop (shared c) =? 0) eqn:E; cbn; [|lia]. destruct (err =? 0) eqn:E'; cbn; lia.
  - destruct (decide _); [|done]. intros [= <-]. by apply (gathered_move c _ _ _ _ _ HG Hi Hid).
  - intros [= <-]. cbn in Hli. rewrite Hli in *. by apply (gathered_move c _ _ _ _ (owner c) HG Hi Hid).
  - intros [= <-]. by apply (gathered_put c _ (Run Bw_released) _ _ _ _ HG Hi Hid).
  - destruct (decide _); [|done]. intros [= <-]. by apply (gathered_move c _ _ _ _ _ HG Hi Hid).
Qed.

Lemma gathered_fire m c c' : after_stop m c → gathered c → fire m c = Some c' → gathered c'.
Proof using.
  intros Hm HG Hfire. pose proof HG as (He & Hl & Hf & Hs & Hw & Hr & Hro & Hj).
  pose proof (excl_fire under m c c' He Hfire) as He'. assert (others c (threads c)) as Hid by by left.
  destruct m as [i j|i|i|i]; cbn [fire] in *; destruct (threads c !! i) as [[l|l|err l]|] eqn:Hi; try done; pose proof (Hro _ _ Hi) as Hri.
  - destruct i; [by eapply gathered_main|by eapply gathered_waiter].
  - destruct (owner c); [done|]. injection Hfire as <-.
    destruct i, l; try done; apply (gathered_move c _ _ _ _ _ HG Hi Hid); try done. no_join.
  - injection Hfire as <-. destruct i, l; try done; apply (gathered_move c _ _ _ _ (owner c) HG Hi Hid); try done; [no_join|by left].
  - injection Hfire as <-. destruct i, l; try done; apply (gathered_move c _ _ _ _ (owner c) HG Hi Hid); try done; [no_join|by right].
  - destruct i, l; try done; cbn -[Nat.ltb] in Hfire; try done; 
      try match type of Hfire with context [if ?b then _ else _] => by destruct b end; injection Hfire as <-;
      apply (gathered_move c _ _ _ _ (owner c) HG Hi Hid); try done; [no_join|by left].
Qed.

(** ** Who sleeps will be woken up *)

Definition awake (c : config cv_t castPlace) : Prop := ∀ k t, threads c !! S k = Some t → asleep t = false.

Definition watched (c : config cv_t castPlace) : Prop :=
  ∀ p, threads c !! 0%nat = Some p →
    (asleep p = true → waiting (shared c) ≠ Z.of_nat nw ∨ ∃ k, threads c !! S k = Some (Run Bw_tell)) ∧
    (stop (shared c) = 1 → p = Run Bm_unlock ∨ p = Run Bm_broadcast ∨ awake c).

Lemma watched_waiter c i t0 t o s' :
  watched c → threads c !! S i = Some t0 → t0 ≠ Run Bw_tell → stop s' = stop (shared c) →
  waiting s' = waiting (shared c) ∨ t = Run Bw_tell → (asleep t = true → stop s' = 0) →
  watched (mkConfig o s' (<[S i := t]> (threads c))).
Proof using.
  intros HW Hi Ht0 Hs Hw Ht p. cbn [threads shared]. rewrite list_lookup_insert_ne by done. intros Hp.
  destruct (HW p Hp) as [H1 H2]. assert (<[S i := t]> (threads c) !! S i = Some t) as Hins.
  { apply list_lookup_insert_eq. by eapply lookup_lt_Some. }
  split.
  - intros Hsl. destruct Hw as [->| ->]; [|by right; exists i]. destruct (H1 Hsl) as [?|[k Hk]]; [by left|right].
    exists k. rewrite list_lookup_insert_ne; [done|]. intros [= ->]. congruence.
  - intros Hst. rewrite Hs in Hst. destruct (H2 Hst) as [?|[?|Ha]]; [by left|by right; left|right; right]. intros k t' Hk. cbn in Hk.
    apply list_lookup_insert_Some in Hk as [(_ & <- & _)|[_ Hk]]; [|by eapply Ha].
    apply not_true_iff_false. intros E. specialize (Ht E). lia.
Qed.

Lemma watched_main c p t o s' :
  watched c → threads c !! 0%nat = Some p →
  (asleep t = true → waiting s' ≠ Z.of_nat nw) →
  (stop s' = 1 → t = Run Bm_unlock ∨ t = Run Bm_broadcast ∨ (p ≠ Run Bm_unlock ∧ p ≠ Run Bm_broadcast ∧ stop (shared c) = 1)) →
  watched (mkConfig o s' (<[0%nat := t]> (threads c))).
Proof using.
  intros HW Hp Ht Hs p'. cbn [threads shared]. rewrite list_lookup_insert_eq by (by eapply lookup_lt_Some). intros [= <-].
  destruct (HW p Hp) as [_ H2]. split; [by left; auto|]. intros Hst. destruct (Hs Hst) as [?|[?|(Hu & Hb & Hc)]]; [by left|by right; left|].
  destruct (H2 Hc) as [?|[?|Ha]]; [done|done|right; right]. intros k t' Hk. cbn in Hk. rewrite list_lookup_insert_ne in Hk by done. by eapply Ha.
Qed.

(** Everyone is awake after a broadcast. *)
Lemma watched_broadcast (c : config cv_t castPlace) i l o s' : watched (mkConfig o s' (<[i := Run l]> (awaken 0 <$> threads c))).
Proof using.
  assert (∀ k t, <[i := Run l]> (awaken 0 <$> threads c) !! k = Some t → asleep t = false) as Ha.
  { intros k t Hk. apply list_lookup_insert_Some in Hk as [(_ & <- & _)|[_ Hk]]; [done|].
    apply list_lookup_fmap_Some in Hk as (t' & -> & _). by destruct t'. }
  intros p Hp. cbn in Hp. split; [by rewrite (Ha _ _ Hp)|]. intros _. right; right. intros k t Hk. by eapply Ha.
Qed.

Lemma watched_fire m c c' : works m = true → gathered c → watched c → fire m c = Some c' → watched c'.
Proof using.
  intros Hm (_ & _ & _ & Hs & _ & _ & Hro & _) HW Hfire.
  destruct m as [i j|i|i|i]; try done; cbn [fire] in Hfire; destruct (threads c !! i) as [[l|l|err l]|] eqn:Hi; try done;
    pose proof (Hro _ _ Hi) as Hri.
  - unfold run in Hfire. destruct i as [|i], l; try done; cbn -[Nat.ltb] in Hfire, Hri; repeat case_match; simplify_eq;
      try apply watched_broadcast.
    all: try (apply (watched_main c _ _ _ _ HW Hi); [done|cbn; intros; first [lia|by left|by right; left|by right; right]]).
    all: try (by apply (watched_waiter c i _ _ _ _ HW Hi); [| |left| ]).
    + apply (watched_main c _ _ _ _ HW Hi); cbn; intros; [by apply Hri|lia].
    + apply (watched_waiter c i _ _ _ _ HW Hi); try done. by right.
  - destruct (owner c); [done|]. injection Hfire as <-. destruct i as [|i], l; try done.
    + apply (watched_main c _ _ _ _ HW Hi); [done|]. cbn in *. intros; lia.
    + apply (watched_waiter c i _ _ _ _ HW Hi); try done. by left.
  - injection Hfire as <-. destruct i as [|i], l; try done.
    + apply (watched_main c _ _ _ _ HW Hi); [done|]. cbn in *. intros; lia.
    + apply (watched_waiter c i _ _ _ _ HW Hi); try done. by left.
Qed.

(** ** The test *)

Lemma gathered_start : gathered (broadcast_start nw).
Proof using.
  assert (∀ k t, replicate nw (Run Bw_lock) !! k = Some t → t = Run Bw_lock) as Hr
    by (intros k t [-> _]%lookup_replicate; done).
  assert (∀ f, f (Run Bm_lock) = 0 → f (Run Bw_lock) = 0 → total f (threads (broadcast_start nw)) = 0) as Ht.
  { intros f H0 H1. rewrite (total_const f _ 0); [lia|]. intros [|k] t Hk; [by injection Hk as <-|].
    change (replicate nw (Run Bw_lock) !! k = Some t) in Hk. by apply Hr in Hk as ->. }
  split_and!; rewrite ?Ht by done; try done; [|by cbn; rewrite length_replicate|by left| |].
  - split; [|done]. intros [|k] t Hk; [by injection Hk as <-|].
    change (replicate nw (Run Bw_lock) !! k = Some t) in Hk. by apply Hr in Hk as ->.
  - intros [|k] t Hk; [by injection Hk as <-|]. change (replicate nw (Run Bw_lock) !! k = Some t) in Hk. by apply Hr in Hk as ->.
  - intros t [= <-]. cbn. split; [lia|]. intros k Hk. lia.
Qed.

(** All the waiters have ended: each was released. *)
Lemma gathered_verdict c b : gathered c → broadcast_asserts nw c = Some b → b = true.
Proof using Hnw.
  intros (_ & Hl & Hf & _ & _ & Hr & _ & Hj) Hv. unfold broadcast_asserts in Hv.
  destruct (threads c) as [|t ts] eqn:Ets; [done|]. cbn in Hv. destruct t as [[]| |]; try done. injection Hv as <-.
  rewrite Hf, Hr. cbn [andb Z.eqb]. apply Z.eqb_eq. change (Z.of_nat nw = u32 (0 + total freed ts)).
  destruct (Hj _ eq_refl) as [_ He]. cbn [joined_by] in He.
  rewrite (total_const freed ts 1), u32_small; cbn in Hl; [lia|lia|]. intros i t Hi.
  assert ((i < nw)%nat) as Hin by (apply lookup_lt_Some in Hi; lia).
  pose proof (He i Hin) as E. change (ts !! i = Some (Run Bw_end)) in E. rewrite Hi in E. by injection E as ->.
Qed.

(** Everyone idle and the mutex free: who is asleep, or the end. *)
Lemma gathered_stuck c :
  gathered c → can_go c ∨ broadcast_asserts nw c = Some true ∨
  threads c !! 0%nat = Some (Sleep Bm_wait) ∧ (∀ k t, threads c !! S k = Some t → present t = 1) ∨
  stop (shared c) = 1 ∧ (∃ p, threads c !! 0%nat = Some p ∧ p ≠ Run Bm_unlock ∧ p ≠ Run Bm_broadcast) ∧
    ∃ k, threads c !! S k = Some (Sleep Bw_wait).
Proof using Hnw.
  intros HG. pose proof HG as (He & Hl & _ & _ & _ & _ & Hro & Hj).
  destruct (progress under c He) as [?|[_ Hid]]; [by left|right].
  assert (is_Some (threads c !! 0%nat)) as [p Hp] by (apply lookup_lt_is_Some; lia).
  pose proof (Hid 0%nat _ Hp) as Hm. pose proof (Hro 0%nat _ Hp) as Hr0.
  destruct p as [l|l|err l]; destruct l; cbn -[Nat.ltb] in Hm, Hr0; try done.
  - destruct (k <? nw)%nat eqn:E; [|done]. apply Nat.ltb_lt in E.
    assert (is_Some (threads c !! S k)) as [t Ht] by (apply lookup_lt_is_Some; lia).
    pose proof (Hid _ _ Ht) as Hit. pose proof (Hro _ _ Ht) as Hrt. unfold finished in Hm. rewrite Ht in Hm.
    destruct t as [[]|[]|err []]; cbn in *; try done. right; right. split; [done|]. split; [by eexists|]. by exists k.
  - left. assert (∃ b, broadcast_asserts nw c = Some b) as [b Hb] by (unfold broadcast_asserts; rewrite Hp; eauto).
    by rewrite (gathered_verdict c b HG Hb) in Hb.
  - right; left. split; [done|]. intros k t Ht. pose proof (Hid _ _ Ht) as Hit. pose proof (Hro _ _ Ht) as Hrt.
    by destruct t as [[]|[]|err []].
Qed.

(** With the main thread asleep and all the others counted, all are waiting. *)
Lemma gathered_waiting c :
  gathered c → threads c !! 0%nat = Some (Sleep Bm_wait) → (∀ k t, threads c !! S k = Some t → present t = 1) →
  waiting (shared c) = Z.of_nat nw.
Proof using Hnw.
  intros (_ & Hl & _ & _ & Hw & _) Hp Hall. rewrite Hw. destruct (threads c) as [|t ts]; [done|]. cbn in Hp. injection Hp as ->.
  change (u32 (0 + total present ts) = Z.of_nat nw). cbn in Hl.
  rewrite (total_const present ts 1), u32_small by (first [lia|exact Hall]). lia.
Qed.

(** With a library that works, threads that wake up unasked included, the test
    is never stuck before it has passed, and it never fails. *)
Theorem broadcast_releases c :
  reached (broadcast_start nw) c → (can_go c ∨ broadcast_asserts nw c = Some true) ∧ (∀ b, broadcast_asserts nw c = Some b → b = true).
Proof using Hnw.
  intros Hc. assert (gathered c ∧ watched c) as [HG HW].
  { refine (reached_keep (λ c, gathered c ∧ watched c) _ _ _ _ Hc); [|split; [exact gathered_start|by intros p [= <-]]].
    clear c Hc. intros m c c' Hm [HG HW] Hf. split; [by eapply gathered_fire, Hf; [destruct m|]|by eapply watched_fire]. }
  split; [|by intros b; apply gathered_verdict].
  destruct (gathered_stuck c HG) as [?|[?|[[Hp Hall]|(Hs & (p & Hp & Hu & Hb) & k & Hk)]]]; [by left|by right|left..].
  - destruct (HW _ Hp) as [Hsl _]. destruct (Hsl eq_refl) as [Hw|[k Hk]].
    + destruct Hw. by apply gathered_waiting.
    + destruct HG as [He _]. by apply (inside_goes under c (S k) Bw_tell He Hk).
  - destruct (HW p Hp) as [_ Hst]. destruct (Hst Hs) as [?|[?|Ha]]; try done. by specialize (Ha k _ Hk).
Qed.

(** C24: The broadcast the test is about can be lost without its noticing: a
    waiter that misses it times out, finds [stop] set and is counted as
    released. As long as no waiter's time is up before the main thread has set
    [stop], the test never fails, whatever wake-ups are lost and whether the
    main thread times out or sees everyone waiting; and when no thread can go
    on it has passed or such a timeout is due. A waiter that times out before
    [stop] is set does make it fail: with two waiters there is a run in which
    only the word to the main thread is lost, and the test reports it. *)
Theorem lost_broadcasts_pass ms c :
  schedule after_stop ms (broadcast_start nw) → fires ms (broadcast_start nw) = Some c →
  (∀ b, broadcast_asserts nw c = Some b → b = true) ∧
  (can_go c ∨ broadcast_asserts nw c = Some true ∨ ∃ i c', after_stop (Timeout i) c ∧ fire (Timeout i) c = Some c') ∧
  (∃ c', @fires _ _ (broadcast_many 2) told_in_vain (broadcast_start 2) = Some c' ∧ broadcast_asserts 2 c' = Some false).
Proof using Hnw.
  intros Hs Hf. pose proof (fires_keep gathered after_stop gathered_fire ms _ c gathered_start Hs Hf) as HG.
  split_and!; [by intros b; apply gathered_verdict| |].
  - destruct (gathered_stuck c HG) as [?|[?|[[Hp _]|(Hst & _ & k & Hk)]]]; [by left|by right; left|right; right..].
    + exists 0%nat. cbn [fire]. rewrite Hp. by eexists.
    + exists (S k). cbn [fire]. rewrite Hk. by eexists.
  - eexists. split; vm_compute; reflexivity.
Qed.
End waiters.

(** One waiter, asleep before the main thread looks; the broadcast releases
    it. *)
Definition released_one : list move :=
  [Go 1 0; Go 1 0; Go 1 0; Go 1 0; Go 1 0; Go 0 0; Go 0 0; Go 0 0; Go 0 0; Go 0 0;
   Go 1 0; Go 1 0; Go 1 0; Go 1 0; Go 1 0; Go 0 0; Go 0 0].

(** The broadcast is lost, and the waiter times out. *)
Definition missed_one : list move :=
  [Go 1 0; Go 1 0; Go 1 0; Go 1 0; Go 1 0; Go 0 0; Go 0 0; Go 0 0; Go 0 0; Lose 0; Timeout 1;
   Go 1 0; Go 1 0; Go 1 0; Go 1 0; Go 1 0; Go 0 0; Go 0 0].

Definition one_freed : config cv_t castPlace := mkConfig None (mkCv 0 0 0 1 1 1 0 0) [Run Bm_end; Run Bw_end].

Lemma broadcast_releases_witness :
  @fires _ _ (broadcast_many 1) released_one (broadcast_start 1) = Some one_freed ∧ (∀ b, broadcast_asserts 1 one_freed = Some b → b = true).
Proof.
  split; [vm_compute; reflexivity|]. apply (broadcast_releases 1 ltac:(lia) one_freed). exists released_one.
  split; [by repeat constructor|vm_compute; reflexivity].
Defined.

Lemma lost_broadcasts_pass_witness :
  @fires _ _ (broadcast_many 1) missed_one (broadcast_start 1) = Some one_freed ∧ (∀ b, broadcast_asserts 1 one_freed = Some b → b = true).
Proof.
  split; [vm_compute; reflexivity|]. apply (lost_broadcasts_pass 1 ltac:(lia) missed_one one_freed); [|vm_compute; reflexivity].
  vm_compute. repeat split.
Defined.
