(* ===== verification/SparseTest.v ===== *)
(** * test_sparse: holes of sparse files read as zeros

    The program fs/test_sparse.c: a hole, the tail of a short file that is
    extended, a sparse file that is truncated, and the tail that a truncation
    to an odd size cuts off. The file system under test is a parameter. The
    lines check() prints are kept, the details of a failure are left out. *)

From S2P Require Import Prelude.

Definition BLOCKSZ : Z := 4096.
Definition HOLE_OFF : Z := 2 * BLOCKSZ.

Inductive whence_t := SEEK_SET | SEEK_END.

(** The calls of the program: each takes the state of the system. read() gives
    its result and the bytes it stored at the start of the buffer. *)
Class SparseFiles := {
  sfs : Type;
  sfs_malloc : Z → sfs → bool * sfs;
  sfs_unlink : list Z → sfs → sfs;
  sfs_open : list Z → sfs → Z * sfs;
  sfs_write : Z → list Z → sfs → Z * sfs;
  sfs_read : Z → Z → sfs → Z * list Z * sfs;
  sfs_lseek : Z → Z → whence_t → sfs → Z * sfs;
  sfs_ftruncate : Z → Z → sfs → Z * sfs;
  sfs_close : Z → sfs → sfs;
}.

Definition countNonZero (buf : list Z) (len : Z) : Z :=
  Z.of_nat (length (filter (λ b, b ≠ 0) (take (Z.to_nat len) buf))).

(** A buffer of [n] bytes [b], and what a read leaves in it. *)
Definition memset (b n : Z) : list Z := replicate (Z.to_nat n) b.
Definition read_into (bs buf : list Z) : list Z := bs ++ drop (length bs) buf.

Section program.
Context `{SparseFiles}.

Record sp := mkSp { failures : Z; checks : list (list Z * bool); sys : sfs }.
Definition set_sys (σ : sfs) (s : sp) : sp := mkSp (failures s) (checks s) σ.

Definition check (what : string) (ok : bool) (s : sp) : sp :=
  mkSp (if ok then failures s else failures s + 1) (checks s ++ [(str what, ok)]) (sys s).

(** snprintf(path, sizeof(path), ...). *)
Definition file_in (dir : list Z) (name : string) : list Z := take 255 (dir ++ str name).

Definition test_hole_reads_zeros (dir : list Z) (s : sp) : sp :=
  let path := file_in dir "/sparse_hole.bin" in
  let σ := sfs_unlink path (sys s) in
  let '(ok, σ) := sfs_malloc BLOCKSZ σ in
  if negb ok then check "hole: allocate buffer" false (set_sys σ s)
  else
    let '(fd, σ) := sfs_open path σ in
    if fd <? 0 then check "hole: create file" false (set_sys σ s)
    else
      let '(r, σ) := sfs_write fd (str "A") σ in
      let s := check "hole: write first byte" (r =? 1) (set_sys σ s) in
      let '(r, σ) := sfs_lseek fd HOLE_OFF SEEK_SET σ in
      let s := check "hole: seek past a block boundary" (r =? HOLE_OFF) (set_sys σ s) in
      let '(r, σ) := sfs_write fd (str "B") σ in
      let s := check "hole: write byte after the hole" (r =? 1) (set_sys σ s) in
      let '(r, σ) := sfs_lseek fd BLOCKSZ SEEK_SET σ in
      let s := check "hole: seek back into the hole" (r =? BLOCKSZ) (set_sys σ s) in
      let '(got, bs, σ) := sfs_read fd BLOCKSZ σ in
      let buf := read_into bs (memset 0xaa BLOCKSZ) in
      let s := check "hole: read returns a full block" (got =? BLOCKSZ) (set_sys σ s) in
      let nz := if 0 <? got then countNonZero buf got else 1 in
      let s := check "hole: every byte in the hole is zero" (nz =? 0) s in
      set_sys (sfs_unlink path (sfs_close fd σ)) s.

Definition payload : list Z := str "seventeen bytes!" ++ [0].
Definition taillen : Z := BLOCKSZ - Z.of_nat (length payload).

Definition test_extend_tail_zeros (dir : list Z) (s : sp) : sp :=
  let path := file_in dir "/sparse_tail.bin" in
  let σ := sfs_unlink path (sys s) in
  let '(ok, σ) := sfs_malloc BLOCKSZ σ in
  if negb ok then check "tail: allocate buffer" false (set_sys σ s)
  else
    let '(fd, σ) := sfs_open path σ in
    if fd <? 0 then check "tail: create file" false (set_sys σ s)
    else
      let '(r, σ) := sfs_write fd payload σ in
      let s := check "tail: short write" (r =? Z.of_nat (length payload)) (set_sys σ s) in
      let '(r, σ) := sfs_ftruncate fd BLOCKSZ σ in
      let s := check "tail: extend to one block" (r =? 0) (set_sys σ s) in
      let '(r, σ) := sfs_lseek fd (Z.of_nat (length payload)) SEEK_SET σ in
      let s := check "tail: seek to the untouched tail" (r =? Z.of_nat (length payload)) (set_sys σ s) in
      let '(got, bs, σ) := sfs_read fd taillen σ in
      let buf := read_into bs (memset 0xaa BLOCKSZ) in
      let s := check "tail: read returns the whole tail" (got =? taillen) (set_sys σ s) in
      let nz := if 0 <? got then countNonZero buf got else 1 in
      let s := check "tail: untouched tail of the block is zero" (nz =? 0) s in
      set_sys (sfs_unlink path (sfs_close fd σ)) s.

(** Data and holes in turn, from block [i] on; a failure leaves the loop. *)
Fixpoint build_loop (n : nat) (i fd : Z) (buf : list Z) (σ : sfs) : bool * sfs :=
  match n with
  | O => (true, σ)
  | S n =>
      let off := i * 2 * BLOCKSZ in
      let '(r, σ) := sfs_lseek fd off SEEK_SET σ in
      if negb (r =? off) then (false, σ)
      else
        let '(r, σ) := sfs_write fd buf σ in
        if negb (r =? BLOCKSZ) then (false, σ) else build_loop n (i + 1) fd buf σ
  end.

Definition test_truncate_with_holes (dir : list Z) (s : sp) : sp :=
  let path := file_in dir "/trunc_holes.bin" in
  let σ := sfs_unlink path (sys s) in
  let '(fd, σ) := sfs_open path σ in
  if fd <? 0 then check "trunc-holes: create" false (set_sys σ s)
  else
    let '(ok, σ) := build_loop 6 0 fd (memset 0x5a BLOCKSZ) σ in
    if negb ok then set_sys (sfs_close fd σ) (check "trunc-holes: build sparse file" false s)
    else
      let s := check "trunc-holes: built a sparse file" true s in
      let '(r, σ) := sfs_ftruncate fd 0 σ in
      let s := check "trunc-holes: truncate to 0 survives" (r =? 0) (set_sys σ s) in
      let '(r, σ) := sfs_lseek fd 0 SEEK_END σ in
      let s := check "trunc-holes: size is 0" (r =? 0) (set_sys σ s) in
      let '(r, σ) := sfs_write fd (memset 0x11 64) σ in
      let s := check "trunc-holes: writable afterwards" (r =? 64) (set_sys σ s) in
      set_sys (sfs_unlink path (sfs_close fd σ)) s.

Definition shortSz : Z := BLOCKSZ + BLOCKSZ / 3.
Definition reExtend : Z := 3 * BLOCKSZ.
Definition gap : Z := Z.min (reExtend - shortSz) BLOCKSZ.

(** Three writes of a block, up to the first that fails. *)
Fixpoint fill3_loop (n : nat) (fd : Z) (buf : list Z) (σ : sfs) : bool * sfs :=
  match n with
  | O => (true, σ)
  | S n =>
      let '(r, σ) := sfs_write fd buf σ in
      if negb (r =? BLOCKSZ) then (false, σ) else fill3_loop n fd buf σ
  end.

(** lseek(fd, off, SEEK_SET) != off || call != n. *)
Definition seek_then (fd off : Z) (call : sfs → bool * list Z * sfs) (σ : sfs) : bool * list Z * sfs :=
  let '(r, σ) := sfs_lseek fd off SEEK_SET σ in if negb (r =? off) then (false, [], σ) else call σ.

Definition test_truncate_tail_not_leaked (dir : list Z) (s : sp) : sp :=
  let path := file_in dir "/trunc_tail.bin" in
  let σ := sfs_unlink path (sys s) in
  let '(fd, σ) := sfs_open path σ in
  if fd <? 0 then check "trunc-tail: create" false (set_sys σ s)
  else
    let '(ok, σ) := fill3_loop 3 fd (memset 0xaa BLOCKSZ) σ in
    if negb ok then set_sys (sfs_close fd σ) (check "trunc-tail: fill 3 blocks with 0xAA" false s)
    else
      let s := check "trunc-tail: filled 3 blocks with 0xAA" true s in
      let '(r, σ) := sfs_ftruncate fd shortSz σ in
      let s := check "trunc-tail: truncate to an unaligned size" (r =? 0) s in
      let '(ok, _, σ) := seek_then fd reExtend (λ σ, let '(r, σ) := sfs_write fd (str "END") σ in (r =? 3, [], σ)) σ in
      if negb ok then set_sys (sfs_close fd σ) (check "trunc-tail: re-extend" false s)
      else
        let '(ok, bs, σ) := seek_then fd shortSz (λ σ, let '(r, bs, σ) := sfs_read fd gap σ in (r =? gap, bs, σ)) σ in
        if negb ok then set_sys (sfs_close fd σ) (check "trunc-tail: read the gap" false s)
        else
          let s := check "trunc-tail: read the gap" true s in
          let bad := countNonZero (read_into bs (memset 0xff BLOCKSZ)) gap in
          let s := check "trunc-tail: no deleted content is readable" (bad =? 0) s in
          set_sys (sfs_unlink path (sfs_close fd σ)) s.

(** The failures counted, and the exit code. *)
Definition sparse_tests (dir : list Z) (σ : sfs) : sp :=
  test_truncate_tail_not_leaked dir (test_truncate_with_holes dir
    (test_extend_tail_zeros dir (test_hole_reads_zeros dir (mkSp 0 [] σ)))).
Definition sparse_main (argv : list (list Z)) (σ : sfs) : Z :=
  let dir := match argv with _ :: dir :: _ => dir | _ => str "." end in
  if failures (sparse_tests dir σ) =? 0 then 0 else 1.
End program.
