(* ===== verification/SparseTestProps.v ===== *)
(** * What test_sparse decides

    On a file system whose sizes and positions are right, and whose bytes
    that nobody wrote read as they like, the program passes exactly when the
    bytes it looks at read as zero: a block of the hole, the tail of the first
    block, and 4096 of the bytes behind the truncation. *)

From S2P Require Import Prelude SparseTest.

(** What an open file shows: its size, the position and its bytes. Those at
    and behind the size are what an extension would uncover. *)
Class LeakyFiles `{SparseFiles} := {
  shows : sfs → Z → list Z → Z → Z → (Z → Z) → Prop;
  stale : list Z → Z → Z;
  malloc_works n σ : fst (sfs_malloc n σ) = true;
  open_empty path σ : let '(fd, σ') := sfs_open path σ in 0 ≤ fd ∧ shows σ' fd path 0 0 (stale path);
  write_stores σ fd path size pos byte bs :
    shows σ fd path size pos byte → 0 ≤ pos →
    let '(r, σ') := sfs_write fd bs σ in
    let n := Z.of_nat (length bs) in
    r = n ∧ shows σ' fd path (Z.max size (pos + n)) (pos + n)
      (λ i, if bool_decide (pos ≤ i < pos + n) then nth (Z.to_nat (i - pos)) bs 0 else byte i);
  read_reads σ fd path size pos byte n :
    shows σ fd path size pos byte → 0 ≤ pos → 0 ≤ n → pos + n ≤ size →
    let '(r, bs, σ') := sfs_read fd n σ in
    r = n ∧ bs = byte <$> seqZ pos n ∧ shows σ' fd path size (pos + n) byte;
  seek_set σ fd path size pos byte off :
    shows σ fd path size pos byte → 0 ≤ off →
    let '(r, σ') := sfs_lseek fd off SEEK_SET σ in r = off ∧ shows σ' fd path size off byte;
  seek_end σ fd path size pos byte :
    shows σ fd path size pos byte →
    let '(r, σ') := sfs_lseek fd 0 SEEK_END σ in r = size ∧ shows σ' fd path size size byte;
  truncate_cuts σ fd path size pos byte n :
    shows σ fd path size pos byte → 0 ≤ n →
    let '(r, σ') := sfs_ftruncate fd n σ in
    r = 0 ∧ shows σ' fd path n pos (λ i, if bool_decide (i < Z.min n size) then byte i else stale path i);
}.

(** ** Counting *)

Lemma countNonZero_zero bs buf n :
  Z.of_nat (length bs) = n → countNonZero (read_into bs buf) n = 0 ↔ Forall (λ b, b = 0) bs.
Proof.
  intros Hl. unfold countNonZero, read_into. rewrite take_app_length' by lia.
  assert (∀ k : nat, Z.of_nat k = 0 ↔ k = 0%nat) as -> by lia. rewrite length_zero_iff_nil. split.
  - intros E. apply Forall_forall. intros b Hb. destruct (decide (b = 0)) as [|Hne]; [done|].
    assert (b ∈ filter (λ b, b ≠ 0) bs) as Hin by by apply list_elem_of_filter. rewrite E in Hin. by apply not_elem_of_nil in Hin.
  - clear Hl. induction 1 as [|b bs -> _ IH]; [done|]. rewrite filter_cons_False by (by intros []). apply IH.
Qed.

Definition clean (stale : Z → Z) (from n : Z) : bool := forallb (λ i, stale i =? 0) (seqZ from n).

Lemma clean_spec f from n : clean f from n = true ↔ ∀ i, from ≤ i < from + n → f i = 0.
Proof.
  unfold clean. rewrite forallb_forall. split.
  - intros Hf i Hi. apply Z.eqb_eq, Hf, list_elem_of_In, elem_of_seqZ. lia.
  - intros Hf i Hi%list_elem_of_In%elem_of_seqZ. apply Z.eqb_eq, Hf. lia.
Qed.

(** ** The four tests *)

Section decided.
Context `{LeakyFiles}.

(** The result of the next call and what the file then shows, by the law [L]. *)
Ltac next L S :=
  let E := fresh "E" in
  pose proof L as E;
  lazymatch type of E with match ?c with (_, _) => _ end => destruct c as [? ?] end;
  destruct E as [-> S].

(** How many failures a look at [n] bytes from [from] adds. *)
Definition looked (f : Z → Z) (from n : Z) : Z := if clean f from n then 0 else 1.

Lemma zeros_read f byte pos n buf :
  0 ≤ n → (∀ i, pos ≤ i < pos + n → byte i = f i) →
  (countNonZero (read_into (byte <$> seqZ pos n) buf) n =? 0) = clean f pos n.
Proof.
  intros Hn Hb. apply eq_true_iff_eq. rewrite Z.eqb_eq, countNonZero_zero, clean_spec by (rewrite length_fmap, length_seqZ; lia).
  rewrite Forall_forall. split.
  - intros Hz i Hi. rewrite <- Hb by done. apply Hz, list_elem_of_fmap. exists i. split; [done|]. by apply elem_of_seqZ.
  - intros Hz b (i & -> & Hi%elem_of_seqZ)%list_elem_of_fmap. rewrite Hb by lia. by apply Hz.
Qed.

Lemma hole_failures dir s :
  failures (test_hole_reads_zeros dir s) =
  failures s + looked (stale (file_in dir "/sparse_hole.bin")) BLOCKSZ BLOCKSZ.
Proof.
  unfold test_hole_reads_zeros. set (path := file_in _ _). set (σ0 := sfs_unlink path (sys s)).
  pose proof (malloc_works BLOCKSZ σ0) as Em. destruct (sfs_malloc BLOCKSZ σ0) as [ok σ1]. cbn in Em. subst ok. cbn [negb].
  pose proof (open_empty path σ1) as Eo. destruct (sfs_open path σ1) as [fd σ2]. destruct Eo as [Hfd S2].
  replace (fd <? 0) with false by lia.
  next (write_stores _ _ _ _ _ _ (str "A") S2 ltac:(done)) S3. next (seek_set _ _ _ _ _ _ HOLE_OFF S3 ltac:(done)) S4.
  next (write_stores _ _ _ _ _ _ (str "B") S4 ltac:(done)) S5. next (seek_set _ _ _ _ _ _ BLOCKSZ S5 ltac:(done)) S6.
  pose proof (read_reads _ _ _ _ _ _ BLOCKSZ S6 ltac:(done) ltac:(done) ltac:(done)) as E.
  destruct (sfs_read fd _ _) as [[r bs] σ7]. destruct E as (-> & -> & S7).
  change (0 <? BLOCKSZ) with true. cbn [failures set_sys check].
  rewrite (zeros_read (stale path)); [|done|].
  2: { change (length (str "A")) with 1%nat. change (length (str "B")) with 1%nat.
    intros i Hi. rewrite !bool_decide_false; [done|unfold HOLE_OFF, BLOCKSZ in *; lia..]. }
  rewrite !Z.eqb_refl. unfold looked. destruct (clean _ _ _); cbn; lia.
Qed.

Lemma tail_failures dir s :
  failures (test_extend_tail_zeros dir s) =
  failures s + looked (stale (file_in dir "/sparse_tail.bin")) 17 taillen.
Proof.
  unfold test_extend_tail_zeros. set (path := file_in _ _). set (σ0 := sfs_unlink path (sys s)).
  pose proof (malloc_works BLOCKSZ σ0) as Em. destruct (sfs_malloc BLOCKSZ σ0) as [ok σ1]. cbn in Em. subst ok. cbn [negb].
  pose proof (open_empty path σ1) as Eo. destruct (sfs_open path σ1) as [fd σ2]. destruct Eo as [Hfd S2].
  replace (fd <? 0) with false by lia. change (Z.of_nat (length payload)) with 17.
  next (write_stores _ _ _ _ _ _ payload S2 ltac:(done)) S3. change (Z.of_nat (length payload)) with 17 in *.
  next (truncate_cuts _ _ _ _ _ _ BLOCKSZ S3 ltac:(done)) S4. next (seek_set _ _ _ _ _ _ 17 S4 ltac:(done)) S5.
  pose proof (read_reads _ _ _ _ _ _ taillen S5 ltac:(done) ltac:(done) ltac:(done)) as E.
  destruct (sfs_read fd _ _) as [[r bs] σ7]. destruct E as (-> & -> & S7).
  change (0 <? taillen) with true. cbn [failures set_sys check].
  rewrite (zeros_read (stale path)); [|done|].
  2: { intros i Hi. rewrite bool_decide_false; [done|]. lia. }
  rewrite !Z.eqb_refl. unfold looked. destruct (clean _ _ _); cbn; lia.
Qed.

Lemma length_memset b n : 0 ≤ n → Z.of_nat (length (memset b n)) = n.
Proof. intros Hn. unfold memset. rewrite length_replicate. lia. Qed.

Lemma build_works n i fd buf σ path size pos byte :
  shows σ fd path size pos byte → 0 ≤ i → Z.of_nat (length buf) = BLOCKSZ →
  ∃ σ' size' pos' byte', build_loop n i fd buf σ = (true, σ') ∧ shows σ' fd path size' pos' byte'.
Proof.
  revert i σ size pos byte. induction n as [|n IH]; intros i σ size pos byte Hs Hi Hb; [by eexists _, _, _, _|].
  cbn [build_loop]. assert (0 ≤ i * 2 * BLOCKSZ) by (unfold BLOCKSZ; lia).
  next (seek_set _ _ _ _ _ _ (i * 2 * BLOCKSZ) Hs ltac:(done)) S1. rewrite Z.eqb_refl. cbn [negb].
  next (write_stores _ _ _ _ _ _ buf S1 ltac:(done)) S2. rewrite Hb, Z.eqb_refl. cbn [negb].
  apply (IH _ _ _ _ _ S2); [lia|done].
Qed.

Lemma holes_failures dir s : failures (test_truncate_with_holes dir s) = failures s.
Proof.
  unfold test_truncate_with_holes. set (path := file_in _ _).
  pose proof (open_empty path (sfs_unlink path (sys s))) as Eo. destruct (sfs_open path _) as [fd σ2]. destruct Eo as [Hfd S2].
  replace (fd <? 0) with false by lia.
  destruct (build_works 6 0 fd (memset 0x5a BLOCKSZ) σ2 path _ _ _ S2) as (σ3 & size & pos & byte & -> & S3); [done|by apply length_memset|].
  cbn [negb]. next (truncate_cuts _ _ _ _ _ _ 0 S3 ltac:(done)) S4. next (seek_end _ _ _ _ _ _ S4) S5.
  next (write_stores _ _ _ _ _ _ (memset 0x11 64) S5 ltac:(done)) S6. rewrite length_memset by done. done.
Qed.

Lemma fill_works n fd buf σ path size pos byte :
  shows σ fd path size pos byte → 0 ≤ pos ≤ size → Z.of_nat (length buf) = BLOCKSZ →
  ∃ σ' size' byte', fill3_loop n fd buf σ = (true, σ') ∧ shows σ' fd path size' (pos + Z.of_nat n * BLOCKSZ) byte' ∧
    pos + Z.of_nat n * BLOCKSZ ≤ size'.
Proof.
  revert σ size pos byte. induction n as [|n IH]; intros σ size pos byte Hs Hp Hb.
  { exists σ, size, byte. replace (pos + Z.of_nat 0 * BLOCKSZ) with pos by lia. split_and!; [done..|lia]. }
  cbn [fill3_loop]. next (write_stores _ _ _ _ _ _ buf Hs ltac:(lia)) S1. rewrite Hb, Z.eqb_refl in *. cbn [negb].
  destruct (IH _ _ _ _ S1) as (σ' & size' & byte' & -> & S' & Hle); [unfold BLOCKSZ; lia|done|].
  exists σ', size', byte'. replace (pos + Z.of_nat (S n) * BLOCKSZ) with (pos + BLOCKSZ + Z.of_nat n * BLOCKSZ) by lia. done.
Qed.

Lemma trunc_failures dir s :
  failures (test_truncate_tail_not_leaked dir s) =
  failures s + looked (stale (file_in dir "/trunc_tail.bin")) shortSz gap.
Proof.
  unfold test_truncate_tail_not_leaked. set (path := file_in _ _).
  pose proof (open_empty path (sfs_unlink path (sys s))) as Eo. destruct (sfs_open path _) as [fd σ2]. destruct Eo as [Hfd S2].
  replace (fd <? 0) with false by lia.
  destruct (fill_works 3 fd (memset 0xaa BLOCKSZ) σ2 path _ _ _ S2) as (σ3 & size & byte & -> & S3 & Hle); [done|by apply length_memset|].
  cbn [negb]. next (truncate_cuts _ _ _ _ _ _ shortSz S3 ltac:(done)) S4. unfold seek_then.
  next (seek_set _ _ _ _ _ _ reExtend S4 ltac:(done)) S5. rewrite Z.eqb_refl. cbn [negb].
  next (write_stores _ _ _ _ _ _ (str "END") S5 ltac:(done)) S6. change (Z.of_nat (length (str "END")) =? 3) with true. cbn [negb].
  next (seek_set _ _ _ _ _ _ shortSz S6 ltac:(done)) S7. rewrite Z.eqb_refl. cbn [negb].
  pose proof (read_reads _ _ _ _ _ _ gap S7 ltac:(done) ltac:(done) ltac:(done)) as E.
  destruct (sfs_read fd _ _) as [[r bs] σ8]. destruct E as (-> & -> & S8). rewrite Z.eqb_refl. cbn [negb failures set_sys check].
  rewrite (zeros_read (stale path)); [|done|].
  2: { intros i Hi. assert (shortSz = 5461 ∧ gap = 4096 ∧ reExtend = 12288) as (Es & Eg & Er) by done.
       rewrite Es, Eg in Hi. rewrite Es, Er. rewrite !bool_decide_false; [done|lia..]. }
  unfold looked. destruct (clean _ _ _); cbn; lia.
Qed.

(** The bytes the program looks at. *)
Definition looks_clean (dir : list Z) : bool :=
  clean (stale (file_in dir "/sparse_hole.bin")) BLOCKSZ BLOCKSZ &&
  clean (stale (file_in dir "/sparse_tail.bin")) 17 taillen &&
  clean (stale (file_in dir "/trunc_tail.bin")) shortSz gap.

Lemma sparse_exit prog dir σ : sparse_main [prog; dir] σ = if looks_clean dir then 0 else 1.
Proof.
  unfold sparse_main, sparse_tests. rewrite trunc_failures, holes_failures, tail_failures, hole_failures. unfold looked, looks_clean.
  generalize (clean (stale (file_in dir "/sparse_hole.bin")) BLOCKSZ BLOCKSZ) (clean (stale (file_in dir "/sparse_tail.bin")) 17 taillen)
    (clean (stale (file_in dir "/trunc_tail.bin")) shortSz gap). by intros [] [] [].
Qed.

(** C14: The program passes exactly when the bytes it looks at read as zero, on a
    file system whose bytes that nobody wrote, or that were cut off, are
    [stale]: a block of the hole, the tail of the extended block and 4096
    bytes behind the truncation. So a POSIX file system, where all of them are
    zero, passes, and one that shows old contents there does not. *)
Theorem sparse_main_decides prog dir σ :
  sparse_main [prog; dir] σ = (if looks_clean dir then 0 else 1) ∧
  (looks_clean dir = true ↔
    (∀ i, 4096 ≤ i < 8192 → stale (file_in dir "/sparse_hole.bin") i = 0) ∧
    (∀ i, 17 ≤ i < 4096 → stale (file_in dir "/sparse_tail.bin") i = 0) ∧
    (∀ i, 5461 ≤ i < 9557 → stale (file_in dir "/trunc_tail.bin") i = 0)).
Proof.
  split; [apply sparse_exit|]. unfold looks_clean. rewrite !andb_true_iff, !clean_spec.
  change (BLOCKSZ + BLOCKSZ) with 8192. change BLOCKSZ with 4096. change (17 + taillen) with 4096.
  change (shortSz + gap) with 9557. change shortSz with 5461. tauto.
Qed.
End decided.

(** ** One file in memory *)

Record open_file := mkFile { f_path : list Z; f_size : Z; f_pos : Z; f_byte : Z → Z }.

Definition file_write (bs : list Z) (f : open_file) : open_file :=
  let n := Z.of_nat (length bs) in
  mkFile (f_path f) (Z.max (f_size f) (f_pos f + n)) (f_pos f + n)
    (λ i, if bool_decide (f_pos f ≤ i < f_pos f + n) then nth (Z.to_nat (i - f_pos f)) bs 0 else f_byte f i).
Definition file_truncate (dirt : list Z → Z → Z) (n : Z) (f : open_file) : open_file :=
  mkFile (f_path f) n (f_pos f) (λ i, if bool_decide (i < Z.min n (f_size f)) then f_byte f i else dirt (f_path f) i).
Definition file_at (pos : Z) (f : open_file) : open_file := mkFile (f_path f) (f_size f) pos (f_byte f).

(** [dirt] is what is found where nobody wrote. *)
Definition DirtyFiles (dirt : list Z → Z → Z) : SparseFiles := {|
  sfs := open_file;
  sfs_malloc n σ := (true, σ);
  sfs_unlink path σ := σ;
  sfs_open path σ := (3, mkFile path 0 0 (dirt path));
  sfs_write fd bs σ := (Z.of_nat (length bs), file_write bs σ);
  sfs_read fd n σ := (n, f_byte σ <$> seqZ (f_pos σ) n, file_at (f_pos σ + n) σ);
  sfs_lseek fd off whence σ := let pos := match whence with SEEK_SET => off | SEEK_END => f_size σ + off end in (pos, file_at pos σ);
  sfs_ftruncate fd n σ := (0, file_truncate dirt n σ);
  sfs_close fd σ := σ;
|}.

#[export] Instance DirtyFiles_leaky dirt : @LeakyFiles (DirtyFiles dirt).
Proof.
  refine (@Build_LeakyFiles (DirtyFiles dirt) (λ σ fd path size pos byte, σ = mkFile path size pos byte) dirt _ _ _ _ _ _ _); cbn.
  - done.
  - done.
  - by intros ? ? ? ? ? ? ? ->.
  - by intros ? ? ? ? ? ? ? ->.
  - by intros ? ? ? ? ? ? ? ->.
  - intros ? ? ? ? ? ? ->. cbn. by rewrite Z.add_0_r.
  - by intros ? ? ? ? ? ? ? ->.
Defined.

(** Dirt in the first block of the hole, which is not looked at. *)
Lemma sparse_main_decides_witness :
  @sparse_main (DirtyFiles (λ _ i, if i =? 1 then 0xeb else 0)) [[]; str "."] (mkFile [] 0 0 (λ _, 0)) = 0.
Proof.
  rewrite (proj1 (@sparse_main_decides (DirtyFiles (λ _ i, if i =? 1 then 0xeb else 0)) _ [] (str ".") (mkFile [] 0 0 (λ _, 0)))).
  vm_compute. reflexivity.
Defined.
